(** * The cell tree and task generator of [space.c]

    A shallow embedding of the space module of the SPH engine: the adaptive
    cell tree ([space_split], [space_rebuild_recurse], [space_rebuild]), the
    particle sort ([parts_sort]) and the task generator ([space_addtask],
    [space_splittasks], [space_maketasks]), followed by the properties
    established about them.

    Conventions of the embedding.
    - C [int]s are [Z]; array indices and loop counters that never leave the
      natural numbers are [nat].
    - [float] and [double] quantities (positions, smoothing lengths, cell
      sides) are rationals, [Q]; rounding is not represented.
    - A pointer to a task is its index in the task arena; a pointer to a cell
      is the path that leads to it, i.e. the index of its top-level cell
      followed by the [progeny] indices; [NULL] is [None].
    - Code that can abort or leave the defined behaviour of C returns an
      [outcome]. *)

From Stdlib Require Import ZArith QArith Qminmax Qround Lia String.
From stdpp Require Import base option list.

Local Open Scope Z_scope.

(** ** Outcomes *)

Inductive outcome (A : Type) : Type :=
| Ok (a : A)            (* normal return *)
| Abort (diag : string) (* [error(s)]: a diagnostic on stderr, then [abort()] *)
| Fault                 (* undefined behaviour: an access outside an array or through NULL *)
| Timeout.              (* the embedding ran out of fuel *)
Arguments Ok {A} a.
Arguments Abort {A} diag.
Arguments Fault {A}.
Arguments Timeout {A}.

#[global] Instance outcome_ret : MRet outcome := fun A a => Ok a.
#[global] Instance outcome_bind : MBind outcome := fun A B f m =>
  match m with
  | Ok a => f a
  | Abort d => Abort d
  | Fault => Fault
  | Timeout => Timeout
  end.

(** A [NULL] or dangling pointer dereference is a fault. *)
Definition deref {A : Type} (o : option A) : outcome A :=
  match o with Some a => Ok a | None => Fault end.

(** [for ( x in l ) st = body( st , x )], stopping at the first abnormal outcome. *)
Fixpoint for_each {A S : Type} (l : list A) (body : S -> A -> outcome S) (st : S)
  : outcome S :=
  match l with
  | [] => Ok st
  | x :: l' => st' ← body st x; for_each l' body st'
  end.

(** ** Numbers *)

Definition Qltb (x y : Q) : bool :=
  match (x ?= y)%Q with Lt => true | _ => false end.
Definition Qleb (x y : Q) : bool :=
  match (x ?= y)%Q with Gt => false | _ => true end.
Definition b2z (b : bool) : Z := if b then 1 else 0.

(** Three-component vectors: [x[3]], [loc[3]], [h[3]], [dim[3]], [cdim[3]]. *)
Definition vec3 (A : Type) : Type := (A * A * A)%type.
Definition vget {A : Type} (v : vec3 A) (k : nat) : A :=
  match v, k with
  | (a, _, _), O => a
  | (_, b, _), S O => b
  | (_, _, c), _ => c
  end.

(** ** Data model *)

Abbreviation tptr := nat (only parsing).          (* struct task * *)
Abbreviation cptr := (list nat) (only parsing).   (* struct cell * *)

Inductive task_type : Type :=
| task_type_none | task_type_sort | task_type_self
| task_type_pair | task_type_sub | task_type_ghost.

Inductive task_subtype : Type :=
| task_subtype_none | task_subtype_density | task_subtype_force.

#[global] Instance task_type_eq_dec : EqDecision task_type.
Proof. solve_decision. Defined.
#[global] Instance task_subtype_eq_dec : EqDecision task_subtype.
Proof. solve_decision. Defined.

Record part : Type := mk_part {
  p_x : vec3 Q;          (* double x[3] *)
  p_h : Q;               (* float h *)
  p_dt : Q;              (* float dt *)
  p_id : Z               (* the remaining, opaque, physics fields *)
}.

Record cpart : Type := mk_cpart {
  cp_x : vec3 Q;
  cp_h : Q;
  cp_dt : Q
}.

Record task : Type := mk_task {
  t_type : task_type;
  t_subtype : task_subtype;
  t_flags : Z;
  t_wait : Z;
  t_ci : cptr;
  t_cj : option cptr;
  t_unlock_tasks : list tptr;   (* unlock_tasks[0 .. nr_unlock_tasks) *)
  t_unlock_cells : list cptr    (* unlock_cells[0 .. nr_unlock_cells) *)
}.

(** The fields of [struct cell] other than [progeny]. [parent] is not a
    field: the parent of the cell at path [p ++ [k]] is the cell at [p]. *)
Record cell_data : Type := mk_cell_data {
  c_loc : vec3 Q;
  c_h : vec3 Q;
  c_depth : Z;
  c_split : bool;
  c_count : Z;
  c_h_max : Q;
  c_parts : nat;                  (* parts and cparts: offset in the arrays of the space *)
  c_sorts : list (option tptr);   (* sorts[14] *)
  c_nr_pairs : Z;
  c_nr_tasks : Z;
  c_density : list tptr;          (* density[0 .. nr_density) *)
  c_super : option cptr;
  c_ghost : option tptr;
  c_wait : Z
}.

Inductive cell : Type :=
  Cell { cdata : cell_data; progeny : list (option cell) }.

Record space : Type := mk_space {
  s_dim : vec3 Q;
  s_periodic : bool;
  s_cdim : vec3 Z;
  s_h : vec3 Q;
  s_ih : vec3 Q;
  s_h_min : Q;
  s_h_max : Q;
  s_maxdepth : Z;
  s_nr_parts : Z;
  s_parts : list part;
  s_cparts : list cpart;
  s_cells : option (list cell);   (* cells[0 .. nr_cells), or NULL *)
  s_tot_cells : Z;
  s_cells_new : nat;              (* length of the free list cells_new *)
  s_tasks : list task;            (* tasks[0 .. nr_tasks) *)
  s_tasks_size : option Z;        (* None while tasks == NULL *)
  s_tasks_ind : list Z
}.

(** ** Field assignments

    [set_f v r] is the record [r] after the assignment [r.f = v]. *)

Definition set_t_type v (t : task) : task :=
  mk_task v (t_subtype t) (t_flags t) (t_wait t) (t_ci t) (t_cj t) (t_unlock_tasks t)
    (t_unlock_cells t).
Definition set_t_flags v (t : task) : task :=
  mk_task (t_type t) (t_subtype t) v (t_wait t) (t_ci t) (t_cj t) (t_unlock_tasks t)
    (t_unlock_cells t).
Definition set_t_wait v (t : task) : task :=
  mk_task (t_type t) (t_subtype t) (t_flags t) v (t_ci t) (t_cj t) (t_unlock_tasks t)
    (t_unlock_cells t).
Definition set_t_ci v (t : task) : task :=
  mk_task (t_type t) (t_subtype t) (t_flags t) (t_wait t) v (t_cj t)
    (t_unlock_tasks t) (t_unlock_cells t).
Definition set_t_cj v (t : task) : task :=
  mk_task (t_type t) (t_subtype t) (t_flags t) (t_wait t) (t_ci t) v
    (t_unlock_tasks t) (t_unlock_cells t).
Definition set_t_unlock_tasks v (t : task) : task :=
  mk_task (t_type t) (t_subtype t) (t_flags t) (t_wait t) (t_ci t) (t_cj t) v
    (t_unlock_cells t).
Definition set_t_unlock_cells v (t : task) : task :=
  mk_task (t_type t) (t_subtype t) (t_flags t) (t_wait t) (t_ci t) (t_cj t)
    (t_unlock_tasks t) v.

Definition set_c_loc v (c : cell_data) : cell_data :=
  mk_cell_data v (c_h c) (c_depth c) (c_split c) (c_count c) (c_h_max c) (c_parts c)
    (c_sorts c) (c_nr_pairs c) (c_nr_tasks c) (c_density c) (c_super c) (c_ghost c)
    (c_wait c).
Definition set_c_h v (c : cell_data) : cell_data :=
  mk_cell_data (c_loc c) v (c_depth c) (c_split c) (c_count c) (c_h_max c) (c_parts c)
    (c_sorts c) (c_nr_pairs c) (c_nr_tasks c) (c_density c) (c_super c) (c_ghost c)
    (c_wait c).
Definition set_c_depth v (c : cell_data) : cell_data :=
  mk_cell_data (c_loc c) (c_h c) v (c_split c) (c_count c) (c_h_max c) (c_parts c)
    (c_sorts c) (c_nr_pairs c) (c_nr_tasks c) (c_density c) (c_super c) (c_ghost c)
    (c_wait c).
Definition set_c_split v (c : cell_data) : cell_data :=
  mk_cell_data (c_loc c) (c_h c) (c_depth c) v (c_count c) (c_h_max c) (c_parts c)
    (c_sorts c) (c_nr_pairs c) (c_nr_tasks c) (c_density c) (c_super c) (c_ghost c)
    (c_wait c).
Definition set_c_count v (c : cell_data) : cell_data :=
  mk_cell_data (c_loc c) (c_h c) (c_depth c) (c_split c) v (c_h_max c) (c_parts c)
    (c_sorts c) (c_nr_pairs c) (c_nr_tasks c) (c_density c) (c_super c) (c_ghost c)
    (c_wait c).
Definition set_c_h_max v (c : cell_data) : cell_data :=
  mk_cell_data (c_loc c) (c_h c) (c_depth c) (c_split c) (c_count c) v (c_parts c)
    (c_sorts c) (c_nr_pairs c) (c_nr_tasks c) (c_density c) (c_super c) (c_ghost c)
    (c_wait c).
Definition set_c_parts v (c : cell_data) : cell_data :=
  mk_cell_data (c_loc c) (c_h c) (c_depth c) (c_split c) (c_count c) (c_h_max c) v
    (c_sorts c) (c_nr_pairs c) (c_nr_tasks c) (c_density c) (c_super c) (c_ghost c)
    (c_wait c).
Definition set_c_sorts v (c : cell_data) : cell_data :=
  mk_cell_data (c_loc c) (c_h c) (c_depth c) (c_split c) (c_count c) (c_h_max c)
    (c_parts c) v (c_nr_pairs c) (c_nr_tasks c) (c_density c) (c_super c) (c_ghost c)
    (c_wait c).
Definition set_c_nr_pairs v (c : cell_data) : cell_data :=
  mk_cell_data (c_loc c) (c_h c) (c_depth c) (c_split c) (c_count c) (c_h_max c)
    (c_parts c) (c_sorts c) v (c_nr_tasks c) (c_density c) (c_super c) (c_ghost c)
    (c_wait c).
Definition set_c_nr_tasks v (c : cell_data) : cell_data :=
  mk_cell_data (c_loc c) (c_h c) (c_depth c) (c_split c) (c_count c) (c_h_max c)
    (c_parts c) (c_sorts c) (c_nr_pairs c) v (c_density c) (c_super c) (c_ghost c)
    (c_wait c).
Definition set_c_density v (c : cell_data) : cell_data :=
  mk_cell_data (c_loc c) (c_h c) (c_depth c) (c_split c) (c_count c) (c_h_max c)
    (c_parts c) (c_sorts c) (c_nr_pairs c) (c_nr_tasks c) v (c_super c) (c_ghost c)
    (c_wait c).
Definition set_c_super v (c : cell_data) : cell_data :=
  mk_cell_data (c_loc c) (c_h c) (c_depth c) (c_split c) (c_count c) (c_h_max c)
    (c_parts c) (c_sorts c) (c_nr_pairs c) (c_nr_tasks c) (c_density c) v (c_ghost c)
    (c_wait c).
Definition set_c_ghost v (c : cell_data) : cell_data :=
  mk_cell_data (c_loc c) (c_h c) (c_depth c) (c_split c) (c_count c) (c_h_max c)
    (c_parts c) (c_sorts c) (c_nr_pairs c) (c_nr_tasks c) (c_density c) (c_super c) v
    (c_wait c).
Definition set_c_wait v (c : cell_data) : cell_data :=
  mk_cell_data (c_loc c) (c_h c) (c_depth c) (c_split c) (c_count c) (c_h_max c)
    (c_parts c) (c_sorts c) (c_nr_pairs c) (c_nr_tasks c) (c_density c) (c_super c)
    (c_ghost c) v.

Definition set_s_dim v (s : space) : space :=
  mk_space v (s_periodic s) (s_cdim s) (s_h s) (s_ih s) (s_h_min s) (s_h_max s)
    (s_maxdepth s) (s_nr_parts s) (s_parts s) (s_cparts s) (s_cells s) (s_tot_cells s)
    (s_cells_new s) (s_tasks s) (s_tasks_size s) (s_tasks_ind s).
Definition set_s_periodic v (s : space) : space :=
  mk_space (s_dim s) v (s_cdim s) (s_h s) (s_ih s) (s_h_min s) (s_h_max s)
    (s_maxdepth s) (s_nr_parts s) (s_parts s) (s_cparts s) (s_cells s) (s_tot_cells s)
    (s_cells_new s) (s_tasks s) (s_tasks_size s) (s_tasks_ind s).
Definition set_s_cdim v (s : space) : space :=
  mk_space (s_dim s) (s_periodic s) v (s_h s) (s_ih s) (s_h_min s) (s_h_max s)
    (s_maxdepth s) (s_nr_parts s) (s_parts s) (s_cparts s) (s_cells s) (s_tot_cells s)
    (s_cells_new s) (s_tasks s) (s_tasks_size s) (s_tasks_ind s).
Definition set_s_h v (s : space) : space :=
  mk_space (s_dim s) (s_periodic s) (s_cdim s) v (s_ih s) (s_h_min s) (s_h_max s)
    (s_maxdepth s) (s_nr_parts s) (s_parts s) (s_cparts s) (s_cells s) (s_tot_cells s)
    (s_cells_new s) (s_tasks s) (s_tasks_size s) (s_tasks_ind s).
Definition set_s_ih v (s : space) : space :=
  mk_space (s_dim s) (s_periodic s) (s_cdim s) (s_h s) v (s_h_min s) (s_h_max s)
    (s_maxdepth s) (s_nr_parts s) (s_parts s) (s_cparts s) (s_cells s) (s_tot_cells s)
    (s_cells_new s) (s_tasks s) (s_tasks_size s) (s_tasks_ind s).
Definition set_s_h_min v (s : space) : space :=
  mk_space (s_dim s) (s_periodic s) (s_cdim s) (s_h s) (s_ih s) v (s_h_max s)
    (s_maxdepth s) (s_nr_parts s) (s_parts s) (s_cparts s) (s_cells s) (s_tot_cells s)
    (s_cells_new s) (s_tasks s) (s_tasks_size s) (s_tasks_ind s).
Definition set_s_h_max v (s : space) : space :=
  mk_space (s_dim s) (s_periodic s) (s_cdim s) (s_h s) (s_ih s) (s_h_min s) v
    (s_maxdepth s) (s_nr_parts s) (s_parts s) (s_cparts s) (s_cells s) (s_tot_cells s)
    (s_cells_new s) (s_tasks s) (s_tasks_size s) (s_tasks_ind s).
Definition set_s_maxdepth v (s : space) : space :=
  mk_space (s_dim s) (s_periodic s) (s_cdim s) (s_h s) (s_ih s) (s_h_min s)
    (s_h_max s) v (s_nr_parts s) (s_parts s) (s_cparts s) (s_cells s) (s_tot_cells s)
    (s_cells_new s) (s_tasks s) (s_tasks_size s) (s_tasks_ind s).
Definition set_s_nr_parts v (s : space) : space :=
  mk_space (s_dim s) (s_periodic s) (s_cdim s) (s_h s) (s_ih s) (s_h_min s)
    (s_h_max s) (s_maxdepth s) v (s_parts s) (s_cparts s) (s_cells s) (s_tot_cells s)
    (s_cells_new s) (s_tasks s) (s_tasks_size s) (s_tasks_ind s).
Definition set_s_parts v (s : space) : space :=
  mk_space (s_dim s) (s_periodic s) (s_cdim s) (s_h s) (s_ih s) (s_h_min s)
    (s_h_max s) (s_maxdepth s) (s_nr_parts s) v (s_cparts s) (s_cells s)
    (s_tot_cells s) (s_cells_new s) (s_tasks s) (s_tasks_size s) (s_tasks_ind s).
Definition set_s_cparts v (s : space) : space :=
  mk_space (s_dim s) (s_periodic s) (s_cdim s) (s_h s) (s_ih s) (s_h_min s)
    (s_h_max s) (s_maxdepth s) (s_nr_parts s) (s_parts s) v (s_cells s)
    (s_tot_cells s) (s_cells_new s) (s_tasks s) (s_tasks_size s) (s_tasks_ind s).
Definition set_s_cells v (s : space) : space :=
  mk_space (s_dim s) (s_periodic s) (s_cdim s) (s_h s) (s_ih s) (s_h_min s)
    (s_h_max s) (s_maxdepth s) (s_nr_parts s) (s_parts s) (s_cparts s) v
    (s_tot_cells s) (s_cells_new s) (s_tasks s) (s_tasks_size s) (s_tasks_ind s).
Definition set_s_tot_cells v (s : space) : space :=
  mk_space (s_dim s) (s_periodic s) (s_cdim s) (s_h s) (s_ih s) (s_h_min s)
    (s_h_max s) (s_maxdepth s) (s_nr_parts s) (s_parts s) (s_cparts s) (s_cells s) v
    (s_cells_new s) (s_tasks s) (s_tasks_size s) (s_tasks_ind s).
Definition set_s_cells_new v (s : space) : space :=
  mk_space (s_dim s) (s_periodic s) (s_cdim s) (s_h s) (s_ih s) (s_h_min s)
    (s_h_max s) (s_maxdepth s) (s_nr_parts s) (s_parts s) (s_cparts s) (s_cells s)
    (s_tot_cells s) v (s_tasks s) (s_tasks_size s) (s_tasks_ind s).
Definition set_s_tasks v (s : space) : space :=
  mk_space (s_dim s) (s_periodic s) (s_cdim s) (s_h s) (s_ih s) (s_h_min s)
    (s_h_max s) (s_maxdepth s) (s_nr_parts s) (s_parts s) (s_cparts s) (s_cells s)
    (s_tot_cells s) (s_cells_new s) v (s_tasks_size s) (s_tasks_ind s).
Definition set_s_tasks_size v (s : space) : space :=
  mk_space (s_dim s) (s_periodic s) (s_cdim s) (s_h s) (s_ih s) (s_h_min s)
    (s_h_max s) (s_maxdepth s) (s_nr_parts s) (s_parts s) (s_cparts s) (s_cells s)
    (s_tot_cells s) (s_cells_new s) (s_tasks s) v (s_tasks_ind s).
Definition set_s_tasks_ind v (s : space) : space :=
  mk_space (s_dim s) (s_periodic s) (s_cdim s) (s_h s) (s_ih s) (s_h_min s)
    (s_h_max s) (s_maxdepth s) (s_nr_parts s) (s_parts s) (s_cparts s) (s_cells s)
    (s_tot_cells s) (s_cells_new s) (s_tasks s) (s_tasks_size s) v.


(** ** Cells by pointer *)

(** [c->progeny[k]] *)
Definition progeny_at (c : cell) (k : nat) : option cell := mjoin (progeny c !! k).

Fixpoint descend (c : cell) (p : list nat) : option cell :=
  match p with
  | [] => Some c
  | k :: p' => c' ← progeny_at c k; descend c' p'
  end.

(** The cell a pointer designates. *)
Definition get_cell (cells : list cell) (p : cptr) : option cell :=
  match p with
  | [] => None
  | i :: p' => c ← cells !! i; descend c p'
  end.

Fixpoint alter_descend (f : cell_data -> cell_data) (p : list nat) (c : cell) : cell :=
  match p with
  | [] => Cell (f (cdata c)) (progeny c)
  | k :: p' => Cell (cdata c) (alter (fmap (alter_descend f p')) k (progeny c))
  end.

(** An assignment to fields of the cell a pointer designates. *)
Definition alter_cell (f : cell_data -> cell_data) (p : cptr) (cells : list cell)
  : list cell :=
  match p with
  | [] => cells
  | i :: p' => alter (alter_descend f p') i cells
  end.

(** A cell after [bzero]. *)
Definition cell_zero_data : cell_data :=
  mk_cell_data (0, 0, 0)%Q (0, 0, 0)%Q 0 false 0 0%Q 0%nat (replicate 14 None)
    0 0 [] None None 0.
Definition cell_zero : cell := Cell cell_zero_data (replicate 8 None).

Definition the_cells (s : space) : list cell := default [] (s_cells s).
Definition nr_cells (s : space) : Z := Z.of_nat (length (the_cells s)).
Definition nr_tasks (s : space) : nat := length (s_tasks s).

(** ** What the sources do not contain

    [space.h], [cell.c] and [task.c] are not part of the sources at hand.
    Their constants are parameters of the development; the functions the
    space module calls are modelled from the specification. *)

(** The compile-time constants [space_splitratio], [space_stretch] and
    [space_cellallocchunk] of [space.h], and the values of the global
    variables [space_splitsize] and [space_subsize]. *)
Record config : Type := mk_config {
  space_splitratio : Q;
  space_stretch : Q;
  space_splitsize : Z;
  space_subsize : Z;
  space_cellallocchunk : nat
}.

(** Modelled from the spec: [task_addunlock( ta , tb )] of [task.c], which is
    not among the sources. It records [tb] among the successors
    ([unlock_tasks]) of [ta] and counts one more unmet predecessor in
    [tb->wait]; adding an edge that is already there changes nothing
    (the spec: dependency addition deduplicates aliases and is idempotent
    for a given pair), and so does a [NULL] argument (the unused slot of
    [sorts] is passed as such). *)
Definition task_addunlock (ta tb : option tptr) (ts : list task) : list task :=
  match ta, tb with
  | Some a, Some b =>
      match ts !! a with
      | Some t =>
          if bool_decide (b ∈ t_unlock_tasks t) then ts
          else alter (fun u => set_t_wait (t_wait u + 1) u) b
                 (<[a := set_t_unlock_tasks (t_unlock_tasks t ++ [b]) t]> ts)
      | None => ts
      end
  | _, _ => ts
  end.

(** Modelled from the spec: [task_rmunlock( ta , tb )] and
    [task_rmunlock_blind( ta , tb )] of [task.c], which are not among the
    sources: the edge from [ta] to [tb] is detached, if there is one. *)
Definition task_rmunlock (ta tb : option tptr) (ts : list task) : list task :=
  match ta, tb with
  | Some a, Some b =>
      match ts !! a with
      | Some t =>
          if bool_decide (b ∈ t_unlock_tasks t) then
            alter (fun u => set_t_wait (t_wait u - 1) u) b
              (<[a := set_t_unlock_tasks
                        (filter (fun x => x ≠ b) (t_unlock_tasks t)) t]> ts)
          else ts
      | None => ts
      end
  | _, _ => ts
  end.
Definition task_rmunlock_blind := task_rmunlock.

(** Modelled from the spec: the macro [cell_getid( cdim , i , j , k )] of
    [cell.h], which is not among the sources; the spec gives the bin of a
    particle as [((x/h)_x * cdim_y + (x/h)_y) * cdim_z + (x/h)_z]. *)
Definition cell_getid (cdim : vec3 Z) (i j k : Z) : Z :=
  k + vget cdim 2 * (j + vget cdim 1 * i).

(** Conversion of a [double] to [int]: truncation towards zero. *)
Definition Qtrunc (q : Q) : Z := if Qltb q 0 then Qceiling q else Qfloor q.

(** The interface of [cell_split( c )] of [cell.c], which is not among the
    sources. It partitions the particles of [c], i.e. the ranges
    [parts[c->parts .. c->parts + c->count)] of both particle arrays, in
    place, and stores in each of the eight progeny its [count] and the start
    of its range: the result holds the two arrays and, for each [k], the
    [count] and [parts] of [progeny[k]]. *)
Definition cell_split_fn : Type :=
  cell_data -> list part -> list cpart -> list part * list cpart * (nat -> Z * nat).

(** ** The cell tree *)

(** [space_recycle( s , c )]: the cell is cleared and hooked into the free
    list. Destroying the lock is taken to succeed. *)
Definition space_recycle (s : space) (c : cell) : space :=
  set_s_tot_cells (s_tot_cells s - 1) (set_s_cells_new (S (s_cells_new s)) s).

(** The loop of [space_rebuild_recycle] over the progeny,
    [[
    for ( k = 0 ; k < 8 ; k++ )
        if ( c->progeny[k] != NULL ) {
            space_rebuild_recycle( s , c->progeny[k] );
            space_recycle( s , c->progeny[k] );
            c->progeny[k] = NULL;
            }
    ]]
    where [dismantle] stands for the recursive call. *)
Section RecycleProgeny.
Variable dismantle : space -> cell -> space * cell.

Fixpoint recycle_progeny (s : space) (pr : list (option cell))
  : space * list (option cell) :=
  match pr with
  | [] => (s, [])
  | None :: pr' =>
      let '(s, pr') := recycle_progeny s pr' in (s, None :: pr')
  | Some ck :: pr' =>
      let '(s, ck) := dismantle s ck in
      let s := space_recycle s ck in
      let '(s, pr') := recycle_progeny s pr' in (s, None :: pr')
  end.
End RecycleProgeny.

(** [space_rebuild_recycle( s , c )]: recursively dismantle a cell tree. *)
Fixpoint space_rebuild_recycle (s : space) (c : cell) {struct c} : space * cell :=
  match c with
  | Cell d pr =>
      if c_split d then
        let '(s, pr) := recycle_progeny space_rebuild_recycle s pr in (s, Cell d pr)
      else (s, c)
  end.

Section Space.

Variable cfg : config.
Variable cell_split : cell_split_fn.

(** [space_getcell( s )]: a new empty cell, from the free list, which is
    refilled by [space_cellallocchunk] cells when empty. The allocation and
    the initialisation of the lock are taken to succeed. *)
Definition space_getcell (s : space) : outcome (space * cell) :=
  free ← match s_cells_new s with
         | O => match space_cellallocchunk cfg with
                | O => Fault     (* cells_new[ -1 ].next = NULL *)
                | S n => Ok n
                end
         | S n => Ok n
         end;
  Ok (set_s_tot_cells (s_tot_cells s + 1) (set_s_cells_new free s), cell_zero).

(** The loop shared by [space_split] and [space_rebuild_recurse]:
    [[
    for ( count = 0 , k = 0 ; k < c->count ; k++ ) {
        h = c->cparts[k].h;
        if ( h <= h_limit ) count += 1;
        if ( h > h_max ) h_max = h;
        }
    ]]
    with [h_max] initially [0.0]. The comparisons are between the exact
    values, where the code holds [h], [h_limit] and [h_max] in [float]. *)
Definition count_below (s : space) (d : cell_data) (h_limit : Q) : outcome (Z * Q) :=
  for_each (seq 0 (Z.to_nat (c_count d)))
    (fun '(count, h_max) k =>
       cp ← deref (s_cparts s !! (c_parts d + k)%nat);
       let h := cp_h cp in
       Ok (if Qleb h h_limit then count + 1 else count,
           if Qltb h_max h then h else h_max))
    (0, 0%Q).

(** [fmin( c->h[0] , fmin( c->h[1] , c->h[2] ) ) / 2] *)
Definition h_limit_of (d : cell_data) : Q :=
  (Qmin (vget (c_h d) 0) (Qmin (vget (c_h d) 1) (vget (c_h d) 2)) / 2)%Q.

(** The initialisation of the [k]-th progeny [temp] of the cell [d], in both
    [space_split] and [space_rebuild_recurse]. *)
Definition init_progeny (d : cell_data) (k : nat) (temp : cell) : cell :=
  let h := (vget (c_h d) 0 / 2, vget (c_h d) 1 / 2, vget (c_h d) 2 / 2)%Q in
  let loc :=
    ((if Nat.testbit k 2 then vget (c_loc d) 0 + vget h 0 else vget (c_loc d) 0),
     (if Nat.testbit k 1 then vget (c_loc d) 1 + vget h 1 else vget (c_loc d) 1),
     (if Nat.testbit k 0 then vget (c_loc d) 2 + vget h 2 else vget (c_loc d) 2))%Q in
  Cell (set_c_h_max 0%Q (set_c_split false (set_c_depth (c_depth d + 1)
         (set_c_h h (set_c_loc loc (set_c_count 0 (cdata temp)))))))
       (progeny temp).

(** The call [cell_split( c )]. All eight progeny are dereferenced. *)
Definition call_cell_split (s : space) (c : cell) : outcome (space * cell) :=
  let '(parts, cparts, layout) := cell_split (cdata c) (s_parts s) (s_cparts s) in
  pr ← for_each (seq 0 8)
         (fun pr k =>
            ck ← deref (progeny_at c k);
            let d := set_c_parts (layout k).2 (set_c_count (layout k).1 (cdata ck)) in
            Ok (pr ++ [Some (Cell d (progeny ck))]))
         [];
  Ok (set_s_cparts cparts (set_s_parts parts s), Cell (cdata c) pr).

(** [if ( c->depth > s->maxdepth ) s->maxdepth = c->depth;] *)
Definition check_depth (s : space) (d : cell_data) : space :=
  if s_maxdepth s <? c_depth d then set_s_maxdepth (c_depth d) s else s.

(** [space_split( s , c )]: split cells that contain too many particles.
    The recursion is bounded by [fuel]. *)
Fixpoint space_split (fuel : nat) (s : space) (c : cell) : outcome (space * cell) :=
  match fuel with
  | O => Timeout
  | S fuel =>
      let d := cdata c in
      let s := check_depth s d in
      '(count, h_max) ← count_below s d (h_limit_of d);
      let d := set_c_h_max h_max d in
      if Qltb (inject_Z (c_count d) * space_splitratio cfg) (inject_Z count)
         && (space_splitsize cfg <? c_count d) then
        let d := set_c_split true d in
        (* Create the cell's progeny. *)
        '(s, pr) ← for_each (seq 0 8)
                     (fun '(s, pr) k =>
                        '(s, temp) ← space_getcell s;
                        Ok (s, pr ++ [Some (init_progeny d k temp)]))
                     (s, []);
        (* Split the cell data. *)
        '(s, c) ← call_cell_split s (Cell d pr);
        (* Recurse? *)
        '(s, pr) ← for_each (seq 0 8)
                     (fun '(s, pr) k =>
                        ck ← deref (mjoin (pr !! k));
                        '(s, ck) ← space_split fuel s ck;
                        Ok (s, <[k := Some ck]> pr))
                     (s, progeny c);
        (* Remove any progeny with zero parts. *)
        '(s, pr) ← for_each (seq 0 8)
                     (fun '(s, pr) k =>
                        ck ← deref (mjoin (pr !! k));
                        if c_count (cdata ck) =? 0
                        then Ok (space_recycle s ck, <[k := None]> pr)
                        else Ok (s, pr))
                     (s, pr);
        Ok (s, Cell (cdata c) pr)
      else
        (* Otherwise, set the progeny to null. *)
        Ok (s, Cell (set_c_split false d) (replicate 8 None))
  end.

(** [space_rebuild_recurse( s , c )]: recursively rebuild a cell tree; the
    result carries the returned number of changes. The recursion is bounded
    by [fuel]. *)
Fixpoint space_rebuild_recurse (fuel : nat) (s : space) (c : cell)
  : outcome (space * cell * Z) :=
  match fuel with
  | O => Timeout
  | S fuel =>
      let d := cdata c in
      (* If the cell is already split, check that the split is still ok. *)
      if c_split d then
        let s := check_depth s d in
        '(count, h_max) ← count_below s d (h_limit_of d);
        let d := set_c_h_max h_max d in
        (* Un-split? *)
        if Qltb (inject_Z count) (inject_Z (c_count d) * space_splitratio cfg)
           || (c_count d <? space_splitsize cfg) then
          let '(s, c) := space_rebuild_recycle s (Cell d (progeny c)) in
          Ok (s, Cell (set_c_split false (cdata c)) (progeny c), 0)
        else
          (* Populate all progeny. *)
          '(s, pr, wasmt) ←
            for_each (seq 0 8)
              (fun '(s, pr, wasmt) k =>
                 match mjoin (pr !! k) with
                 | None =>
                     '(s, temp) ← space_getcell s;
                     Ok (s, <[k := Some (init_progeny d k temp)]> pr, wasmt ++ [true])
                 | Some _ => Ok (s, pr, wasmt ++ [false])
                 end)
              (s, progeny c, []);
          (* Make sure each part is in its place. *)
          '(s, c) ← call_cell_split s (Cell d pr);
          (* Remove empty progeny. *)
          '(s, pr, changes) ←
            for_each (seq 0 8)
              (fun '(s, pr, changes) k =>
                 ck ← deref (mjoin (pr !! k));
                 let w := default false (wasmt !! k) in
                 if c_count (cdata ck) =? 0
                 then Ok (space_recycle s ck, <[k := None]> pr, changes + b2z (negb w))
                 else Ok (s, pr, changes + b2z w))
              (s, progeny c, 0);
          (* Recurse. *)
          '(s, pr, changes) ←
            for_each (seq 0 8)
              (fun '(s, pr, changes) k =>
                 match mjoin (pr !! k) with
                 | Some ck =>
                     '(s, ck, n) ← space_rebuild_recurse fuel s ck;
                     Ok (s, <[k := Some ck]> pr, changes + n)
                 | None => Ok (s, pr, changes)
                 end)
              (s, pr, changes);
          Ok (s, Cell (cdata c) pr, changes)
      (* Otherwise, try to split it anyway. *)
      else
        '(s, c) ← space_split fuel s c;
        Ok (s, c, b2z (c_split (cdata c)))
  end.

End Space.

(** ** Sorting the particles *)

(** [a[k]] for an array that starts at offset [base]. *)
Definition rd {A : Type} (a : list A) (base : nat) (k : Z) : outcome A :=
  if k <? 0 then Fault else deref (a !! (base + Z.to_nat k)%nat).

(** [a[k] = v] *)
Definition wr {A : Type} (a : list A) (base : nat) (k : Z) (v : A) : outcome (list A) :=
  if (k <? 0) || (Z.of_nat (length a) <=? Z.of_nat base + k) then Fault
  else Ok (<[(base + Z.to_nat k)%nat := v]> a).

(** The inner loop of the insertion sort,
    [[
    for ( j = i ; j > 0 && ind[j-1] > temp_i ; j-- ) {
        ind[j] = ind[j-1];
        parts[j] = parts[j-1];
        }
    ]]
    by recursion on [j]; the result holds the final [j]. *)
Fixpoint insert_shift (base : nat) (temp_i : Z) (j : nat)
  (parts : list part) (ind : list Z) : outcome (list part * list Z * Z) :=
  match j with
  | O => Ok (parts, ind, 0)
  | S j' =>
      x ← rd ind base (Z.of_nat j');
      if temp_i <? x then
        ind ← wr ind base (Z.of_nat j) x;
        p ← rd parts base (Z.of_nat j');
        parts ← wr parts base (Z.of_nat j) p;
        insert_shift base temp_i j' parts ind
      else Ok (parts, ind, Z.of_nat j)
  end.

(** The insertion sort of [parts_sort], taken when [N < 16]. The variable
    [j] is [N-1] on entry and is carried from one round to the next. *)
Definition insert_sort (base : nat) (N : Z) (parts : list part) (ind : list Z)
  : outcome (list part * list Z) :=
  '(parts, ind, _) ←
    for_each (seq 1 (Z.to_nat N - 1))
      (fun '(parts, ind, j) i =>
         x ← rd ind base (Z.of_nat i);
         y ← rd ind base (Z.of_nat i - 1);
         if x <? y then
           let temp_i := x in
           temp_p ← rd parts base j;
           '(parts, ind, j) ← insert_shift base temp_i i parts ind;
           ind ← wr ind base j temp_i;
           parts ← wr parts base j temp_p;
           Ok (parts, ind, j)
         else Ok (parts, ind, j))
      (parts, ind, N - 1);
  Ok (parts, ind).

(** [while ( i < N && ind[i] <= pivot ) i++;] with [rest] standing for [N - i]. *)
Fixpoint scan_up (ind : list Z) (base : nat) (pivot : Z) (rest : nat) (i : Z)
  : outcome Z :=
  match rest with
  | O => Ok i
  | S rest =>
      x ← rd ind base i;
      if x <=? pivot then scan_up ind base pivot rest (i + 1) else Ok i
  end.

(** [while ( j >= 0 && ind[j] > pivot ) j--;] with [rest] standing for [j + 1]. *)
Fixpoint scan_down (ind : list Z) (base : nat) (pivot : Z) (rest : nat) (j : Z)
  : outcome Z :=
  match rest with
  | O => Ok j
  | S rest =>
      x ← rd ind base j;
      if pivot <? x then scan_down ind base pivot rest (j - 1) else Ok j
  end.

(** One pass of quicksort: [while ( i < j ) { ... }]. Every round but the
    last exchanges two entries, so that [fuel] rounds suffice when [fuel]
    exceeds [N]. *)
Fixpoint partition_pass (fuel : nat) (base : nat) (N pivot : Z) (i j : Z)
  (parts : list part) (ind : list Z) : outcome (list part * list Z * Z * Z) :=
  if negb (i <? j) then Ok (parts, ind, i, j) else
  match fuel with
  | O => Timeout
  | S fuel =>
      i ← scan_up ind base pivot (Z.to_nat (N - i)) i;
      j ← scan_down ind base pivot (Z.to_nat (j + 1)) j;
      if i <? j then
        xi ← rd ind base i; xj ← rd ind base j;
        ind ← wr ind base i xj; ind ← wr ind base j xi;
        pi ← rd parts base i; pj ← rd parts base j;
        parts ← wr parts base i pj; parts ← wr parts base j pi;
        partition_pass fuel base N pivot i j parts ind
      else partition_pass fuel base N pivot i j parts ind
  end.

(** The two loops under [Verify sort.] *)
Definition verify_sort (ind : list Z) (base : nat) (N pivot j : Z) : outcome unit :=
  _ ← for_each (seq 0 (Z.to_nat (j + 1)))
        (fun _ k => x ← rd ind base (Z.of_nat k);
                    if pivot <? x then Abort "Sorting failed (<=pivot)." else Ok tt)
        tt;
  for_each (seq (Z.to_nat (j + 1)) (Z.to_nat (N - (j + 1))))
    (fun _ k => x ← rd ind base (Z.of_nat k);
                if x <=? pivot then Abort "Sorting failed (>pivot)." else Ok tt)
    tt.

(** [parts_sort( parts , ind , N , min , max )], for the arrays that start at
    offset [base] of [parts] and [ind]. The two recursive calls act on
    ranges that do not overlap; the sections that may run in parallel when
    [N >= 100] are taken one after the other. The recursion is bounded by
    [fuel]. *)
Fixpoint parts_sort (fuel : nat) (base : nat) (N min max : Z)
  (parts : list part) (ind : list Z) : outcome (list part * list Z) :=
  match fuel with
  | O => Timeout
  | S fuel =>
      let pivot := (min + max) ÷ 2 in
      (* If N is small enough, just do insert sort. *)
      if N <? 16 then insert_sort base N parts ind
      (* Otherwise, recurse with Quicksort. *)
      else
        '(parts, ind, i, j) ←
          partition_pass (S (Z.to_nat N)) base N pivot 0 (N - 1) parts ind;
        _ ← verify_sort ind base N pivot j;
        (* Recurse on the left? *)
        '(parts, ind) ←
          (if (0 <? j) && (min <? pivot)
           then parts_sort fuel base (j + 1) min pivot parts ind
           else Ok (parts, ind));
        (* Recurse on the right? *)
        if (i <? N) && (pivot + 1 <? max)
        then parts_sort fuel (base + Z.to_nat i) (N - i) (pivot + 1) max parts ind
        else Ok (parts, ind)
  end.

(** ** Tasks *)

(** An operation of [task.c] on the task arena of the space. *)
Definition on_tasks (f : list task -> list task) (s : space) : space :=
  set_s_tasks (f (s_tasks s)) s.

(** [space_addtask( s , type , subtype , flags , wait , ci , cj ,
    unlock_tasks , nr_unlock_tasks , unlock_cells , nr_unlock_cells )]: the
    task is stored in [s->tasks[ s->nr_tasks ]], and [s->nr_tasks] grows by
    one. The arena holds [s->tasks_size] tasks; the store is not guarded. *)
Definition space_addtask (s : space) (type : task_type) (subtype : task_subtype)
  (flags wait : Z) (ci : cptr) (cj : option cptr)
  (unlock_tasks : list tptr) (unlock_cells : list cptr) : outcome (space * tptr) :=
  let t := nr_tasks s in
  match s_tasks_size s with
  | Some size =>
      if Z.of_nat t <? size then
        Ok (set_s_tasks
              (s_tasks s ++ [mk_task type subtype flags wait ci cj unlock_tasks unlock_cells])
              s, t)
      else Fault      (* a store past the end of the arena *)
  | None => Fault     (* a store through NULL *)
  end.

(** The functions that [space_map_cells] maps: [fun( c , data )] may follow
    the [parent] pointers of [c], so that it is given the chain of the
    ancestors of [c], nearest first, each with its pointer and fields. *)
Definition cell_fun : Type :=
  list (cptr * cell_data) -> cptr -> cell_data -> space -> outcome (cell_data * space).

(** A loop over the progeny of a cell,
    [[
    for ( k = 0 ; k < 8 ; k++ )
        if ( c->progeny[k] != NULL )
            body( k , c->progeny[k] );
    ]]
    from the index [k]. *)
Section ForProgeny.
Variable body : nat -> cell -> space -> outcome (cell * space).

Fixpoint for_progeny (k : nat) (pr : list (option cell)) (s : space)
  : outcome (list (option cell) * space) :=
  match pr with
  | [] => Ok ([], s)
  | None :: pr' =>
      '(pr', s) ← for_progeny (S k) pr' s; Ok (None :: pr', s)
  | Some ck :: pr' =>
      '(ck, s) ← body k ck s;
      '(pr', s) ← for_progeny (S k) pr' s;
      Ok (Some ck :: pr', s)
  end.
End ForProgeny.

(** The local function [rec_map] of [space_map_cells]. *)
Fixpoint rec_map (full : bool) (fn : cell_fun) (anc : list (cptr * cell_data))
  (p : cptr) (c : cell) (s : space) {struct c} : outcome (cell * space) :=
  match c with
  | Cell d pr =>
      '(d, s) ← (if full || negb (c_split d) then fn anc p d s else Ok (d, s));
      if c_split d then
        '(pr, s) ← for_progeny
                     (fun k ck s => rec_map full fn ((p, d) :: anc) (p ++ [k]) ck s)
                     0%nat pr s;
        Ok (Cell d pr, s)
      else Ok (Cell d pr, s)
  end.

(** The loop of [space_map_cells] over the top-level cells, from index [i]. *)
Fixpoint map_cells_from (full : bool) (fn : cell_fun) (i : nat) (cells : list cell)
  (s : space) : outcome (list cell * space) :=
  match cells with
  | [] => Ok ([], s)
  | c :: cells' =>
      '(c, s) ← rec_map full fn [] [i] c s;
      '(cells', s) ← map_cells_from full fn (S i) cells' s;
      Ok (c :: cells', s)
  end.

(** [space_map_cells( s , full , fun , data )], where [data] is [s], or is
    not used by [fun]. *)
Definition space_map_cells (s : space) (full : bool) (fn : cell_fun) : outcome space :=
  '(cells, s') ← map_cells_from full fn 0 (the_cells s) s;
  Ok (set_s_cells (Some cells) s').

(** [space_map_clearnrtasks( c , data )] *)
Definition space_map_clearnrtasks : cell_fun := fun _ _ c s =>
  Ok (set_c_density [] (set_c_nr_tasks 0 c), s).

(** The super cell that [space_map_mkghosts] finds for the cell at [p]:
    [[
    c->super = c;
    for ( finger = c->parent ; finger != NULL ; finger = finger->parent )
        if ( finger->nr_tasks > 0 )
            c->super = finger;
    ]] *)
Definition find_super (anc : list (cptr * cell_data)) (p : cptr) : cptr :=
  foldl (fun super finger => if 0 <? c_nr_tasks finger.2 then finger.1 else super) p anc.

(** [space_map_mkghosts( c , data )]: append a ghost task to each cell. *)
Definition space_map_mkghosts : cell_fun := fun anc p c s =>
  let super := find_super anc p in
  let c := set_c_super (Some super) c in
  (* Make the ghost task *)
  '(c, s) ← (if bool_decide (super ≠ p) || (0 <? c_nr_tasks c) then
               '(s, t) ← space_addtask s task_type_ghost task_subtype_none 0 0 p None [] [];
               Ok (set_c_ghost (Some t) c, s)
             else Ok (c, s));
  (* If we are not the super cell ourselves, make our ghost depend on our
     parent cell. *)
  if bool_decide (super ≠ p) then
    parent ← deref (head anc);
    Ok (c, on_tasks (task_addunlock (c_ghost parent.2) (c_ghost c)) s)
  else Ok (c, s).

(** Map shift vector to sortlist. *)
Definition sortlistID : list nat :=
  [ 0; 1; 2; 3; 4; 5; 6; 7; 8; 9; 10; 11; 12; 0;
    12; 11; 10; 9; 8; 7; 6; 5; 4; 3; 2; 1; 0 ]%nat.

(** [c->sorts[k]]; the array has 14 entries. *)
Definition sorts_at (d : cell_data) (k : nat) : outcome (option tptr) :=
  deref (c_sorts d !! k).

(** [for ( k = a ; k < a + n ; k++ ) sorts[k] = t;] *)
Definition set_sorts (a n : nat) (t : option tptr) (sorts : list (option tptr))
  : list (option tptr) :=
  foldl (fun so k => <[k := t]> so) sorts (seq a n).

(** The dependencies of a sort on the sorts of a progeny [ck], in
    [maketasks_sort_rec]:
    [[
    for ( j = 0 ; j < 14 ; j++ )
        if ( j == 0 || c->sorts[j] != c->sorts[j-1] )
            task_addunlock( c->progeny[k]->sorts[j] , c->sorts[j] );
    ]] *)
Definition link_sorts (d dk : cell_data) (s : space) : outcome space :=
  for_each (seq 0 14)
    (fun s j =>
       sj ← sorts_at d j;
       prev ← (if bool_decide (j = 0%nat) then Ok None else sorts_at d (j - 1));
       if bool_decide (j = 0%nat) || bool_decide (sj ≠ prev) then
         skj ← sorts_at dk j;
         Ok (on_tasks (task_addunlock skj sj) s)
       else Ok s)
    s.

(** The sort tasks that [maketasks_sort_rec] generates for one cell:
    the statement under [Start by generating the sort task.] *)
Definition make_sorts (do_sort : bool) (p : cptr) (d : cell_data) (s : space)
  : outcome (cell_data * space) :=
  let add flags s :=
    space_addtask s task_type_sort task_subtype_none flags 0 p None [] [] in
  if 0 <? c_count d then
    if do_sort then
      if c_count d <? 1000 then
        '(s, t) ← add 0x1fff s;
        Ok (set_c_sorts (set_sorts 0 13 (Some t) (c_sorts d)) d, s)
      else if c_count d <? 5000 then
        '(s, t) ← add 0x7f s;
        let d := set_c_sorts (set_sorts 0 7 (Some t) (c_sorts d)) d in
        '(s, t) ← add 0x1f80 s;
        Ok (set_c_sorts (set_sorts 7 7 (Some t) (c_sorts d)) d, s)
      else
        '(s, d) ←
          for_each [ (0%nat, 0x1 + 0x2); (2%nat, 0x4 + 0x8); (4%nat, 0x10 + 0x20);
                     (6%nat, 0x40 + 0x80); (8%nat, 0x100 + 0x200);
                     (10%nat, 0x400 + 0x800); (12%nat, 0x1000) ]
            (fun '(s, d) '(k, flags) =>
               '(s, t) ← add flags s;
               Ok (s, set_c_sorts (set_sorts k 2 (Some t) (c_sorts d)) d))
            (s, d);
        Ok (d, s)
    else Ok (d, s)
  else Ok (d, s).

(** The local function [maketasks_sort_rec] of [space_maketasks]: generate
    the sorting tasks in the cell tree. *)
Fixpoint maketasks_sort_rec (do_sort : bool) (p : cptr) (c : cell) (s : space)
  {struct c} : outcome (cell * space) :=
  match c with
  | Cell d pr =>
      (* Clear the waits on this cell. *)
      let d := set_c_wait 0 d in
      (* Start by generating the sort task. *)
      '(d, s) ← make_sorts do_sort p d s;
      (* Otherwise, add the interactions between progeny. *)
      if c_split d then
        '(pr, s) ← for_progeny
                     (fun k ck s =>
                        (* Recurse. *)
                        '(ck, s) ← maketasks_sort_rec do_sort (p ++ [k]) ck s;
                        (* Add dependencies between the sorts. *)
                        s ← link_sorts d (cdata ck) s;
                        Ok (ck, s))
                     0%nat pr s;
        Ok (Cell d pr, s)
      else Ok (Cell d pr, s)
  end.

(** ** Splitting the tasks *)

(** [*p] for a pointer to a cell of the space. *)
Definition the_cell (s : space) (p : cptr) : outcome cell :=
  deref (get_cell (the_cells s) p).

(** An assignment to fields of the cell that [p] points to. *)
Definition on_cell (f : cell_data -> cell_data) (p : cptr) (s : space) : space :=
  set_s_cells (alter_cell f p <$> s_cells s) s.

Definition add_nr_pairs (n : Z) (p : cptr) (s : space) : space :=
  on_cell (fun d => set_c_nr_pairs (c_nr_pairs d + n) d) p s.

(** The table [pts] of [space_splittasks]. *)
Definition pts : list (list Z) :=
  [ [ -1; 12; 10;  9;  4;  3;  1;  0 ];
    [ -1; -1; 11; 10;  5;  4;  2;  1 ];
    [ -1; -1; -1; 12;  7;  6;  4;  3 ];
    [ -1; -1; -1; -1;  8;  7;  5;  4 ];
    [ -1; -1; -1; -1; -1; 12; 10;  9 ];
    [ -1; -1; -1; -1; -1; -1; 11; 10 ];
    [ -1; -1; -1; -1; -1; -1; -1; 12 ] ].

(** [sorts[ pts[j][k] ]] *)
Definition sorts_pts (d : cell_data) (j k : nat) : outcome (option tptr) :=
  row ← deref (pts !! j);
  x ← deref (row !! k);
  if x <? 0 then Fault else sorts_at d (Z.to_nat x).

(** The cases of the [switch ( sid )] of [space_splittasks]. A case lists
    the pairs it makes as [(a , b , x)], for a pair of [ci->progeny[a]] and
    [cj->progeny[b]] that depends on the entry [sorts[x]] of both (the first
    of them is the recycled task, the others are added); then come the
    progeny of [ci] and of [cj] whose [nr_pairs] grows, and by how much. *)
Definition split_cases (sid : Z)
  : option (list (nat * nat * nat) * list nat * list nat * Z) :=
  match sid with
  | 0 => Some (([ (7, 0, 0) ], [7], [0])%nat, 1)
  | 1 => Some (([ (6, 0, 1); (7, 1, 1); (6, 1, 0); (7, 0, 2) ], [6; 7], [0; 1])%nat, 2)
  | 2 => Some (([ (6, 1, 2) ], [6], [1])%nat, 1)
  | 3 => Some (([ (5, 0, 3); (7, 2, 3); (5, 2, 0); (7, 0, 6) ], [5; 7], [0; 2])%nat, 2)
  | 4 => Some (([ (4, 0, 4); (5, 0, 5); (6, 0, 7); (7, 0, 8);
                 (4, 1, 3); (5, 1, 4); (6, 1, 6); (7, 1, 7);
                 (4, 2, 1); (5, 2, 2); (6, 2, 4); (7, 2, 5);
                 (4, 3, 0); (5, 3, 1); (6, 3, 3); (7, 3, 4) ],
               [4; 5; 6; 7], [0; 1; 2; 3])%nat, 4)
  | 5 => Some (([ (4, 1, 5); (6, 3, 5); (4, 3, 2); (6, 1, 8) ], [4; 6], [1; 3])%nat, 2)
  | 6 => Some (([ (5, 2, 6) ], [5], [2])%nat, 1)
  | 7 => Some (([ (4, 3, 6); (5, 2, 8); (4, 2, 7); (5, 3, 7) ], [4; 5], [2; 3])%nat, 2)
  | 8 => Some (([ (4, 3, 8) ], [4], [3])%nat, 1)
  | 9 => Some (([ (3, 0, 9); (7, 4, 9); (3, 4, 0); (7, 0, 8) ], [3; 7], [0; 4])%nat, 2)
  | 10 => Some (([ (2, 0, 10); (3, 0, 11); (6, 0, 7); (7, 0, 6);
                  (2, 1, 9); (3, 1, 10); (6, 1, 8); (7, 1, 7);
                  (2, 4, 1); (3, 4, 2); (6, 4, 10); (7, 4, 11);
                  (2, 5, 0); (3, 5, 1); (6, 5, 9); (7, 5, 10) ],
                [2; 3; 6; 7], [0; 1; 4; 5])%nat, 4)
  | 11 => Some (([ (2, 1, 11); (6, 5, 11); (2, 5, 2); (6, 1, 6) ], [2; 6], [1; 5])%nat, 2)
  | 12 => Some (([ (1, 0, 12); (3, 0, 11); (5, 0, 5); (7, 0, 2);
                  (1, 2, 9); (3, 2, 12); (5, 2, 8); (7, 2, 5);
                  (1, 4, 3); (3, 4, 6); (5, 4, 12); (7, 4, 11);
                  (1, 6, 0); (3, 6, 3); (5, 6, 9); (7, 6, 12) ],
                [1; 3; 5; 7], [0; 2; 4; 6])%nat, 4)
  | _ => None
  end.

(** The relative position of [cj] with respect to [ci] along one axis,
    wrapping, as a digit of the sorting index:
    [[
    if ( cj->loc[k] - ci->loc[k] < -s->dim[k]/2 ) shift[k] = s->dim[k];
    else if ( cj->loc[k] - ci->loc[k] > s->dim[k]/2 ) shift[k] = -s->dim[k];
    else shift[k] = 0.0;
    ]]
    and [(d + shift[k] < 0) ? 0 : (d + shift[k] > 0) ? 2 : 1] for the
    difference [d] of the two [loc[k]]. *)
Definition sid_digit (dim li lj : Q) : Z :=
  let d := (lj - li)%Q in
  let shift := if Qltb d (- dim / 2) then dim
               else if Qltb (dim / 2) d then (- dim)%Q else 0%Q in
  if Qltb (d + shift) 0 then 0 else if Qltb 0 (d + shift) then 2 else 1.

(** [for ( sid = 0 , k = 0 ; k < 3 ; k++ ) sid = 3*sid + ...] *)
Definition pair_sid (s : space) (ci cj : cell_data) : Z :=
  foldl (fun sid k =>
           3 * sid + sid_digit (vget (s_dim s) k) (vget (c_loc ci) k) (vget (c_loc cj) k))
        0 (seq 0 3).

(** [fmax( c->h[0] , fmax( c->h[1] , c->h[2] ) )] *)
Definition h_largest (d : cell_data) : Q :=
  Qmax (vget (c_h d) 0) (Qmax (vget (c_h d) 1) (vget (c_h d) 2)).

(** [task_addunlock( c->sorts[k] , t )] for all [k < 14]. *)
Definition unlock_by_all_sorts (d : cell_data) (t : tptr) (s : space) : outcome space :=
  for_each (seq 0 14)
    (fun s k => sk ← sorts_at d k; Ok (on_tasks (task_addunlock sk (Some t)) s))
    s.

Section Tasks.

Variable cfg : config.

(** A self task whose cell is split, converted to a sub task:
    [[
    t->type = task_type_sub;
    for ( k = 0 ; k < 14 ; k++ )
        if ( k == 0 || ci->sorts[k] != ci->sorts[k-1] )
            task_addunlock( ci->sorts[k] , t );
    ]] *)
Definition self_to_sub (tid : tptr) (ci : cell_data) (s : space) : outcome space :=
  let s := on_tasks (alter (set_t_type task_type_sub) tid) s in
  for_each (seq 0 14)
    (fun s k =>
       sk ← sorts_at ci k;
       prev ← (if bool_decide (k = 0%nat) then Ok None else sorts_at ci (k - 1));
       if bool_decide (k = 0%nat) || bool_decide (sk ≠ prev)
       then Ok (on_tasks (task_addunlock sk (Some tid)) s)
       else Ok s)
    s.

(** [for ( k = 0 ; ci->progeny[k] == NULL ; k++ );] from [k], with [rest]
    standing for [8 - k]: the loop leaves the array when all progeny are
    [NULL]. *)
Fixpoint first_progeny (ci : cell) (rest : nat) (k : nat) : outcome nat :=
  match rest with
  | O => Fault
  | S rest =>
      match progeny_at ci k with
      | None => first_progeny ci rest (S k)
      | Some _ => Ok k
      end
  end.

(** A self task whose cell is split, replaced by the tasks of the progeny. *)
Definition self_explicit (tid : tptr) (pi : cptr) (ci : cell) (s : space)
  : outcome space :=
  (* Add the self taks. *)
  k0 ← first_progeny ci 8 0;
  let s := on_tasks (alter (set_t_ci (pi ++ [k0])) tid) s in
  s ← for_each (seq (S k0) (8 - S k0))
        (fun s k =>
           match progeny_at ci k with
           | Some _ =>
               '(s, _) ← space_addtask s task_type_self task_subtype_density 0 0
                           (pi ++ [k]) None [] [];
               Ok s
           | None => Ok s
           end)
        s;
  (* Make a task for each pair of progeny. *)
  for_each (seq 0 8)
    (fun s j =>
       match progeny_at ci j with
       | Some cj =>
           if 0 <? c_count (cdata cj) then
             for_each (seq (S j) (8 - S j))
               (fun s k =>
                  match progeny_at ci k with
                  | Some ck =>
                      if 0 <? c_count (cdata ck) then
                        '(s, t) ← space_addtask s task_type_pair task_subtype_density
                                    0 0 (pi ++ [j]) (Some (pi ++ [k])) [] [];
                        sj ← sorts_pts (cdata cj) j k;
                        let s := on_tasks (task_addunlock sj (Some t)) s in
                        sk ← sorts_pts (cdata ck) j k;
                        let s := on_tasks (task_addunlock sk (Some t)) s in
                        Ok (add_nr_pairs 1 (pi ++ [j]) (add_nr_pairs 1 (pi ++ [k]) s))
                      else Ok s
                  | None => Ok s
                  end)
               s
           else Ok s
       | None => Ok s
       end)
    s.

(** A pair task replaced by a single sub task:
    [[
    t->type = task_type_sub;
    t->flags = sid;
    for ( j = 0 ; j < 8 ; j++ ) {
        if ( ci->progeny[j] != NULL )
            for ( k = 0 ; k < 14 ; k++ )
                task_addunlock( ci->progeny[j]->sorts[k] , t );
        if ( cj->progeny[j] != NULL )
            for ( k = 0 ; k < 14 ; k++ )
                task_addunlock( cj->progeny[j]->sorts[k] , t );
        }
    ]] *)
Definition pair_to_sub (tid : tptr) (sid : Z) (ci cj : cell) (s : space)
  : outcome space :=
  let s := on_tasks (alter (fun t => set_t_flags sid (set_t_type task_type_sub t)) tid) s in
  for_each (seq 0 8)
    (fun s j =>
       s ← match progeny_at ci j with
           | Some c => unlock_by_all_sorts (cdata c) tid s
           | None => Ok s
           end;
       match progeny_at cj j with
       | Some c => unlock_by_all_sorts (cdata c) tid s
       | None => Ok s
       end)
    s.

(** A pair task replaced by pairs of the progeny: what follows
    [Take a step back (we're going to recycle the current task)...] in the
    branch of the pairs. *)
Definition pair_explicit (tid : tptr) (sid : Z) (pi pj : cptr) (ci cj : cell)
  (s : space) : outcome space :=
  (* Remove the dependency of this task on the sorts of ci and cj. *)
  if sid <? 0 then Fault else
  si ← sorts_at (cdata ci) (Z.to_nat sid);
  let s := on_tasks (task_rmunlock si (Some tid)) s in
  sj ← sorts_at (cdata cj) (Z.to_nat sid);
  let s := on_tasks (task_rmunlock sj (Some tid)) s in
  let s := add_nr_pairs (-1) pj (add_nr_pairs (-1) pi s) in
  let s := on_tasks (alter (set_t_unlock_cells []) tid) s in
  (* For each different sorting type... *)
  match split_cases sid with
  | None => Ok s
  | Some (pairs, las, lbs, n) =>
      t0 ← deref (s_tasks s !! tid);
      '(s, _) ←
        for_each pairs
          (fun '(s, first) '(a, b, x) =>
             ca ← deref (progeny_at ci a);
             cb ← deref (progeny_at cj b);
             '(s, t) ←
               (if first : bool then
                  Ok (on_tasks (alter (fun t => set_t_cj (Some (pj ++ [b]))
                                                  (set_t_ci (pi ++ [a]) t)) tid) s, tid)
                else
                  space_addtask s task_type_pair (t_subtype t0) 0 0
                    (pi ++ [a]) (Some (pj ++ [b])) [] []);
             sa ← sorts_at (cdata ca) x;
             let s := on_tasks (task_addunlock sa (Some t)) s in
             sb ← sorts_at (cdata cb) x;
             let s := on_tasks (task_addunlock sb (Some t)) s in
             Ok (s, false))
          (s, true);
      let s := foldl (fun s a => add_nr_pairs n (pi ++ [a]) s) s las in
      let s := foldl (fun s b => add_nr_pairs n (pj ++ [b]) s) s lbs in
      Ok s
  end.

(** One round of the loop of [space_splittasks], on the task [tid]; the
    result holds the value of [tid] for the next round. *)
Definition splittasks_step (tid : tptr) (s : space) : outcome (space * tptr) :=
  t ← deref (s_tasks s !! tid);
  match t_type t with
  (* Self-interaction? *)
  | task_type_self =>
      ci ← the_cell s (t_ci t);
      (* Is this cell even split? *)
      if negb (c_split (cdata ci)) then Ok (s, S tid)
      (* Make a sub? *)
      else if c_count (cdata ci) <? space_subsize cfg then
        s ← self_to_sub tid (cdata ci) s; Ok (s, S tid)
      (* Otherwise, make tasks explicitly. *)
      else
        s ← self_explicit tid (t_ci t) ci s; Ok (s, tid)
  (* Pair interaction? *)
  | task_type_pair =>
      let pi := t_ci t in
      pj ← deref (t_cj t);
      ci ← the_cell s pi;
      cj ← the_cell s pj;
      let hi := h_largest (cdata ci) in
      let hj := h_largest (cdata cj) in
      (* Should this task be split-up? *)
      if c_split (cdata ci) && c_split (cdata cj)
         && Qltb (c_h_max (cdata ci) * space_stretch cfg) (hi / 2)
         && Qltb (c_h_max (cdata cj) * space_stretch cfg) (hj / 2) then
        (* Get the sorting index. *)
        let sid := pair_sid s (cdata ci) (cdata cj) in
        (* Flip? *)
        let '(s, pi, pj, ci, cj, sid) :=
          if sid <? 13 then
            (on_tasks (alter (fun t => set_t_cj (Some pi) (set_t_ci pj t)) tid) s,
             pj, pi, cj, ci, sid)
          else (s, pi, pj, ci, cj, 26 - sid) in
        (* Replace by a single sub-task? *)
        if (c_count (cdata ci) <? space_subsize cfg)
           && (c_count (cdata cj) <? space_subsize cfg)
           && negb (sid =? 0) && negb (sid =? 2) && negb (sid =? 6) && negb (sid =? 8)
        then
          s ← pair_to_sub tid sid ci cj s;
          (* Don't go any further. *)
          Ok (s, S tid)
        else
          s ← pair_explicit tid sid pi pj ci cj s; Ok (s, tid)
      else Ok (s, S tid)
  | _ => Ok (s, S tid)
  end.

(** [space_splittasks( s )]: split tasks that may be too large. The number
    of rounds of the loop is bounded by [fuel]. *)
Fixpoint space_splittasks (fuel : nat) (tid : tptr) (s : space) : outcome space :=
  if negb (tid <? nr_tasks s)%nat then Ok s else
  match fuel with
  | O => Timeout
  | S fuel =>
      '(s, tid) ← splittasks_step tid s;
      space_splittasks fuel tid s
  end.

(** ** Filling the task list *)

(** [for ( k = 0 ; k < s->nr_cells ; k++ ) maketasks_sort_rec( &s->cells[k] );]
    from the cell of index [i]. *)
Fixpoint sort_cells_from (do_sort : bool) (i : nat) (cells : list cell) (s : space)
  : outcome (list cell * space) :=
  match cells with
  | [] => Ok ([], s)
  | c :: cells' =>
      '(c, s) ← maketasks_sort_rec do_sort [i] c s;
      '(cells', s) ← sort_cells_from do_sort (S i) cells' s;
      Ok (c :: cells', s)
  end.

(** [&s->cells[ id ]] *)
Definition top_cell (id : Z) : outcome cptr :=
  if id <? 0 then Fault else Ok [Z.to_nat id].

(** The pair of the top-level cell [cid], at [(i , j , k)], with its
    neighbour at the shift [(ii , jj , kk)]: the body of the three inner
    loops of [Run through the highest level of cells and add pairs.] *)
Definition add_top_pair (cid i j k ii jj kk : Z) (s : space) : outcome space :=
  let cdim := s_cdim s in
  let outside x n := negb (s_periodic s) && ((x <? 0) || (n <=? x)) in
  let iii := i + ii in
  if outside iii (vget cdim 0) then Ok s else
  let iii := Z.rem (iii + vget cdim 0) (vget cdim 0) in
  let jjj := j + jj in
  if outside jjj (vget cdim 1) then Ok s else
  let jjj := Z.rem (jjj + vget cdim 1) (vget cdim 1) in
  let kkk := k + kk in
  if outside kkk (vget cdim 2) then Ok s else
  let kkk := Z.rem (kkk + vget cdim 2) (vget cdim 2) in
  let cjd := cell_getid cdim iii jjj kkk in
  pi ← top_cell cid;
  pj ← top_cell cjd;
  ci ← the_cell s pi;
  cj ← the_cell s pj;
  if c_count (cdata cj) =? 0 then Ok s else
  if cjd <=? cid then Ok s else
  '(s, t) ← space_addtask s task_type_pair task_subtype_density 0 0 pi (Some pj) [] [];
  sid ← deref (sortlistID !! Z.to_nat ((kk + 1) + 3 * ((jj + 1) + 3 * (ii + 1))));
  si ← sorts_at (cdata ci) sid;
  let s := on_tasks (task_addunlock si (Some t)) s in
  sj ← sorts_at (cdata cj) sid;
  let s := on_tasks (task_addunlock sj (Some t)) s in
  Ok (add_nr_pairs 1 pj (add_nr_pairs 1 pi s)).

(** The self task of the top-level cell at [(i , j , k)] and its pairs. *)
Definition add_top_tasks (i j k : Z) (s : space) : outcome space :=
  let cid := cell_getid (s_cdim s) i j k in
  pi ← top_cell cid;
  ci ← the_cell s pi;
  if c_count (cdata ci) =? 0 then Ok s else
  '(s, _) ← space_addtask s task_type_self task_subtype_density 0 0 pi None [] [];
  for_each [ -1; 0; 1 ]
    (fun s ii =>
       for_each [ -1; 0; 1 ]
         (fun s jj =>
            for_each [ -1; 0; 1 ] (fun s kk => add_top_pair cid i j k ii jj kk s) s)
         s)
    s.

(** [0 , 1 , ... , n-1] for a loop [for ( i = 0 ; i < n ; i++ )] over [int]. *)
Definition upto (n : Z) : list Z := map Z.of_nat (seq 0 (Z.to_nat n)).

(** Run through the highest level of cells and add pairs. *)
Definition add_all_top_tasks (s : space) : outcome space :=
  for_each (upto (vget (s_cdim s) 0))
    (fun s i =>
       for_each (upto (vget (s_cdim s) 1))
         (fun s j =>
            for_each (upto (vget (s_cdim s) 2)) (fun s k => add_top_tasks i j k s) s)
         s)
    s.

(** An assignment to fields of the cell that [p] points to, which is
    dereferenced. *)
Definition modify_cell (f : cell_data -> cell_data) (p : cptr) (s : space)
  : outcome space :=
  _ ← the_cell s p; Ok (on_cell f p s).

(** Remove sort tasks with no dependencies: the body of the loop, for the
    task [k]. *)
Definition drop_idle_sort (k : tptr) (s : space) : outcome space :=
  t ← deref (s_tasks s !! k);
  if bool_decide (t_type t = task_type_sort) && bool_decide (t_unlock_tasks t = []) then
    ci ← the_cell s (t_ci t);
    s ← (if c_split (cdata ci) then
           for_each (seq 0 13)
             (fun s i =>
                if Z.testbit (t_flags t) (Z.of_nat i) then
                  s ← for_each (seq 0 8)
                        (fun s j =>
                           match progeny_at ci j with
                           | Some cj =>
                               sji ← sorts_at (cdata cj) i;
                               Ok (on_tasks (task_rmunlock_blind sji (Some k)) s)
                           | None => Ok s
                           end)
                        s;
                  Ok (on_cell (fun d => set_c_sorts (<[i := None]> (c_sorts d)) d) (t_ci t) s)
                else Ok s)
             s
         else Ok s);
    Ok (on_tasks (alter (set_t_type task_type_none) k) s)
  else Ok s.

(** [c->nr_tasks += 1;] *)
Definition count_task (p : cptr) (s : space) : outcome space :=
  modify_cell (fun d => set_c_nr_tasks (c_nr_tasks d + 1) d) p s.

(** [c->density[ c->nr_density ] = t; c->nr_density += 1;] *)
Definition store_density (t : tptr) (p : cptr) (s : space) : outcome space :=
  modify_cell (fun d => set_c_density (c_density d ++ [t]) d) p s.

(** Count the number of tasks associated with each cell and store the
    density tasks in each cell: the body of the loop, for the task [k]. *)
Definition count_tasks_of (k : tptr) (s : space) : outcome space :=
  t ← deref (s_tasks s !! k);
  let is_density := bool_decide (t_subtype t = task_subtype_density) in
  match t_type t with
  | task_type_self =>
      s ← count_task (t_ci t) s;
      if is_density then store_density k (t_ci t) s else Ok s
  | task_type_pair =>
      pj ← deref (t_cj t);
      s ← count_task (t_ci t) s;
      s ← count_task pj s;
      if is_density then
        s ← store_density k (t_ci t) s; store_density k pj s
      else Ok s
  | task_type_sub =>
      s ← count_task (t_ci t) s;
      s ← match t_cj t with Some pj => count_task pj s | None => Ok s end;
      if is_density then
        s ← store_density k (t_ci t) s;
        match t_cj t with Some pj => store_density k pj s | None => Ok s end
      else Ok s
  | _ => Ok s
  end.

(** [c->super->ghost] *)
Definition super_ghost (s : space) (p : cptr) : outcome (option tptr) :=
  c ← the_cell s p;
  super ← deref (c_super (cdata c));
  cs ← the_cell s super;
  Ok (c_ghost (cdata cs)).

(** [c->ghost] *)
Definition ghost_of (s : space) (p : cptr) : outcome (option tptr) :=
  c ← the_cell s p; Ok (c_ghost (cdata c)).

(** Run through the tasks and make iacts for each density task: the body of
    the loop, for the task [k]. *)
Definition make_force (k : tptr) (s : space) : outcome space :=
  t ← deref (s_tasks s !! k);
  if bool_decide (t_subtype t = task_subtype_density) then
    match t_type t with
    (* Self-interaction? *)
    | task_type_self =>
        g ← super_ghost s (t_ci t);
        let s := on_tasks (task_addunlock (Some k) g) s in
        '(s, t2) ← space_addtask s task_type_self task_subtype_force 0 0
                     (t_ci t) None [] [];
        gi ← ghost_of s (t_ci t);
        Ok (on_tasks (task_addunlock gi (Some t2)) s)
    (* Otherwise, pair interaction? *)
    | task_type_pair =>
        pj ← deref (t_cj t);
        g ← super_ghost s (t_ci t);
        let s := on_tasks (task_addunlock (Some k) g) s in
        g ← super_ghost s pj;
        let s := on_tasks (task_addunlock (Some k) g) s in
        '(s, t2) ← space_addtask s task_type_pair task_subtype_force 0 0
                     (t_ci t) (t_cj t) [] [];
        gi ← ghost_of s (t_ci t);
        let s := on_tasks (task_addunlock gi (Some t2)) s in
        gj ← ghost_of s pj;
        Ok (on_tasks (task_addunlock gj (Some t2)) s)
    (* Otherwise, sub interaction? *)
    | task_type_sub =>
        g ← super_ghost s (t_ci t);
        let s := on_tasks (task_addunlock (Some k) g) s in
        s ← match t_cj t with
            | Some pj => g ← super_ghost s pj;
                         Ok (on_tasks (task_addunlock (Some k) g) s)
            | None => Ok s
            end;
        '(s, t2) ← space_addtask s task_type_sub task_subtype_force (t_flags t) 0
                     (t_ci t) (t_cj t) [] [];
        gi ← ghost_of s (t_ci t);
        let s := on_tasks (task_addunlock gi (Some t2)) s in
        match t_cj t with
        | Some pj => gj ← ghost_of s pj;
                     Ok (on_tasks (task_addunlock gj (Some t2)) s)
        | None => Ok s
        end
    | _ => Ok s
    end
  else Ok s.

(** [for ( k = 0 ; k < s->nr_tasks ; k++ ) { ... }] for the loop that makes
    the force tasks, from the task [k]; [s->nr_tasks] grows during the loop,
    whose number of rounds is bounded by [fuel]. *)
Fixpoint make_forces (fuel : nat) (k : tptr) (s : space) : outcome space :=
  if negb (k <? nr_tasks s)%nat then Ok s else
  match fuel with
  | O => Timeout
  | S fuel => s ← make_force k s; make_forces fuel (S k) s
  end.

(** [space_maketasks( s , do_sort )]: fill the task list of the space. The
    allocations are taken to succeed, and [s->tot_cells * 43] to stay in
    the range of [int]; the report of the task counts on the standard
    output is left out. The loops whose bound moves are bounded by
    [fuel]. *)
Definition space_maketasks (fuel : nat) (s : space) (do_sort : bool) : outcome space :=
  (* Allocate the task-list, if needed. *)
  let grow := match s_tasks_size s with
              | None => true
              | Some size => size <? s_tot_cells s * 43
              end in
  let s := if grow then set_s_tasks_size (Some (s_tot_cells s * 43)) s else s in
  let s := set_s_tasks [] s in
  (* Loop over the cells and generate their sorting tasks. *)
  '(cells, s) ← sort_cells_from do_sort 0%nat (the_cells s) s;
  let s := set_s_cells ((fun _ => cells) <$> s_cells s) s in
  (* Run through the highest level of cells and add pairs. *)
  s ← add_all_top_tasks s;
  (* Split the tasks. *)
  s ← space_splittasks fuel 0%nat s;
  (* Remove sort tasks with no dependencies. *)
  s ← for_each (seq 0 (nr_tasks s)) (fun s k => drop_idle_sort k s) s;
  (* Count the number of tasks associated with each cell and store the
     density tasks in each cell. *)
  s ← space_map_cells s true space_map_clearnrtasks;
  s ← for_each (seq 0 (nr_tasks s)) (fun s k => count_tasks_of k s) s;
  (* Append a ghost task to each cell. *)
  s ← space_map_cells s true space_map_mkghosts;
  (* Run through the tasks and make iacts for each density task. *)
  s ← make_forces fuel 0%nat s;
  (* Re-set the indices. *)
  Ok (set_s_tasks_ind (map Z.of_nat (seq 0 (nr_tasks s))) s).

End Tasks.

(** ** Rebuilding the space *)

Section Rebuild.

Variable cfg : config.
Variable cell_split : cell_split_fn.

(** The condensed particle data of a particle:
    [[
    s->cparts[k].x[0] = s->parts[k].x[0];
    s->cparts[k].x[1] = s->parts[k].x[1];
    s->cparts[k].x[2] = s->parts[k].x[2];
    s->cparts[k].h = s->parts[k].h;
    s->cparts[k].dt = s->parts[k].dt;
    ]] *)
Definition condense (p : part) : cpart :=
  mk_cpart (vget (p_x p) 0, vget (p_x p) 1, vget (p_x p) 2) (p_h p) (p_dt p).

(** Run through the parts and get the current h_max; the result holds
    [h_max] and [h_min], which both start at [s->parts[0].h]. *)
Definition scan_h (s : space) : outcome (Q * Q) :=
  p0 ← deref (s_parts s !! 0%nat);
  for_each (seq 0 (Z.to_nat (s_nr_parts s)))
    (fun '(h_max, h_min) k =>
       p ← deref (s_parts s !! k);
       if Qltb h_max (p_h p) then Ok (p_h p, h_min)
       else if Qltb (p_h p) h_min then Ok (h_max, p_h p)
       else Ok (h_max, h_min))
    (p_h p0, p_h p0).

(** Re-build the upper-level cells: the branch taken when [force] is set or
    the grid shrinks. The allocation is taken to succeed unless the number
    of cells is negative. *)
Definition new_top_cells (s : space) (cdim : vec3 Z) : outcome space :=
  (* Free the old cells, if they were allocated. *)
  let s := match s_cells s with
           | Some cells =>
               set_s_maxdepth 0
                 (foldl (fun s c => (space_rebuild_recycle s c).1) s cells)
           | None => s
           end in
  (* Set the new cell dimensions. *)
  let h := (vget (s_dim s) 0 / inject_Z (vget cdim 0),
            vget (s_dim s) 1 / inject_Z (vget cdim 1),
            vget (s_dim s) 2 / inject_Z (vget cdim 2))%Q in
  let ih := (1 / vget h 0, 1 / vget h 1, 1 / vget h 2)%Q in
  let s := set_s_ih ih (set_s_h h (set_s_cdim cdim s)) in
  (* Allocate the highest level of cells. *)
  let n := vget cdim 0 * vget cdim 1 * vget cdim 2 in
  let s := set_s_tot_cells n s in
  if n <? 0 then Abort "Failed to allocate cells." else
  let cells := replicate (Z.to_nat n) cell_zero in
  (* Set the cell location and sizes. *)
  cells ←
    for_each (upto (vget cdim 0))
      (fun cells i =>
         for_each (upto (vget cdim 1))
           (fun cells j =>
              for_each (upto (vget cdim 2))
                (fun cells k =>
                   p ← top_cell (cell_getid cdim i j k);
                   _ ← deref (get_cell cells p);
                   let loc := (inject_Z i * vget h 0, inject_Z j * vget h 1,
                               inject_Z k * vget h 2)%Q in
                   Ok (alter_cell (fun d => set_c_depth 0 (set_c_h h (set_c_loc loc d)))
                         p cells))
                cells)
           cells)
      cells;
  Ok (set_s_cells (Some cells) s).

(** Run through the particles and get their cell index: the result holds
    the array [ind], and the cells hold their counts. The products
    [x[k]*ih[k]] are the exact ones, where the code converts the rounded
    [double] products. *)
Definition bin_parts (s : space) : outcome (space * list Z) :=
  let s := set_s_cells (map (fun c => Cell (set_c_count 0 (cdata c)) (progeny c))
                          <$> s_cells s) s in
  for_each (seq 0 (Z.to_nat (s_nr_parts s)))
    (fun '(s, ind) k =>
       p ← deref (s_parts s !! k);
       let id := cell_getid (s_cdim s)
                   (Qtrunc (vget (p_x p) 0 * vget (s_ih s) 0))
                   (Qtrunc (vget (p_x p) 1 * vget (s_ih s) 1))
                   (Qtrunc (vget (p_x p) 2 * vget (s_ih s) 2)) in
       pc ← top_cell id;
       s ← modify_cell (fun d => set_c_count (c_count d + 1) d) pc s;
       Ok (s, ind ++ [id]))
    (s, []).

(** Update the condensed particle data. *)
Definition update_cparts (s : space) : outcome space :=
  for_each (seq 0 (Z.to_nat (s_nr_parts s)))
    (fun s k =>
       p ← deref (s_parts s !! k);
       cparts ← wr (s_cparts s) 0 (Z.of_nat k) (condense p);
       Ok (set_s_cparts cparts s))
    s.

(** Hook the cells up to the parts. *)
Definition hook_cells (s : space) : space :=
  let '(_, cells) :=
    foldl (fun '(finger, cells) c =>
             ((finger + Z.to_nat (c_count (cdata c)))%nat,
              cells ++ [Cell (set_c_parts finger (cdata c)) (progeny c)]))
          (0%nat, []) (the_cells s) in
  set_s_cells ((fun _ => cells) <$> s_cells s) s.

(** [for ( k = 0 ; k < s->nr_cells ; k++ )
        changes += space_rebuild_recurse( s , &s->cells[k] );]
    The rounds of the loop, which may run in parallel, are taken one after
    the other: no update of [s->maxdepth], which the code tests and stores
    outside the lock, is lost here. *)
Fixpoint rebuild_cells (fuel : nat) (cells : list cell) (s : space)
  : outcome (list cell * space * Z) :=
  match cells with
  | [] => Ok ([], s, 0)
  | c :: cells' =>
      '(s, c, n) ← space_rebuild_recurse cfg cell_split fuel s c;
      '(cells', s, changes) ← rebuild_cells fuel cells' s;
      Ok (c :: cells', s, n + changes)
  end.

(** [space_rebuild( s , force , cell_max )]: re-build the cells as well as
    the tasks; the result carries the returned number of changes. The
    putative [cdim] is the floor of the exact quotient, where the code
    floors the rounded [double] quotient. *)
Definition space_rebuild (fuel : nat) (s : space) (force : bool) (cell_max : Q)
  : outcome (space * Z) :=
  (* Run through the parts and get the current h_max. *)
  '(h_max, h_min) ← scan_h s;
  let s := set_s_h_max h_max (set_s_h_min h_min s) in
  (* Get the new putative cell dimensions. *)
  let width := Qmax (h_max * space_stretch cfg) cell_max in
  let cdim := (Qfloor (vget (s_dim s) 0 / width), Qfloor (vget (s_dim s) 1 / width),
               Qfloor (vget (s_dim s) 2 / width)) in
  (* Do we need to re-build the upper-level cells? *)
  '(s, changes) ←
    (if force || (vget cdim 0 <? vget (s_cdim s) 0) || (vget cdim 1 <? vget (s_cdim s) 1)
        || (vget cdim 2 <? vget (s_cdim s) 2)
     then s ← new_top_cells s cdim; Ok (s, 1)
     else Ok (s, 0));
  (* Run through the particles and get their cell index. *)
  '(s, ind) ← bin_parts s;
  (* Sort the parts according to their cells. *)
  '(parts, _) ← parts_sort fuel 0 (s_nr_parts s) 0 (nr_cells s) (s_parts s) ind;
  let s := set_s_parts parts s in
  (* Update the condensed particle data. *)
  s ← update_cparts s;
  (* Hook the cells up to the parts. *)
  let s := hook_cells s in
  (* At this point, we have the upper-level cells, old or new. Now make
     sure that the parts in each cell are ok. *)
  '(cells, s, n) ← rebuild_cells fuel (the_cells s) s;
  let s := set_s_cells ((fun _ => cells) <$> s_cells s) s in
  let changes := changes + n in
  (* Now that we have the cell structre, re-build the tasks. *)
  s ← (if negb (changes =? 0) then space_maketasks cfg fuel s true else Ok s);
  (* Return the number of changes. *)
  Ok (s, changes).

(** [space_init( s , dim , parts , N , periodic , h_max )]. The allocation
    of [cparts], an array of [N] entries whose content is not initialised,
    here [junk], and the initialisation of the lock are taken to succeed. *)
Definition space_init (fuel : nat) (s : space) (dim : vec3 Q) (parts : list part)
  (N : Z) (periodic : bool) (h_max : Q) (junk : cpart) : outcome (space * Z) :=
  (* Store eveything in the space. *)
  let s := set_s_parts parts (set_s_nr_parts N (set_s_periodic periodic (set_s_dim dim s))) in
  (* Allocate the cparts array. *)
  let s := set_s_cparts (replicate (Z.to_nat N) junk) s in
  (* Build the cells and the tasks. *)
  space_rebuild fuel s true h_max.

End Rebuild.

(** ** A model of [cell_split]

    Modelled from the spec: [cell_split( c )] of [cell.c], which is not among
    the sources. The spec has the particle range of the parent partitioned
    in place so that the particles of each child are contiguous, the
    progeny ordered by the bit pattern (x-bit, y-bit, z-bit), and [cparts]
    a packed shadow of [parts]. Here a particle goes to the octant of its
    position with respect to the centre of the cell, the octants come in
    the order of the progeny, and both arrays are moved alike. *)

Definition octant (d : cell_data) (x : vec3 Q) : nat :=
  let above k := Qltb (vget (c_loc d) k + vget (c_h d) k / 2) (vget x k) in
  ((if above 0%nat then 4 else 0) + (if above 1%nat then 2 else 0)
   + (if above 2%nat then 1 else 0))%nat.

(** The octant of the [i]-th particle of the cell. *)
Definition octant_at (d : cell_data) (cparts : list cpart) (i : nat) : nat :=
  match cparts !! (c_parts d + i)%nat with
  | Some cp => octant d (cp_x cp)
  | None => 0%nat
  end.

(** The particles of the cell that lie in the octant [k], by their index. *)
Definition octant_members (d : cell_data) (cparts : list cpart) (k : nat) : list nat :=
  filter (fun i => octant_at d cparts i = k) (seq 0 (Z.to_nat (c_count d))).

(** [a[first + r] = a0[first + order[r]]] for all [r]. *)
Definition gather {A : Type} (first : nat) (order : list nat) (a0 : list A) : list A :=
  foldl (fun a '(r, i) =>
           match a0 !! (first + i)%nat with
           | Some x => <[(first + r)%nat := x]> a
           | None => a
           end)
        a0 (zip (seq 0 (length order)) order).

Definition cell_split_octants : cell_split_fn := fun d parts cparts =>
  let order := concat (map (octant_members d cparts) (seq 0 8)) in
  let layout k :=
    (Z.of_nat (length (octant_members d cparts k)),
     (c_parts d + length (concat (map (octant_members d cparts) (seq 0 k))))%nat) in
  (gather (c_parts d) order parts, gather (c_parts d) order cparts, layout).

(** ** Values for the examples *)

(** The spec gives [splitRatio] as about 0.5 and [splitSize] as about 400,
    and [stretch] as a multiplier of at least 1. *)
Definition cfg0 : config := mk_config (1 # 2) (11 # 10) 400 5000 1000.

(** A space after [bzero]. *)
Definition space_zero : space :=
  mk_space (0, 0, 0)%Q false (0, 0, 0) (0, 0, 0)%Q (0, 0, 0)%Q 0%Q 0%Q 0 0 [] []
    None 0 0%nat [] None [].

Definition junk_cpart : cpart := mk_cpart (0, 0, 0)%Q 0%Q 0%Q.

(** ** Notions used in the statements *)

(** The number of directions, among the 13, that the flags of a sort task
    hold. *)
Definition nr_directions (flags : Z) : nat :=
  length (filter (fun i => Z.testbit flags (Z.of_nat i) = true) (seq 0 13)).

(** What a task is and acts on: its type, subtype, flags and cells. *)
Definition shape (t : task) : task_type * task_subtype * Z * cptr * option cptr :=
  (t_type t, t_subtype t, t_flags t, t_ci t, t_cj t).

(** The task [a] unlocks the task [b]: there is an edge from [a] to [b] in
    the graph of the tasks [ts]. *)
Definition edge (ts : list task) (a b : tptr) : Prop :=
  exists t, ts !! a = Some t /\ b ∈ t_unlock_tasks t.

(** The arena [ts'] extends the arena [ts]: the tasks of [ts] are still
    there, each with the edges it had. *)
Definition grows (ts ts' : list task) : Prop :=
  map shape (take (length ts) ts') = map shape ts /\
  forall a b, edge ts a b -> edge ts' a b.

(** A cell has tasks: [c->nr_tasks > 0]. *)
Definition has_tasks (d : cell_data) : bool := 0 <? c_nr_tasks d.

(** The highest cell with tasks in a chain of ancestors, which come nearest
    first. *)
Definition highest_with_tasks (anc : list (cptr * cell_data)) : option cptr :=
  fst <$> last (filter (fun a => has_tasks a.2 = true) anc).

(** The condition under which [space_map_mkghosts] makes a ghost for the
    cell at [p]: it is not its own super, or it has tasks. *)
Definition wants_ghost (v : list (cptr * cell_data) * cptr * cell_data) : bool :=
  let '(anc, p, d) := v in
  bool_decide (find_super anc p ≠ p) || has_tasks d.

(** The cells below a cell, through a function of the progeny. *)
Section FlatProgeny.
Context {X : Type}.
Variable below : nat -> cell -> list X.

Fixpoint flat_progeny (k : nat) (pr : list (option cell)) : list X :=
  match pr with
  | [] => []
  | None :: pr' => flat_progeny (S k) pr'
  | Some ck :: pr' => below k ck ++ flat_progeny (S k) pr'
  end.
End FlatProgeny.

(** The cells that [space_map_cells] visits from the cell [c] at [p] when
    [full] is set, in the order of the visit: each with the chain of its
    ancestors, its pointer and its fields. *)
Fixpoint visits (anc : list (cptr * cell_data)) (p : cptr) (c : cell)
  : list (list (cptr * cell_data) * cptr * cell_data) :=
  match c with
  | Cell d pr =>
      (anc, p, d)
      :: (if c_split d
          then flat_progeny (fun k ck => visits ((p, d) :: anc) (p ++ [k]) ck) 0 pr
          else [])
  end.

Fixpoint visits_from (i : nat) (cells : list cell)
  : list (list (cptr * cell_data) * cptr * cell_data) :=
  match cells with
  | [] => []
  | c :: cells' => visits [] [i] c ++ visits_from (S i) cells'
  end.

(** What [space_map_mkghosts] reads of a visited cell: the pointers and the
    numbers of tasks of the cell and of its ancestors. *)
Definition census (v : list (cptr * cell_data) * cptr * cell_data)
  : list (cptr * Z) * cptr * Z :=
  (map (fun a => (a.1, c_nr_tasks a.2)) v.1.1, v.1.2, c_nr_tasks v.2).

(** What [space_map_mkghosts] has to leave for a visited cell, in the
    arena [ts] that held [n] tasks before: its super is the highest of its
    ancestors with tasks, or itself when there is none; if it wants a ghost,
    its [ghost] is a ghost task of the cell, made since; and if it is not
    its own super, the ghost of its parent unlocks its ghost. *)
Definition ghost_ok (ts : list task) (n : nat)
  (v : list (cptr * cell_data) * cptr * cell_data) : Prop :=
  let '(anc, p, d) := v in
  c_super d = Some (default p (highest_with_tasks anc)) /\
  (wants_ghost v = true ->
   exists g t, c_ghost d = Some g /\ (n <= g)%nat /\ ts !! g = Some t /\
     t_type t = task_type_ghost /\ t_ci t = p) /\
  (default p (highest_with_tasks anc) <> p ->
   exists parent gp g, head anc = Some parent /\ c_ghost parent.2 = Some gp /\
     c_ghost d = Some g /\ edge ts gp g).

(** The shape of the ghost task of the cell at [p]. *)
Definition ghost_shape (p : cptr) : task_type * task_subtype * Z * cptr * option cptr :=
  (task_type_ghost, task_subtype_none, 0, p, None).

(** A density task of type self, pair or sub. *)
Definition is_density_iact (t : task) : bool :=
  bool_decide (t_subtype t = task_subtype_density)
  && match t_type t with
     | task_type_self | task_type_pair | task_type_sub => true
     | _ => false
     end.

(** The shape of the force task that [space_maketasks] makes for a density
    task. *)
Definition twin_shape (t : task) : task_type * task_subtype * Z * cptr * option cptr :=
  match t_type t with
  | task_type_self => (task_type_self, task_subtype_force, 0, t_ci t, None)
  | task_type_sub => (task_type_sub, task_subtype_force, t_flags t, t_ci t, t_cj t)
  | ty => (ty, task_subtype_force, 0, t_ci t, t_cj t)
  end.

(** The index of the force task of the [k]-th task of [ts], when the force
    tasks come, in order, after the tasks [ts]. *)
Definition twin_index (ts : list task) (k : nat) : nat :=
  (length ts + length (filter (fun t => is_density_iact t = true) (take k ts)))%nat.

(** The edges of a density task [k], which is [t], and of its force task
    [k'], in the arena [ts']: [k] unlocks the ghosts of the supers of its
    cells, and the ghosts of its cells, which are tasks below [n], unlock
    [k']. The ghosts are those of the cells of the space [s]. *)
Definition twin_edges (s : space) (ts' : list task) (n : nat) (k : nat) (t : task)
  (k' : nat) : Prop :=
  (forall g, super_ghost s (t_ci t) = Ok (Some g) -> edge ts' k g) /\
  (forall pj g, t_cj t = Some pj -> t_type t <> task_type_self ->
     super_ghost s pj = Ok (Some g) -> edge ts' k g) /\
  (forall g, ghost_of s (t_ci t) = Ok (Some g) -> (g < n)%nat -> edge ts' g k') /\
  (forall pj g, t_cj t = Some pj -> t_type t <> task_type_self ->
     ghost_of s pj = Ok (Some g) -> (g < n)%nat -> edge ts' g k').

(** The progeny of every cell of the tree is an array of eight entries,
    as [struct cell *progeny[8]] has it. *)
Fixpoint eight_progeny (c : cell) : bool :=
  match c with
  | Cell _ pr =>
      (length pr =? 8)%nat
      && forallb (fun o => match o with Some ck => eight_progeny ck | None => true end) pr
  end.

Definition is_null {A : Type} (o : option A) : bool :=
  match o with None => true | Some _ => false end.

(** The shape of the tree at a cell and below: a cell that is not split
    has no progeny, a split cell has one at least, and the cells of the
    progeny hold particles. *)
Fixpoint tree_shape_ok (c : cell) : bool :=
  match c with
  | Cell d pr =>
      (if c_split d then existsb (fun o => negb (is_null o)) pr else forallb is_null pr)
      && forallb (fun o => match o with
                           | Some ck => (0 <? c_count (cdata ck)) && tree_shape_ok ck
                           | None => true
                           end) pr
  end.

(** What the proofs need of [cell_split]: the counts that it stores in the
    eight progeny are not negative and add up to the count of the cell. *)
Definition cell_split_counts (cell_split : cell_split_fn) : Prop :=
  forall d parts cparts,
    let layout := (cell_split d parts cparts).2 in
    (forall k, 0 <= (layout k).1) /\
    (0 <= c_count d ->
     foldr Z.add 0 (map (fun k => (layout k).1) (seq 0 8)) = c_count d).

(** The particle arrays of the space, with the number of particles. *)
Definition the_parts (s : space) : list part * list cpart * Z :=
  (s_parts s, s_cparts s, s_nr_parts s).

(** Every entry of [cparts] holds the condensed data of the particle at
    the same index. *)
Definition mirrored (parts : list part) (cparts : list cpart) : Prop :=
  forall (i : nat) cp, cparts !! i = Some cp ->
    exists p, parts !! i = Some p /\ cp = condense p.

(** The particles of the cell lie in the array. *)
Definition in_cell_range (d : cell_data) (cparts : list cpart) : Prop :=
  forall k : nat, (k < Z.to_nat (c_count d))%nat -> (c_parts d + k < length cparts)%nat.

(** What the proofs need of [cell_split]: called on a cell whose particles
    lie in the array, it moves the two arrays alike, in place. *)
Definition cell_split_mirrors (cell_split : cell_split_fn) : Prop :=
  forall d parts cparts,
    in_cell_range d cparts -> mirrored parts cparts ->
    mirrored (cell_split d parts cparts).1.1 (cell_split d parts cparts).1.2 /\
    length (cell_split d parts cparts).1.2 = length cparts.

(** The criterion of [space_split] to split a cell, [count] being the
    number of its particles with [h] below the cutoff. *)
Definition split_criterion (cfg : config) (d : cell_data) (count : Z) : bool :=
  Qltb (inject_Z (c_count d) * space_splitratio cfg) (inject_Z count)
  && (space_splitsize cfg <? c_count d).

(** ** Invariants of the proofs *)

(** The pointer and the number of tasks of an ancestor. *)
Definition cen (a : list nat * cell_data) : list nat * Z := (a.1, c_nr_tasks a.2).

(** The chain of the ancestors of the cell at [p], with [n] tasks in the
    arena: the ancestors are above [p], and the nearest holds its ghost if
    it wants one. *)
Definition chain_ready (anc : list (cptr * cell_data)) (p : cptr) (n : nat) : Prop :=
  Forall (fun a => (length a.1 < length p)%nat) anc /\
  forall parent, head anc = Some parent -> is_Some (highest_with_tasks anc) ->
    exists gp, c_ghost parent.2 = Some gp /\ (gp < n)%nat.

(** The work of [space_map_mkghosts] below a cell: the arena grows by the
    ghosts of the cells visited that want one, in the order of the visit,
    and each cell visited is left as it should. *)
Definition ghosts_made (V0 V : list (list (cptr * cell_data) * cptr * cell_data))
  (s s' : space) : Prop :=
  grows (s_tasks s) (s_tasks s') /\
  map census V = map census V0 /\
  map shape (drop (nr_tasks s) (s_tasks s'))
  = map (fun v => ghost_shape v.1.2) (filter (fun v => wants_ghost v = true) V) /\
  Forall (ghost_ok (s_tasks s') (nr_tasks s)) V.

(** The statement proved of [rec_map] for [space_map_mkghosts], by
    induction on the cell tree. *)
Definition mkghosts_below (c : cell) : Prop :=
  forall anc0 anc p s c' s',
    map cen anc = map cen anc0 ->
    chain_ready anc p (nr_tasks s) ->
    rec_map true space_map_mkghosts anc p c s = Ok (c', s') ->
    ghosts_made (visits anc0 p c) (visits anc p c') s s'.

(** The state of the loop that makes the force tasks, before the round of
    the task [k]: [ts0] and [s0] are the tasks and the space at the start. *)
Definition forces_upto (s0 : space) (k : nat) (s : space) : Prop :=
  let ts0 := s_tasks s0 in
  s_cells s = s_cells s0 /\
  grows ts0 (s_tasks s) /\
  map shape (drop (length ts0) (s_tasks s))
  = map twin_shape (filter (fun t => is_density_iact t = true) (take k ts0)) /\
  forall j t, (j < k)%nat -> ts0 !! j = Some t -> is_density_iact t = true ->
    twin_edges s0 (s_tasks s) (length ts0) j t (twin_index ts0 j).

(** The particle arrays during the rebuild of the cells: [nr_parts] is
    [N], [cparts] has [L] entries, which mirror the particles. *)
Definition arrays_ok (N : Z) (L : nat) (ps : list part * list cpart * Z) : Prop :=
  mirrored ps.1.1 ps.1.2 /\ length ps.1.2 = L /\ ps.2 = N.


(** A task, for the examples. *)
Definition task0 : task :=
  mk_task task_type_none task_subtype_none 0 0 [] None [] [].

(** A periodic box of two top-level cells side by side along the first
    axis, as a rebuild leaves it for 5000 particles of [h = 3/10] in each
    cell, those of the first cell in its upper half along the axis and those
    of the second in its lower half: both cells are split, with four
    progeny of 1250 particles each, which are not split; the task list has
    not been allocated. *)
Definition cell_eighth (x : Q) (k first : nat) : cell :=
  Cell (set_c_h_max (3 # 10) (set_c_parts first (set_c_count 1250 (set_c_depth 1
         (set_c_h (1 # 2, 1 # 2, 1 # 2)%Q
            (set_c_loc ((if Nat.testbit k 2 then x + (1 # 2) else x),
                        (if Nat.testbit k 1 then 1 # 2 else 0),
                        (if Nat.testbit k 0 then 1 # 2 else 0))%Q cell_zero_data))))))
       (replicate 8 None).
Definition cell_half (x : Q) (first : nat) (ks : list nat) : cell :=
  Cell (set_c_h_max (3 # 10) (set_c_parts first (set_c_count 5000 (set_c_split true
         (set_c_h (1, 1, 1)%Q (set_c_loc (x, 0, 0)%Q cell_zero_data))))))
       (foldr (fun '(i, k) pr => <[k := Some (cell_eighth x k (first + 1250 * i))]> pr)
              (replicate 8 None) (zip (seq 0 4) ks)).
Definition space_ring : space :=
  set_s_cells (Some [cell_half 0 0 [4; 5; 6; 7]%nat; cell_half 1 5000 [0; 1; 2; 3]%nat])
    (set_s_tot_cells 10 (set_s_maxdepth 1 (set_s_h_max (3 # 10) (set_s_h_min (3 # 10)
       (set_s_cdim (2, 1, 1) (set_s_h (1, 1, 1)%Q (set_s_ih (1, 1, 1)%Q
          (set_s_dim (2, 1, 1)%Q (set_s_periodic true
             (set_s_nr_parts 10000 space_zero)))))))))).

(** The same arena, empty. *)
Definition space_43 : space :=
  set_s_tasks_size (Some 43) (set_s_tot_cells 1 space_zero).

(** A cell of [n] particles, otherwise clear. *)
Definition cell_of_count (n : Z) : cell_data := set_c_count n cell_zero_data.

(** A split cell with one task and one progeny, which has no task, and a
    cell without tasks, in a space with room for their tasks. *)
Definition cell_with_child : cell :=
  Cell (set_c_nr_tasks 1 (set_c_split true cell_zero_data))
       (Some cell_zero :: replicate 7 None).
Definition space_ghosts : space :=
  set_s_cells (Some [cell_with_child; cell_zero])
    (set_s_tasks_size (Some 129) (set_s_tot_cells 3 space_zero)).

(** Two split top-level cells with one progeny each, with the density
    tasks of each cell (a sub task) and the pair of the two progeny, in a
    space with room for the tasks of four cells. *)
Definition cell_with_progeny (k : nat) : cell :=
  Cell (set_c_split true cell_zero_data) (<[k := Some cell_zero]> (replicate 8 None)).
Definition space_pairs : space :=
  set_s_tasks
    [ mk_task task_type_sub task_subtype_density 0 0 [0%nat] None [] [];
      mk_task task_type_sub task_subtype_density 0 0 [1%nat] None [] [];
      mk_task task_type_pair task_subtype_density 0 0 [0; 7]%nat (Some [1; 0]%nat) [] [] ]
    (set_s_cells (Some [cell_with_progeny 7; cell_with_progeny 0])
       (set_s_tasks_size (Some 172) (set_s_tot_cells 4 space_zero))).

(** The last steps of [space_maketasks] on a space: count the tasks of the
    cells, append the ghosts, make the force tasks. *)
Definition finish_tasks (fuel : nat) (s : space) : outcome space :=
  s ← space_map_cells s true space_map_clearnrtasks;
  s ← for_each (seq 0 (nr_tasks s)) (fun s k => count_tasks_of k s) s;
  s ← space_map_cells s true space_map_mkghosts;
  make_forces fuel 0%nat s.


(** [n] particles of [h = 1/10], by turns in the lower and in the upper half
    of the unit cell along the first axis, and a space that holds them. *)
Definition parts_halves (n : nat) : list part :=
  map (fun i => mk_part ((if Nat.even i then 1 # 4 else 3 # 4), 1 # 4, 1 # 4)%Q
                  (1 # 10) 0 (Z.of_nat i))
      (seq 0 n).
Definition space_halves (n : nat) : space :=
  set_s_cparts (map condense (parts_halves n))
    (set_s_parts (parts_halves n) (set_s_nr_parts (Z.of_nat n) space_zero)).

(** The unit cell, with the first [n] particles of the space, not split. *)
Definition cell_unit (n : Z) : cell :=
  Cell (set_c_count n (set_c_h (1, 1, 1)%Q cell_zero_data)) (replicate 8 None).

(** The unit cell as it was split for 401 particles, the progeny 0 with
    201 and the progeny 4 with 200 of them, when it is left with 400. *)
Definition cell_400 : cell :=
  Cell (set_c_count 400 (set_c_split true (set_c_h (1, 1, 1)%Q cell_zero_data)))
       [ Some (Cell (set_c_count 201 (set_c_depth 1
                       (set_c_h (1 # 2, 1 # 2, 1 # 2)%Q cell_zero_data)))
                    (replicate 8 None));
         None; None; None;
         Some (Cell (set_c_parts 201 (set_c_count 200 (set_c_depth 1
                       (set_c_h (1 # 2, 1 # 2, 1 # 2)%Q
                          (set_c_loc (1 # 2, 0, 0)%Q cell_zero_data)))))
                    (replicate 8 None));
         None; None; None ].

(** Four particles of [h = 1/10] in two opposite corners of the unit box,
    and the space that [space_init] hands to [space_rebuild] for them. *)
Definition parts_corners : list part :=
  [ mk_part (1 # 10, 1 # 10, 1 # 10)%Q (1 # 10) 0 0;
    mk_part (2 # 10, 2 # 10, 2 # 10)%Q (1 # 10) 0 1;
    mk_part (7 # 10, 7 # 10, 7 # 10)%Q (1 # 10) 0 2;
    mk_part (8 # 10, 8 # 10, 8 # 10)%Q (1 # 10) 0 3 ].
Definition space_corners : space :=
  set_s_cparts (replicate 4 junk_cpart)
    (set_s_parts parts_corners (set_s_nr_parts 4 (set_s_dim (1, 1, 1)%Q space_zero))).

(** * More of [space.c]: notions for the cell tree *)

(** Folds over the progeny of a cell that are not [NULL]. *)
Section Progeny.
Variable P : nat -> cell -> bool.

(** [P k progeny[k]] for every progeny, [k] counting from [k0]. *)
Fixpoint all_progeny (k0 : nat) (pr : list (option cell)) : bool :=
  match pr with
  | [] => true
  | None :: pr' => all_progeny (S k0) pr'
  | Some ck :: pr' => P k0 ck && all_progeny (S k0) pr'
  end.
End Progeny.

Section SumProgeny.
Variable f : cell -> Z.

Fixpoint sum_progeny (pr : list (option cell)) : Z :=
  match pr with
  | [] => 0
  | None :: pr' => sum_progeny pr'
  | Some ck :: pr' => f ck + sum_progeny pr'
  end.

Fixpoint max_progeny (m : Z) (pr : list (option cell)) : Z :=
  match pr with
  | [] => m
  | None :: pr' => max_progeny m pr'
  | Some ck :: pr' => Z.max (f ck) (max_progeny m pr')
  end.
End SumProgeny.

(** The share of one entry of the progeny in [sum_progeny]. *)
Definition share (f : cell -> Z) (o : option (option cell)) : Z :=
  match o with Some (Some c) => f c | _ => 0 end.

(** The number of cells below a cell. *)
Fixpoint cells_below (c : cell) : Z :=
  match c with
  | Cell _ pr => sum_progeny (fun ck => 1 + cells_below ck) pr
  end.

(** The number of cells of the space: the top-level cells and the cells
    below them. *)
Definition cells_total (s : space) : Z :=
  foldr (fun c n => 1 + cells_below c + n) 0 (the_cells s).

(** The largest [depth] of the cells of a tree. *)
Fixpoint deepest (c : cell) : Z :=
  match c with
  | Cell d pr => max_progeny deepest (c_depth d) pr
  end.

(** A cell that is not split has no progeny, throughout the tree. *)
Fixpoint leaves_bare (c : cell) : bool :=
  match c with
  | Cell d pr =>
      (c_split d || forallb is_null pr) && all_progeny (fun _ ck => leaves_bare ck) 0 pr
  end.

(** Where a cell lies: its corner, its edges and its depth. *)
Definition place (d : cell_data) : vec3 Q * vec3 Q * Z := (c_loc d, c_h d, c_depth d).

Definition Qeqb3 (u v : vec3 Q) : bool :=
  Qeq_bool (vget u 0) (vget v 0) && Qeq_bool (vget u 1) (vget v 1)
  && Qeq_bool (vget u 2) (vget v 2).

(** The cell [dk] is the octant [k] of the cell [d]: one level deeper, of
    half the edges, and at the corner that [k & 4], [k & 2] and [k & 1]
    select, as [space_split] sets up a progeny. *)
Definition in_octant (d : cell_data) (k : nat) (dk : cell_data) : bool :=
  let e := cdata (init_progeny d k cell_zero) in
  (c_depth dk =? c_depth e) && Qeqb3 (c_h dk) (c_h e) && Qeqb3 (c_loc dk) (c_loc e).

(** Every progeny [k] of every cell of the tree is its octant [k]. *)
Fixpoint octants_ok (c : cell) : bool :=
  match c with
  | Cell d pr => all_progeny (fun k ck => in_octant d k (cdata ck) && octants_ok ck) 0 pr
  end.

(** The counts of the progeny of every split cell of the tree add up to
    the count of the cell. *)
Fixpoint counts_add_up (c : cell) : bool :=
  match c with
  | Cell d pr =>
      (negb (c_split d) || (sum_progeny (fun ck => c_count (cdata ck)) pr =? c_count d))
      && all_progeny (fun _ ck => counts_add_up ck) 0 pr
  end.

(** ** What the tasks leave alone *)

(** The fields of a cell that [space_maketasks] does not write: the cell
    with its task fields cleared. *)
Definition task_free_data (d : cell_data) : cell_data :=
  set_c_wait 0 (set_c_ghost None (set_c_super None (set_c_density []
    (set_c_nr_tasks 0 (set_c_nr_pairs 0 (set_c_sorts [] d)))))).

Fixpoint task_free (c : cell) : cell :=
  match c with
  | Cell d pr =>
      Cell (task_free_data d)
           (map (fun o => match o with Some ck => Some (task_free ck) | None => None end) pr)
  end.

(** The space but for its tasks: the box, the grid, the particles, the
    counters of the cells, and the cells with their task fields cleared. *)
Definition the_frame (s : space) :=
  (s_dim s, s_periodic s, s_cdim s, s_h s, s_ih s, s_h_min s, s_h_max s, s_maxdepth s,
   the_parts s, s_tot_cells s, s_cells_new s, map task_free (the_cells s)).

(** The box and the grid of the space, with the extremes of [h] and the
    number of particles. *)
Definition the_grid (s : space) :=
  (s_dim s, s_periodic s, s_cdim s, s_h s, s_ih s, s_h_min s, s_h_max s, s_nr_parts s).

(** The ranges [parts .. parts + count) of the cells lie one after the
    other from [finger] on; the result is the end of the last one. *)
Fixpoint tiled (finger : nat) (cells : list cell) : option nat :=
  match cells with
  | [] => Some finger
  | c :: cells' =>
      if (c_parts (cdata c) =? finger)%nat
      then tiled (finger + Z.to_nat (c_count (cdata c))) cells'
      else None
  end.

(** The number of particles of the cells. *)
Definition count_sum (cells : list cell) : nat :=
  foldr (fun c n => (Z.to_nat (c_count (cdata c)) + n)%nat) 0%nat cells.

(** ** Values for the examples *)

(** A box of two cells side by side along the first axis, with two
    particles each, before any task is made. *)
Definition space_two_cells : space :=
  set_s_cells
    (Some [ Cell (set_c_count 2 (set_c_h (1, 1, 1)%Q cell_zero_data)) (replicate 8 None);
            Cell (set_c_parts 2 (set_c_count 2 (set_c_h (1, 1, 1)%Q
                    (set_c_loc (1, 0, 0)%Q cell_zero_data)))) (replicate 8 None) ])
    (set_s_tot_cells 2 (set_s_cdim (2, 1, 1) (set_s_h (1, 1, 1)%Q (set_s_ih (1, 1, 1)%Q
       (set_s_dim (2, 1, 1)%Q (set_s_nr_parts 4 space_zero)))))).

(** ** Invariants of the proofs *)

(** What [space_split] establishes of the tree that it builds, [M] being
    [s->maxdepth] afterwards. *)
Definition built_ok (M : Z) (c : cell) : Prop :=
  eight_progeny c = true /\ octants_ok c = true /\ leaves_bare c = true /\
  deepest c <= M /\ (c_count (cdata c) = 0 -> cells_below c = 0).

(** A top-level cell as [space_rebuild] sets it up: at depth 0, not split,
    without progeny, with a count that is not negative. *)
Definition fresh_top (c : cell) : Prop :=
  progeny c = replicate 8 None /\ c_split (cdata c) = false /\
  c_depth (cdata c) = 0 /\ 0 <= c_count (cdata c).

(** The cells that [Hook the cells up to the parts.] leaves, from the
    offset [finger] on. *)
Fixpoint hooked (finger : nat) (cells : list cell) : list cell :=
  match cells with
  | [] => []
  | c :: cells' =>
      Cell (set_c_parts finger (cdata c)) (progeny c)
      :: hooked (finger + Z.to_nat (c_count (cdata c))) cells'
  end.

(** The cell [c'] is the cell [c] but for [split] and [h_max]. *)
Definition same_place (c c' : cell) : Prop :=
  exists b q, cdata c' = set_c_split b (set_c_h_max q (cdata c)).

(** The array [a'] has the length of [a] and its entries outside
    [lo .. hi). *)
Definition kept_outside {A : Type} (lo hi : nat) (a a' : list A) : Prop :=
  length a' = length a /\
  forall i : nat, (i < lo \/ hi <= i)%nat -> a' !! i = a !! i.

(** The keys are in order: [l[k] <= l[k+1]] throughout. *)
Fixpoint sorted_keys (l : list Z) : bool :=
  match l with
  | x :: (y :: _) as l' => (x <=? y) && sorted_keys l'
  | _ => true
  end.


(** [P] holds of the fields of every cell of the tree. *)
Fixpoint all_cells (P : cell_data -> bool) (c : cell) : bool :=
  match c with
  | Cell d pr => P d && all_progeny (fun _ ck => all_cells P ck) 0 pr
  end.

(** A split cell holds more than [size] particles. *)
Definition split_above (size : Z) (d : cell_data) : bool :=
  negb (c_split d) || (size <? c_count d).


(** * Properties *)

(** ** Outcomes and loops *)

Lemma bind_Ok {A B : Type} (f : A -> outcome B) (m : outcome A) (b : B) :
  mbind f m = Ok b -> exists a, m = Ok a /\ f a = Ok b.
Proof. destruct m; simpl; intros H; try discriminate. eauto. Qed.

Lemma deref_Ok {A : Type} (o : option A) (a : A) : deref o = Ok a -> o = Some a.
Proof. destruct o; simpl; congruence. Qed.

(** Decompose a hypothesis [H] that a sequence of bound computations
    returned normally. *)
Ltac ok_inv H :=
  repeat match type of H with
  | mbind _ _ = Ok _ =>
      let a := fresh "a" in let E := fresh "E" in
      apply bind_Ok in H; destruct H as (a & E & H)
  | (let '(_, _) := ?p in _) = Ok _ => destruct p
  | Ok _ = Ok _ => inversion H; subst; clear H
  | (if ?b then _ else _) = Ok _ =>
      let E := fresh "E" in destruct b eqn:E; try discriminate H
  end.

(** The same for all the hypotheses. *)
Ltac ok_step :=
  match goal with
  | H : mbind _ _ = Ok _ |- _ =>
      let a := fresh "a" in let E := fresh "E" in
      apply bind_Ok in H; destruct H as (a & E & H)
  | H : (let '(_, _) := ?p in _) = Ok _ |- _ => destruct p
  | H : (let '(_, _) := ?p in _) _ = Ok _ |- _ => destruct p
  | H : Ok _ = Ok _ |- _ => inversion H; subst; clear H
  | H : deref _ = Ok _ |- _ => apply deref_Ok in H
  end.
Ltac ok_all := repeat ok_step.

(** Split the conjunctions of the goal, and only those in sight. *)
Ltac splits := repeat match goal with |- _ /\ _ => split end.

(** An invariant of the body of a loop is an invariant of the loop. *)
Lemma for_each_inv {A S : Type} (P : S -> Prop) (body : S -> A -> outcome S) :
  forall (l : list A) (st st' : S),
    (forall x st st', In x l -> P st -> body st x = Ok st' -> P st') ->
    P st -> for_each l body st = Ok st' -> P st'.
Proof.
  induction l as [|x l IH]; simpl; intros st st' Hbody HP H.
  - injection H as <-. exact HP.
  - apply bind_Ok in H. destruct H as (st1 & E1 & H).
    eapply IH; [| |exact H].
    + intros y s1 s2 Hy. apply Hbody. now right.
    + eapply Hbody; [now left|exact HP|exact E1].
Qed.

Lemma for_each_app {A S : Type} (body : S -> A -> outcome S) (l1 l2 : list A) (st : S) :
  for_each (l1 ++ l2) body st = mbind (for_each l2 body) (for_each l1 body st).
Proof.
  revert st. induction l1 as [|x l1 IH]; simpl; intros st; [reflexivity|].
  destruct (body st x); simpl; auto.
Qed.


(** ** The task arena *)

Arguments task_addunlock : simpl never.
Arguments task_rmunlock : simpl never.

Lemma map_fmap {A B : Type} (f : A -> B) (l : list A) : map f l = f <$> l.
Proof. reflexivity. Qed.

Lemma shape_set_t_wait v t : shape (set_t_wait v t) = shape t.
Proof. reflexivity. Qed.
Lemma shape_set_t_unlock_tasks v t : shape (set_t_unlock_tasks v t) = shape t.
Proof. reflexivity. Qed.

Lemma map_shape_alter (f : task -> task) b ts :
  (forall t, shape (f t) = shape t) -> map shape (alter f b ts) = map shape ts.
Proof.
  intros Hf. rewrite !map_fmap. apply list_eq; intros i. rewrite !list_lookup_fmap.
  destruct (decide (b = i)) as [->|Hne].
  - rewrite list_lookup_alter_eq. destruct (ts !! i); simpl; [|reflexivity].
    now rewrite Hf.
  - now rewrite list_lookup_alter_ne.
Qed.

Lemma map_shape_insert a t t' ts :
  ts !! a = Some t -> shape t' = shape t -> map shape (<[a := t']> ts) = map shape ts.
Proof.
  intros Ha Ht. rewrite !map_fmap. apply list_eq; intros i. rewrite !list_lookup_fmap.
  destruct (decide (a = i)) as [->|Hne].
  - rewrite list_lookup_insert_eq by (eapply lookup_lt_Some; eauto).
    rewrite Ha. simpl. now rewrite Ht.
  - now rewrite list_lookup_insert_ne.
Qed.

Lemma task_addunlock_shape ta tb ts : map shape (task_addunlock ta tb ts) = map shape ts.
Proof.
  unfold task_addunlock. destruct ta as [a|], tb as [b|]; try reflexivity.
  destruct (ts !! a) as [t|] eqn:Ha; [|reflexivity].
  case_bool_decide; [reflexivity|].
  rewrite map_shape_alter by (intros; apply shape_set_t_wait).
  eapply map_shape_insert; eauto.
Qed.

Lemma task_addunlock_length ta tb ts : length (task_addunlock ta tb ts) = length ts.
Proof.
  rewrite <- (length_map shape), task_addunlock_shape. apply length_map.
Qed.

(** What [task_addunlock] leaves of the successors of a task. *)
Lemma task_addunlock_lookup ta tb ts i t :
  ts !! i = Some t ->
  exists t', task_addunlock ta tb ts !! i = Some t' /\
    shape t' = shape t /\
    (forall x, x ∈ t_unlock_tasks t -> x ∈ t_unlock_tasks t') /\
    (forall x, x ∈ t_unlock_tasks t' ->
       x ∈ t_unlock_tasks t \/ (ta = Some i /\ tb = Some x)).
Proof.
  intros Hi. unfold task_addunlock.
  assert (Hsame : exists t', ts !! i = Some t' /\ shape t' = shape t /\
            (forall x, x ∈ t_unlock_tasks t -> x ∈ t_unlock_tasks t') /\
            (forall x, x ∈ t_unlock_tasks t' ->
               x ∈ t_unlock_tasks t \/ (ta = Some i /\ tb = Some x)))
    by (exists t; repeat split; auto).
  destruct ta as [a|], tb as [b|]; try exact Hsame.
  destruct (ts !! a) as [u|] eqn:Ha; [|exact Hsame].
  case_bool_decide as Hin; [exact Hsame|]. clear Hsame.
  destruct (decide (a = i)) as [->|Hai].
  - assert (u = t) by congruence. subst u.
    destruct (decide (b = i)) as [->|Hbi].
    + rewrite list_lookup_alter_eq, list_lookup_insert_eq by (eapply lookup_lt_Some; eauto).
      simpl. eexists; split; [reflexivity|]. split; [reflexivity|]. simpl. split.
      * intros x Hx. apply elem_of_app. now left.
      * intros x Hx. apply elem_of_app in Hx as [Hx|Hx]; [now left|].
        apply list_elem_of_singleton in Hx. subst. now right.
    + rewrite list_lookup_alter_ne, list_lookup_insert_eq
        by (try (eapply lookup_lt_Some; eauto); auto).
      eexists; split; [reflexivity|]. split; [reflexivity|]. simpl. split.
      * intros x Hx. apply elem_of_app. now left.
      * intros x Hx. apply elem_of_app in Hx as [Hx|Hx]; [now left|].
        apply list_elem_of_singleton in Hx. subst. now right.
  - destruct (decide (b = i)) as [->|Hbi].
    + rewrite list_lookup_alter_eq, list_lookup_insert_ne, Hi by auto.
      simpl. eexists; split; [reflexivity|]. repeat split; auto.
    + rewrite list_lookup_alter_ne, list_lookup_insert_ne, Hi by auto.
      exists t; repeat split; auto.
Qed.

Lemma task_addunlock_mono ta tb ts a b :
  edge ts a b -> edge (task_addunlock ta tb ts) a b.
Proof.
  intros (t & Ha & Hb).
  destruct (task_addunlock_lookup ta tb ts a t Ha) as (t' & Ha' & _ & Hsub & _).
  exists t'. auto.
Qed.

(** [task_addunlock] makes the edge it is asked for. *)
Lemma task_addunlock_edge ts a b :
  (a < length ts)%nat -> edge (task_addunlock (Some a) (Some b) ts) a b.
Proof.
  intros Ha. destruct (lookup_lt_is_Some_2 ts a Ha) as [t Ht].
  unfold task_addunlock. rewrite Ht. case_bool_decide as Hin.
  - exists t; auto.
  - destruct (decide (b = a)) as [->|Hne].
    + eexists. rewrite list_lookup_alter_eq, list_lookup_insert_eq by auto. simpl.
      split; [reflexivity|]. simpl. apply elem_of_app. right. now apply list_elem_of_singleton.
    + eexists. rewrite list_lookup_alter_ne, list_lookup_insert_eq by auto.
      split; [reflexivity|]. simpl. apply elem_of_app. right. now apply list_elem_of_singleton.
Qed.

Lemma grows_refl ts : grows ts ts.
Proof. split; [rewrite firstn_all; reflexivity|]. intros a b H. exact H. Qed.

Lemma grows_length ts ts' : grows ts ts' -> (length ts <= length ts')%nat.
Proof.
  intros [H _]. apply (f_equal length) in H.
  rewrite !length_map, length_take in H. lia.
Qed.

Lemma grows_trans ts1 ts2 ts3 : grows ts1 ts2 -> grows ts2 ts3 -> grows ts1 ts3.
Proof.
  intros H12 H23. pose proof (grows_length _ _ H12) as Hlen.
  destruct H12 as [H12 E12], H23 as [H23 E23]. split; [|auto].
  rewrite <- H12, <- !firstn_map, <- H23, <- firstn_map, take_take.
  f_equal. lia.
Qed.

Lemma grows_app ts l : grows ts (ts ++ l).
Proof.
  split; [now rewrite take_app_length|].
  intros a b (t & Ha & Hb). exists t. split; [|exact Hb].
  now apply lookup_app_l_Some.
Qed.

Lemma grows_addunlock ta tb ts : grows ts (task_addunlock ta tb ts).
Proof.
  split.
  - rewrite <- (task_addunlock_length ta tb ts) at 1.
    rewrite firstn_all. apply task_addunlock_shape.
  - intros a b. apply task_addunlock_mono.
Qed.

(** The shape of a task of an arena is its shape in an arena that extends it. *)
Lemma grows_lookup ts ts' i t :
  grows ts ts' -> ts !! i = Some t ->
  exists t', ts' !! i = Some t' /\ shape t' = shape t.
Proof.
  intros [Hs _] Hi.
  assert (H : (shape <$> take (length ts) ts') !! i = Some (shape t)).
  { rewrite <- map_fmap, Hs, map_fmap, list_lookup_fmap, Hi. reflexivity. }
  rewrite list_lookup_fmap in H.
  destruct (take (length ts) ts' !! i) as [t'|] eqn:E; [|discriminate].
  apply lookup_take_Some in E as [E _].
  exists t'. split; [exact E|]. simpl in H. congruence.
Qed.

(** The tasks that an arena gains keep their shapes when it grows again. *)
Lemma grows_drop ts1 ts2 ts3 :
  grows ts1 ts2 -> grows ts2 ts3 ->
  map shape (drop (length ts1) ts3)
  = map shape (drop (length ts1) ts2) ++ map shape (drop (length ts2) ts3).
Proof.
  intros H12 H23. pose proof (grows_length _ _ H12) as Hlen.
  destruct H23 as [H23 _].
  rewrite <- (take_drop (length ts2) ts3) at 1.
  rewrite drop_app_le by (rewrite length_take; pose proof (f_equal length H23) as E;
    rewrite !length_map, length_take in E; lia).
  rewrite map_app. f_equal.
  rewrite <- !skipn_map. now rewrite H23.
Qed.


(** ** Appending to the task arena *)

Lemma space_addtask_Ok s ty st fl w ci cj ut uc s' t :
  space_addtask s ty st fl w ci cj ut uc = Ok (s', t) ->
  t = nr_tasks s /\
  s' = set_s_tasks (s_tasks s ++ [mk_task ty st fl w ci cj ut uc]) s /\
  exists size, s_tasks_size s = Some size /\ Z.of_nat (nr_tasks s) < size.
Proof.
  unfold space_addtask. destruct (s_tasks_size s) as [size|]; [|discriminate].
  destruct (Z.ltb_spec (Z.of_nat (nr_tasks s)) size) as [Hlt|Hge]; [|discriminate].
  intros Heq; injection Heq as <- <-. eauto.
Qed.

Lemma space_addtask_room s ty st fl w ci cj ut uc size :
  s_tasks_size s = Some size -> Z.of_nat (nr_tasks s) < size ->
  space_addtask s ty st fl w ci cj ut uc =
    Ok (set_s_tasks (s_tasks s ++ [mk_task ty st fl w ci cj ut uc]) s, nr_tasks s).
Proof.
  intros Hs Hlt. unfold space_addtask. rewrite Hs.
  destruct (Z.ltb_spec (Z.of_nat (nr_tasks s)) size); [reflexivity|lia].
Qed.

(** [space_addtask] has no guard and never aborts. With room in the arena
    it stores the task in the slot [nr_tasks], leaves the tasks before it
    alone and counts one more task; with the arena full, its store falls
    outside the arena. *)
Lemma space_addtask_unguarded s ty st fl w ci cj ut uc :
  (forall diag, space_addtask s ty st fl w ci cj ut uc <> Abort diag) /\
  match s_tasks_size s with
  | Some size =>
      if Z.of_nat (nr_tasks s) <? size then
        exists s',
          space_addtask s ty st fl w ci cj ut uc = Ok (s', nr_tasks s) /\
          nr_tasks s' = S (nr_tasks s) /\
          Z.of_nat (nr_tasks s') <= size /\
          s_tasks s' !! nr_tasks s = Some (mk_task ty st fl w ci cj ut uc) /\
          take (nr_tasks s) (s_tasks s') = s_tasks s
      else space_addtask s ty st fl w ci cj ut uc = Fault
  | None => space_addtask s ty st fl w ci cj ut uc = Fault
  end.
Proof.
  split.
  - intros diag. unfold space_addtask.
    destruct (s_tasks_size s); [|discriminate].
    destruct (_ <? _); discriminate.
  - unfold space_addtask. destruct (s_tasks_size s) as [size|]; [|reflexivity].
    destruct (Z.ltb_spec (Z.of_nat (nr_tasks s)) size) as [Hlt|Hge]; [|reflexivity].
    eexists; split; [reflexivity|]. unfold nr_tasks in *; simpl.
    rewrite length_app; simpl. repeat split.
    + lia.
    + lia.
    + rewrite lookup_app_r by lia. now rewrite Nat.sub_diag.
    + now rewrite take_app_length.
Qed.

(** C7, at the periodic box of two split cells [space_ring]:
    [space_maketasks] sizes the arena for [10 * 43 = 430] tasks and then
    makes 654 of them, so that [space_addtask] stores a task past the end
    of the arena, with no diagnostic. The same build returns in an arena
    of 654 tasks, and not in one of 653. *)
Theorem task_arena_overflows :
  s_tasks_size space_ring = None /\ s_tot_cells space_ring * 43 = 430 /\
  space_maketasks cfg0 2000 space_ring true = Fault /\
  space_maketasks cfg0 2000 (set_s_tasks_size (Some 653) space_ring) true = Fault /\
  exists s',
    space_maketasks cfg0 2000 (set_s_tasks_size (Some 654) space_ring) true = Ok s' /\
    nr_tasks s' = 654%nat.
Proof.
  split; [reflexivity|]. split; [reflexivity|].
  split; [vm_compute; reflexivity|]. split; [vm_compute; reflexivity|].
  eexists. split; [vm_compute; reflexivity|reflexivity].
Qed.


(** ** The sort tasks of a cell *)

(** A list of 14 entries, entry by entry. *)
Lemma length_14 {A : Type} (l : list A) :
  length l = 14%nat ->
  exists a0 a1 a2 a3 a4 a5 a6 a7 a8 a9 a10 a11 a12 a13,
    l = [a0; a1; a2; a3; a4; a5; a6; a7; a8; a9; a10; a11; a12; a13].
Proof.
  intros H.
  do 14 (destruct l as [|? l]; [discriminate H|]).
  destruct l; [|discriminate H]. repeat eexists.
Qed.

(** C5, as stated, fails: a cell of 1000 particles gets two sort tasks that
    hold 7 and 6 of the 13 directions, not 7 and 7. *)
Lemma sorts_of_1000_hold_7_and_6 :
  exists d' s',
    make_sorts true [0%nat] (cell_of_count 1000) space_43 = Ok (d', s') /\
    map t_flags (s_tasks s') = [0x7f; 0x1f80] /\
    map (fun t => nr_directions (t_flags t)) (s_tasks s') = [7; 6]%nat /\
    map (fun t => nr_directions (t_flags t)) (s_tasks s') <> [7; 7]%nat.
Proof.
  do 2 eexists. split; [vm_compute; reflexivity|].
  split; [reflexivity|]. split; [reflexivity|]. discriminate.
Qed.

(** C5, amended: for a cell with particles, whose [sorts] has its 14
    entries, [maketasks_sort_rec] (with [do_sort] set) generates sort tasks
    of that cell only: one with the flags [0x1fff] of all 13 directions when
    [count < 1000]; two, with the flags [0x7f] and [0x1f80] of 7 and 6
    directions, when [1000 <= count < 5000]; seven, with the flags
    [0x1|0x2], [0x4|0x8], ..., [0x400|0x800] of two directions each and
    [0x1000] of one, when [count >= 5000]. In each case the entry
    [sorts[k]] of every direction [k < 13] is a new task that holds [k]. *)
Theorem make_sorts_by_count p d s d' s' :
  make_sorts true p d s = Ok (d', s') ->
  0 < c_count d ->
  length (c_sorts d) = 14%nat ->
  let new := drop (nr_tasks s) (s_tasks s') in
  s_tasks s' = s_tasks s ++ new /\
  Forall (fun t => t_type t = task_type_sort /\ t_ci t = p) new /\
  map t_flags new =
    (if c_count d <? 1000 then [0x1fff]
     else if c_count d <? 5000 then [0x7f; 0x1f80]
     else [0x1 + 0x2; 0x4 + 0x8; 0x10 + 0x20; 0x40 + 0x80;
           0x100 + 0x200; 0x400 + 0x800; 0x1000]) /\
  map (fun t => nr_directions (t_flags t)) new =
    (if c_count d <? 1000 then [13%nat]
     else if c_count d <? 5000 then [7%nat; 6%nat]
     else [2%nat; 2%nat; 2%nat; 2%nat; 2%nat; 2%nat; 1%nat]) /\
  forall k, (k < 13)%nat ->
    exists t, c_sorts d' !! k = Some (Some (nr_tasks s + t)%nat) /\
      Z.testbit (default 0 (t_flags <$> new !! t)) (Z.of_nat k) = true.
Proof.
  intros H Hcount Hlen new. subst new.
  unfold make_sorts in H.
  destruct (Z.ltb_spec 0 (c_count d)) as [_|]; [|lia].
  destruct (length_14 _ Hlen)
    as (a0 & a1 & a2 & a3 & a4 & a5 & a6 & a7 & a8 & a9 & a10 & a11 & a12 & a13 & Hs).
  destruct (c_count d <? 1000) eqn:E1; [|destruct (c_count d <? 5000) eqn:E2].
  - ok_inv H. apply space_addtask_Ok in E as (-> & -> & _).
    rewrite Hs. unfold nr_tasks. simpl. rewrite drop_app_length. simpl.
    repeat split; [repeat constructor|].
    intros k Hk. exists 0%nat. rewrite Nat.add_0_r.
    do 13 (destruct k as [|k]; [split; reflexivity|]). lia.
  - ok_inv H.
    apply space_addtask_Ok in E as (-> & -> & _).
    apply space_addtask_Ok in E0 as (-> & -> & _).
    rewrite Hs. unfold nr_tasks. simpl.
    rewrite <- app_assoc, drop_app_length. simpl.
    repeat split; [repeat constructor|].
    intros k Hk. rewrite length_app. simpl.
    do 7 (destruct k as [|k]; [exists 0%nat; rewrite Nat.add_0_r; split; reflexivity|]).
    exists 1%nat.
    do 6 (destruct k as [|k]; [split; reflexivity|]). lia.
  - simpl in H.
    repeat first
      [ ok_step
      | match goal with
        | E : space_addtask _ _ _ _ _ _ _ _ _ = Ok _ |- _ =>
            apply space_addtask_Ok in E as (-> & -> & _)
        end ].
    rewrite Hs. simpl. unfold nr_tasks. simpl.
    repeat rewrite <- app_assoc. simpl. rewrite drop_app_length. simpl.
    repeat split; [repeat constructor|].
    intros k Hk. repeat rewrite length_app. simpl.
    destruct k as [|k]; [exists 0%nat; rewrite Nat.add_0_r; split; reflexivity|].
    destruct k as [|k]; [exists 0%nat; rewrite Nat.add_0_r; split; reflexivity|].
    destruct k as [|k]; [exists 1%nat; split; reflexivity|].
    destruct k as [|k]; [exists 1%nat; split; reflexivity|].
    destruct k as [|k]; [exists 2%nat; split; [f_equal; f_equal; lia|reflexivity]|].
    destruct k as [|k]; [exists 2%nat; split; [f_equal; f_equal; lia|reflexivity]|].
    destruct k as [|k]; [exists 3%nat; split; [f_equal; f_equal; lia|reflexivity]|].
    destruct k as [|k]; [exists 3%nat; split; [f_equal; f_equal; lia|reflexivity]|].
    destruct k as [|k]; [exists 4%nat; split; [f_equal; f_equal; lia|reflexivity]|].
    destruct k as [|k]; [exists 4%nat; split; [f_equal; f_equal; lia|reflexivity]|].
    destruct k as [|k]; [exists 5%nat; split; [f_equal; f_equal; lia|reflexivity]|].
    destruct k as [|k]; [exists 5%nat; split; [f_equal; f_equal; lia|reflexivity]|].
    destruct k as [|k]; [exists 6%nat; split; [f_equal; f_equal; lia|reflexivity]|].
    lia.
Qed.

(** The amended claim at a cell of 1000 particles. *)
Lemma make_sorts_by_count_witness :
  exists d' s',
    make_sorts true [0%nat] (cell_of_count 1000) space_43 = Ok (d', s') /\
    map (fun t => nr_directions (t_flags t)) (drop (nr_tasks space_43) (s_tasks s'))
    = [7; 6]%nat.
Proof.
  destruct (make_sorts true [0%nat] (cell_of_count 1000) space_43) as [[d' s']| | |] eqn:E;
    try (vm_compute in E; discriminate E).
  exists d', s'. split; [reflexivity|].
  exact (proj1 (proj2 (proj2 (proj2
    (make_sorts_by_count [0%nat] (cell_of_count 1000) space_43 d' s' E
       ltac:(reflexivity) ltac:(reflexivity)))))).
Defined.


(** ** The ghosts *)

Lemma space_addtask_grows s ty st fl w ci cj ut uc s' t :
  space_addtask s ty st fl w ci cj ut uc = Ok (s', t) ->
  t = nr_tasks s /\
  nr_tasks s' = S (nr_tasks s) /\
  grows (s_tasks s) (s_tasks s') /\
  drop (nr_tasks s) (s_tasks s') = [mk_task ty st fl w ci cj ut uc] /\
  s_tasks s' !! t = Some (mk_task ty st fl w ci cj ut uc) /\
  s_cells s' = s_cells s.
Proof.
  intros H. apply space_addtask_Ok in H as (-> & -> & _). unfold nr_tasks. simpl.
  rewrite length_app, drop_app_length. simpl.
  split; [reflexivity|]. split; [lia|]. split; [apply grows_app|].
  split; [reflexivity|]. split; [|reflexivity].
  rewrite lookup_app_r by lia. now rewrite Nat.sub_diag.
Qed.

(** The super that [space_map_mkghosts] finds is the highest ancestor with
    tasks, or the cell itself. *)
Lemma find_super_highest anc p :
  find_super anc p = default p (highest_with_tasks anc).
Proof.
  unfold find_super, highest_with_tasks. revert p.
  induction anc as [|a anc IH]; intros p; [reflexivity|].
  simpl. rewrite IH. clear IH. rewrite filter_cons.
  change (0 <? c_nr_tasks a.2) with (has_tasks a.2).
  destruct (has_tasks a.2) eqn:E.
  - rewrite decide_True by reflexivity.
    generalize (filter (λ a0 : list nat * cell_data, has_tasks a0.2 = true) anc).
    intros [|b l]; [reflexivity|]. rewrite last_cons_cons.
    destruct (last (b :: l)) eqn:El; [reflexivity|].
    now apply last_None in El.
  - rewrite decide_False by discriminate. reflexivity.
Qed.

Lemma highest_in anc q :
  highest_with_tasks anc = Some q -> exists a, a ∈ anc /\ a.1 = q.
Proof.
  unfold highest_with_tasks. intros H.
  destruct (last (filter (λ a, has_tasks a.2 = true) anc)) as [a|] eqn:E; [|discriminate].
  injection H as <-. exists a. split; [|reflexivity].
  apply last_Some_elem_of in E. apply list_elem_of_filter in E. tauto.
Qed.

Lemma chain_ready_super anc p n :
  chain_ready anc p n ->
  (default p (highest_with_tasks anc) <> p <-> is_Some (highest_with_tasks anc)).
Proof.
  intros [Hlen _]. destruct (highest_with_tasks anc) as [q|] eqn:E; simpl.
  - split; [eauto|]. intros _ ->.
    destruct (highest_in _ _ E) as (a & Ha & Hq).
    rewrite Forall_forall in Hlen. apply Hlen in Ha. rewrite Hq in Ha. lia.
  - split; [congruence|]. intros [? ?]; discriminate.
Qed.

Lemma highest_cons a anc :
  is_Some (highest_with_tasks (a :: anc))
  <-> has_tasks a.2 = true \/ is_Some (highest_with_tasks anc).
Proof.
  unfold highest_with_tasks. rewrite filter_cons.
  destruct (has_tasks a.2) eqn:E.
  - rewrite decide_True by reflexivity. split; [auto|]. intros _.
    rewrite fmap_is_Some.
    destruct (last (a :: filter (λ a0, has_tasks a0.2 = true) anc)) eqn:El; [eauto|].
    now apply last_None in El.
  - rewrite decide_False by discriminate. split; [auto|]. intros [?|?]; [discriminate|auto].
Qed.

Lemma wants_ghost_spec anc p d n :
  chain_ready anc p n ->
  wants_ghost (anc, p, d) = true <-> is_Some (highest_with_tasks ((p, d) :: anc)).
Proof.
  intros Hc. rewrite highest_cons. simpl. unfold wants_ghost.
  rewrite orb_true_iff, bool_decide_eq_true, find_super_highest.
  rewrite (chain_ready_super _ _ _ Hc). tauto.
Qed.

(** What one call of [space_map_mkghosts] does. *)
Lemma space_map_mkghosts_step anc p d s d' s' :
  space_map_mkghosts anc p d s = Ok (d', s') ->
  exists s1,
  c_super d' = Some (find_super anc p) /\
  c_nr_tasks d' = c_nr_tasks d /\ c_split d' = c_split d /\
  grows (s_tasks s) (s_tasks s1) /\
  s_tasks s' = (if bool_decide (find_super anc p ≠ p)
                then task_addunlock (mjoin (c_ghost <$> (snd <$> head anc))) (c_ghost d')
                       (s_tasks s1)
                else s_tasks s1) /\
  (if wants_ghost (anc, p, d)
   then c_ghost d' = Some (nr_tasks s) /\
        drop (nr_tasks s) (s_tasks s1)
        = [mk_task task_type_ghost task_subtype_none 0 0 p None [] []]
   else c_ghost d' = c_ghost d /\ s1 = s) /\
  (find_super anc p ≠ p -> is_Some (head anc)).
Proof.
  unfold space_map_mkghosts, wants_ghost. simpl. intros H.
  change (0 <? c_nr_tasks d) with (has_tasks d) in H.
  destruct (bool_decide (find_super anc p ≠ p) || has_tasks d) eqn:Ew.
  - ok_all.
    match goal with
    | E : space_addtask _ _ _ _ _ _ _ _ _ = Ok (?s1, _) |- _ =>
        apply space_addtask_grows in E as (-> & Hn & Hg & Hd & _); exists s1
    end.
    destruct (bool_decide (find_super anc p ≠ p)) eqn:Eb.
    + ok_all.
      match goal with E : head anc = Some _ |- _ => rewrite E end.
      simpl. splits; eauto.
    + ok_all. simpl. splits; eauto. intros Hne.
      apply bool_decide_eq_false in Eb. contradiction.
  - apply orb_false_iff in Ew as [Eb Et]. rewrite Eb in H. ok_all. exists s'.
    simpl. rewrite Eb. splits; eauto using grows_refl.
    intros Hne. apply bool_decide_eq_false in Eb. contradiction.
Qed.

(** Induction on a cell tree. *)
Lemma cell_tree_ind (P : cell -> Prop) :
  (forall d pr,
     Forall (fun o => match o with Some c => P c | None => True end) pr ->
     P (Cell d pr)) ->
  forall c, P c.
Proof.
  intros H. fix IH 1. intros [d pr]. apply H.
  induction pr as [|o pr IHpr]; constructor; [|exact IHpr].
  destruct o as [c|]; [apply IH|exact I].
Qed.

Lemma wants_ghost_census v v' : census v = census v' -> wants_ghost v = wants_ghost v'.
Proof.
  destruct v as [[anc p] d], v' as [[anc' p'] d']. unfold census, wants_ghost. simpl.
  intros H. injection H as Ha -> Hn. unfold has_tasks. rewrite Hn. f_equal.
  assert (Hs : forall q, find_super anc q = find_super anc' q).
  { unfold find_super. revert anc' Ha.
    induction anc as [|a anc IH]; intros [|a' anc'] Ha q; try discriminate; [reflexivity|].
    simpl in *. injection Ha as Ha1 Ha2 Ha. rewrite Ha1, Ha2. apply IH, Ha. }
  now rewrite Hs.
Qed.

Lemma ghost_ok_mono ts ts' n n' v :
  grows ts ts' -> (n' <= n)%nat -> ghost_ok ts n v -> ghost_ok ts' n' v.
Proof.
  intros Hg Hn. destruct v as [[anc p] d]. unfold ghost_ok.
  intros (Hs & Hw & He). splits; [exact Hs| |].
  - intros W. destruct (Hw W) as (g & t & Hgh & Hle & Ht & Hty & Hci).
    destruct (grows_lookup _ _ _ _ Hg Ht) as (t' & Ht' & Hsh).
    exists g, t'. unfold shape in Hsh. splits; auto; [lia|congruence|congruence].
  - intros W. destruct (He W) as (parent & gp & g & H1 & H2 & H3 & H4).
    exists parent, gp, g. splits; auto. now apply Hg.
Qed.

Lemma chain_ready_mono anc p n n' :
  (n <= n')%nat -> chain_ready anc p n -> chain_ready anc p n'.
Proof.
  intros Hn [H1 H2]. split; [exact H1|].
  intros parent Hh Hs. destruct (H2 parent Hh Hs) as (gp & ? & ?).
  exists gp. split; [auto|lia].
Qed.

Lemma ghosts_made_nil s : ghosts_made [] [] s s.
Proof.
  unfold ghosts_made. splits; auto using grows_refl.
  unfold nr_tasks. now rewrite drop_all.
Qed.

(** Two visits, one after the other. *)
Lemma ghosts_made_app V0 V W0 W s1 s2 s3 :
  ghosts_made V0 V s1 s2 -> ghosts_made W0 W s2 s3 ->
  ghosts_made (V0 ++ W0) (V ++ W) s1 s3.
Proof.
  intros (G1 & C1 & S1 & F1) (G2 & C2 & S2 & F2).
  pose proof (grows_length _ _ G1) as L1.
  unfold ghosts_made. splits.
  - eapply grows_trans; eauto.
  - rewrite !map_app. congruence.
  - unfold nr_tasks in *. rewrite (grows_drop _ _ _ G1 G2), S1, S2.
    now rewrite filter_app, map_app.
  - apply Forall_app. split.
    + eapply Forall_impl; [exact F1|]. intros v. apply ghost_ok_mono; auto.
    + eapply Forall_impl; [exact F2|]. intros v. apply ghost_ok_mono; auto using grows_refl.
Qed.

Lemma census_eq anc0 anc p d d' :
  map cen anc = map cen anc0 -> c_nr_tasks d' = c_nr_tasks d ->
  census (anc, p, d') = census (anc0, p, d).
Proof. unfold census, cen. simpl. intros -> ->. reflexivity. Qed.

(** The ghost of one cell. *)
Lemma mkghosts_root anc0 anc p d s d1 s1 :
  map cen anc = map cen anc0 ->
  chain_ready anc p (nr_tasks s) ->
  space_map_mkghosts anc p d s = Ok (d1, s1) ->
  ghosts_made [(anc0, p, d)] [(anc, p, d1)] s s1 /\
  (forall j, chain_ready ((p, d1) :: anc) (p ++ [j]) (nr_tasks s1)) /\
  c_split d1 = c_split d /\ c_nr_tasks d1 = c_nr_tasks d.
Proof.
  intros Hcen Hready H.
  apply space_map_mkghosts_step in H
    as (s0 & Hsuper & Hnr & Hsplit & Hg0 & Hts & Hwants & Hhead).
  pose proof (census_eq anc0 anc p d d1 Hcen Hnr) as Hc.
  pose proof (census_eq anc anc p d d1 eq_refl Hnr) as Hc'.
  assert (Hg01 : grows (s_tasks s0) (s_tasks s1)).
  { rewrite Hts. case_bool_decide; [apply grows_addunlock|apply grows_refl]. }
  assert (Hsh : map shape (s_tasks s1) = map shape (s_tasks s0)).
  { rewrite Hts. case_bool_decide; [apply task_addunlock_shape|reflexivity]. }
  assert (Hlen : length (s_tasks s1) = length (s_tasks s0)).
  { rewrite <- (length_map shape), Hsh. apply length_map. }
  assert (Hg : grows (s_tasks s) (s_tasks s1)) by (eapply grows_trans; eauto).
  pose proof (grows_length _ _ Hg0) as Hle.
  splits; auto.
  - (* the tasks made *)
    unfold ghosts_made. splits; auto.
    + simpl. now rewrite Hc.
    + rewrite <- skipn_map, Hsh, skipn_map. simpl. rewrite filter_cons.
      rewrite (wants_ghost_census _ _ Hc').
      destruct (wants_ghost (anc, p, d)).
      * destruct Hwants as [_ ->]. rewrite decide_True by reflexivity. reflexivity.
      * destruct Hwants as [_ ->]. rewrite decide_False by discriminate.
        unfold nr_tasks. now rewrite drop_all.
    + constructor; [|constructor]. unfold ghost_ok.
      rewrite <- find_super_highest. splits; auto.
      * intros W. rewrite (wants_ghost_census _ _ Hc') in W. rewrite W in Hwants.
        destruct Hwants as [Hgh Hdrop].
        assert (H0 : s_tasks s0 !! nr_tasks s
                     = Some (mk_task task_type_ghost task_subtype_none 0 0 p None [] [])).
        { rewrite <- (Nat.add_0_r (nr_tasks s)), <- lookup_drop, Hdrop. reflexivity. }
        destruct (grows_lookup _ _ _ _ Hg01 H0) as (t' & Ht' & Hs').
        exists (nr_tasks s), t'. unfold shape in Hs'. simpl in Hs'.
        splits; auto; congruence.
      * intros Hne. destruct (Hhead Hne) as [parent Hp].
        destruct Hready as [Hr1 Hr2].
        destruct (Hr2 parent Hp) as (gp & Hgp & Hlt).
        { eapply chain_ready_super; [split; eauto|].
          now rewrite <- find_super_highest. }
        assert (W : wants_ghost (anc, p, d) = true).
        { unfold wants_ghost. now rewrite bool_decide_eq_true_2. }
        rewrite W in Hwants. destruct Hwants as [Hgh Hdrop].
        exists parent, gp, (nr_tasks s). splits; auto.
        rewrite Hts, bool_decide_eq_true_2, Hp, Hgh by exact Hne. simpl. rewrite Hgp.
        apply task_addunlock_edge. unfold nr_tasks in *. lia.
  - (* the chain of the progeny *)
    intros j. split.
    + constructor; [simpl; rewrite length_app; simpl; lia|].
      destruct Hready as [Hr1 _]. eapply Forall_impl; [exact Hr1|].
      intros a Ha. simpl in *. rewrite length_app. simpl. lia.
    + intros parent Hp Hs. simpl in Hp. injection Hp as <-. simpl.
      apply (wants_ghost_spec anc p d1 _ Hready) in Hs.
      rewrite (wants_ghost_census _ _ Hc') in Hs. rewrite Hs in Hwants.
      destruct Hwants as [Hgh Hdrop]. exists (nr_tasks s). split; [exact Hgh|].
      apply (f_equal length) in Hdrop. rewrite length_drop in Hdrop. simpl in Hdrop.
      unfold nr_tasks in *. lia.
Qed.

Lemma mkghosts_progeny anc0 anc p :
  map cen anc = map cen anc0 ->
  forall pr,
    Forall (fun o => match o with Some c => mkghosts_below c | None => True end) pr ->
    forall k s pr' s',
      (forall j, chain_ready anc (p ++ [j]) (nr_tasks s)) ->
      for_progeny (fun k ck s => rec_map true space_map_mkghosts anc (p ++ [k]) ck s)
        k pr s = Ok (pr', s') ->
      ghosts_made (flat_progeny (fun k ck => visits anc0 (p ++ [k]) ck) k pr)
                  (flat_progeny (fun k ck => visits anc (p ++ [k]) ck) k pr') s s'.
Proof.
  intros Hcen pr Hall. induction Hall as [|o pr Ho Hall IH]; intros k s pr' s' Hready H.
  - simpl in H. ok_all. apply ghosts_made_nil.
  - destruct o as [ck|]; simpl in H; ok_all.
    + match goal with
      | E1 : rec_map _ _ _ _ _ _ = Ok (?ck', ?s1), E2 : for_progeny _ _ _ _ = Ok _ |- _ =>
          pose proof (Ho _ _ _ _ _ _ Hcen (Hready k) E1) as G1;
          assert (G2 := IH _ _ _ _
                          (fun j => chain_ready_mono _ _ _ _
                             (grows_length _ _ (proj1 G1)) (Hready j)) E2)
      end.
      simpl. eapply ghosts_made_app; eauto.
    + simpl. eapply IH; eauto.
Qed.

Lemma mkghosts_rec c : mkghosts_below c.
Proof.
  induction c as [d pr IH] using cell_tree_ind.
  intros anc0 anc p s c' s' Hcen Hready H. simpl in H.
  apply bind_Ok in H as ([d1 s1] & Estep & H).
  destruct (mkghosts_root _ _ _ _ _ _ _ Hcen Hready Estep)
    as (Groot & Hchain & Hsplit & Hnr).
  assert (Hcen' : map cen ((p, d1) :: anc) = map cen ((p, d) :: anc0)).
  { simpl. unfold cen at 1 3. simpl. now rewrite Hnr, Hcen. }
  rewrite Hsplit in H. destruct (c_split d) eqn:Es.
  - ok_all. simpl. rewrite Hsplit, Es.
    match goal with
    | E : for_progeny _ _ _ _ = Ok _ |- _ =>
        pose proof (mkghosts_progeny _ _ p Hcen' pr IH _ _ _ _ Hchain E) as G
    end.
    apply (ghosts_made_app [_] [_] _ _ _ _ _ Groot G).
  - ok_all. simpl. rewrite Hsplit, Es.
    apply (ghosts_made_app [_] [_] [] [] _ _ _ Groot (ghosts_made_nil _)).
Qed.

Lemma mkghosts_cells cells :
  forall i s cells' s',
    map_cells_from true space_map_mkghosts i cells s = Ok (cells', s') ->
    ghosts_made (visits_from i cells) (visits_from i cells') s s'.
Proof.
  induction cells as [|c cells IH]; intros i s cells' s' H; simpl in H; ok_all.
  - apply ghosts_made_nil.
  - simpl. eapply ghosts_made_app; [|eapply IH; eauto].
    eapply mkghosts_rec; eauto. split; [constructor|]. intros parent Hp. discriminate.
Qed.

Lemma filter_wants_census V V' :
  map census V' = map census V ->
  map (fun v => ghost_shape v.1.2) (filter (fun v => wants_ghost v = true) V')
  = map (fun v => ghost_shape v.1.2) (filter (fun v => wants_ghost v = true) V).
Proof.
  revert V. induction V' as [|v' V' IH]; intros [|v V] H; try discriminate; [reflexivity|].
  assert (Hv : census v' = census v) by (simpl in H; congruence).
  assert (Ht : map census V' = map census V) by (simpl in H; congruence).
  clear H. rewrite !filter_cons.
  rewrite (wants_ghost_census _ _ Hv).
  assert (Hp : v'.1.2 = v.1.2) by (unfold census in Hv; congruence).
  destruct (wants_ghost v); simpl.
  - rewrite Hp. f_equal. now apply IH.
  - now apply IH.
Qed.

(** C4, as stated, fails: below a cell with a task, a cell that has no task
    and is not its own super carries a ghost; and a top-level cell without
    tasks, which is its own super, carries none. *)
Lemma ghost_of_a_cell_that_is_not_its_super :
  exists s' c c1,
    space_map_cells space_ghosts true space_map_mkghosts = Ok s' /\
    get_cell (the_cells s') [0; 0]%nat = Some c /\
    c_super (cdata c) = Some [0%nat] /\
    c_nr_tasks (cdata c) = 0 /\
    (exists g t, c_ghost (cdata c) = Some g /\ s_tasks s' !! g = Some t /\
       t_type t = task_type_ghost /\ t_ci t = [0; 0]%nat) /\
    ~ (c_super (cdata c) = Some [0; 0]%nat \/ 0 < c_nr_tasks (cdata c)) /\
    get_cell (the_cells s') [1%nat] = Some c1 /\
    c_super (cdata c1) = Some [1%nat] /\
    c_ghost (cdata c1) = None /\
    Forall (fun t => t_ci t <> [1%nat]) (s_tasks s').
Proof.
  do 3 eexists. split; [vm_compute; reflexivity|].
  split; [reflexivity|]. split; [reflexivity|]. split; [reflexivity|].
  split; [do 2 eexists; repeat split; reflexivity|].
  split; [intros [H|H]; [discriminate H|vm_compute in H; discriminate H]|].
  split; [reflexivity|]. split; [reflexivity|]. split; [reflexivity|].
  repeat constructor; discriminate.
Qed.

(** C4, amended: when [space_map_mkghosts] has been mapped over the cells,
    the cells visited and their numbers of tasks are as before; the tasks
    present keep their shapes and edges, and the arena has gained exactly
    one ghost task for each cell visited that is not its own super or has
    [nr_tasks > 0], in the order of the visit, and nothing else; and for
    every cell visited, [super] is the highest of its ancestors with
    [nr_tasks > 0], or the cell itself when no ancestor has tasks, its
    [ghost] is its new ghost task when it is not its own super or has tasks,
    and when it is not its own super the ghost of its parent unlocks its
    ghost. *)
Theorem mkghosts_spec s s' :
  space_map_cells s true space_map_mkghosts = Ok s' ->
  let V := visits_from 0 (the_cells s) in
  let V' := visits_from 0 (the_cells s') in
  map census V' = map census V /\
  grows (s_tasks s) (s_tasks s') /\
  map shape (drop (nr_tasks s) (s_tasks s'))
  = map (fun v => ghost_shape v.1.2) (filter (fun v => wants_ghost v = true) V) /\
  Forall (ghost_ok (s_tasks s') (nr_tasks s)) V' /\
  Forall (fun v => find_super v.1.1 v.1.2 = default v.1.2 (highest_with_tasks v.1.1)) V'.
Proof.
  unfold space_map_cells. intros H. ok_all.
  match goal with
  | E : map_cells_from _ _ _ _ _ = Ok _ |- _ =>
      apply mkghosts_cells in E as (G & C & S & F)
  end.
  simpl. unfold the_cells at 1 3. simpl. splits; auto.
  - rewrite S. now apply filter_wants_census.
  - apply Forall_forall. intros v _. apply find_super_highest.
Qed.

(** The amended claim at the cells of the example. *)
Lemma mkghosts_spec_witness :
  exists s',
    space_map_cells space_ghosts true space_map_mkghosts = Ok s' /\
    map shape (drop (nr_tasks space_ghosts) (s_tasks s'))
    = [ghost_shape [0%nat]; ghost_shape [0; 0]%nat] /\
    Forall (ghost_ok (s_tasks s') (nr_tasks space_ghosts)) (visits_from 0 (the_cells s')).
Proof.
  eexists. split; [vm_compute; reflexivity|].
  match goal with
  | |- _ /\ Forall _ (visits_from _ (the_cells ?s')) =>
      pose proof (mkghosts_spec space_ghosts s' ltac:(vm_compute; reflexivity))
        as (_ & _ & S & F & _)
  end.
  split; [|exact F]. rewrite S. reflexivity.
Defined.


(** ** The force tasks *)

Lemma edge_app ts l a b : edge ts a b -> edge (ts ++ l) a b.
Proof. apply grows_app. Qed.

(** Carry an edge through the operations that follow its making. *)
Ltac edge_tac :=
  first
    [ assumption
    | apply task_addunlock_edge;
      repeat (progress rewrite ?length_app, ?task_addunlock_length); simpl; lia
    | apply task_addunlock_mono; edge_tac
    | apply edge_app; edge_tac ].

(** Identify the ghosts read by the code with those named in the goal. *)
Ltac same_ghost :=
  repeat match goal with
  | H1 : ?x = Ok ?a, H2 : ?x = Ok (Some ?g) |- _ =>
      is_var a; assert (a = Some g) by congruence; subst a
  end.

Lemma super_ghost_on_tasks f s p : super_ghost (on_tasks f s) p = super_ghost s p.
Proof. reflexivity. Qed.
Lemma ghost_of_on_tasks f s p : ghost_of (on_tasks f s) p = ghost_of s p.
Proof. reflexivity. Qed.
Lemma super_ghost_set_tasks ts s p : super_ghost (set_s_tasks ts s) p = super_ghost s p.
Proof. reflexivity. Qed.
Lemma ghost_of_set_tasks ts s p : ghost_of (set_s_tasks ts s) p = ghost_of s p.
Proof. reflexivity. Qed.

Lemma s_tasks_on_tasks f s : s_tasks (on_tasks f s) = f (s_tasks s).
Proof. reflexivity. Qed.

(** The cells, and so the ghosts, are those of the space at the start. *)
Ltac same_cells :=
  repeat (progress
    rewrite ?super_ghost_on_tasks, ?ghost_of_on_tasks,
      ?super_ghost_set_tasks, ?ghost_of_set_tasks in * );
  simpl; unfold nr_tasks;
  rewrite ?s_tasks_on_tasks, ?task_addunlock_length.

(** One round of the loop that makes the force tasks. *)
Lemma make_force_step k s s1 t :
  make_force k s = Ok s1 ->
  s_tasks s !! k = Some t ->
  s_cells s1 = s_cells s /\
  grows (s_tasks s) (s_tasks s1) /\
  if is_density_iact t
  then map shape (drop (nr_tasks s) (s_tasks s1)) = [twin_shape t] /\
       twin_edges s (s_tasks s1) (S (nr_tasks s)) k t (nr_tasks s)
  else s1 = s.
Proof.
  intros H Hk. pose proof (lookup_lt_Some _ _ _ Hk) as Hlt.
  unfold make_force in H. rewrite Hk in H. simpl in H.
  unfold is_density_iact, twin_shape, twin_edges.
  destruct (bool_decide (t_subtype t = task_subtype_density)) eqn:Ed; simpl;
    [|ok_all; splits; auto using grows_refl].
  destruct (t_type t) eqn:Ety; try (ok_all; splits; auto using grows_refl; fail).
  - (* self *)
    ok_all.
    match goal with
    | E : space_addtask _ _ _ _ _ _ _ _ _ = Ok _ |- _ =>
        apply space_addtask_Ok in E as (-> & -> & _)
    end.
    same_cells.
    splits.
    + reflexivity.
    + eapply grows_trans; [|apply grows_addunlock].
      eapply grows_trans; [|apply grows_app]. apply grows_addunlock.
    + rewrite <- skipn_map, task_addunlock_shape, skipn_map.
      rewrite <- (task_addunlock_length (Some k) a (s_tasks s)) at 1.
      now rewrite drop_app_length.
    + intros g Hg. same_ghost. edge_tac.
    + intros pj g _ Hne. contradiction.
    + intros g Hg Hlg. same_ghost. edge_tac.
    + intros pj g _ Hne. contradiction.
  - (* pair *)
    ok_all.
    match goal with
    | E : space_addtask _ _ _ _ _ _ _ _ _ = Ok _ |- _ =>
        apply space_addtask_Ok in E as (-> & -> & _)
    end.
    same_cells.
    match goal with E : t_cj t = Some _ |- _ => rewrite E in * end.
    splits.
    + reflexivity.
    + repeat first [ apply grows_refl
                   | eapply grows_trans; [|apply grows_addunlock]
                   | eapply grows_trans; [|apply grows_app] ].
    + rewrite <- skipn_map, !task_addunlock_shape, skipn_map.
      match goal with
      | |- context [task_addunlock ?x ?y (task_addunlock ?u ?v (s_tasks s)) ++ _] =>
          rewrite <- (task_addunlock_length u v (s_tasks s)) at 1;
          rewrite <- (task_addunlock_length x y (task_addunlock u v (s_tasks s))) at 1
      end.
      now rewrite drop_app_length.
    + intros g Hg. same_ghost. edge_tac.
    + intros pj g Hpj _ Hg. injection Hpj as <-.
      same_ghost. edge_tac.
    + intros g Hg Hlg. same_ghost. edge_tac.
    + intros pj g Hpj _ Hg Hlg. injection Hpj as <-.
      same_ghost. edge_tac.
  - (* sub *)
    destruct (t_cj t) as [pj|] eqn:Ecj; ok_all;
      match goal with
      | E : space_addtask _ _ _ _ _ _ _ _ _ = Ok _ |- _ =>
          apply space_addtask_Ok in E as (-> & -> & _)
      end;
      same_cells.
    + splits.
      * reflexivity.
      * repeat first [ apply grows_refl
                     | eapply grows_trans; [|apply grows_addunlock]
                     | eapply grows_trans; [|apply grows_app] ].
      * rewrite <- skipn_map, !task_addunlock_shape, skipn_map.
        match goal with
        | |- context [task_addunlock ?x ?y (task_addunlock ?u ?v (s_tasks s)) ++ _] =>
            rewrite <- (task_addunlock_length u v (s_tasks s)) at 1;
            rewrite <- (task_addunlock_length x y (task_addunlock u v (s_tasks s))) at 1
        end.
        now rewrite drop_app_length.
      * intros g Hg. same_ghost. edge_tac.
      * intros pj' g Hpj _ Hg. injection Hpj as <-.
        same_ghost. edge_tac.
      * intros g Hg Hlg. same_ghost. edge_tac.
      * intros pj' g Hpj _ Hg Hlg. injection Hpj as <-.
        same_ghost. edge_tac.
    + splits.
      * reflexivity.
      * repeat first [ apply grows_refl
                     | eapply grows_trans; [|apply grows_addunlock]
                     | eapply grows_trans; [|apply grows_app] ].
      * rewrite <- skipn_map, !task_addunlock_shape, skipn_map.
        rewrite <- (task_addunlock_length (Some k) a (s_tasks s)) at 1.
        now rewrite drop_app_length.
      * intros g Hg. same_ghost. edge_tac.
      * intros pj' g Hpj. discriminate.
      * intros g Hg Hlg. same_ghost. edge_tac.
      * intros pj' g Hpj. discriminate.
Qed.

Lemma super_ghost_cells s s' p : s_cells s' = s_cells s -> super_ghost s' p = super_ghost s p.
Proof. unfold super_ghost, the_cell, the_cells. now intros ->. Qed.
Lemma ghost_of_cells s s' p : s_cells s' = s_cells s -> ghost_of s' p = ghost_of s p.
Proof. unfold ghost_of, the_cell, the_cells. now intros ->. Qed.

Lemma is_density_iact_shape t t' : shape t' = shape t -> is_density_iact t' = is_density_iact t.
Proof. unfold shape, is_density_iact. intros H. injection H as -> -> _ _ _. reflexivity. Qed.

Lemma twin_shape_shape t t' : shape t' = shape t -> twin_shape t' = twin_shape t.
Proof. unfold shape, twin_shape. intros H. injection H as -> _ -> -> ->. reflexivity. Qed.

Lemma twin_shape_force t : is_density_iact (mk_task (twin_shape t).1.1.1.1
  (twin_shape t).1.1.1.2 (twin_shape t).1.1.2 0 (twin_shape t).1.2 (twin_shape t).2 [] [])
  = false.
Proof. unfold twin_shape. destruct (t_type t); reflexivity. Qed.

Lemma twin_edges_mono s s' ts ts' n n' k t t' k' :
  s_cells s' = s_cells s -> grows ts ts' -> (n' <= n)%nat -> shape t' = shape t ->
  twin_edges s ts n k t k' -> twin_edges s' ts' n' k t' k'.
Proof.
  intros Hc Hg Hn Hs (E1 & E2 & E3 & E4). unfold shape in Hs.
  injection Hs as Hty _ _ Hci Hcj. unfold twin_edges.
  rewrite Hty, Hci, Hcj. splits.
  - intros g H. rewrite (super_ghost_cells _ _ _ Hc) in H. apply Hg; auto.
  - intros pj g H1 H2 H. rewrite (super_ghost_cells _ _ _ Hc) in H. apply Hg; eauto.
  - intros g H Hl. rewrite (ghost_of_cells _ _ _ Hc) in H. apply Hg, E3; auto. lia.
  - intros pj g H1 H2 H Hl. rewrite (ghost_of_cells _ _ _ Hc) in H.
    apply Hg. eapply E4; eauto. lia.
Qed.

Lemma forces_upto_length s0 k s :
  forces_upto s0 k s ->
  length (s_tasks s) = twin_index (s_tasks s0) k.
Proof.
  intros (_ & Hg & Hs & _). pose proof (grows_length _ _ Hg) as Hl.
  apply (f_equal length) in Hs. rewrite !length_map, length_drop in Hs.
  unfold twin_index. lia.
Qed.

(** A task past the tasks of the start is a force task. *)
Lemma forces_upto_new s0 k s j t :
  forces_upto s0 k s -> (length (s_tasks s0) <= j)%nat -> s_tasks s !! j = Some t ->
  is_density_iact t = false.
Proof.
  intros (_ & _ & Hs & _) Hj Ht.
  assert (H : (shape <$> drop (length (s_tasks s0)) (s_tasks s))
              !! (j - length (s_tasks s0))%nat = Some (shape t)).
  { rewrite list_lookup_fmap, lookup_drop.
    replace (length (s_tasks s0) + (j - length (s_tasks s0)))%nat with j by lia.
    now rewrite Ht. }
  rewrite <- map_fmap, Hs, map_fmap, list_lookup_fmap in H.
  destruct (filter _ _ !! _) as [u|]; [|discriminate]. simpl in H. injection H as H.
  rewrite <- (twin_shape_force u). apply is_density_iact_shape.
  transitivity (twin_shape u); [symmetry; exact H|].
  destruct (twin_shape u) as [[[[? ?] ?] ?] ?]. reflexivity.
Qed.

Lemma forces_upto_step s0 k s s1 :
  forces_upto s0 k s -> (k < nr_tasks s)%nat -> make_force k s = Ok s1 ->
  forces_upto s0 (S k) s1.
Proof.
  intros Hinv Hk H. pose proof (forces_upto_length _ _ _ Hinv) as Hlen.
  pose proof (fun t => forces_upto_new s0 k s k t Hinv) as Hnew.
  destruct Hinv as (Hc & Hg & Hs & He).
  destruct (lookup_lt_is_Some_2 _ _ Hk) as [t Ht].
  destruct (make_force_step _ _ _ _ H Ht) as (Hc1 & Hg1 & Hstep).
  destruct (decide (k < length (s_tasks s0))%nat) as [Hlt|Hge].
  - (* a task of the start *)
    destruct (lookup_lt_is_Some_2 _ _ Hlt) as [t0 Ht0].
    destruct (grows_lookup _ _ _ _ Hg Ht0) as (t' & Ht' & Hsh).
    assert (t' = t) by congruence. subst t'.
    unfold forces_upto. cbv zeta.
    rewrite (take_S_r _ _ _ Ht0), filter_app, filter_cons, filter_nil.
    rewrite (is_density_iact_shape _ _ Hsh) in Hstep.
    destruct (is_density_iact t0) eqn:Ei.
    + destruct Hstep as [Hnew1 Hedges]. rewrite decide_True by reflexivity.
      unfold nr_tasks in Hnew1. splits.
      * congruence.
      * eapply grows_trans; eauto.
      * rewrite (grows_drop _ _ _ Hg Hg1), Hs, Hnew1, map_app. simpl.
        now rewrite (twin_shape_shape _ _ Hsh).
      * intros j u Hj Hu Hi. destruct (decide (j = k)) as [->|Hne].
        -- assert (u = t0) by congruence. subst u.
           unfold nr_tasks in Hedges. rewrite Hlen in Hedges.
           apply (twin_edges_mono s s0 (s_tasks s1) (s_tasks s1)
                    (S (twin_index (s_tasks s0) k)) (length (s_tasks s0)) k t t0
                    (twin_index (s_tasks s0) k));
             [symmetry; exact Hc|apply grows_refl|unfold twin_index; lia
             |symmetry; exact Hsh|exact Hedges].
        -- apply (twin_edges_mono s0 s0 (s_tasks s) (s_tasks s1)
                    (length (s_tasks s0)) (length (s_tasks s0)) j u u
                    (twin_index (s_tasks s0) j));
             [reflexivity|exact Hg1|lia|reflexivity|].
           apply He; auto. lia.
    + subst s1. rewrite decide_False by discriminate. rewrite app_nil_r.
      splits; auto.
      intros j u Hj Hu Hi. destruct (decide (j = k)) as [->|Hne].
      * congruence.
      * apply He; auto. lia.
  - (* a task made by the loop *)
    rewrite (Hnew t ltac:(lia) Ht) in Hstep. subst s1.
    unfold forces_upto in *. cbv zeta in *. rewrite !take_ge in * by lia. splits; auto.
    intros j u Hj Hu Hi. apply He; auto.
    apply lookup_lt_Some in Hu. lia.
Qed.

Lemma make_forces_inv s0 fuel :
  forall k s s', forces_upto s0 k s -> make_forces fuel k s = Ok s' ->
    exists k', (length (s_tasks s0) <= k')%nat /\ forces_upto s0 k' s'.
Proof.
  induction fuel as [|fuel IH]; intros k s s' Hinv H; simpl in H.
  - destruct (Nat.ltb_spec k (nr_tasks s)) as [Hlt|Hge]; simpl in H; [discriminate|].
    injection H as <-. exists k. split; [|exact Hinv].
    destruct Hinv as (_ & Hg & _). apply grows_length in Hg. unfold nr_tasks in Hge. lia.
  - destruct (Nat.ltb_spec k (nr_tasks s)) as [Hlt|Hge]; simpl in H.
    + apply bind_Ok in H as (s1 & E & H).
      eapply IH; [|exact H]. eapply forces_upto_step; eauto.
    + injection H as <-. exists k. split; [|exact Hinv].
      destruct Hinv as (_ & Hg & _). apply grows_length in Hg. unfold nr_tasks in Hge. lia.
Qed.

(** The place of an element in the list of those that pass a filter. *)
Lemma filter_lookup {A : Type} (P : A -> Prop) `{forall x, Decision (P x)}
  (l : list A) k x :
  l !! k = Some x -> P x -> filter P l !! length (filter P (take k l)) = Some x.
Proof.
  intros Hk Hx.
  replace (filter P l) with (filter P (take k l ++ x :: drop (S k) l))
    by (now rewrite take_drop_middle).
  rewrite filter_app, filter_cons, decide_True by exact Hx.
  rewrite lookup_app_r by lia. now rewrite Nat.sub_diag.
Qed.

(** C1, as stated, fails: the force task of a pair of two progeny is not
    unlocked by the ghost of the super of its cell, but by the ghost of the
    cell itself, which the ghost of the super unlocks. Here the pair is the
    task 2, on the cell [0;7] whose super is the cell [0]; the ghosts of
    [0] and [0;7] are the tasks 3 and 4, and the force pair is the task 9. *)
Lemma force_task_not_unlocked_by_super_ghost :
  exists s1 s',
    (s1 ← space_map_cells space_pairs true space_map_clearnrtasks;
     s1 ← for_each (seq 0 3) (fun s k => count_tasks_of k s) s1;
     space_map_cells s1 true space_map_mkghosts) = Ok s1 /\
    make_forces 10 0 s1 = Ok s' /\
    shape <$> s_tasks s1 !! 2%nat
    = Some (task_type_pair, task_subtype_density, 0, [0; 7]%nat, Some [1; 0]%nat) /\
    super_ghost s1 [0; 7]%nat = Ok (Some 3%nat) /\
    ghost_of s1 [0; 7]%nat = Ok (Some 4%nat) /\
    map shape (filter (fun t => bool_decide (t_subtype t = task_subtype_force)
                                && bool_decide (t_type t = task_type_pair) = true)
                      (s_tasks s'))
    = [(task_type_pair, task_subtype_force, 0, [0; 7]%nat, Some [1; 0]%nat)] /\
    shape <$> s_tasks s' !! 9%nat
    = Some (task_type_pair, task_subtype_force, 0, [0; 7]%nat, Some [1; 0]%nat) /\
    ~ edge (s_tasks s') 3 9 /\
    edge (s_tasks s') 4 9 /\ edge (s_tasks s') 3 4.
Proof.
  do 2 eexists. split; [vm_compute; reflexivity|].
  split; [vm_compute; reflexivity|].
  split; [reflexivity|]. split; [reflexivity|]. split; [reflexivity|].
  split; [reflexivity|]. split; [reflexivity|]. split; [|split].
  - intros (t & Ht & Hin). vm_compute in Ht. injection Ht as <-. simpl in Hin.
    apply list_elem_of_In in Hin. simpl in Hin. intuition discriminate.
  - eexists. split; [reflexivity|]. simpl. apply list_elem_of_In. simpl. tauto.
  - eexists. split; [reflexivity|]. simpl. apply list_elem_of_In. simpl. tauto.
Qed.

(** C1, amended: the loop of [space_maketasks] that makes the force tasks
    leaves the cells and the tasks present as they are, but for new edges,
    and appends exactly one force task for each density task of type self,
    pair or sub, in order: of the same type, on the same cells (and with the
    same flags for a sub). Each such density task [T] unlocks the ghost of
    the super of [ci], and of [cj] when it has one; its force task [T'] is
    unlocked by the ghost of [ci], and of [cj] when it has one, not by those
    of their supers. *)
Theorem make_forces_spec fuel s s' :
  make_forces fuel 0 s = Ok s' ->
  s_cells s' = s_cells s /\
  grows (s_tasks s) (s_tasks s') /\
  map shape (drop (nr_tasks s) (s_tasks s'))
  = map twin_shape (filter (fun t => is_density_iact t = true) (s_tasks s)) /\
  forall k t, s_tasks s !! k = Some t -> is_density_iact t = true ->
    shape <$> s_tasks s' !! twin_index (s_tasks s) k = Some (twin_shape t) /\
    twin_edges s (s_tasks s') (nr_tasks s) k t (twin_index (s_tasks s) k).
Proof.
  intros H.
  assert (H0 : forces_upto s 0 s).
  { unfold forces_upto. cbv zeta. splits; auto using grows_refl.
    - now rewrite drop_all.
    - intros j t Hj. lia. }
  destruct (make_forces_inv s fuel 0%nat s s' H0 H) as (k' & Hk' & Hc & Hg & Hs & He).
  rewrite take_ge in Hs by exact Hk'.
  splits; auto.
  intros k t Hk Hi. split.
  - unfold twin_index. rewrite <- lookup_drop, <- list_lookup_fmap, <- map_fmap, Hs.
    rewrite map_fmap, list_lookup_fmap.
    now rewrite (filter_lookup (fun t => is_density_iact t = true) _ _ _ Hk Hi).
  - apply He; auto. apply lookup_lt_Some in Hk. lia.
Qed.

(** The amended claim at the tasks of the example. *)
Lemma make_forces_spec_witness :
  exists s1 s',
    (s1 ← space_map_cells space_pairs true space_map_clearnrtasks;
     s1 ← for_each (seq 0 3) (fun s k => count_tasks_of k s) s1;
     space_map_cells s1 true space_map_mkghosts) = Ok s1 /\
    make_forces 10 0 s1 = Ok s' /\
    map shape (drop (nr_tasks s1) (s_tasks s'))
    = [ (task_type_sub, task_subtype_force, 0, [0%nat], None);
        (task_type_sub, task_subtype_force, 0, [1%nat], None);
        (task_type_pair, task_subtype_force, 0, [0; 7]%nat, Some [1; 0]%nat) ].
Proof.
  do 2 eexists. split; [vm_compute; reflexivity|].
  match goal with
  | |- make_forces ?f ?k ?s = Ok ?s' /\ _ =>
      assert (E : make_forces f k s = Ok s') by (vm_compute; reflexivity);
      split; [exact E|];
      destruct (make_forces_spec f s s' E) as (_ & _ & S & _)
  end.
  rewrite S. reflexivity.
Defined.

Lemma super_ghost_cases s p : super_ghost s p = Fault \/ exists g, super_ghost s p = Ok g.
Proof.
  unfold super_ghost, the_cell.
  destruct (get_cell _ p); simpl; [|now left].
  destruct (c_super _); simpl; [|now left].
  destruct (get_cell _ _); simpl; [|now left]. right; eauto.
Qed.

Lemma ghost_of_cases s p : ghost_of s p = Fault \/ exists g, ghost_of s p = Ok g.
Proof.
  unfold ghost_of, the_cell. destruct (get_cell _ p); simpl; [|now left]. right; eauto.
Qed.

Lemma space_addtask_cases s ty st fl w ci cj ut uc :
  space_addtask s ty st fl w ci cj ut uc = Fault \/
  exists r, space_addtask s ty st fl w ci cj ut uc = Ok r.
Proof.
  unfold space_addtask. destruct (s_tasks_size s); [|now left].
  destruct (_ <? _); [right; eauto|now left].
Qed.

(** A round of the loop has no loop of its own. *)
Lemma make_force_no_timeout k s : make_force k s <> Timeout.
Proof.
  unfold make_force. destruct (s_tasks s !! k) as [t|]; simpl; [|discriminate].
  destruct (bool_decide _); [|discriminate].
  destruct (t_type t); try discriminate; destruct (t_cj t); simpl; try discriminate;
    repeat first
      [ discriminate
      | match goal with
        | |- context [super_ghost ?s ?p] =>
            destruct (super_ghost_cases s p) as [-> | [? ->]]; simpl
        | |- context [ghost_of ?s ?p] =>
            destruct (ghost_of_cases s p) as [-> | [? ->]]; simpl
        | |- context [space_addtask ?s ?a ?b ?c ?d ?e ?f ?g ?h] =>
            destruct (space_addtask_cases s a b c d e f g h) as [-> | [[? ?] ->]]; simpl
        end ].
Qed.

(** The loop ends: each round takes a task of the start or one of the force
    tasks, of which there are no more than tasks at the start. *)
Lemma make_forces_fuel s0 fuel :
  forall k s,
    forces_upto s0 k s ->
    (nr_tasks s - k
     + length (filter (fun t => is_density_iact t = true) (drop k (s_tasks s0))) < fuel)%nat ->
    make_forces fuel k s <> Timeout.
Proof.
  induction fuel as [|fuel IH]; intros k s Hinv Hf; [lia|].
  simpl. destruct (Nat.ltb_spec k (nr_tasks s)) as [Hlt|Hge]; simpl; [|discriminate].
  destruct (make_force k s) as [s1| | |] eqn:E; simpl; try discriminate.
  - pose proof (forces_upto_step _ _ _ _ Hinv Hlt E) as Hinv1.
    apply IH; [exact Hinv1|].
    pose proof (forces_upto_length _ _ _ Hinv) as L.
    pose proof (forces_upto_length _ _ _ Hinv1) as L1.
    unfold nr_tasks in *. rewrite L, L1 in *. unfold twin_index in *.
    destruct (decide (k < length (s_tasks s0))%nat) as [Hk|Hk].
    + destruct (lookup_lt_is_Some_2 _ _ Hk) as [t0 Ht0].
      rewrite (take_S_r _ _ _ Ht0), filter_app, length_app.
      rewrite (drop_S _ _ _ Ht0), filter_cons in Hf.
      rewrite filter_cons, filter_nil.
      destruct (decide (is_density_iact t0 = true)); simpl in *; lia.
    + rewrite !take_ge, !drop_ge in * by lia. simpl in *.
      clear - Hf Hlt.
      generalize dependent (length (filter (λ t : task, is_density_iact t = true) (s_tasks s0))).
      intros. lia.
  - now apply make_force_no_timeout in E.
Qed.

(** With a fuel above twice the number of tasks, the loop that makes the
    force tasks does not run out of fuel. *)
Lemma make_forces_enough_fuel s fuel :
  (2 * nr_tasks s < fuel)%nat -> make_forces fuel 0 s <> Timeout.
Proof.
  intros Hf. apply (make_forces_fuel s).
  - unfold forces_upto. cbv zeta. splits; auto using grows_refl.
    + now rewrite drop_all.
    + intros j t Hj. lia.
  - rewrite drop_0.
    match goal with
    | |- context [length (filter ?P ?l)] => pose proof (length_filter P l)
    end.
    unfold nr_tasks in *. lia.
Qed.


(** ** A pair task made a sub task *)

Lemma Qltb_lt x y : Qltb x y = true <-> (x < y)%Q.
Proof.
  unfold Qltb. rewrite Qlt_alt. destruct (x ?= y)%Q; split; congruence.
Qed.







Lemma alter_shape_lookup (f : task -> task) (tid : nat) (ts : list task) (i : nat) u :
  i <> tid -> ts !! i = Some u -> alter f tid ts !! i = Some u.
Proof. intros Hne Hu. rewrite list_lookup_alter_ne by auto. exact Hu. Qed.







(** * The sort of the particles *)

(** The first round of the insertion sort that finds an entry out of order
    reads [temp_p = parts[j]] with [j = N-1], not [parts[i]]. *)
Lemma insert_sort_first_round (a b c : part) :
  insert_sort 0 3 [a; b; c] [1; 0; 2] = Ok ([c; a; c], [0; 1; 2]).
Proof. reflexivity. Qed.

(** C2, at the particles [a], [b], [c] of the bins 1, 0, 2:
    [parts_sort( parts , ind , 3 , min , max )] returns with [ind] in
    non-decreasing order, 0, 1, 2, and with the particles [c], [a], [c]: the
    particle [b], whose bin is 0, is lost, and the particle [c] of the bin 2
    stands in its place. *)
Theorem parts_sort_loses_a_particle (fuel : nat) (min max : Z) (a b c : part) :
  parts_sort (S fuel) 0 3 min max [a; b; c] [1; 0; 2] = Ok ([c; a; c], [0; 1; 2]).
Proof. reflexivity. Qed.

(** * A space without particles *)

(** [space_rebuild] starts by reading [s->parts[0].h]. *)
Lemma space_rebuild_reads_first_part cfg cell_split fuel s force cell_max r :
  space_rebuild cfg cell_split fuel s force cell_max = Ok r ->
  is_Some (s_parts s !! 0%nat).
Proof.
  unfold space_rebuild, scan_h. destruct (s_parts s !! 0%nat); [eauto|discriminate].
Qed.

(** C8, at [N = 0]: [space_init] on an empty array of particles neither
    rejects the call with a diagnostic nor returns a space: [space_rebuild]
    reads [s->parts[0].h], outside the array. *)
Theorem space_init_no_parts cfg cell_split fuel s dim periodic h_max junk :
  space_init cfg cell_split fuel s dim [] 0 periodic h_max junk = Fault.
Proof. reflexivity. Qed.

(** * The shape of the cell tree *)

(** An invariant of the rounds of a counting loop, indexed by the counter. *)
Lemma for_each_seq_inv {St : Type} (I : nat -> St -> Prop) (body : St -> nat -> outcome St) :
  forall (n a : nat) (st st' : St),
    (forall k st st', (a <= k < a + n)%nat -> I k st -> body st k = Ok st' -> I (S k) st') ->
    I a st -> for_each (seq a n) body st = Ok st' -> I (a + n)%nat st'.
Proof.
  induction n as [|n IH]; simpl; intros a st st' Hbody HI H.
  - injection H as <-. now rewrite Nat.add_0_r.
  - apply bind_Ok in H. destruct H as (st1 & E1 & H).
    replace (a + S n)%nat with (S a + n)%nat by lia.
    eapply IH; [| |exact H].
    + intros k s1 s2 Hk. apply Hbody. lia.
    + eapply Hbody; [|exact HI|exact E1]. lia.
Qed.

Lemma recycle_progeny_null f s pr :
  (recycle_progeny f s pr).2 = replicate (length pr) None.
Proof.
  revert s. induction pr as [|[ck|] pr IH]; intros s; simpl; [reflexivity| |].
  - destruct (f s ck) as [s1 ck1].
    specialize (IH (space_recycle s1 ck1)).
    destruct (recycle_progeny f (space_recycle s1 ck1) pr). simpl in *. now rewrite IH.
  - specialize (IH s). destruct (recycle_progeny f s pr). simpl in *. now rewrite IH.
Qed.

Lemma space_rebuild_recycle_split s d pr :
  c_split d = true ->
  (space_rebuild_recycle s (Cell d pr)).2 = Cell d (replicate (length pr) None).
Proof.
  intros Hd. simpl. rewrite Hd.
  pose proof (recycle_progeny_null space_rebuild_recycle s pr) as H.
  destruct (recycle_progeny space_rebuild_recycle s pr). simpl in *. now rewrite H.
Qed.

Lemma forallb_is_null_replicate n : forallb (@is_null cell) (replicate n None) = true.
Proof. induction n; simpl; auto. Qed.

Lemma shape_leaf d n :
  c_split d = false -> tree_shape_ok (Cell d (replicate n None)) = true.
Proof.
  intros Hd. simpl. rewrite Hd, forallb_is_null_replicate. simpl.
  induction n; simpl; auto.
Qed.

Lemma shape_split d pr :
  c_split d = true ->
  (exists k ck, pr !! k = Some (Some ck)) ->
  (forall (k : nat) ck, pr !! k = Some (Some ck) ->
     0 < c_count (cdata ck) /\ tree_shape_ok ck = true) ->
  tree_shape_ok (Cell d pr) = true.
Proof.
  intros Hd (k & ck & Hk) Hall. simpl. rewrite Hd.
  apply andb_true_iff. split.
  - apply existsb_exists. exists (Some ck). split; [|reflexivity].
    apply list_elem_of_In. eapply list_elem_of_lookup_2. exact Hk.
  - apply forallb_forall. intros [c|] Hin; [|reflexivity].
    apply list_elem_of_In, list_elem_of_lookup_1 in Hin. destruct Hin as [j Hj].
    destruct (Hall j c Hj) as [Hc Hs]. rewrite Hs.
    apply andb_true_iff. split; [apply Z.ltb_lt; exact Hc|reflexivity].
Qed.

(** [cell_split] leaves particles in one of the progeny of a cell that
    holds particles. *)
Lemma cell_split_counts_some cell_split d parts cparts :
  cell_split_counts cell_split -> 0 < c_count d ->
  exists k, (k < 8)%nat /\ 0 < ((cell_split d parts cparts).2 k).1.
Proof.
  intros Hcs Hd. destruct (Hcs d parts cparts) as [Hpos Hsum].
  specialize (Hsum ltac:(lia)). cbv zeta in *.
  set (layout := (cell_split d parts cparts).2) in *.
  assert (forall k, 0 < (layout k).1 \/ (layout k).1 = 0) as Hk
    by (intros k; specialize (Hpos k); lia).
  simpl in Hsum.
  destruct (Hk 0%nat) as [?|E0]; [exists 0%nat; split; [lia|assumption]|].
  destruct (Hk 1%nat) as [?|E1]; [exists 1%nat; split; [lia|assumption]|].
  destruct (Hk 2%nat) as [?|E2]; [exists 2%nat; split; [lia|assumption]|].
  destruct (Hk 3%nat) as [?|E3]; [exists 3%nat; split; [lia|assumption]|].
  destruct (Hk 4%nat) as [?|E4]; [exists 4%nat; split; [lia|assumption]|].
  destruct (Hk 5%nat) as [?|E5]; [exists 5%nat; split; [lia|assumption]|].
  destruct (Hk 6%nat) as [?|E6]; [exists 6%nat; split; [lia|assumption]|].
  destruct (Hk 7%nat) as [?|E7]; [exists 7%nat; split; [lia|assumption]|].
  lia.
Qed.

(** The cell after the call of [cell_split]: the eight progeny with the
    counts and the ranges that [cell_split] gave them. *)
Lemma call_cell_split_Ok cell_split s c s' c' :
  call_cell_split cell_split s c = Ok (s', c') ->
  let layout := (cell_split (cdata c) (s_parts s) (s_cparts s)).2 in
  cdata c' = cdata c /\ length (progeny c') = 8%nat /\
  forall k, (k < 8)%nat ->
    exists ck, progeny_at c k = Some ck /\
      progeny c' !! k =
        Some (Some (Cell (set_c_parts (layout k).2 (set_c_count (layout k).1 (cdata ck)))
                         (progeny ck))).
Proof.
  unfold call_cell_split.
  destruct (cell_split (cdata c) (s_parts s) (s_cparts s)) as [[parts cparts] layout].
  intros H. ok_inv H. simpl.
  apply (for_each_seq_inv
           (fun n (pr : list (option cell)) =>
              length pr = n /\
              forall k, (k < n)%nat ->
                exists ck, progeny_at c k = Some ck /\
                  pr !! k =
                    Some (Some (Cell (set_c_parts (layout k).2
                                        (set_c_count (layout k).1 (cdata ck)))
                                     (progeny ck))))) in E.
  - destruct E as [Hlen Hall]. auto.
  - intros k pr pr' Hk [Hlen Hall] Hb. ok_inv Hb. apply deref_Ok in E0.
    split; [rewrite length_app; simpl; lia|].
    intros j Hj. destruct (decide (j = length pr)) as [Hjk|Hne].
    + rewrite Hjk. exists a0. split; [exact E0|].
      rewrite lookup_app_r by lia. now rewrite Nat.sub_diag.
    + destruct (Hall j ltac:(lia)) as (ck & H1 & H2). exists ck. split; [exact H1|].
      rewrite lookup_app_l by lia. exact H2.
  - split; [reflexivity|]. intros k Hk. lia.
Qed.

(** A loop over the progeny whose round [k] changes the entry [k] alone:
    what holds of each entry before its round, [B], and after it, [A]. *)
Lemma for_each_pointwise {St : Type} (prj : St -> list (option cell))
  (B A : nat -> option cell -> Prop) (body : St -> nat -> outcome St) (n : nat) :
  (forall k st st', (k < n)%nat -> (k < length (prj st))%nat ->
     body st k = Ok st' -> B k (mjoin (prj st !! k)) ->
     length (prj st') = length (prj st) /\ A k (mjoin (prj st' !! k)) /\
     forall j : nat, j <> k -> prj st' !! j = prj st !! j) ->
  forall st st',
    (n <= length (prj st))%nat ->
    for_each (seq 0 n) body st = Ok st' ->
    (forall k, (k < n)%nat -> B k (mjoin (prj st !! k))) ->
    length (prj st') = length (prj st) /\
    (forall k, (k < n)%nat -> A k (mjoin (prj st' !! k))) /\
    (forall j : nat, (n <= j)%nat -> prj st' !! j = prj st !! j).
Proof.
  intros Hbody st st' Hlen H HB.
  apply (for_each_seq_inv
           (fun m st1 =>
              length (prj st1) = length (prj st) /\
              (forall k, (k < m)%nat -> A k (mjoin (prj st1 !! k))) /\
              (forall j : nat, (m <= j)%nat -> prj st1 !! j = prj st !! j))) in H.
  - exact H.
  - intros k st1 st2 Hk (H1 & H2 & H3) Hb.
    destruct (Hbody k st1 st2) as (L & HA & Hother); [lia|lia|exact Hb| |].
    { rewrite H3 by lia. apply HB. lia. }
    split; [congruence|]. split.
    + intros j Hj. destruct (decide (j = k)) as [->|Hne]; [exact HA|].
      rewrite Hother by exact Hne. apply H2. lia.
    + intros j Hj. rewrite Hother by lia. apply H3. lia.
  - split; [reflexivity|]. split; [intros k Hk; lia|reflexivity].
Qed.

Lemma mjoin_lookup_Some {A : Type} (l : list (option A)) (k : nat) (x : A) :
  mjoin (l !! k) = Some x <-> l !! k = Some (Some x).
Proof.
  destruct (l !! k) as [[y|]|]; simpl; split; intros H; try discriminate; congruence.
Qed.

Section Shape.

Variable cfg : config.
Variable cell_split : cell_split_fn.
Hypothesis Hsize : 1 <= space_splitsize cfg.
Hypothesis Hcs : cell_split_counts cell_split.

(** The loop that removes the progeny with zero parts, in [space_split]. *)
Lemma remove_empty_split (layout : nat -> Z * nat) s pr s' pr' :
  for_each (seq 0 8)
    (fun '(s, pr) k =>
       ck ← deref (mjoin (pr !! k));
       if c_count (cdata ck) =? 0
       then Ok (space_recycle s ck, <[k := None]> pr)
       else Ok (s, pr))
    (s, pr) = Ok (s', pr') ->
  length pr = 8%nat ->
  (forall k, 0 <= (layout k).1) ->
  (forall k, (k < 8)%nat ->
     exists ck, mjoin (pr !! k) = Some ck /\ c_count (cdata ck) = (layout k).1 /\
                tree_shape_ok ck = true) ->
  length pr' = 8%nat /\
  forall k, (k < 8)%nat ->
    match mjoin (pr' !! k) with
    | Some ck => 0 < c_count (cdata ck) /\ tree_shape_ok ck = true
    | None => (layout k).1 = 0
    end.
Proof.
  intros H Hlen Hpos HB.
  apply (for_each_pointwise snd
           (fun k o => exists ck, o = Some ck /\ c_count (cdata ck) = (layout k).1 /\
                                  tree_shape_ok ck = true)
           (fun k o => match o with
                       | Some ck => 0 < c_count (cdata ck) /\ tree_shape_ok ck = true
                       | None => (layout k).1 = 0
                       end)) in H.
  - simpl in H. destruct H as (L & HA & _). split; [congruence|exact HA].
  - intros k [s1 pr1] st2 Hk Hkl Hb (ck & Hck & Hcount & Hshape). simpl in *.
    rewrite Hck in Hb. simpl in Hb.
    destruct (c_count (cdata ck) =? 0) eqn:E0; inversion Hb; subst; clear Hb; simpl.
    + apply Z.eqb_eq in E0. rewrite length_insert.
      split; [reflexivity|]. split.
      * rewrite list_lookup_insert_eq by lia. simpl. lia.
      * intros j Hj. apply list_lookup_insert_ne. congruence.
    + apply Z.eqb_neq in E0. split; [reflexivity|]. split; [|reflexivity].
      rewrite Hck. specialize (Hpos k). split; [lia|exact Hshape].
  - simpl. lia.
  - exact HB.
Qed.

Lemma space_split_shape fuel :
  forall s c s' c',
    space_split cfg cell_split fuel s c = Ok (s', c') ->
    c_count (cdata c') = c_count (cdata c) /\ tree_shape_ok c' = true.
Proof.
  induction fuel as [|fuel IH]; intros s c s' c' H; cbn [space_split] in H; [discriminate|].
  ok_inv H.
  2:{ split; [reflexivity|]. apply (shape_leaf _ 8). reflexivity. }
  apply andb_true_iff in E0. destruct E0 as [_ E0]. apply Z.ltb_lt in E0.
  replace (c_count (set_c_h_max q (cdata c))) with (c_count (cdata c)) in E0
    by (destruct (cdata c); reflexivity).
  apply call_cell_split_Ok in E2. cbv zeta in E2. destruct E2 as (Hd & Hlen & Hpr).
  set (layout := (cell_split (cdata (Cell (set_c_split true (set_c_h_max q (cdata c))) l))
                    (s_parts s0) (s_cparts s0)).2) in *.
  clear E1 E.
  (* Recurse? *)
  apply (for_each_pointwise snd
           (fun k o => exists ck, o = Some ck /\ c_count (cdata ck) = (layout k).1)
           (fun k o => exists ck, o = Some ck /\ c_count (cdata ck) = (layout k).1 /\
                                  tree_shape_ok ck = true)) in E3.
  2:{ intros k [sa pra] st2 Hk Hkl Hb (ck & Hck & Hcount). simpl in *.
      rewrite Hck in Hb. simpl in Hb. ok_inv Hb. simpl.
      apply IH in E. destruct E as [Ecount Eshape].
      rewrite length_insert. split; [reflexivity|]. split.
      - rewrite list_lookup_insert_eq by lia. simpl. exists c1.
        split; [reflexivity|]. split; [congruence|exact Eshape].
      - intros j Hj. apply list_lookup_insert_ne. congruence. }
  2:{ simpl. lia. }
  2:{ intros k Hk. simpl. destruct (Hpr k Hk) as (ck & _ & Hk'). rewrite Hk'. simpl.
      eexists. split; [reflexivity|]. destruct (cdata ck); reflexivity. }
  simpl in E3. destruct E3 as (Hlen0 & Hl0 & _).
  (* Remove any progeny with zero parts. *)
  destruct (Hcs (set_c_split true (set_c_h_max q (cdata c))) (s_parts s0) (s_cparts s0))
    as [Hpos _].
  apply (remove_empty_split layout) in E4; [|congruence|exact Hpos|exact Hl0].
  destruct E4 as [Hlen1 Hl1].
  split; [rewrite Hd; destruct (cdata c); reflexivity|].
  apply shape_split.
  - rewrite Hd. destruct (cdata c); reflexivity.
  - destruct (cell_split_counts_some cell_split
                (set_c_split true (set_c_h_max q (cdata c))) (s_parts s0) (s_cparts s0) Hcs)
      as (k & Hk & Hpos_k).
    { replace (c_count (set_c_split true (set_c_h_max q (cdata c))))
        with (c_count (cdata c)) by (destruct (cdata c); reflexivity). lia. }
    specialize (Hl1 k Hk). change (0 < (layout k).1) in Hpos_k.
    destruct (mjoin (l1 !! k)) as [ck|] eqn:Ek; [|lia].
    exists k, ck. apply mjoin_lookup_Some. exact Ek.
  - intros k ck Hk.
    assert (k < 8)%nat as Hk8 by (apply lookup_lt_Some in Hk; lia).
    specialize (Hl1 k Hk8). apply mjoin_lookup_Some in Hk. rewrite Hk in Hl1. exact Hl1.
Qed.

Lemma eight_progeny_cdata d d' pr : eight_progeny (Cell d pr) = eight_progeny (Cell d' pr).
Proof. reflexivity. Qed.

Lemma eight_progeny_inv d pr :
  eight_progeny (Cell d pr) = true ->
  length pr = 8%nat /\
  forall (k : nat) ck, pr !! k = Some (Some ck) -> eight_progeny ck = true.
Proof.
  simpl. intros H. apply andb_true_iff in H. destruct H as [H1 H2].
  apply Nat.eqb_eq in H1. split; [exact H1|].
  intros k ck Hk. rewrite forallb_forall in H2.
  apply (H2 (Some ck)). apply list_elem_of_In. eapply list_elem_of_lookup_2. exact Hk.
Qed.

Lemma space_rebuild_recurse_shape fuel :
  forall s c s' c' n,
    eight_progeny c = true ->
    space_rebuild_recurse cfg cell_split fuel s c = Ok (s', c', n) ->
    c_count (cdata c') = c_count (cdata c) /\ tree_shape_ok c' = true.
Proof.
  induction fuel as [|fuel IH]; intros s c s' c' n Hwf H;
    cbn [space_rebuild_recurse] in H; [discriminate|].
  destruct (c_split (cdata c)) eqn:Esplit.
  2:{ ok_inv H. eapply space_split_shape. exact E. }
  apply bind_Ok in H. destruct H as ([count h_max] & E & H).
  destruct (Qltb (inject_Z count)
              (inject_Z (c_count (set_c_h_max h_max (cdata c))) * space_splitratio cfg)
            || (c_count (set_c_h_max h_max (cdata c)) <? space_splitsize cfg)) eqn:E0.
  { (* Un-split. *)
    pose proof (space_rebuild_recycle_split (check_depth s (cdata c))
                  (set_c_h_max h_max (cdata c)) (progeny c)) as Hr.
    destruct (space_rebuild_recycle (check_depth s (cdata c))
                (Cell (set_c_h_max h_max (cdata c)) (progeny c))) as [s1 c1].
    simpl in Hr. rewrite Hr in H by (destruct (cdata c); exact Esplit).
    inversion H; subst; clear H. cbn [cdata progeny].
    split; [destruct (cdata c); reflexivity|].
    apply shape_leaf. destruct (cdata c); reflexivity. }
  ok_inv H.
  apply orb_false_iff in E0. destruct E0 as [_ E0]. apply Z.ltb_ge in E0.
  replace (c_count (set_c_h_max h_max (cdata c))) with (c_count (cdata c)) in E0
    by (destruct (cdata c); reflexivity).
  destruct c as [d pr]. cbn [cdata progeny] in *.
  apply eight_progeny_inv in Hwf. destruct Hwf as [Hlen Hwf].
  (* Populate all progeny. *)
  apply (for_each_pointwise (fun st => st.1.2)
           (fun k o => match o with Some ck => eight_progeny ck = true | None => True end)
           (fun k o => exists ck, o = Some ck /\ eight_progeny ck = true)) in E1.
  2:{ intros k [[sa pra] wa] st2 Hk Hkl Hb HB. simpl in *.
      destruct (mjoin (pra !! k)) as [ck|] eqn:Ek.
      - inversion Hb; subst; clear Hb. simpl. rewrite Ek. eauto.
      - ok_inv Hb. simpl. unfold space_getcell in E5. ok_inv E5.
        rewrite length_insert. split; [reflexivity|]. split.
        + rewrite list_lookup_insert_eq by lia. simpl. eauto.
        + intros j Hj. apply list_lookup_insert_ne. congruence. }
  2:{ simpl. lia. }
  2:{ intros k Hk. simpl. destruct (mjoin (pr !! k)) as [ck|] eqn:Ek; [|exact I].
      apply mjoin_lookup_Some in Ek. eapply Hwf. exact Ek. }
  simpl in E1. destruct E1 as (Hlen0 & Hl0 & _).
  (* Make sure each part is in its place. *)
  apply call_cell_split_Ok in E2. cbv zeta in E2. destruct E2 as (Hd & Hlenc & Hpr).
  cbn [cdata progeny] in Hd, Hpr.
  set (layout := (cell_split (set_c_h_max h_max d) (s_parts s0) (s_cparts s0)).2) in *.
  destruct (Hcs (set_c_h_max h_max d) (s_parts s0) (s_cparts s0)) as [Hpos _].
  change (forall k, 0 <= (layout k).1) in Hpos.
  (* Remove empty progeny. *)
  apply (for_each_pointwise (fun st => st.1.2)
           (fun k o => exists ck, o = Some ck /\ c_count (cdata ck) = (layout k).1 /\
                                  eight_progeny ck = true)
           (fun k o => match o with
                       | Some ck => 0 < c_count (cdata ck) /\ eight_progeny ck = true
                       | None => (layout k).1 = 0
                       end)) in E3.
  2:{ intros k [[sa pra] ca] st2 Hk Hkl Hb (ck & Hck & Hcount & Height). simpl in *.
      rewrite Hck in Hb. simpl in Hb.
      destruct (c_count (cdata ck) =? 0) eqn:Ez; inversion Hb; subst; clear Hb; simpl.
      - apply Z.eqb_eq in Ez. rewrite length_insert.
        split; [reflexivity|]. split.
        + rewrite list_lookup_insert_eq by lia. simpl. lia.
        + intros j Hj. apply list_lookup_insert_ne. congruence.
      - apply Z.eqb_neq in Ez. split; [reflexivity|]. split; [|reflexivity].
        rewrite Hck. specialize (Hpos k). split; [lia|exact Height]. }
  2:{ simpl. lia. }
  2:{ intros k Hk. simpl. destruct (Hpr k Hk) as (ck & Hck & Hk'). rewrite Hk'. simpl.
      eexists. split; [reflexivity|]. split; [destruct (cdata ck); reflexivity|].
      unfold progeny_at in Hck. cbn [progeny] in Hck.
      destruct (Hl0 k Hk) as (ck' & Hck' & Height). rewrite Hck in Hck'.
      injection Hck' as <-. destruct ck. exact Height. }
  simpl in E3. destruct E3 as (Hlen1 & Hl1 & _).
  (* Recurse. *)
  apply (for_each_pointwise (fun st => st.1.2)
           (fun k o => match o with
                       | Some ck => 0 < c_count (cdata ck) /\ eight_progeny ck = true
                       | None => (layout k).1 = 0
                       end)
           (fun k o => match o with
                       | Some ck => 0 < c_count (cdata ck) /\ tree_shape_ok ck = true
                       | None => (layout k).1 = 0
                       end)) in E4.
  2:{ intros k [[sa pra] ca] st2 Hk Hkl Hb HB. simpl in *.
      destruct (mjoin (pra !! k)) as [ck|] eqn:Ek.
      - ok_inv Hb. simpl. destruct HB as [Hcount Height].
        match goal with
        | Er : space_rebuild_recurse _ _ _ _ _ = Ok _ |- _ =>
            apply IH in Er; [|exact Height]; destruct Er as [Ecount Eshape]
        end.
        rewrite length_insert. split; [reflexivity|]. split.
        + rewrite list_lookup_insert_eq by lia. simpl. split; [lia|exact Eshape].
        + intros j Hj. apply list_lookup_insert_ne. congruence.
      - inversion Hb; subst; clear Hb. simpl. rewrite Ek. auto. }
  2:{ simpl. lia. }
  2:{ exact Hl1. }
  simpl in E4. destruct E4 as (Hlen2 & Hl2 & _).
  split; [rewrite Hd; destruct d; reflexivity|].
  apply shape_split.
  - rewrite Hd. destruct d; exact Esplit.
  - destruct (cell_split_counts_some cell_split
                (set_c_h_max h_max d) (s_parts s0) (s_cparts s0) Hcs)
      as (k & Hk & Hpos_k).
    { replace (c_count (set_c_h_max h_max d)) with (c_count d)
        by (destruct d; reflexivity). lia. }
    specialize (Hl2 k Hk). change (0 < (layout k).1) in Hpos_k.
    destruct (mjoin (l2 !! k)) as [ck|] eqn:Ek; [|lia].
    exists k, ck. apply mjoin_lookup_Some. exact Ek.
  - intros k ck Hk.
    assert (k < 8)%nat as Hk8 by (apply lookup_lt_Some in Hk; lia).
    specialize (Hl2 k Hk8). apply mjoin_lookup_Some in Hk. rewrite Hk in Hl2. exact Hl2.
Qed.

End Shape.

(** The model of [cell_split] hands out all the particles of the cell. *)
Lemma octant_lt_8 d x : (octant d x < 8)%nat.
Proof. unfold octant. repeat destruct (Qltb _ _); simpl; lia. Qed.

Lemma octant_at_lt_8 d cparts i : (octant_at d cparts i < 8)%nat.
Proof. unfold octant_at. destruct (cparts !! _); [apply octant_lt_8|lia]. Qed.

Lemma length_by_class (f : nat -> nat) (l : list nat) :
  (forall i, (f i < 8)%nat) ->
  foldr Z.add 0 (map (fun k => Z.of_nat (length (filter (fun i => f i = k) l))) (seq 0 8))
  = Z.of_nat (length l).
Proof.
  intros Hf. induction l as [|a l IH]; [reflexivity|].
  cbn [seq map foldr] in *. rewrite !filter_cons.
  specialize (Hf a). destruct (f a) as [|[|[|[|[|[|[|[|v]]]]]]]] eqn:Ea;
    [..|lia]; cbn [decide decide_rel]; simpl; lia.
Qed.

Lemma cell_split_octants_counts : cell_split_counts cell_split_octants.
Proof.
  intros d parts cparts layout. split.
  - intros k. subst layout. simpl. lia.
  - intros Hd. subst layout. cbn [cell_split_octants snd fst].
    unfold octant_members.
    rewrite (length_by_class (octant_at d cparts)) by apply octant_at_lt_8.
    rewrite length_seq. lia.
Qed.

(** C10: when [space_split] or [space_rebuild_recurse] returns on a cell
    (for the latter, a cell of a tree whose cells have their eight progeny
    entries), the cell and all the cells below it have the shape of the
    tree: a cell that is not split has its eight progeny [NULL], a split
    cell has a progeny that is not [NULL], and every progeny that is not
    [NULL] has [count > 0]. The split size is 1 at least, and [cell_split]
    stores in the progeny counts that are not negative and add up to the
    count of the cell. *)
Theorem tree_shape_after_split_and_rebuild cfg cell_split :
  1 <= space_splitsize cfg ->
  cell_split_counts cell_split ->
  (forall fuel s c s' c',
     space_split cfg cell_split fuel s c = Ok (s', c') ->
     tree_shape_ok c' = true) /\
  (forall fuel s c s' c' n,
     eight_progeny c = true ->
     space_rebuild_recurse cfg cell_split fuel s c = Ok (s', c', n) ->
     tree_shape_ok c' = true).
Proof.
  intros Hsize Hcs. split.
  - intros fuel s c s' c' H.
    eapply space_split_shape; [exact Hsize|exact Hcs|exact H].
  - intros fuel s c s' c' n Hwf H.
    eapply space_rebuild_recurse_shape; [exact Hsize|exact Hcs|exact Hwf|exact H].
Qed.

(** The claim at the unit cell with 401 particles, which [space_split]
    splits, and at the unit cell left with 400 particles, which
    [space_rebuild_recurse] keeps split. *)
Lemma tree_shape_after_split_and_rebuild_witness :
  (exists s' c',
     space_split cfg0 cell_split_octants 3 (space_halves 401) (cell_unit 401) = Ok (s', c') /\
     c_split (cdata c') = true /\ tree_shape_ok c' = true) /\
  (exists s' c' n,
     space_rebuild_recurse cfg0 cell_split_octants 3 (space_halves 400) cell_400
       = Ok (s', c', n) /\
     c_split (cdata c') = true /\ tree_shape_ok c' = true).
Proof.
  pose proof (tree_shape_after_split_and_rebuild cfg0 cell_split_octants
                ltac:(simpl; lia) cell_split_octants_counts) as [Hs Hr].
  split.
  - assert (exists s' c',
              space_split cfg0 cell_split_octants 3 (space_halves 401) (cell_unit 401)
                = Ok (s', c') /\ c_split (cdata c') = true) as (s' & c' & E & Hsplit)
      by (eexists; eexists; split; [vm_compute; reflexivity|reflexivity]).
    exists s', c'. split; [exact E|]. split; [exact Hsplit|].
    exact (Hs _ _ _ _ _ E).
  - assert (exists s' c' n,
              space_rebuild_recurse cfg0 cell_split_octants 3 (space_halves 400) cell_400
                = Ok (s', c', n) /\ c_split (cdata c') = true) as (s' & c' & n & E & Hsplit)
      by (eexists; eexists; eexists; split; [vm_compute; reflexivity|reflexivity]).
    exists s', c', n. split; [exact E|]. split; [exact Hsplit|].
    apply (Hr _ _ _ _ _ _ (eq_refl : eight_progeny cell_400 = true) E).
Defined.

(** * The split criterion at a rebuild *)

(** [space_split] splits a cell if and only if the criterion holds. *)
Lemma space_split_by_criterion cfg cell_split fuel s c s' c' count h_max :
  space_split cfg cell_split (S fuel) s c = Ok (s', c') ->
  count_below (check_depth s (cdata c)) (cdata c) (h_limit_of (cdata c)) = Ok (count, h_max) ->
  c_split (cdata c') = split_criterion cfg (cdata c) count.
Proof.
  intros H Hc. cbn [space_split] in H. rewrite Hc in H. cbn [mbind outcome_bind] in H.
  unfold split_criterion.
  replace (c_count (set_c_h_max h_max (cdata c))) with (c_count (cdata c)) in H
    by (destruct (cdata c); reflexivity).
  destruct (Qltb _ _ && _).
  - ok_inv H. apply call_cell_split_Ok in E0. destruct E0 as (Hd & _).
    cbn [cdata]. rewrite Hd. destruct (cdata c); reflexivity.
  - inversion H; subst. destruct (cdata c); reflexivity.
Qed.

(** [space_rebuild_recurse] keeps a split cell split unless
    [count < c->count*space_splitratio || c->count < space_splitsize]. *)
Lemma space_rebuild_recurse_keeps_split cfg cell_split fuel s c s' c' n count h_max :
  c_split (cdata c) = true ->
  space_rebuild_recurse cfg cell_split (S fuel) s c = Ok (s', c', n) ->
  count_below (check_depth s (cdata c)) (cdata c) (h_limit_of (cdata c)) = Ok (count, h_max) ->
  c_split (cdata c') =
    negb (Qltb (inject_Z count) (inject_Z (c_count (cdata c)) * space_splitratio cfg)
          || (c_count (cdata c) <? space_splitsize cfg)).
Proof.
  intros Hsplit H Hc. cbn [space_rebuild_recurse] in H. rewrite Hsplit, Hc in H.
  cbn [mbind outcome_bind] in H.
  replace (c_count (set_c_h_max h_max (cdata c))) with (c_count (cdata c)) in H
    by (destruct (cdata c); reflexivity).
  destruct (Qltb _ _ || _).
  - pose proof (space_rebuild_recycle_split (check_depth s (cdata c))
                  (set_c_h_max h_max (cdata c)) (progeny c)) as Hr.
    destruct (space_rebuild_recycle (check_depth s (cdata c))
                (Cell (set_c_h_max h_max (cdata c)) (progeny c))) as [s1 c1].
    inversion H; subst. destruct (cdata c1); reflexivity.
  - ok_inv H. apply call_cell_split_Ok in E0. destruct E0 as (Hd & _).
    cbn [cdata] in *. rewrite Hd. destruct (cdata c); exact Hsplit.
Qed.

(** C3, at the unit cell that was split for 401 particles and is left with
    400, all of them with [h] below the cutoff: the criterion
    [count > c->count*space_splitratio && c->count > space_splitsize] does
    not hold, 400 being the split size, and [space_rebuild_recurse] returns
    with the cell still split, with a progeny of 200 particles in each
    half, instead of dismantling the subtree; [space_split] leaves the same
    cell with the same particles unsplit. *)
Theorem split_kept_at_split_size :
  count_below (space_halves 400) (cdata cell_400) (h_limit_of (cdata cell_400))
    = Ok (400, 1 # 10) /\
  split_criterion cfg0 (cdata cell_400) 400 = false /\
  exists s' c' n,
    space_rebuild_recurse cfg0 cell_split_octants 3 (space_halves 400) cell_400
      = Ok (s', c', n) /\
    c_split (cdata c') = true /\
    map (option_map (fun ck => c_count (cdata ck))) (progeny c')
      = [Some 200; None; None; None; Some 200; None; None; None] /\
    exists s2 c2,
      space_split cfg0 cell_split_octants 3 (space_halves 400) (cell_unit 400)
        = Ok (s2, c2) /\
      c_split (cdata c2) = false.
Proof.
  split; [vm_compute; reflexivity|]. split; [reflexivity|].
  eexists. eexists. eexists. split; [vm_compute; reflexivity|].
  split; [reflexivity|]. split; [reflexivity|].
  eexists. eexists. split; [vm_compute; reflexivity|reflexivity].
Qed.

(** * The condensed particles *)

(** ** The tasks leave the particles alone *)

Lemma the_parts_on_tasks f s : the_parts (on_tasks f s) = the_parts s.
Proof. reflexivity. Qed.
Lemma the_parts_on_cell f p s : the_parts (on_cell f p s) = the_parts s.
Proof. reflexivity. Qed.
Lemma the_parts_add_nr_pairs n p s : the_parts (add_nr_pairs n p s) = the_parts s.
Proof. reflexivity. Qed.
Lemma the_parts_set_s_tasks v s : the_parts (set_s_tasks v s) = the_parts s.
Proof. reflexivity. Qed.
Lemma the_parts_set_s_tasks_size v s : the_parts (set_s_tasks_size v s) = the_parts s.
Proof. reflexivity. Qed.
Lemma the_parts_set_s_tasks_ind v s : the_parts (set_s_tasks_ind v s) = the_parts s.
Proof. reflexivity. Qed.
Lemma the_parts_set_s_cells v s : the_parts (set_s_cells v s) = the_parts s.
Proof. reflexivity. Qed.
Lemma the_parts_space_recycle s c : the_parts (space_recycle s c) = the_parts s.
Proof. reflexivity. Qed.
Lemma the_parts_check_depth s d : the_parts (check_depth s d) = the_parts s.
Proof. unfold check_depth. destruct (_ <? _); reflexivity. Qed.

Create Rewrite HintDb parts.
#[local] Hint Rewrite the_parts_on_tasks the_parts_on_cell the_parts_add_nr_pairs
  the_parts_set_s_tasks the_parts_set_s_tasks_size the_parts_set_s_tasks_ind
  the_parts_set_s_cells the_parts_space_recycle the_parts_check_depth : parts.

(** A loop whose rounds leave the particles alone. *)
Lemma for_each_parts {A : Type} (body : space -> A -> outcome space) (l : list A) s s' :
  (forall x st st', body st x = Ok st' -> the_parts st' = the_parts st) ->
  for_each l body s = Ok s' -> the_parts s' = the_parts s.
Proof.
  intros Hbody H.
  apply (for_each_inv (fun st => the_parts st = the_parts s)) in H; [exact H| |reflexivity].
  intros x st st' _ Hst Hb. rewrite <- Hst. eapply Hbody, Hb.
Qed.

Lemma for_each_parts_fst {A X : Type} (body : space * X -> A -> outcome (space * X))
  (l : list A) st0 st1 :
  (forall x st st', body st x = Ok st' -> the_parts st'.1 = the_parts st.1) ->
  for_each l body st0 = Ok st1 -> the_parts st1.1 = the_parts st0.1.
Proof.
  intros Hbody H.
  apply (for_each_inv (fun st => the_parts st.1 = the_parts st0.1)) in H;
    [exact H| |reflexivity].
  intros x st st' _ Hst Hb. rewrite <- Hst. eapply Hbody, Hb.
Qed.

Lemma space_addtask_parts s ty st fl w ci cj ut uc r :
  space_addtask s ty st fl w ci cj ut uc = Ok r -> the_parts r.1 = the_parts s.
Proof.
  unfold space_addtask. destruct (s_tasks_size s); [|discriminate].
  destruct (_ <? _); [|discriminate]. intros H. inversion H. reflexivity.
Qed.

(** Decompose the hypotheses on a computation that returned, and conclude
    from what is known of its parts. *)
Ltac parts_step :=
  match goal with
  | H : mbind _ _ = Ok _ |- _ =>
      let a := fresh "a" in let E := fresh "E" in
      apply bind_Ok in H; destruct H as (a & E & H)
  | H : (let '(_, _) := ?p in _) = Ok _ |- _ => destruct p
  | H : (let '(_, _) := ?p in _) _ = Ok _ |- _ => destruct p
  | H : Ok _ = Ok _ |- _ => inversion H; subst; clear H
  | H : Fault = Ok _ |- _ => discriminate H
  | H : Timeout = Ok _ |- _ => discriminate H
  | H : Abort _ = Ok _ |- _ => discriminate H
  | H : deref _ = Ok _ |- _ => clear H
  | H : sorts_at _ _ = Ok _ |- _ => clear H
  | H : sorts_pts _ _ _ = Ok _ |- _ => clear H
  | H : the_cell _ _ = Ok _ |- _ => clear H
  | H : top_cell _ = Ok _ |- _ => clear H
  | H : super_ghost _ _ = Ok _ |- _ => clear H
  | H : ghost_of _ _ = Ok _ |- _ => clear H
  | H : first_progeny _ _ _ = Ok _ |- _ => clear H
  | H : space_addtask _ _ _ _ _ _ _ _ _ = Ok _ |- _ =>
      apply space_addtask_parts in H; cbn [fst snd] in H
  | H : (if ?b then _ else _) = Ok _ |- _ => destruct b
  | H : match ?x with _ => _ end = Ok _ |- _ => destruct x
  end.

Ltac parts_done :=
  cbn [fst snd] in *; autorewrite with parts in *; congruence.

(** [known H] turns a hypothesis [H] on a call that returned into what is
    known of the particles after it. *)
Ltac parts_with known :=
  repeat first
    [ parts_step
    | match goal with H : _ = Ok _ |- _ => known H; cbn [fst snd] in H end
    | match goal with
      | H : for_each _ _ _ = Ok _ |- _ =>
          first [ apply for_each_parts in H;
                  [|let Hb := fresh "Hb" in clear; intros ? ? ? Hb; parts_with known]
                | apply for_each_parts_fst in H;
                  [|let Hb := fresh "Hb" in clear; intros ? [? ?] [? ?] Hb;
                    parts_with known] ]
      end ];
  parts_done.

Ltac known0 H := fail.

Lemma link_sorts_parts d dk s s' : link_sorts d dk s = Ok s' -> the_parts s' = the_parts s.
Proof. unfold link_sorts. intros H. parts_with known0. Qed.

Lemma unlock_by_all_sorts_parts d t s s' :
  unlock_by_all_sorts d t s = Ok s' -> the_parts s' = the_parts s.
Proof. unfold unlock_by_all_sorts. intros H. parts_with known0. Qed.

Lemma make_sorts_parts do_sort p d s r :
  make_sorts do_sort p d s = Ok r -> the_parts r.2 = the_parts s.
Proof. unfold make_sorts. intros H. parts_with known0. Qed.

Lemma modify_cell_parts f p s s' : modify_cell f p s = Ok s' -> the_parts s' = the_parts s.
Proof. unfold modify_cell. intros H. parts_with known0. Qed.

Lemma space_map_clearnrtasks_parts anc p d s r :
  space_map_clearnrtasks anc p d s = Ok r -> the_parts r.2 = the_parts s.
Proof. unfold space_map_clearnrtasks. intros H. parts_with known0. Qed.

Lemma space_map_mkghosts_parts anc p d s r :
  space_map_mkghosts anc p d s = Ok r -> the_parts r.2 = the_parts s.
Proof. unfold space_map_mkghosts. intros H. parts_with known0. Qed.

Lemma self_to_sub_parts tid ci s s' :
  self_to_sub tid ci s = Ok s' -> the_parts s' = the_parts s.
Proof. unfold self_to_sub. intros H. parts_with known0. Qed.

Lemma self_explicit_parts tid pi ci s s' :
  self_explicit tid pi ci s = Ok s' -> the_parts s' = the_parts s.
Proof. unfold self_explicit. intros H. parts_with known0. Qed.

Ltac known1 H :=
  match type of H with
  | link_sorts _ _ _ = Ok _ => apply link_sorts_parts in H
  | unlock_by_all_sorts _ _ _ = Ok _ => apply unlock_by_all_sorts_parts in H
  | make_sorts _ _ _ _ = Ok _ => apply make_sorts_parts in H
  | modify_cell _ _ _ = Ok _ => apply modify_cell_parts in H
  | self_to_sub _ _ _ = Ok _ => apply self_to_sub_parts in H
  | self_explicit _ _ _ _ = Ok _ => apply self_explicit_parts in H
  end.

Lemma pair_to_sub_parts tid sid ci cj s s' :
  pair_to_sub tid sid ci cj s = Ok s' -> the_parts s' = the_parts s.
Proof. unfold pair_to_sub. intros H. parts_with known1. Qed.

Lemma the_parts_foldl {A : Type} (g : space -> A -> space) (l : list A) s :
  (forall s a, the_parts (g s a) = the_parts s) ->
  the_parts (foldl g s l) = the_parts s.
Proof.
  intros Hg. revert s. induction l as [|a l IH]; intros s; simpl; [reflexivity|].
  rewrite IH. apply Hg.
Qed.

Lemma pair_explicit_parts tid sid pi pj ci cj s s' :
  pair_explicit tid sid pi pj ci cj s = Ok s' -> the_parts s' = the_parts s.
Proof.
  unfold pair_explicit. intros H.
  destruct (sid <? 0); [discriminate|].
  do 2 (apply bind_Ok in H; destruct H as (? & _ & H)).
  destruct (split_cases sid) as [[[[pairs las] lbs] n]|]; [|parts_with known1].
  apply bind_Ok in H. destruct H as (t0 & _ & H).
  apply bind_Ok in H. destruct H as ([s1 b1] & E & H).
  inversion H; subst; clear H.
  rewrite !the_parts_foldl by (intros; reflexivity).
  parts_with known1.
Qed.

Lemma splittasks_step_parts cfg tid s r :
  splittasks_step cfg tid s = Ok r -> the_parts r.1 = the_parts s.
Proof.
  unfold splittasks_step. intros H.
  apply bind_Ok in H. destruct H as (t & _ & H).
  destruct (t_type t); try (inversion H; reflexivity).
  - (* self *)
    apply bind_Ok in H. destruct H as (ci & _ & H).
    destruct (negb _); [inversion H; reflexivity|].
    destruct (_ <? _); parts_with known1.
  - (* pair *)
    apply bind_Ok in H. destruct H as (pj & _ & H).
    apply bind_Ok in H. destruct H as (ci & _ & H).
    apply bind_Ok in H. destruct H as (cj & _ & H).
    destruct (_ && _ && _ && _); [|inversion H; reflexivity].
    destruct (pair_sid s (cdata ci) (cdata cj) <? 13);
      (destruct (_ && _ && _ && _ && _ && _);
       [ apply bind_Ok in H; destruct H as (s1 & E & H);
         apply pair_to_sub_parts in E
       | apply bind_Ok in H; destruct H as (s1 & E & H);
         apply pair_explicit_parts in E ];
       inversion H; subst; clear H; parts_done).
Qed.

Lemma space_splittasks_parts cfg fuel : forall tid s s',
  space_splittasks cfg fuel tid s = Ok s' -> the_parts s' = the_parts s.
Proof.
  induction fuel as [|fuel IH]; intros tid s s' H; simpl in H.
  - destruct (negb _); [inversion H; reflexivity|discriminate].
  - destruct (negb _); [inversion H; reflexivity|].
    apply bind_Ok in H. destruct H as ([s1 tid1] & E & H).
    apply splittasks_step_parts in E. apply IH in H. parts_done.
Qed.

Lemma add_top_pair_parts cid i j k ii jj kk s s' :
  add_top_pair cid i j k ii jj kk s = Ok s' -> the_parts s' = the_parts s.
Proof. unfold add_top_pair. intros H. parts_with known1. Qed.

Ltac known2 H :=
  match type of H with
  | add_top_pair _ _ _ _ _ _ _ _ = Ok _ => apply add_top_pair_parts in H
  | _ => known1 H
  end.

Lemma add_top_tasks_parts i j k s s' :
  add_top_tasks i j k s = Ok s' -> the_parts s' = the_parts s.
Proof. unfold add_top_tasks. intros H. parts_with known2. Qed.

Ltac known3 H :=
  match type of H with
  | add_top_tasks _ _ _ _ = Ok _ => apply add_top_tasks_parts in H
  | _ => known2 H
  end.

Lemma add_all_top_tasks_parts s s' :
  add_all_top_tasks s = Ok s' -> the_parts s' = the_parts s.
Proof.
  unfold add_all_top_tasks. generalize (s_cdim s). intros cdim H. parts_with known3.
Qed.

Lemma drop_idle_sort_parts k s s' :
  drop_idle_sort k s = Ok s' -> the_parts s' = the_parts s.
Proof. unfold drop_idle_sort. intros H. parts_with known1. Qed.

Lemma count_tasks_of_parts k s s' :
  count_tasks_of k s = Ok s' -> the_parts s' = the_parts s.
Proof. unfold count_tasks_of, count_task, store_density. intros H. parts_with known1. Qed.

Lemma make_force_parts k s s' : make_force k s = Ok s' -> the_parts s' = the_parts s.
Proof. unfold make_force. intros H. parts_with known1. Qed.

Lemma make_forces_parts fuel : forall k s s',
  make_forces fuel k s = Ok s' -> the_parts s' = the_parts s.
Proof.
  induction fuel as [|fuel IH]; intros k s s' H; simpl in H.
  - destruct (negb _); [inversion H; reflexivity|discriminate].
  - destruct (negb _); [inversion H; reflexivity|].
    apply bind_Ok in H. destruct H as (s1 & E & H).
    apply make_force_parts in E. apply IH in H. parts_done.
Qed.

(** The loops over the cell tree. *)
Lemma for_progeny_parts (body : nat -> cell -> space -> outcome (cell * space)) pr :
  Forall (fun o => match o with
                   | Some ck => forall k s r, body k ck s = Ok r -> the_parts r.2 = the_parts s
                   | None => True
                   end) pr ->
  forall k s r, for_progeny body k pr s = Ok r -> the_parts r.2 = the_parts s.
Proof.
  induction 1 as [|o pr Ho _ IH]; intros k s r H; simpl in H.
  - inversion H. reflexivity.
  - destruct o as [ck|].
    + apply bind_Ok in H. destruct H as ([ck1 s1] & E & H).
      apply bind_Ok in H. destruct H as ([pr1 s2] & E2 & H).
      apply Ho in E. apply IH in E2. inversion H; subst. parts_done.
    + apply bind_Ok in H. destruct H as ([pr1 s2] & E2 & H).
      apply IH in E2. inversion H; subst. parts_done.
Qed.

Lemma rec_map_parts full (fn : cell_fun) :
  (forall anc p d s r, fn anc p d s = Ok r -> the_parts r.2 = the_parts s) ->
  forall c anc p s r, rec_map full fn anc p c s = Ok r -> the_parts r.2 = the_parts s.
Proof.
  intros Hfn. induction c as [d pr IH] using cell_tree_ind.
  intros anc p s r H. simpl in H.
  apply bind_Ok in H. destruct H as ([d1 s1] & E & H).
  assert (the_parts s1 = the_parts s) as E1.
  { destruct (full || negb (c_split d)); [apply Hfn in E; exact E|].
    inversion E; reflexivity. }
  destruct (c_split d1); [|inversion H; subst; exact E1].
  apply bind_Ok in H. destruct H as ([pr1 s2] & E2 & H).
  apply for_progeny_parts in E2.
  - inversion H; subst. parts_done.
  - eapply Forall_impl; [exact IH|]. intros [ck|] Hck; [|exact I].
    intros k s3 r3. apply Hck.
Qed.

Lemma space_map_cells_parts s full (fn : cell_fun) s' :
  (forall anc p d s r, fn anc p d s = Ok r -> the_parts r.2 = the_parts s) ->
  space_map_cells s full fn = Ok s' -> the_parts s' = the_parts s.
Proof.
  intros Hfn. unfold space_map_cells. intros H.
  apply bind_Ok in H. destruct H as ([cells s1] & E & H). inversion H; subst; clear H.
  autorewrite with parts.
  assert (forall cells0 i s0 r, map_cells_from full fn i cells0 s0 = Ok r ->
                                the_parts r.2 = the_parts s0) as Hmap.
  { induction cells0 as [|c cells0 IH]; intros i s0 r H; simpl in H.
    - inversion H. reflexivity.
    - apply bind_Ok in H. destruct H as ([c1 s2] & E1 & H).
      apply bind_Ok in H. destruct H as ([cells1 s3] & E2 & H).
      apply (rec_map_parts _ _ Hfn) in E1. apply IH in E2.
      inversion H; subst. parts_done. }
  apply Hmap in E. exact E.
Qed.

Lemma maketasks_sort_rec_parts do_sort :
  forall c p s r, maketasks_sort_rec do_sort p c s = Ok r -> the_parts r.2 = the_parts s.
Proof.
  induction c as [d pr IH] using cell_tree_ind.
  intros p s r H. simpl in H.
  apply bind_Ok in H. destruct H as ([d1 s1] & E & H).
  apply make_sorts_parts in E.
  destruct (c_split d1); [|inversion H; subst; exact E].
  apply bind_Ok in H. destruct H as ([pr1 s2] & E2 & H).
  apply for_progeny_parts in E2.
  - inversion H; subst. parts_done.
  - eapply Forall_impl; [exact IH|]. intros [ck|] Hck; [|exact I].
    intros k s3 r3 Hb.
    apply bind_Ok in Hb. destruct Hb as ([ck1 s4] & E3 & Hb).
    apply bind_Ok in Hb. destruct Hb as (s5 & E4 & Hb).
    apply Hck in E3. apply link_sorts_parts in E4. inversion Hb; subst. parts_done.
Qed.

Lemma sort_cells_from_parts do_sort cells :
  forall i s r, sort_cells_from do_sort i cells s = Ok r -> the_parts r.2 = the_parts s.
Proof.
  induction cells as [|c cells IH]; intros i s r H; simpl in H.
  - inversion H. reflexivity.
  - apply bind_Ok in H. destruct H as ([c1 s2] & E1 & H).
    apply bind_Ok in H. destruct H as ([cells1 s3] & E2 & H).
    apply maketasks_sort_rec_parts in E1. apply IH in E2.
    inversion H; subst. parts_done.
Qed.

(** [space_maketasks] leaves the particles alone. *)
Lemma space_maketasks_parts cfg fuel s do_sort s' :
  space_maketasks cfg fuel s do_sort = Ok s' -> the_parts s' = the_parts s.
Proof.
  unfold space_maketasks. intros H.
  apply bind_Ok in H. destruct H as ([cells s1] & E1 & H).
  apply sort_cells_from_parts in E1.
  apply bind_Ok in H. destruct H as (s2 & E2 & H). apply add_all_top_tasks_parts in E2.
  apply bind_Ok in H. destruct H as (s3 & E3 & H). apply space_splittasks_parts in E3.
  apply bind_Ok in H. destruct H as (s4 & E4 & H).
  apply for_each_parts in E4; [|intros ? ? ?; apply drop_idle_sort_parts].
  apply bind_Ok in H. destruct H as (s5 & E5 & H).
  apply space_map_cells_parts in E5; [|apply space_map_clearnrtasks_parts].
  apply bind_Ok in H. destruct H as (s6 & E6 & H).
  apply for_each_parts in E6; [|intros ? ? ?; apply count_tasks_of_parts].
  apply bind_Ok in H. destruct H as (s7 & E7 & H).
  apply space_map_cells_parts in E7; [|apply space_map_mkghosts_parts].
  apply bind_Ok in H. destruct H as (s8 & E8 & H). apply make_forces_parts in E8.
  inversion H; subst; clear H.
  destruct (match s_tasks_size s with Some size => size <? s_tot_cells s * 43 | None => true end);
    parts_done.
Qed.

(** ** The cell tree moves the two arrays alike *)

Lemma the_parts_set_s_maxdepth v s : the_parts (set_s_maxdepth v s) = the_parts s.
Proof. reflexivity. Qed.
Lemma the_parts_set_s_tot_cells v s : the_parts (set_s_tot_cells v s) = the_parts s.
Proof. reflexivity. Qed.
Lemma the_parts_set_s_cells_new v s : the_parts (set_s_cells_new v s) = the_parts s.
Proof. reflexivity. Qed.
Lemma the_parts_set_s_cdim v s : the_parts (set_s_cdim v s) = the_parts s.
Proof. reflexivity. Qed.
Lemma the_parts_set_s_h v s : the_parts (set_s_h v s) = the_parts s.
Proof. reflexivity. Qed.
Lemma the_parts_set_s_ih v s : the_parts (set_s_ih v s) = the_parts s.
Proof. reflexivity. Qed.
Lemma the_parts_set_s_h_max v s : the_parts (set_s_h_max v s) = the_parts s.
Proof. reflexivity. Qed.
Lemma the_parts_set_s_h_min v s : the_parts (set_s_h_min v s) = the_parts s.
Proof. reflexivity. Qed.

#[local] Hint Rewrite the_parts_set_s_maxdepth the_parts_set_s_tot_cells
  the_parts_set_s_cells_new the_parts_set_s_cdim the_parts_set_s_h the_parts_set_s_ih
  the_parts_set_s_h_max the_parts_set_s_h_min : parts.

Lemma space_getcell_parts cfg s r : space_getcell cfg s = Ok r -> the_parts r.1 = the_parts s.
Proof. unfold space_getcell. intros H. parts_with known0. Qed.

Lemma space_rebuild_recycle_parts c : forall s, the_parts (space_rebuild_recycle s c).1 = the_parts s.
Proof.
  induction c as [d pr IH] using cell_tree_ind. intros s. simpl.
  destruct (c_split d); [|reflexivity].
  assert (the_parts (recycle_progeny space_rebuild_recycle s pr).1 = the_parts s) as H.
  { revert s. induction IH as [|o pr Ho _ IHpr]; intros s; simpl; [reflexivity|].
    destruct o as [ck|].
    - specialize (Ho s). destruct (space_rebuild_recycle s ck) as [s1 ck1].
      specialize (IHpr (space_recycle s1 ck1)).
      destruct (recycle_progeny space_rebuild_recycle (space_recycle s1 ck1) pr).
      simpl in *. rewrite IHpr. autorewrite with parts. exact Ho.
    - specialize (IHpr s). destruct (recycle_progeny space_rebuild_recycle s pr).
      exact IHpr. }
  destruct (recycle_progeny space_rebuild_recycle s pr). exact H.
Qed.

(** A loop that returned has run all its rounds. *)
Lemma for_each_rounds {A S : Type} (body : S -> A -> outcome S) (l : list A) st st' x :
  for_each l body st = Ok st' -> x ∈ l -> exists st1 st2, body st1 x = Ok st2.
Proof.
  revert st. induction l as [|y l IH]; intros st H Hx; [inversion Hx|].
  simpl in H. apply bind_Ok in H. destruct H as (st1 & E & H).
  apply elem_of_cons in Hx. destruct Hx as [->|Hx]; [eauto|]. eapply IH; eauto.
Qed.

(** [count_below] reads the particles of the cell. *)
Lemma count_below_in_range s d h_limit r :
  count_below s d h_limit = Ok r -> in_cell_range d (s_cparts s).
Proof.
  unfold count_below. intros H k Hk.
  destruct (for_each_rounds _ _ _ _ k H) as ([count h_max] & st2 & Hb).
  { apply elem_of_seq. lia. }
  apply bind_Ok in Hb. destruct Hb as (cp & E & _). apply deref_Ok in E.
  eapply lookup_lt_Some. exact E.
Qed.

Section Arrays.

Variable cfg : config.
Variable cell_split : cell_split_fn.
Hypothesis Hmirrors : cell_split_mirrors cell_split.
Variable N : Z.
Variable L : nat.

Lemma call_cell_split_arrays s c s' c' :
  in_cell_range (cdata c) (s_cparts s) ->
  arrays_ok N L (the_parts s) ->
  call_cell_split cell_split s c = Ok (s', c') ->
  arrays_ok N L (the_parts s').
Proof.
  intros Hrange (Hm & Hlen & HN) H. unfold call_cell_split in H.
  destruct (Hmirrors (cdata c) (s_parts s) (s_cparts s) Hrange Hm) as [Hm' Hlen'].
  destruct (cell_split (cdata c) (s_parts s) (s_cparts s)) as [[parts cparts] layout].
  apply bind_Ok in H. destruct H as (pr & _ & H). inversion H; subst; clear H.
  unfold arrays_ok. simpl in *. auto with lia.
Qed.

Lemma space_split_arrays fuel :
  forall s c s' c',
    arrays_ok N L (the_parts s) ->
    space_split cfg cell_split fuel s c = Ok (s', c') ->
    arrays_ok N L (the_parts s').
Proof.
  induction fuel as [|fuel IH]; intros s c s' c' Hok H; cbn [space_split] in H;
    [discriminate|].
  apply bind_Ok in H. destruct H as ([count h_max] & Ecount & H).
  apply count_below_in_range in Ecount.
  destruct (_ && _); [|inversion H; subst; autorewrite with parts; exact Hok].
  apply bind_Ok in H. destruct H as ([s1 pr1] & E1 & H).
  apply for_each_parts_fst in E1.
  2:{ clear. intros k [s pr] st' Hb. parts_with ltac:(fun H => apply space_getcell_parts in H). }
  cbn [fst] in E1. autorewrite with parts in E1.
  apply bind_Ok in H. destruct H as ([s2 c2] & E2 & H).
  apply call_cell_split_arrays in E2.
  2:{ cbn [cdata]. replace (s_cparts s1) with (s_cparts (check_depth s (cdata c))).
      - intros k Hk. apply Ecount. destruct (cdata c); exact Hk.
      - change (s_cparts s1) with (the_parts s1).1.2. rewrite E1.
        unfold check_depth. destruct (_ <? _); reflexivity. }
  2:{ rewrite E1. exact Hok. }
  apply bind_Ok in H. destruct H as ([s3 pr3] & E3 & H).
  apply (for_each_inv (fun st => arrays_ok N L (the_parts st.1))) in E3; [|clear -IH|exact E2].
  2:{ intros k [sa pra] st' _ Ha Hb. cbn [fst] in *.
      apply bind_Ok in Hb. destruct Hb as (ck & _ & Hb).
      apply bind_Ok in Hb. destruct Hb as ([sb ckb] & Eb & Hb).
      inversion Hb; subst. eapply IH; [exact Ha|exact Eb]. }
  apply bind_Ok in H. destruct H as ([s4 pr4] & E4 & H).
  apply for_each_parts_fst in E4.
  2:{ clear. intros k [s pr] st' Hb. parts_with known0. }
  inversion H; subst; clear H. cbn [fst] in *. rewrite E4. exact E3.
Qed.

Lemma space_rebuild_recurse_arrays fuel :
  forall s c s' c' n,
    arrays_ok N L (the_parts s) ->
    space_rebuild_recurse cfg cell_split fuel s c = Ok (s', c', n) ->
    arrays_ok N L (the_parts s').
Proof.
  induction fuel as [|fuel IH]; intros s c s' c' n Hok H;
    cbn [space_rebuild_recurse] in H; [discriminate|].
  destruct (c_split (cdata c)).
  2:{ apply bind_Ok in H. destruct H as ([s1 c1] & E & H).
      inversion H; subst. eapply space_split_arrays; [exact Hok|exact E]. }
  apply bind_Ok in H. destruct H as ([count h_max] & Ecount & H).
  apply count_below_in_range in Ecount.
  destruct (_ || _).
  { pose proof (space_rebuild_recycle_parts (Cell (set_c_h_max h_max (cdata c)) (progeny c))
                  (check_depth s (cdata c))) as Hr.
    destruct (space_rebuild_recycle _ _) as [s1 c1].
    inversion H; subst. cbn [fst] in Hr. rewrite Hr. autorewrite with parts. exact Hok. }
  apply bind_Ok in H. destruct H as ([[s1 pr1] w1] & E1 & H).
  apply (for_each_inv (fun st => the_parts st.1.1 = the_parts s)) in E1.
  2:{ clear. intros k [[sa pra] wa] st' _ Ha Hb. cbn [fst] in *.
      destruct (mjoin (pra !! k)).
      - inversion Hb; subst. exact Ha.
      - apply bind_Ok in Hb. destruct Hb as ([sb temp] & Eb & Hb).
        apply space_getcell_parts in Eb. inversion Hb; subst. cbn [fst] in *. congruence. }
  2:{ cbn [fst]. apply the_parts_check_depth. }
  cbn [fst] in E1.
  apply bind_Ok in H. destruct H as ([s2 c2] & E2 & H).
  apply call_cell_split_arrays in E2.
  2:{ cbn [cdata]. replace (s_cparts s1) with (s_cparts (check_depth s (cdata c))).
      - intros k Hk. apply Ecount. destruct (cdata c); exact Hk.
      - change (s_cparts s1) with (the_parts s1).1.2. rewrite E1.
        unfold check_depth. destruct (_ <? _); reflexivity. }
  2:{ rewrite E1. exact Hok. }
  apply bind_Ok in H. destruct H as ([[s3 pr3] z3] & E3 & H).
  apply (for_each_inv (fun st => the_parts st.1.1 = the_parts s2)) in E3; [| |reflexivity].
  2:{ clear. intros k [[sa pra] za] st' _ Ha Hb. cbn [fst] in *.
      apply bind_Ok in Hb. destruct Hb as (ck & _ & Hb).
      destruct (_ =? _); inversion Hb; subst; cbn [fst]; autorewrite with parts; exact Ha. }
  cbn [fst] in E3.
  apply bind_Ok in H. destruct H as ([[s4 pr4] z4] & E4 & H).
  apply (for_each_inv (fun st => arrays_ok N L (the_parts st.1.1))) in E4;
    [|clear -IH|cbn [fst]; rewrite E3; exact E2].
  2:{ intros k [[sa pra] za] st' _ Ha Hb. cbn [fst] in *.
      destruct (mjoin (pra !! k)) as [ck|]; [|inversion Hb; subst; exact Ha].
      apply bind_Ok in Hb. destruct Hb as ([[sb ckb] nb] & Eb & Hb).
      inversion Hb; subst. eapply IH; [exact Ha|exact Eb]. }
  inversion H; subst. exact E4.
Qed.

Lemma rebuild_cells_arrays fuel cells :
  forall s cells' s' n,
    arrays_ok N L (the_parts s) ->
    rebuild_cells cfg cell_split fuel cells s = Ok (cells', s', n) ->
    arrays_ok N L (the_parts s').
Proof.
  induction cells as [|c cells IH]; intros s cells' s' n Hok H; simpl in H.
  - inversion H; subst. exact Hok.
  - apply bind_Ok in H. destruct H as ([[s1 c1] n1] & E1 & H).
    apply bind_Ok in H. destruct H as ([[cells2 s2] n2] & E2 & H).
    inversion H; subst.
    eapply IH; [|exact E2]. eapply space_rebuild_recurse_arrays; [exact Hok|exact E1].
Qed.

End Arrays.

(** ** The rebuild *)

Lemma new_top_cells_parts s cdim s' :
  new_top_cells s cdim = Ok s' -> the_parts s' = the_parts s.
Proof.
  unfold new_top_cells. intros H.
  destruct (_ <? 0); [discriminate|].
  apply bind_Ok in H. destruct H as (cells & _ & H). inversion H; subst; clear H.
  autorewrite with parts.
  destruct (s_cells s) as [cells0|]; [|reflexivity].
  autorewrite with parts. apply the_parts_foldl.
  intros s0 c. apply space_rebuild_recycle_parts.
Qed.

Lemma bin_parts_parts s r : bin_parts s = Ok r -> the_parts r.1 = the_parts s.
Proof.
  unfold bin_parts. intros H.
  apply for_each_parts_fst in H; [exact H|].
  clear. intros k [s ind] st' Hb. parts_with known1.
Qed.

Lemma hook_cells_parts s : the_parts (hook_cells s) = the_parts s.
Proof. unfold hook_cells. destruct (foldl _ _ _). reflexivity. Qed.

(** The loop that updates the condensed particle data. *)
Lemma update_cparts_spec s s' :
  update_cparts s = Ok s' ->
  s_parts s' = s_parts s /\ s_nr_parts s' = s_nr_parts s /\
  length (s_cparts s') = length (s_cparts s) /\
  forall k : nat, (k < Z.to_nat (s_nr_parts s))%nat ->
    exists p, s_parts s !! k = Some p /\ s_cparts s' !! k = Some (condense p).
Proof.
  unfold update_cparts. intros H.
  apply (for_each_seq_inv
           (fun m st =>
              s_parts st = s_parts s /\ s_nr_parts st = s_nr_parts s /\
              length (s_cparts st) = length (s_cparts s) /\
              forall k : nat, (k < m)%nat ->
                exists p, s_parts s !! k = Some p /\ s_cparts st !! k = Some (condense p)))
    in H.
  - exact H.
  - intros k st st' Hk (Hp & Hn & Hl & Hall) Hb.
    apply bind_Ok in Hb. destruct Hb as (p & Ep & Hb). apply deref_Ok in Ep.
    apply bind_Ok in Hb. destruct Hb as (cparts & Ew & Hb).
    inversion Hb; subst; clear Hb. simpl.
    unfold wr in Ew. destruct (_ || _) eqn:Eb; [discriminate|].
    apply orb_false_iff in Eb. destruct Eb as [_ Eb]. apply Z.leb_gt in Eb.
    inversion Ew; subst; clear Ew. rewrite Nat2Z.id. simpl.
    split; [exact Hp|]. split; [exact Hn|]. split; [rewrite length_insert; exact Hl|].
    intros j Hj. destruct (decide (j = k)) as [->|Hne].
    + exists p. split; [congruence|]. apply list_lookup_insert_eq. lia.
    + destruct (Hall j ltac:(lia)) as (q & H1 & H2). exists q. split; [exact H1|].
      rewrite list_lookup_insert_ne by congruence. exact H2.
  - repeat split; intros k Hk; lia.
Qed.

(** The arrays when [space_rebuild] returns. *)
Lemma space_rebuild_arrays cfg cell_split fuel s force cell_max s' n :
  cell_split_mirrors cell_split ->
  length (s_cparts s) = Z.to_nat (s_nr_parts s) ->
  space_rebuild cfg cell_split fuel s force cell_max = Ok (s', n) ->
  arrays_ok (s_nr_parts s) (Z.to_nat (s_nr_parts s)) (the_parts s').
Proof.
  intros Hmirrors Hlen H. unfold space_rebuild in H.
  apply bind_Ok in H. destruct H as ([h_max h_min] & _ & H).
  apply bind_Ok in H. destruct H as ([s1 ch1] & E1 & H).
  assert (the_parts s1 = the_parts s) as P1.
  { destruct (_ || _ || _ || _).
    - apply bind_Ok in E1. destruct E1 as (s0 & E0 & E1).
      apply new_top_cells_parts in E0. inversion E1; subst.
      rewrite E0. reflexivity.
    - inversion E1; subst. reflexivity. }
  clear E1.
  apply bind_Ok in H. destruct H as ([s2 ind] & E2 & H).
  apply bin_parts_parts in E2. cbn [fst] in E2.
  apply bind_Ok in H. destruct H as ([parts ind'] & _ & H).
  apply bind_Ok in H. destruct H as (s3 & E3 & H).
  apply update_cparts_spec in E3. cbn [s_parts s_cparts s_nr_parts set_s_parts] in E3.
  destruct E3 as (Hp3 & Hn3 & Hl3 & Hall3).
  assert (s_cparts s2 = s_cparts s /\ s_nr_parts s2 = s_nr_parts s) as [Hc2 Hn2].
  { rewrite P1 in E2. unfold the_parts in E2. inversion E2. auto. }
  rewrite Hn2 in *. rewrite Hc2 in *.
  apply bind_Ok in H. destruct H as ([[cells s4] n4] & E4 & H).
  apply (rebuild_cells_arrays cfg cell_split Hmirrors
           (s_nr_parts s) (Z.to_nat (s_nr_parts s))) in E4.
  2:{ rewrite hook_cells_parts. unfold arrays_ok, the_parts. cbn [fst snd].
      split; [|split; [congruence|exact Hn3]].
      intros i cp Hi.
      assert (i < Z.to_nat (s_nr_parts s))%nat as Hlt
        by (apply lookup_lt_Some in Hi; lia).
      destruct (Hall3 i Hlt) as (p & H1 & H2). exists p. split; [congruence|congruence]. }
  apply bind_Ok in H. destruct H as (s5 & E5 & H). inversion H; subst; clear H.
  destruct (negb _).
  - apply space_maketasks_parts in E5. rewrite E5. autorewrite with parts. exact E4.
  - inversion E5; subst. autorewrite with parts. exact E4.
Qed.

(** C9: when [space_rebuild] returns, every condensed particle of index
    [i < nr_parts] holds the position, [h] and [dt] of the particle at the
    same index. [cparts] is an array of [nr_parts] entries, as [space_init]
    allocates it, and [cell_split], called on a cell whose particles lie in
    the array, moves the two arrays alike. *)
Theorem cparts_mirror_parts cfg cell_split fuel s force cell_max s' n :
  cell_split_mirrors cell_split ->
  length (s_cparts s) = Z.to_nat (s_nr_parts s) ->
  space_rebuild cfg cell_split fuel s force cell_max = Ok (s', n) ->
  s_nr_parts s' = s_nr_parts s /\
  forall i : nat, Z.of_nat i < s_nr_parts s' ->
    exists p cp,
      s_parts s' !! i = Some p /\ s_cparts s' !! i = Some cp /\
      vget (cp_x cp) 0 = vget (p_x p) 0 /\
      vget (cp_x cp) 1 = vget (p_x p) 1 /\
      vget (cp_x cp) 2 = vget (p_x p) 2 /\
      cp_h cp = p_h p /\ cp_dt cp = p_dt p.
Proof.
  intros Hmirrors Hlen H.
  destruct (space_rebuild_arrays _ _ _ _ _ _ _ _ Hmirrors Hlen H) as (Hm & Hl & Hn).
  unfold the_parts in *. cbn [fst snd] in *.
  split; [exact Hn|]. intros i Hi.
  destruct (lookup_lt_is_Some_2 (s_cparts s') i) as [cp Hcp]; [lia|].
  destruct (Hm i cp Hcp) as (p & Hp & ->).
  exists p, (condense p). repeat split; assumption.
Qed.

(** The model of [cell_split] moves the two arrays alike. *)
Lemma gather_length {A : Type} first order (a0 : list A) :
  length (gather first order a0) = length a0.
Proof.
  unfold gather. generalize (zip (seq 0 (length order)) order). intros l.
  generalize a0 at 2 3. induction l as [|[r i] l IH]; intros a; simpl; [reflexivity|].
  rewrite IH. destruct (a0 !! (first + i)%nat); [apply length_insert|reflexivity].
Qed.

Lemma gather_rounds_mirrored first parts cparts (l : list (nat * nat)) :
  mirrored parts cparts ->
  (forall r i, (r, i) ∈ l -> (first + i < length cparts)%nat) ->
  forall pa ca,
    mirrored pa ca ->
    mirrored
      (foldl (fun a '(r, i) =>
                match parts !! (first + i)%nat with
                | Some x => <[(first + r)%nat := x]> a
                | None => a
                end) pa l)
      (foldl (fun a '(r, i) =>
                match cparts !! (first + i)%nat with
                | Some x => <[(first + r)%nat := x]> a
                | None => a
                end) ca l).
Proof.
  intros Hm. induction l as [|[r i] l IH]; intros Hl pa ca Hacc; simpl; [exact Hacc|].
  apply IH; [intros r' i' Hin; apply (Hl r' i'); now right|].
  specialize (Hl r i ltac:(now left)).
  destruct (lookup_lt_is_Some_2 cparts (first + i)%nat Hl) as [y Hy].
  destruct (Hm _ _ Hy) as (x & Hx & ->). rewrite Hx, Hy.
  intros j cp Hj.
  destruct (decide (j = first + r)%nat) as [->|Hne].
  - assert (first + r < length ca)%nat as Hr.
    { apply lookup_lt_Some in Hj. rewrite length_insert in Hj. exact Hj. }
    rewrite list_lookup_insert_eq in Hj by exact Hr. injection Hj as <-.
    destruct (lookup_lt_is_Some_2 ca (first + r)%nat Hr) as [z Hz].
    destruct (Hacc _ _ Hz) as (w & Hw & _).
    exists x. split; [|reflexivity].
    apply list_lookup_insert_eq. eapply lookup_lt_Some. exact Hw.
  - rewrite list_lookup_insert_ne in Hj by congruence.
    destruct (Hacc _ _ Hj) as (w & Hw & ->). exists w. split; [|reflexivity].
    rewrite list_lookup_insert_ne by congruence. exact Hw.
Qed.

Lemma gather_mirrored first order parts cparts :
  mirrored parts cparts ->
  (forall i : nat, i ∈ order -> (first + i < length cparts)%nat) ->
  mirrored (gather first order parts) (gather first order cparts).
Proof.
  intros Hm Hrange. unfold gather.
  apply gather_rounds_mirrored; [exact Hm| |exact Hm].
  intros r i Hin. apply Hrange. apply elem_of_zip_r in Hin. exact Hin.
Qed.

Lemma cell_split_octants_mirrors : cell_split_mirrors cell_split_octants.
Proof.
  intros d parts cparts Hrange Hm. unfold cell_split_octants. cbn [fst snd].
  split; [|apply gather_length].
  apply gather_mirrored; [exact Hm|].
  intros i Hi. apply Hrange.
  apply list_elem_of_In, in_concat in Hi. destruct Hi as (l & Hl & Hi).
  apply in_map_iff in Hl. destruct Hl as (k & <- & _).
  apply list_elem_of_In in Hi. unfold octant_members in Hi.
  apply list_elem_of_filter in Hi. destruct Hi as [_ Hi].
  apply elem_of_seq in Hi. lia.
Qed.

(** The claim at four particles in two corners of the unit box. *)
Lemma cparts_mirror_parts_witness :
  exists s' n,
    space_rebuild cfg0 cell_split_octants 20 space_corners true (1 # 2) = Ok (s', n) /\
    s_nr_parts s' = 4 /\
    forall i : nat, Z.of_nat i < s_nr_parts s' ->
      exists p cp,
        s_parts s' !! i = Some p /\ s_cparts s' !! i = Some cp /\
        vget (cp_x cp) 0 = vget (p_x p) 0 /\
        vget (cp_x cp) 1 = vget (p_x p) 1 /\
        vget (cp_x cp) 2 = vget (p_x p) 2 /\
        cp_h cp = p_h p /\ cp_dt cp = p_dt p.
Proof.
  assert (exists s' n,
            space_rebuild cfg0 cell_split_octants 20 space_corners true (1 # 2) = Ok (s', n))
    as (s' & n & E) by (eexists; eexists; vm_compute; reflexivity).
  exists s', n. split; [exact E|].
  apply (cparts_mirror_parts cfg0 cell_split_octants 20 space_corners true (1 # 2) s' n
           cell_split_octants_mirrors eq_refl E).
Defined.

(** * The cell tree: counts of cells, geometry, depth *)

(** ** The folds over the progeny *)

Lemma all_progeny_lookup P pr : forall k0,
  all_progeny P k0 pr = true <->
  (forall (k : nat) ck, pr !! k = Some (Some ck) -> P (k0 + k)%nat ck = true).
Proof.
  induction pr as [|[c|] pr IH]; intros k0; simpl.
  - split; [intros _ k ck H; discriminate|reflexivity].
  - rewrite andb_true_iff, IH. split.
    + intros [H0 H] [|k] ck Hk; simpl in Hk.
      * injection Hk as <-. now rewrite Nat.add_0_r.
      * replace (k0 + S k)%nat with (S k0 + k)%nat by lia. apply H, Hk.
    + intros H. split.
      * specialize (H 0%nat c eq_refl). now rewrite Nat.add_0_r in H.
      * intros k ck Hk. replace (S k0 + k)%nat with (k0 + S k)%nat by lia. apply H, Hk.
  - rewrite IH. split.
    + intros H [|k] ck Hk; simpl in Hk; [discriminate|].
      replace (k0 + S k)%nat with (S k0 + k)%nat by lia. apply H, Hk.
    + intros H k ck Hk. replace (S k0 + k)%nat with (k0 + S k)%nat by lia. apply H, Hk.
Qed.

Lemma sum_progeny_insert f pr (k : nat) o :
  (k < length pr)%nat ->
  sum_progeny f (<[k := o]> pr) = sum_progeny f pr - share f (pr !! k) + share f (Some o).
Proof.
  revert k. induction pr as [|x pr IH]; intros k Hk; simpl in Hk; [lia|].
  destruct k as [|k]; simpl.
  - destruct x, o; simpl; lia.
  - specialize (IH k ltac:(lia)). destruct x; simpl in *; rewrite IH; lia.
Qed.

Lemma sum_progeny_shares f pr (g : nat -> Z) :
  (forall k : nat, (k < length pr)%nat -> share f (pr !! k) = g k) ->
  sum_progeny f pr = foldr Z.add 0 (map g (seq 0 (length pr))).
Proof.
  revert g. induction pr as [|x pr IH]; intros g Hg; [reflexivity|].
  cbn [length seq map foldr]. rewrite <- seq_shift, map_map.
  rewrite <- (IH (fun k => g (S k))).
  - specialize (Hg 0%nat ltac:(simpl; lia)). simpl in Hg.
    destruct x; simpl; lia.
  - intros k Hk. apply (Hg (S k)). simpl. lia.
Qed.

Lemma sum_progeny_nonneg f pr :
  (forall c, 0 <= f c) -> 0 <= sum_progeny f pr.
Proof.
  intros Hf. induction pr as [|[c|] pr IH]; simpl; [lia| |exact IH].
  specialize (Hf c). lia.
Qed.

Lemma cells_below_nonneg c : 0 <= cells_below c.
Proof.
  induction c as [d pr IH] using cell_tree_ind. simpl.
  induction IH as [|[c|] pr Hc _ IHpr]; simpl; lia.
Qed.

Lemma share_nonneg_below o : 0 <= share (fun ck => 1 + cells_below ck) o.
Proof. destruct o as [[c|]|]; simpl; [pose proof (cells_below_nonneg c)|..]; lia. Qed.

Lemma sum_progeny_replicate_None f n : sum_progeny f (replicate n None) = 0.
Proof. induction n; simpl; auto. Qed.

Lemma max_progeny_lookup f m pr :
  m <= max_progeny f m pr /\
  forall (k : nat) ck, pr !! k = Some (Some ck) -> f ck <= max_progeny f m pr.
Proof.
  induction pr as [|[c|] pr [IH1 IH2]]; simpl.
  - split; [lia|intros k ck H; discriminate].
  - split; [lia|]. intros [|k] ck Hk; simpl in Hk.
    + injection Hk as <-. lia.
    + specialize (IH2 k ck Hk). lia.
  - split; [exact IH1|]. intros [|k] ck Hk; simpl in Hk; [discriminate|]. eauto.
Qed.

Lemma max_progeny_bound f m pr b :
  m <= b -> (forall (k : nat) ck, pr !! k = Some (Some ck) -> f ck <= b) ->
  max_progeny f m pr <= b.
Proof.
  intros Hm. induction pr as [|[c|] pr IH]; simpl; intros H; [exact Hm| |].
  - specialize (IH (fun k ck Hk => H (S k) ck Hk)). specialize (H 0%nat c eq_refl). lia.
  - apply IH. intros k ck Hk. apply (H (S k) ck Hk).
Qed.

(** ** The steps of [space_split] and [space_rebuild_recurse] *)

Lemma Qeqb3_refl u : Qeqb3 u u = true.
Proof.
  unfold Qeqb3. rewrite !andb_true_iff. repeat split; apply Qeq_bool_iff; reflexivity.
Qed.

Lemma in_octant_place d d' k dk dk' :
  place d' = place d -> place dk' = place dk ->
  in_octant d' k dk' = in_octant d k dk.
Proof.
  unfold place, in_octant, init_progeny. intros H H'.
  injection H as H1 H2 H3. injection H' as H1' H2' H3'.
  cbn [cdata]. destruct d, d', dk, dk'. simpl in *. subst. reflexivity.
Qed.

Lemma in_octant_init d k temp : in_octant d k (cdata (init_progeny d k temp)) = true.
Proof.
  unfold in_octant, init_progeny. cbn [cdata].
  destruct (cdata temp), d. simpl. rewrite Z.eqb_refl, !Qeqb3_refl. reflexivity.
Qed.

Lemma check_depth_spec s d :
  s_tot_cells (check_depth s d) = s_tot_cells s /\
  s_cells_new (check_depth s d) = s_cells_new s /\
  s_maxdepth s <= s_maxdepth (check_depth s d) /\
  c_depth d <= s_maxdepth (check_depth s d).
Proof.
  unfold check_depth. destruct (s_maxdepth s <? c_depth d) eqn:E; simpl.
  - apply Z.ltb_lt in E. lia.
  - apply Z.ltb_ge in E. lia.
Qed.

Lemma space_getcell_Ok cfg s s' c :
  space_getcell cfg s = Ok (s', c) ->
  c = cell_zero /\ s_tot_cells s' = s_tot_cells s + 1 /\ s_maxdepth s' = s_maxdepth s.
Proof.
  unfold space_getcell. intros H. apply bind_Ok in H. destruct H as (n & _ & H).
  inversion H; subst. auto.
Qed.

Lemma call_cell_split_space cell_split s c s' c' :
  call_cell_split cell_split s c = Ok (s', c') ->
  exists parts cparts, s' = set_s_cparts cparts (set_s_parts parts s).
Proof.
  unfold call_cell_split.
  destruct (cell_split (cdata c) (s_parts s) (s_cparts s)) as [[parts cparts] layout].
  intros H. apply bind_Ok in H. destruct H as (pr & _ & H). inversion H; subst. eauto.
Qed.

Lemma count_below_empty s d h_limit :
  c_count d <= 0 -> count_below s d h_limit = Ok (0, 0%Q).
Proof.
  intros H. unfold count_below. replace (Z.to_nat (c_count d)) with 0%nat by lia.
  reflexivity.
Qed.

(** A cell without particles does not meet the criterion. *)
Lemma split_criterion_empty cfg d : c_count d = 0 -> split_criterion cfg d 0 = false.
Proof.
  intros H. unfold split_criterion. rewrite H.
  destruct (space_splitratio cfg) as [n m]. reflexivity.
Qed.

Lemma cells_below_bare d n : cells_below (Cell d (replicate n None)) = 0.
Proof. simpl. apply sum_progeny_replicate_None. Qed.

Lemma all_progeny_replicate_None P k n : all_progeny P k (replicate n None) = true.
Proof. revert k. induction n; intros k; simpl; auto. Qed.

Lemma max_progeny_replicate_None f m n : max_progeny f m (replicate n None) = m.
Proof. induction n; simpl; auto. Qed.

Lemma eight_progeny_lookup d pr :
  eight_progeny (Cell d pr) = true <->
  length pr = 8%nat /\
  forall (k : nat) ck, pr !! k = Some (Some ck) -> eight_progeny ck = true.
Proof.
  split; [apply eight_progeny_inv|]. intros [Hlen H]. simpl.
  apply andb_true_iff. split; [apply Nat.eqb_eq, Hlen|].
  apply forallb_forall. intros [c|] Hin; [|reflexivity].
  apply list_elem_of_In, list_elem_of_lookup_1 in Hin. destruct Hin as [k Hk]. eauto.
Qed.

Lemma built_ok_mono M M' c : M <= M' -> built_ok M c -> built_ok M' c.
Proof. unfold built_ok. intros H (H1 & H2 & H3 & H4 & H5). repeat split; auto. lia. Qed.

Lemma built_ok_bare M d :
  c_depth d <= M -> built_ok M (Cell d (replicate 8 None)).
Proof.
  intros H. unfold built_ok. simpl. rewrite ?orb_true_r.
  repeat split; auto.
Qed.

(** The tree that [space_split] builds. *)
Lemma space_split_built cfg cell_split fuel :
  forall s c s' c',
    space_split cfg cell_split fuel s c = Ok (s', c') ->
    (exists b q, cdata c' = set_c_split b (set_c_h_max q (cdata c))) /\
    s_tot_cells s' = s_tot_cells s + cells_below c' /\
    s_maxdepth s <= s_maxdepth s' /\
    built_ok (s_maxdepth s') c'.
Proof.
  induction fuel as [|fuel IH]; intros s c s' c' H; cbn [space_split] in H; [discriminate|].
  destruct (check_depth_spec s (cdata c)) as (Ht0 & _ & Hm0 & Hd0).
  apply bind_Ok in H. destruct H as ([count h_max] & Ecount & H).
  set (d1 := set_c_h_max h_max (cdata c)) in *.
  change (Qltb (inject_Z (c_count d1) * space_splitratio cfg) (inject_Z count)
          && (space_splitsize cfg <? c_count d1)) with (split_criterion cfg d1 count) in H.
  destruct (split_criterion cfg d1 count) eqn:Ecrit.
  2:{ inversion H; subst; clear H. split; [eauto|].
      cbn [cells_below sum_progeny]. split; [lia|]. split; [lia|].
      apply (built_ok_bare _ (set_c_split false d1)). subst d1. destruct (cdata c); exact Hd0. }
  assert (c_count (cdata c) <> 0) as Hcount.
  { intros H0. rewrite count_below_empty in Ecount by lia.
    inversion Ecount; subst count h_max.
    rewrite split_criterion_empty in Ecrit; [discriminate|].
    subst d1. destruct (cdata c); exact H0. }
  set (d2 := set_c_split true d1) in *.
  (* Create the cell's progeny. *)
  apply bind_Ok in H. destruct H as ([s1 pr1] & E1 & H).
  apply (for_each_seq_inv
           (fun m (st : space * list (option cell)) =>
              length st.2 = m /\
              s_tot_cells st.1 = s_tot_cells s + Z.of_nat m /\
              s_maxdepth st.1 = s_maxdepth (check_depth s (cdata c)) /\
              forall j, (j < m)%nat ->
                st.2 !! j = Some (Some (init_progeny d2 j cell_zero)))) in E1.
  2:{ intros k [sa pra] st' Hk (Hlen & Htot & Hmax & Hall) Hb. cbn [fst snd] in *.
      apply bind_Ok in Hb. destruct Hb as ([sb temp] & Eg & Hb).
      apply space_getcell_Ok in Eg. destruct Eg as (-> & Hgt & Hgm).
      inversion Hb; subst st'; clear Hb. cbn [fst snd].
      split; [rewrite length_app; simpl; lia|]. split; [lia|]. split; [congruence|].
      intros j Hj. destruct (decide (j = k)) as [->|Hne].
      - rewrite lookup_app_r by lia. replace (k - length pra)%nat with 0%nat by lia.
        reflexivity.
      - rewrite lookup_app_l by lia. apply Hall. lia. }
  2:{ cbn [fst snd]. split; [reflexivity|]. split; [lia|]. split; [reflexivity|].
      intros j Hj. lia. }
  cbn [fst snd] in E1. destruct E1 as (Hlen1 & Htot1 & Hmax1 & Hall1).
  (* Split the cell data. *)
  apply bind_Ok in H. destruct H as ([s2 c2] & E2 & H).
  pose proof (call_cell_split_space _ _ _ _ _ E2) as (parts2 & cparts2 & Hs2).
  apply call_cell_split_Ok in E2. cbv zeta in E2. destruct E2 as (Hd2 & Hlen2 & Hpr2).
  cbn [cdata progeny] in Hd2, Hpr2.
  assert (s_tot_cells s2 = s_tot_cells s + 8 /\ s_maxdepth s2 = s_maxdepth (check_depth s (cdata c)))
    as [Htot2 Hmax2] by (subst s2; simpl; split; [lia|congruence]).
  clear Hs2 parts2 cparts2.
  assert (forall j, (j < 8)%nat ->
            exists ck, progeny c2 !! j = Some (Some ck) /\
                       in_octant d2 j (cdata ck) = true /\
                       progeny ck = replicate 8 None) as Hfresh.
  { intros j Hj. destruct (Hpr2 j Hj) as (ck & Hck & Hj2).
    unfold progeny_at in Hck. cbn [progeny] in Hck.
    rewrite (Hall1 j) in Hck by lia. injection Hck as <-.
    eexists. split; [exact Hj2|]. cbn [cdata progeny]. split; [|reflexivity].
    rewrite <- (in_octant_init d2 j cell_zero). apply in_octant_place; [reflexivity|].
    unfold place. destruct (cdata (init_progeny d2 j cell_zero)); reflexivity. }
  clear Hpr2 Hall1.
  (* Recurse? *)
  apply bind_Ok in H. destruct H as ([s3 pr3] & E3 & H).
  apply (for_each_seq_inv
           (fun m (st : space * list (option cell)) =>
              length st.2 = 8%nat /\
              s_maxdepth s2 <= s_maxdepth st.1 /\
              s_tot_cells st.1
                = s_tot_cells s + sum_progeny (fun ck => 1 + cells_below ck) st.2 /\
              (forall j, (j < m)%nat ->
                 exists ck, st.2 !! j = Some (Some ck) /\
                            in_octant d2 j (cdata ck) = true /\
                            built_ok (s_maxdepth st.1) ck) /\
              (forall j, (m <= j < 8)%nat ->
                 exists ck, st.2 !! j = Some (Some ck) /\
                            in_octant d2 j (cdata ck) = true /\
                            progeny ck = replicate 8 None))) in E3.
  2:{ intros k [sa pra] st' Hk (Hlen & Hmax & Htot & Hdone & Htodo) Hb. cbn [fst snd] in *.
      destruct (Htodo k ltac:(lia)) as (ck & Hck & Hoct & Hbare).
      rewrite Hck in Hb. cbn [mjoin mbind outcome_bind deref option_bind] in Hb. simpl in Hb.
      apply bind_Ok in Hb. destruct Hb as ([sb ckb] & Eb & Hb).
      inversion Hb; subst st'; clear Hb. cbn [fst snd].
      apply IH in Eb. destruct Eb as ((b & q & Hcd) & Htotb & Hmaxb & Hokb).
      split; [rewrite length_insert; exact Hlen|]. split; [lia|]. split.
      { rewrite sum_progeny_insert by lia. rewrite Hck.
        destruct ck as [dk prk]. cbn [progeny] in Hbare. subst prk.
        simpl. lia. }
      split.
      - intros j Hj. destruct (decide (j = k)) as [->|Hne].
        + exists ckb. split; [apply list_lookup_insert_eq; lia|]. split; [|exact Hokb].
          rewrite <- Hoct. apply in_octant_place; [reflexivity|].
          rewrite Hcd. unfold place. destruct (cdata ck); reflexivity.
        + destruct (Hdone j ltac:(lia)) as (cj & Hcj & Hoj & Hokj).
          exists cj. split; [rewrite list_lookup_insert_ne by congruence; exact Hcj|].
          split; [exact Hoj|]. eapply built_ok_mono; [|exact Hokj]. exact Hmaxb.
      - intros j Hj. destruct (Htodo j ltac:(lia)) as (cj & Hcj & Hoj & Hbj).
        exists cj. split; [rewrite list_lookup_insert_ne by lia; exact Hcj|]. auto. }
  2:{ cbn [fst snd]. split; [exact Hlen2|]. split; [lia|]. split.
      - rewrite (sum_progeny_shares _ _ (fun _ => 1)).
        + rewrite Hlen2. simpl. lia.
        + intros k Hk. destruct (Hfresh k ltac:(lia)) as (ck & Hck & _ & Hbare).
          rewrite Hck. destruct ck as [dk prk]. cbn [progeny] in Hbare. subst prk.
          simpl. lia.
      - split; [intros j Hj; lia|]. intros j Hj. apply Hfresh. lia. }
  cbn [fst snd] in E3. destruct E3 as (Hlen3 & Hmax3 & Htot3 & Hdone3 & _).
  (* Remove any progeny with zero parts. *)
  apply bind_Ok in H. destruct H as ([s4 pr4] & E4 & H).
  apply (for_each_inv
           (fun st : space * list (option cell) =>
              length st.2 = 8%nat /\
              s_maxdepth st.1 = s_maxdepth s3 /\
              s_tot_cells st.1
                = s_tot_cells s + sum_progeny (fun ck => 1 + cells_below ck) st.2 /\
              forall (j : nat) ck, st.2 !! j = Some (Some ck) ->
                in_octant d2 j (cdata ck) = true /\ built_ok (s_maxdepth s3) ck)) in E4.
  2:{ intros k [sa pra] st' _ (Hlen & Hmax & Htot & Hall) Hb. cbn [fst snd] in *.
      apply bind_Ok in Hb. destruct Hb as (ck & Eck & Hb).
      apply deref_Ok, mjoin_lookup_Some in Eck.
      destruct (c_count (cdata ck) =? 0) eqn:Ez; inversion Hb; subst st'; clear Hb;
        cbn [fst snd]; [|auto].
      apply Z.eqb_eq in Ez.
      destruct (Hall k ck Eck) as (_ & _ & _ & _ & _ & Hbelow).
      split; [rewrite length_insert; exact Hlen|]. split; [exact Hmax|]. split.
      - rewrite sum_progeny_insert by (apply lookup_lt_Some in Eck; exact Eck).
        rewrite Eck. simpl. rewrite (Hbelow Ez). lia.
      - intros j cj Hj. destruct (decide (j = k)) as [->|Hne].
        + rewrite list_lookup_insert_eq in Hj by (apply lookup_lt_Some in Eck; exact Eck).
          discriminate.
        + rewrite list_lookup_insert_ne in Hj by congruence. apply (Hall j cj Hj). }
  2:{ cbn [fst snd]. split; [exact Hlen3|]. split; [reflexivity|]. split; [exact Htot3|].
      intros j ck Hj.
      assert (j < 8)%nat as Hj8 by (apply lookup_lt_Some in Hj; lia).
      destruct (Hdone3 j Hj8) as (cj & Hcj & Hoj & Hokj).
      rewrite Hj in Hcj. injection Hcj as <-. auto. }
  cbn [fst snd] in E4. destruct E4 as (Hlen4 & Hmax4 & Htot4 & Hall4).
  inversion H; subst s' c'; clear H. cbn [cdata].
  split; [rewrite Hd2; subst d2 d1; eauto|].
  split; [exact Htot4|]. split; [lia|].
  unfold built_ok. cbn [cdata].
  split; [apply eight_progeny_lookup; split; [exact Hlen4|];
          intros k ck Hk; apply (Hall4 k ck Hk)|].
  split.
  { simpl. apply all_progeny_lookup. intros k ck Hk. simpl.
    destruct (Hall4 k ck Hk) as (Hoct & _ & Hoc & _).
    rewrite Hoc, andb_true_r. rewrite <- Hoct. apply in_octant_place; [|reflexivity].
    rewrite Hd2. reflexivity. }
  split.
  { simpl. rewrite Hd2. subst d2. replace (c_split (set_c_split true d1)) with true
      by (destruct d1; reflexivity). simpl.
    apply all_progeny_lookup. intros k ck Hk. apply (Hall4 k ck Hk). }
  split.
  { simpl. apply max_progeny_bound.
    - rewrite Hd2. subst d2 d1. rewrite Hmax4.
      replace (c_depth (set_c_split true (set_c_h_max h_max (cdata c))))
        with (c_depth (cdata c)) by (destruct (cdata c); reflexivity). lia.
    - intros k ck Hk. destruct (Hall4 k ck Hk) as (_ & _ & _ & _ & Hdeep & _).
      rewrite Hmax4. exact Hdeep. }
  intros H0. exfalso. apply Hcount. rewrite Hd2 in H0. subst d2 d1.
  destruct (cdata c); exact H0.
Qed.

Lemma space_eta s :
  set_s_tot_cells (s_tot_cells s) (set_s_cells_new (s_cells_new s) s) = s.
Proof. destruct s. reflexivity. Qed.

Lemma forallb_is_null_replicate_eq (pr : list (option cell)) :
  forallb is_null pr = true -> pr = replicate (length pr) None.
Proof.
  induction pr as [|[c|] pr IH]; simpl; intros H; [reflexivity|discriminate|].
  now rewrite <- IH.
Qed.

(** What [space_rebuild_recycle] does to the space: it moves [n] cells, at
    most the cells below [c], and all of them when the leaves of the tree
    are bare, to the free list. *)
Lemma space_rebuild_recycle_moves c :
  forall s, exists n : nat,
    (space_rebuild_recycle s c).1
      = set_s_tot_cells (s_tot_cells s - Z.of_nat n)
          (set_s_cells_new (s_cells_new s + n)%nat s) /\
    Z.of_nat n <= cells_below c /\
    (leaves_bare c = true -> Z.of_nat n = cells_below c).
Proof.
  induction c as [d pr IH] using cell_tree_ind. intros s.
  assert (forall s, exists n : nat,
            (recycle_progeny space_rebuild_recycle s pr).1
              = set_s_tot_cells (s_tot_cells s - Z.of_nat n)
                  (set_s_cells_new (s_cells_new s + n)%nat s) /\
            Z.of_nat n <= sum_progeny (fun ck => 1 + cells_below ck) pr /\
            (all_progeny (fun _ ck => leaves_bare ck) 0 pr = true ->
             Z.of_nat n = sum_progeny (fun ck => 1 + cells_below ck) pr)) as Hpr.
  { clear s. induction IH as [|o pr Ho _ IHpr]; intros s.
    - exists 0%nat. simpl. rewrite Z.sub_0_r, Nat.add_0_r, space_eta. auto with lia.
    - destruct o as [ck|]; simpl.
      + destruct (Ho s) as (n1 & E1 & L1 & B1).
        destruct (space_rebuild_recycle s ck) as [s1 ck1]. cbn [fst] in E1. subst s1.
        match goal with
        | |- context [recycle_progeny _ ?s0 pr] =>
            destruct (IHpr s0) as (n2 & E2 & L2 & B2);
            destruct (recycle_progeny space_rebuild_recycle s0 pr) as [s2 pr2]
        end.
        cbn [fst] in *. subst s2. exists (S (n1 + n2)). split.
        * unfold space_recycle, set_s_tot_cells, set_s_cells_new. simpl. f_equal; lia.
        * split; [lia|]. intros H. apply andb_true_iff in H. destruct H as [Ha Hb].
          assert (all_progeny (fun _ ck => leaves_bare ck) 0 pr = true) as Hb'.
          { apply all_progeny_lookup. intros k c0 Hk.
            rewrite all_progeny_lookup in Hb. apply (Hb k c0 Hk). }
          specialize (B1 Ha). specialize (B2 Hb'). lia.
      + destruct (IHpr s) as (n2 & E2 & L2 & B2).
        destruct (recycle_progeny space_rebuild_recycle s pr) as [s2 pr2].
        cbn [fst] in *. exists n2. split; [exact E2|]. split; [exact L2|].
        intros H. apply B2. apply all_progeny_lookup. intros k c0 Hk.
        rewrite all_progeny_lookup in H. apply (H k c0 Hk). }
  simpl. destruct (c_split d) eqn:Es.
  - destruct (Hpr s) as (n & E & L & B).
    destruct (recycle_progeny space_rebuild_recycle s pr) as [s2 pr2]. cbn [fst] in *.
    exists n. split; [exact E|]. split; [exact L|]. simpl. exact B.
  - exists 0%nat. cbn [fst]. rewrite Z.sub_0_r, Nat.add_0_r, space_eta.
    split; [reflexivity|]. split.
    + apply sum_progeny_nonneg. intros c. pose proof (cells_below_nonneg c). lia.
    + simpl. intros H. apply andb_true_iff in H. destruct H as [H _].
      apply forallb_is_null_replicate_eq in H. rewrite H.
      now rewrite sum_progeny_replicate_None.
Qed.

Lemma octants_ok_place d d' pr :
  place d' = place d -> octants_ok (Cell d' pr) = octants_ok (Cell d pr).
Proof.
  intros H. simpl. generalize 0%nat. induction pr as [|[c|] pr IH]; intros k0; simpl; auto.
  rewrite IH. f_equal. f_equal. apply in_octant_place; [exact H|reflexivity].
Qed.

Lemma octants_ok_lookup d pr :
  octants_ok (Cell d pr) = true <->
  forall (k : nat) ck, pr !! k = Some (Some ck) ->
    in_octant d k (cdata ck) = true /\ octants_ok ck = true.
Proof.
  simpl. rewrite all_progeny_lookup. split; intros H k ck Hk; specialize (H k ck Hk);
    simpl in *; [apply andb_true_iff in H|apply andb_true_iff]; exact H.
Qed.

Lemma leaves_bare_split d pr :
  c_split d = true ->
  (forall (k : nat) ck, pr !! k = Some (Some ck) -> leaves_bare ck = true) ->
  leaves_bare (Cell d pr) = true.
Proof.
  intros Hd H. simpl. rewrite Hd. simpl. apply all_progeny_lookup. exact H.
Qed.

Lemma sum_progeny_ext f pr pr' :
  length pr' = length pr ->
  (forall k : nat, (k < length pr)%nat -> share f (pr' !! k) = share f (pr !! k)) ->
  sum_progeny f pr' = sum_progeny f pr.
Proof.
  intros Hlen H.
  rewrite (sum_progeny_shares f pr (fun k => share f (pr !! k))) by auto.
  rewrite (sum_progeny_shares f pr' (fun k => share f (pr !! k))).
  - now rewrite Hlen.
  - intros k Hk. apply H. lia.
Qed.

Lemma bare_tree d n :
  octants_ok (Cell d (replicate n None)) = true /\
  leaves_bare (Cell d (replicate n None)) = true /\
  deepest (Cell d (replicate n None)) = c_depth d.
Proof.
  simpl. rewrite !all_progeny_replicate_None, max_progeny_replicate_None,
    forallb_is_null_replicate, orb_true_r. auto.
Qed.

(** The tree that [space_rebuild_recurse] leaves. *)
Lemma space_rebuild_recurse_built cfg cell_split fuel :
  forall s c s' c' n,
    eight_progeny c = true -> octants_ok c = true ->
    space_rebuild_recurse cfg cell_split fuel s c = Ok (s', c', n) ->
    (exists b q, cdata c' = set_c_split b (set_c_h_max q (cdata c))) /\
    s_tot_cells s - cells_below c <= s_tot_cells s' - cells_below c' /\
    s_maxdepth s <= s_maxdepth s' /\
    eight_progeny c' = true /\ octants_ok c' = true /\ leaves_bare c' = true /\
    deepest c' <= s_maxdepth s'.
Proof.
  induction fuel as [|fuel IH]; intros s c s' c' n Hwf Hoct H;
    cbn [space_rebuild_recurse] in H; [discriminate|].
  destruct (c_split (cdata c)) eqn:Esplit.
  2:{ apply bind_Ok in H. destruct H as ([s1 c1] & E & H). inversion H; subst; clear H.
      apply space_split_built in E.
      destruct E as (Hcd & Htot & Hmax & H1 & H2 & H3 & H4 & _).
      pose proof (cells_below_nonneg c). repeat split; auto; lia. }
  destruct (check_depth_spec s (cdata c)) as (Ht0 & _ & Hm0 & Hd0).
  apply bind_Ok in H. destruct H as ([count h_max] & Ecount & H).
  set (d1 := set_c_h_max h_max (cdata c)) in *.
  assert (place d1 = place (cdata c) /\ c_split d1 = true /\ c_depth d1 = c_depth (cdata c))
    as (Hplace1 & Hsplit1 & Hdepth1)
    by (subst d1; destruct (cdata c); simpl in *; auto).
  destruct (_ || _).
  { (* Un-split. *)
    destruct (space_rebuild_recycle_moves (Cell d1 (progeny c)) (check_depth s (cdata c)))
      as (m & Em & Lm & _).
    pose proof (space_rebuild_recycle_split (check_depth s (cdata c)) d1 (progeny c) Hsplit1)
      as Hr.
    destruct (space_rebuild_recycle (check_depth s (cdata c)) (Cell d1 (progeny c)))
      as [s1 c1]. cbn [fst snd] in *. subst s1 c1.
    inversion H; subst; clear H. cbn [cdata progeny].
    destruct c as [d pr]. cbn [cdata progeny] in *.
    split; [subst d1; eauto|].
    rewrite cells_below_bare.
    cbn [cells_below s_tot_cells s_maxdepth set_s_tot_cells set_s_cells_new] in Lm |- *.
    split; [lia|]. split; [lia|].
    split; [apply eight_progeny_lookup; split;
            [rewrite length_replicate; apply eight_progeny_inv in Hwf; tauto|];
            intros k ck Hk; apply lookup_replicate in Hk; destruct Hk; discriminate|].
    destruct (bare_tree (set_c_split false d1) (length pr)) as (B1 & B2 & B3).
    split; [exact B1|]. split; [exact B2|]. rewrite B3.
    replace (c_depth (set_c_split false d1)) with (c_depth d) by (destruct d; reflexivity).
    lia. }
  destruct c as [d pr]. cbn [cdata progeny] in *.
  apply eight_progeny_inv in Hwf. destruct Hwf as [Hlen Hwf].
  rewrite octants_ok_lookup in Hoct.
  (* Populate all progeny. *)
  apply bind_Ok in H. destruct H as ([[s1 pr1] w1] & E1 & H).
  apply (for_each_seq_inv
           (fun m (st : space * list (option cell) * list bool) =>
              length st.1.2 = 8%nat /\
              s_maxdepth st.1.1 = s_maxdepth (check_depth s d) /\
              s_tot_cells st.1.1 - sum_progeny (fun ck => 1 + cells_below ck) st.1.2
                = s_tot_cells s - sum_progeny (fun ck => 1 + cells_below ck) pr /\
              (forall j, (j < m)%nat -> is_Some (mjoin (st.1.2 !! j))) /\
              (forall (j : nat) ck, st.1.2 !! j = Some (Some ck) ->
                 in_octant d1 j (cdata ck) = true /\ eight_progeny ck = true /\
                 octants_ok ck = true))) in E1.
  2:{ intros k [[sa pra] wa] st' Hk (Hl & Hmax & Htot & Hsome & Hall) Hb.
      cbn [fst snd] in *.
      destruct (mjoin (pra !! k)) as [ck|] eqn:Ek.
      - inversion Hb; subst st'; clear Hb. cbn [fst snd].
        split; [exact Hl|]. split; [exact Hmax|]. split; [exact Htot|].
        split; [|exact Hall]. intros j Hj.
        destruct (decide (j = k)) as [->|Hne]; [rewrite Ek; eauto|apply Hsome; lia].
      - apply bind_Ok in Hb. destruct Hb as ([sb temp] & Eg & Hb).
        apply space_getcell_Ok in Eg. destruct Eg as (-> & Hgt & Hgm).
        inversion Hb; subst st'; clear Hb. cbn [fst snd].
        split; [rewrite length_insert; exact Hl|]. split; [congruence|]. split.
        { rewrite sum_progeny_insert by lia.
          assert (share (fun ck => 1 + cells_below ck) (pra !! k) = 0) as ->.
          { destruct (pra !! k) as [[c0|]|]; simpl in *; [discriminate|reflexivity..]. }
          simpl. lia. }
        split.
        + intros j Hj. destruct (decide (j = k)) as [->|Hne].
          * rewrite list_lookup_insert_eq by lia. simpl. eauto.
          * rewrite list_lookup_insert_ne by congruence. apply Hsome. lia.
        + intros j ck Hj. destruct (decide (j = k)) as [->|Hne].
          * rewrite list_lookup_insert_eq in Hj by lia. injection Hj as <-.
            split; [apply in_octant_init|]. split; reflexivity.
          * rewrite list_lookup_insert_ne in Hj by congruence. apply (Hall j ck Hj). }
  2:{ cbn [fst snd]. split; [exact Hlen|]. split; [reflexivity|]. split; [lia|].
      split; [intros j Hj; lia|].
      intros j ck Hj. destruct (Hoct j ck Hj) as [Ho1 Ho2].
      split; [|split; [eapply Hwf; exact Hj|exact Ho2]].
      rewrite <- Ho1. apply in_octant_place; [exact Hplace1|reflexivity]. }
  cbn [fst snd] in E1. destruct E1 as (Hlen1 & Hmax1 & Htot1 & Hsome1 & Hall1).
  (* Make sure each part is in its place. *)
  apply bind_Ok in H. destruct H as ([s2 c2] & E2 & H).
  pose proof (call_cell_split_space _ _ _ _ _ E2) as (parts2 & cparts2 & Hs2).
  apply call_cell_split_Ok in E2. cbv zeta in E2. destruct E2 as (Hd2 & Hlen2 & Hpr2).
  cbn [cdata progeny] in Hd2, Hpr2.
  assert (s_tot_cells s2 = s_tot_cells s1 /\ s_maxdepth s2 = s_maxdepth s1)
    as [Htot2 Hmax2] by (subst s2; simpl; split; reflexivity).
  clear Hs2 parts2 cparts2.
  assert (sum_progeny (fun ck => 1 + cells_below ck) (progeny c2)
          = sum_progeny (fun ck => 1 + cells_below ck) pr1) as Hsum2.
  { apply sum_progeny_ext; [congruence|]. intros k Hk.
    destruct (Hpr2 k ltac:(lia)) as (ck & Hck & Hk2).
    unfold progeny_at in Hck. cbn [progeny] in Hck. apply mjoin_lookup_Some in Hck.
    rewrite Hck, Hk2. destruct ck. reflexivity. }
  assert (forall (j : nat) ck, progeny c2 !! j = Some (Some ck) ->
            in_octant d1 j (cdata ck) = true /\ eight_progeny ck = true /\
            octants_ok ck = true) as Hall2.
  { intros j ck Hj.
    assert (j < 8)%nat as Hj8 by (apply lookup_lt_Some in Hj; lia).
    destruct (Hpr2 j Hj8) as (c0 & Hc0 & Hj2).
    unfold progeny_at in Hc0. cbn [progeny] in Hc0. apply mjoin_lookup_Some in Hc0.
    rewrite Hj in Hj2. injection Hj2 as ->.
    destruct (Hall1 j c0 Hc0) as (A1 & A2 & A3). destruct c0 as [d0 p0].
    cbn [cdata progeny] in *.
    split; [|split; [exact A2|]].
    - rewrite <- A1. apply in_octant_place; [reflexivity|]. destruct d0; reflexivity.
    - rewrite <- A3. apply octants_ok_place. destruct d0; reflexivity. }
  clear Hpr2 Hall1 Hsome1.
  (* Remove empty progeny. *)
  apply bind_Ok in H. destruct H as ([[s3 pr3] z3] & E3 & H).
  apply (for_each_inv
           (fun st : space * list (option cell) * Z =>
              length st.1.2 = 8%nat /\
              s_maxdepth st.1.1 = s_maxdepth s2 /\
              s_tot_cells s - sum_progeny (fun ck => 1 + cells_below ck) pr
                <= s_tot_cells st.1.1
                   - sum_progeny (fun ck => 1 + cells_below ck) st.1.2 /\
              forall (j : nat) ck, st.1.2 !! j = Some (Some ck) ->
                in_octant d1 j (cdata ck) = true /\ eight_progeny ck = true /\
                octants_ok ck = true)) in E3.
  2:{ intros k [[sa pra] za] st' _ (Hl & Hmax & Htot & Hall) Hb. cbn [fst snd] in *.
      apply bind_Ok in Hb. destruct Hb as (ck & Eck & Hb).
      apply deref_Ok, mjoin_lookup_Some in Eck.
      assert (k < length pra)%nat as Hk by (apply lookup_lt_Some in Eck; exact Eck).
      destruct (c_count (cdata ck) =? 0); inversion Hb; subst st'; clear Hb;
        cbn [fst snd]; [|auto].
      split; [rewrite length_insert; exact Hl|]. split; [exact Hmax|]. split.
      - rewrite sum_progeny_insert by exact Hk. rewrite Eck. simpl.
        pose proof (cells_below_nonneg ck). lia.
      - intros j cj Hj. destruct (decide (j = k)) as [->|Hne].
        + rewrite list_lookup_insert_eq in Hj by exact Hk. discriminate.
        + rewrite list_lookup_insert_ne in Hj by congruence. apply (Hall j cj Hj). }
  2:{ cbn [fst snd]. split; [exact Hlen2|]. split; [reflexivity|]. split; [lia|].
      exact Hall2. }
  cbn [fst snd] in E3. destruct E3 as (Hlen3 & Hmax3 & Htot3 & Hall3).
  (* Recurse. *)
  apply bind_Ok in H. destruct H as ([[s4 pr4] z4] & E4 & H).
  apply (for_each_seq_inv
           (fun m (st : space * list (option cell) * Z) =>
              length st.1.2 = 8%nat /\
              s_maxdepth s3 <= s_maxdepth st.1.1 /\
              s_tot_cells s - sum_progeny (fun ck => 1 + cells_below ck) pr
                <= s_tot_cells st.1.1
                   - sum_progeny (fun ck => 1 + cells_below ck) st.1.2 /\
              (forall (j : nat) ck, st.1.2 !! j = Some (Some ck) ->
                 in_octant d1 j (cdata ck) = true /\ eight_progeny ck = true /\
                 octants_ok ck = true /\
                 ((j < m)%nat ->
                  leaves_bare ck = true /\ deepest ck <= s_maxdepth st.1.1)))) in E4.
  2:{ intros k [[sa pra] za] st' Hk (Hl & Hmax & Htot & Hall) Hb. cbn [fst snd] in *.
      destruct (mjoin (pra !! k)) as [ck|] eqn:Ek.
      - apply mjoin_lookup_Some in Ek.
        apply bind_Ok in Hb. destruct Hb as ([[sb ckb] nb] & Eb & Hb).
        inversion Hb; subst st'; clear Hb. cbn [fst snd].
        destruct (Hall k ck Ek) as (A1 & A2 & A3 & _).
        apply IH in Eb; [|exact A2|exact A3].
        destruct Eb as ((b & q & Hcd) & Btot & Bmax & B1 & B2 & B3 & B4).
        split; [rewrite length_insert; exact Hl|]. split; [lia|]. split.
        { rewrite sum_progeny_insert by lia. rewrite Ek. simpl. lia. }
        intros j cj Hj. destruct (decide (j = k)) as [->|Hne].
        + rewrite list_lookup_insert_eq in Hj by lia. injection Hj as <-.
          split; [|split; [exact B1|split; [exact B2|intros _; split; [exact B3|exact B4]]]].
          rewrite <- A1. apply in_octant_place; [reflexivity|].
          rewrite Hcd. destruct (cdata ck); reflexivity.
        + rewrite list_lookup_insert_ne in Hj by congruence.
          destruct (Hall j cj Hj) as (C1 & C2 & C3 & C4).
          split; [exact C1|]. split; [exact C2|]. split; [exact C3|].
          intros Hjk. destruct C4 as [C4 C5]; [lia|]. split; [exact C4|lia].
      - inversion Hb; subst st'; clear Hb. cbn [fst snd].
        split; [exact Hl|]. split; [exact Hmax|]. split; [exact Htot|].
        intros j cj Hj. destruct (Hall j cj Hj) as (C1 & C2 & C3 & C4).
        split; [exact C1|]. split; [exact C2|]. split; [exact C3|].
        intros Hjk.
        assert (j <> k) by (intros ->; apply mjoin_lookup_Some in Hj; congruence).
        apply C4. lia. }
  2:{ cbn [fst snd]. split; [exact Hlen3|]. split; [lia|]. split; [exact Htot3|].
      intros j ck Hj. destruct (Hall3 j ck Hj) as (C1 & C2 & C3).
      split; [exact C1|]. split; [exact C2|]. split; [exact C3|]. intros Hj0. lia. }
  cbn [fst snd] in E4. destruct E4 as (Hlen4 & Hmax4 & Htot4 & Hall4).
  inversion H; subst s' c' n; clear H. cbn [cdata].
  assert (forall (j : nat) ck, pr4 !! j = Some (Some ck) -> (j < 0 + 8)%nat) as Hlt
    by (intros j ck Hj; apply lookup_lt_Some in Hj; lia).
  split; [rewrite Hd2; exists true, h_max; clear -Esplit; subst d1; destruct d;
          simpl in Esplit; subst; reflexivity|].
  split; [simpl; exact Htot4|]. split; [lia|].
  split; [apply eight_progeny_lookup; split; [exact Hlen4|];
          intros k ck Hk; apply (Hall4 k ck Hk)|].
  split.
  { apply octants_ok_lookup. intros k ck Hk. destruct (Hall4 k ck Hk) as (C1 & _ & C3 & _).
    split; [|exact C3]. rewrite <- C1. apply in_octant_place; [|reflexivity].
    rewrite Hd2. reflexivity. }
  split.
  { apply leaves_bare_split; [rewrite Hd2; exact Hsplit1|].
    intros k ck Hk. destruct (Hall4 k ck Hk) as (_ & _ & _ & C4).
    apply C4. eapply Hlt, Hk. }
  simpl. apply max_progeny_bound.
  - rewrite Hd2, Hdepth1. lia.
  - intros k ck Hk. destruct (Hall4 k ck Hk) as (_ & _ & _ & C4).
    apply C4. eapply Hlt, Hk.
Qed.

(** ** No particle is lost by splitting *)

Lemma counts_add_up_lookup d pr :
  counts_add_up (Cell d pr) = true <->
  (c_split d = true -> sum_progeny (fun ck => c_count (cdata ck)) pr = c_count d) /\
  forall (k : nat) ck, pr !! k = Some (Some ck) -> counts_add_up ck = true.
Proof.
  simpl. rewrite andb_true_iff, all_progeny_lookup, orb_true_iff, negb_true_iff, Z.eqb_eq.
  split; intros [H1 H2]; (split; [|exact H2]).
  - intros Hs. destruct H1 as [H1|H1]; [congruence|exact H1].
  - destruct (c_split d); [right; auto|left; reflexivity].
Qed.

Lemma counts_add_up_leaf d n :
  c_split d = false -> counts_add_up (Cell d (replicate n None)) = true.
Proof.
  intros Hd. apply counts_add_up_lookup. split; [congruence|].
  intros k ck Hk. apply lookup_replicate in Hk. destruct Hk. discriminate.
Qed.

Section Counts.

Variable cfg : config.
Variable cell_split : cell_split_fn.
Hypothesis Hsize : 0 <= space_splitsize cfg.
Hypothesis Hcs : cell_split_counts cell_split.

(** The counts of the progeny that are left when the empty ones are
    removed. *)
Lemma counts_of_progeny (layout : nat -> Z * nat) d pr :
  length pr = 8%nat ->
  foldr Z.add 0 (map (fun k => (layout k).1) (seq 0 8)) = c_count d ->
  (forall k, (k < 8)%nat ->
     match mjoin (pr !! k) with
     | Some ck => c_count (cdata ck) = (layout k).1 /\ counts_add_up ck = true
     | None => (layout k).1 = 0
     end) ->
  counts_add_up (Cell d pr) = true.
Proof.
  intros Hlen Hsum Hall. apply counts_add_up_lookup. split.
  - intros _. rewrite (sum_progeny_shares _ _ (fun k => (layout k).1)).
    + rewrite Hlen. exact Hsum.
    + intros k Hk. specialize (Hall k ltac:(lia)).
      destruct (pr !! k) as [[ck|]|] eqn:Ek; simpl in *; [tauto|auto|].
      apply lookup_ge_None in Ek. lia.
  - intros k ck Hk.
    assert (k < 8)%nat as Hk8 by (apply lookup_lt_Some in Hk; lia).
    specialize (Hall k Hk8). rewrite Hk in Hall. simpl in Hall. tauto.
Qed.

Lemma space_split_counts fuel :
  forall s c s' c',
    space_split cfg cell_split fuel s c = Ok (s', c') ->
    counts_add_up c' = true.
Proof.
  induction fuel as [|fuel IH]; intros s c s' c' H; cbn [space_split] in H; [discriminate|].
  apply bind_Ok in H. destruct H as ([count h_max] & _ & H).
  set (d1 := set_c_h_max h_max (cdata c)) in *.
  destruct (_ && _) eqn:Ecrit.
  2:{ inversion H; subst. apply (counts_add_up_leaf _ 8). destruct d1; reflexivity. }
  apply andb_true_iff in Ecrit. destruct Ecrit as [_ Ecrit]. apply Z.ltb_lt in Ecrit.
  set (d2 := set_c_split true d1) in *.
  apply bind_Ok in H. destruct H as ([s1 pr1] & _ & H).
  apply bind_Ok in H. destruct H as ([s2 c2] & E2 & H).
  apply call_cell_split_Ok in E2. cbv zeta in E2. destruct E2 as (Hd2 & Hlen2 & Hpr2).
  cbn [cdata progeny] in Hd2, Hpr2.
  set (layout := (cell_split d2 (s_parts s1) (s_cparts s1)).2) in *.
  destruct (Hcs d2 (s_parts s1) (s_cparts s1)) as [_ Hsum].
  change (0 <= c_count d2 ->
          foldr Z.add 0 (map (fun k => (layout k).1) (seq 0 8)) = c_count d2) in Hsum.
  assert (c_count d2 = c_count d1) as Hc2 by (subst d2; destruct d1; reflexivity).
  specialize (Hsum ltac:(lia)).
  (* Recurse? *)
  apply bind_Ok in H. destruct H as ([s3 pr3] & E3 & H).
  apply (for_each_pointwise snd
           (fun k o => exists ck, o = Some ck /\ c_count (cdata ck) = (layout k).1)
           (fun k o => exists ck, o = Some ck /\ c_count (cdata ck) = (layout k).1 /\
                                  counts_add_up ck = true)) in E3.
  2:{ intros k [sa pra] st2 Hk Hkl Hb (ck & Hck & Hcount). simpl in *.
      rewrite Hck in Hb. simpl in Hb. ok_inv Hb. simpl.
      pose proof (space_split_built _ _ _ _ _ _ _ E) as ((b & q & Hcd) & _).
      apply IH in E.
      rewrite length_insert. split; [reflexivity|]. split.
      - rewrite list_lookup_insert_eq by lia. simpl. exists c0.
        split; [reflexivity|]. split; [|exact E].
        rewrite Hcd, <- Hcount. destruct (cdata ck); reflexivity.
      - intros j Hj. apply list_lookup_insert_ne. congruence. }
  2:{ simpl. lia. }
  2:{ intros k Hk. simpl. destruct (Hpr2 k Hk) as (ck & _ & Hk'). rewrite Hk'. simpl.
      eexists. split; [reflexivity|]. destruct (cdata ck); reflexivity. }
  simpl in E3. destruct E3 as (Hlen3 & Hl3 & _).
  (* Remove any progeny with zero parts. *)
  apply bind_Ok in H. destruct H as ([s4 pr4] & E4 & H).
  apply (for_each_pointwise snd
           (fun k o => exists ck, o = Some ck /\ c_count (cdata ck) = (layout k).1 /\
                                  counts_add_up ck = true)
           (fun k o => match o with
                       | Some ck => c_count (cdata ck) = (layout k).1 /\
                                    counts_add_up ck = true
                       | None => (layout k).1 = 0
                       end)) in E4.
  2:{ intros k [sa pra] st2 Hk Hkl Hb (ck & Hck & Hcount & Hadd). simpl in *.
      rewrite Hck in Hb. simpl in Hb.
      destruct (c_count (cdata ck) =? 0) eqn:E0; inversion Hb; subst; clear Hb; simpl.
      - apply Z.eqb_eq in E0. rewrite length_insert.
        split; [reflexivity|]. split.
        + rewrite list_lookup_insert_eq by lia. simpl. lia.
        + intros j Hj. apply list_lookup_insert_ne. congruence.
      - split; [reflexivity|]. split; [|reflexivity]. rewrite Hck. auto. }
  2:{ simpl. lia. }
  2:{ exact Hl3. }
  simpl in E4. destruct E4 as (Hlen4 & Hl4 & _).
  inversion H; subst s' c'; clear H.
  apply (counts_of_progeny layout); [congruence| |exact Hl4].
  rewrite Hsum, Hd2. reflexivity.
Qed.

Lemma space_rebuild_recurse_counts fuel :
  forall s c s' c' n,
    eight_progeny c = true ->
    space_rebuild_recurse cfg cell_split fuel s c = Ok (s', c', n) ->
    counts_add_up c' = true.
Proof.
  induction fuel as [|fuel IH]; intros s c s' c' n Hwf H;
    cbn [space_rebuild_recurse] in H; [discriminate|].
  destruct (c_split (cdata c)) eqn:Esplit.
  2:{ apply bind_Ok in H. destruct H as ([s1 c1] & E & H). inversion H; subst.
      eapply space_split_counts, E. }
  apply bind_Ok in H. destruct H as ([count h_max] & _ & H).
  set (d1 := set_c_h_max h_max (cdata c)) in *.
  assert (c_split d1 = true /\ c_count d1 = c_count (cdata c)) as [Hsplit1 Hcount1]
    by (subst d1; destruct (cdata c); simpl in *; auto).
  destruct (_ || _) eqn:Ecrit.
  { pose proof (space_rebuild_recycle_split (check_depth s (cdata c)) d1 (progeny c) Hsplit1)
      as Hr.
    destruct (space_rebuild_recycle (check_depth s (cdata c)) (Cell d1 (progeny c)))
      as [s1 c1]. cbn [snd] in Hr. subst c1.
    inversion H; subst. cbn [cdata progeny]. apply counts_add_up_leaf.
    destruct d1; reflexivity. }
  apply orb_false_iff in Ecrit. destruct Ecrit as [_ Ecrit]. apply Z.ltb_ge in Ecrit.
  destruct c as [d pr]. cbn [cdata progeny] in *.
  apply eight_progeny_inv in Hwf. destruct Hwf as [Hlen Hwf].
  (* Populate all progeny. *)
  apply bind_Ok in H. destruct H as ([[s1 pr1] w1] & E1 & H).
  apply (for_each_pointwise (fun st => st.1.2)
           (fun k o => match o with Some ck => eight_progeny ck = true | None => True end)
           (fun k o => exists ck, o = Some ck /\ eight_progeny ck = true)) in E1.
  2:{ intros k [[sa pra] wa] st2 Hk Hkl Hb HB. simpl in *.
      destruct (mjoin (pra !! k)) as [ck|] eqn:Ek.
      - inversion Hb; subst; clear Hb. simpl. rewrite Ek. eauto.
      - apply bind_Ok in Hb. destruct Hb as ([sb temp] & Eg & Hb).
        apply space_getcell_Ok in Eg. destruct Eg as (-> & _).
        inversion Hb; subst; clear Hb. simpl.
        rewrite length_insert. split; [reflexivity|]. split.
        + rewrite list_lookup_insert_eq by lia. simpl. eauto.
        + intros j Hj. apply list_lookup_insert_ne. congruence. }
  2:{ simpl. lia. }
  2:{ intros k Hk. simpl. destruct (mjoin (pr !! k)) as [ck|] eqn:Ek; [|exact I].
      apply mjoin_lookup_Some in Ek. eapply Hwf. exact Ek. }
  simpl in E1. destruct E1 as (Hlen1 & Hl1 & _).
  (* Make sure each part is in its place. *)
  apply bind_Ok in H. destruct H as ([s2 c2] & E2 & H).
  apply call_cell_split_Ok in E2. cbv zeta in E2. destruct E2 as (Hd2 & Hlen2 & Hpr2).
  cbn [cdata progeny] in Hd2, Hpr2.
  set (layout := (cell_split d1 (s_parts s1) (s_cparts s1)).2) in *.
  destruct (Hcs d1 (s_parts s1) (s_cparts s1)) as [_ Hsum].
  change (0 <= c_count d1 ->
          foldr Z.add 0 (map (fun k => (layout k).1) (seq 0 8)) = c_count d1) in Hsum.
  specialize (Hsum ltac:(lia)).
  (* Remove empty progeny. *)
  apply bind_Ok in H. destruct H as ([[s3 pr3] z3] & E3 & H).
  apply (for_each_pointwise (fun st => st.1.2)
           (fun k o => exists ck, o = Some ck /\ c_count (cdata ck) = (layout k).1 /\
                                  eight_progeny ck = true)
           (fun k o => match o with
                       | Some ck => c_count (cdata ck) = (layout k).1 /\
                                    eight_progeny ck = true
                       | None => (layout k).1 = 0
                       end)) in E3.
  2:{ intros k [[sa pra] ca] st2 Hk Hkl Hb (ck & Hck & Hcount & Height). simpl in *.
      rewrite Hck in Hb. simpl in Hb.
      destruct (c_count (cdata ck) =? 0) eqn:Ez; inversion Hb; subst; clear Hb; simpl.
      - apply Z.eqb_eq in Ez. rewrite length_insert.
        split; [reflexivity|]. split.
        + rewrite list_lookup_insert_eq by lia. simpl. lia.
        + intros j Hj. apply list_lookup_insert_ne. congruence.
      - split; [reflexivity|]. split; [|reflexivity]. rewrite Hck. auto. }
  2:{ simpl. lia. }
  2:{ intros k Hk. simpl. destruct (Hpr2 k Hk) as (ck & Hck & Hk'). rewrite Hk'. simpl.
      eexists. split; [reflexivity|]. split; [destruct (cdata ck); reflexivity|].
      unfold progeny_at in Hck. cbn [progeny] in Hck.
      destruct (Hl1 k Hk) as (ck' & Hck' & Height). rewrite Hck in Hck'.
      injection Hck' as <-. destruct ck. exact Height. }
  simpl in E3. destruct E3 as (Hlen3 & Hl3 & _).
  (* Recurse. *)
  apply bind_Ok in H. destruct H as ([[s4 pr4] z4] & E4 & H).
  apply (for_each_pointwise (fun st => st.1.2)
           (fun k o => match o with
                       | Some ck => c_count (cdata ck) = (layout k).1 /\
                                    eight_progeny ck = true
                       | None => (layout k).1 = 0
                       end)
           (fun k o => match o with
                       | Some ck => c_count (cdata ck) = (layout k).1 /\
                                    counts_add_up ck = true
                       | None => (layout k).1 = 0
                       end)) in E4.
  2:{ intros k [[sa pra] ca] st2 Hk Hkl Hb HB. simpl in *.
      destruct (mjoin (pra !! k)) as [ck|] eqn:Ek.
      - apply bind_Ok in Hb. destruct Hb as ([[sb ckb] nb] & Eb & Hb).
        inversion Hb; subst; clear Hb. simpl. destruct HB as [Hcount Height].
        assert (c_count (cdata ckb) = c_count (cdata ck)) as Hsame.
        { destruct fuel as [|fuel']; [discriminate|].
          cbn [space_rebuild_recurse] in Eb.
          clear -Eb. destruct (c_split (cdata ck)) eqn:Es.
          - apply bind_Ok in Eb. destruct Eb as ([cnt hm] & _ & Eb).
            destruct (_ || _).
            + pose proof (space_rebuild_recycle_split (check_depth sa (cdata ck))
                            (set_c_h_max hm (cdata ck)) (progeny ck)) as Hr.
              destruct (space_rebuild_recycle _ _) as [s1 c1]. cbn [snd] in Hr.
              rewrite Hr in Eb by (destruct (cdata ck); exact Es).
              inversion Eb; subst. destruct (cdata ck); reflexivity.
            + ok_inv Eb. apply call_cell_split_Ok in E0. destruct E0 as (Hd & _).
              cbn [cdata] in *. rewrite Hd. destruct (cdata ck); reflexivity.
          - apply bind_Ok in Eb. destruct Eb as ([s1 c1] & E & Eb).
            inversion Eb; subst.
            apply space_split_built in E. destruct E as ((b & q & Hcd) & _).
            rewrite Hcd. destruct (cdata ck); reflexivity. }
        apply IH in Eb; [|exact Height].
        rewrite length_insert. split; [reflexivity|]. split.
        + rewrite list_lookup_insert_eq by lia. simpl. split; [congruence|exact Eb].
        + intros j Hj. apply list_lookup_insert_ne. congruence.
      - inversion Hb; subst; clear Hb. simpl. rewrite Ek. auto. }
  2:{ simpl. lia. }
  2:{ exact Hl3. }
  simpl in E4. destruct E4 as (Hlen4 & Hl4 & _).
  inversion H; subst s' c' n; clear H.
  apply (counts_of_progeny layout); [congruence| |exact Hl4].
  rewrite Hsum, Hd2. reflexivity.
Qed.

End Counts.

(** ** What the cell tree keeps *)

(** [space_rebuild_recycle] on a tree whose unsplit cells have no progeny:
    all the cells below [c] go to the free list, [tot_cells] drops by their
    number, [c] keeps its fields and is left without progeny, and nothing
    else of the space changes. *)
Theorem space_rebuild_recycle_dismantles s c :
  leaves_bare c = true ->
  space_rebuild_recycle s c
  = (set_s_tot_cells (s_tot_cells s - cells_below c)
       (set_s_cells_new (s_cells_new s + Z.to_nat (cells_below c))%nat s),
     Cell (cdata c) (replicate (length (progeny c)) None)).
Proof.
  intros Hb. destruct (space_rebuild_recycle_moves c s) as (n & E & _ & Hn).
  specialize (Hn Hb).
  assert ((space_rebuild_recycle s c).2 = Cell (cdata c) (replicate (length (progeny c)) None))
    as E2.
  { destruct c as [d pr]. destruct (c_split d) eqn:Es.
    - apply space_rebuild_recycle_split, Es.
    - simpl. rewrite Es. simpl in Hb. rewrite Es in Hb. simpl in Hb.
      apply andb_true_iff in Hb. destruct Hb as [Hb _].
      now rewrite <- (forallb_is_null_replicate_eq pr Hb). }
  destruct (space_rebuild_recycle s c) as [s1 c1]. cbn [fst snd] in *. subst s1 c1.
  rewrite <- Hn, Nat2Z.id. reflexivity.
Qed.

Lemma space_rebuild_recycle_dismantles_witness :
  space_rebuild_recycle (set_s_tot_cells 3 (space_halves 400)) cell_400
  = (set_s_tot_cells 1 (set_s_cells_new 2 (space_halves 400)),
     Cell (cdata cell_400) (replicate 8 None)).
Proof.
  exact (space_rebuild_recycle_dismantles (set_s_tot_cells 3 (space_halves 400)) cell_400
           eq_refl).
Defined.

(** When [space_split] returns, [tot_cells] has grown by the number of
    cells below the cell: the cells that it took for the progeny and kept. *)
Theorem space_split_tot_cells cfg cell_split fuel s c s' c' :
  space_split cfg cell_split fuel s c = Ok (s', c') ->
  s_tot_cells s' = s_tot_cells s + cells_below c'.
Proof. intros H. apply space_split_built in H. tauto. Qed.

Lemma space_split_tot_cells_witness :
  exists s' c',
    space_split cfg0 cell_split_octants 3 (space_halves 401) (cell_unit 401) = Ok (s', c') /\
    cells_below c' = 2 /\ s_tot_cells s' = 2.
Proof.
  assert (exists s' c',
            space_split cfg0 cell_split_octants 3 (space_halves 401) (cell_unit 401)
              = Ok (s', c') /\ cells_below c' = 2) as (s' & c' & E & Hb)
    by (eexists; eexists; split; [vm_compute; reflexivity|reflexivity]).
  exists s', c'. split; [exact E|]. split; [exact Hb|].
  rewrite (space_split_tot_cells _ _ _ _ _ _ _ E), Hb. reflexivity.
Defined.



(** When [space_split] returns, [maxdepth] has not dropped and is at least
    the depth of every cell of the tree. *)
Theorem space_split_maxdepth cfg cell_split fuel s c s' c' :
  space_split cfg cell_split fuel s c = Ok (s', c') ->
  s_maxdepth s <= s_maxdepth s' /\ deepest c' <= s_maxdepth s'.
Proof.
  intros H. apply space_split_built in H. unfold built_ok in H. tauto.
Qed.

Lemma space_split_maxdepth_witness :
  exists s' c',
    space_split cfg0 cell_split_octants 3 (space_halves 401) (cell_unit 401) = Ok (s', c') /\
    deepest c' = 1 /\ s_maxdepth (space_halves 401) <= s_maxdepth s' /\
    deepest c' <= s_maxdepth s'.
Proof.
  assert (exists s' c',
            space_split cfg0 cell_split_octants 3 (space_halves 401) (cell_unit 401)
              = Ok (s', c') /\ deepest c' = 1) as (s' & c' & E & Hd)
    by (eexists; eexists; split; [vm_compute; reflexivity|reflexivity]).
  exists s', c'. split; [exact E|]. split; [exact Hd|].
  apply (space_split_maxdepth _ _ _ _ _ _ _ E).
Defined.



(** [space_rebuild_recurse] does not let [tot_cells] fall behind: on a
    tree in shape, [tot_cells] less the number of cells below the cell does
    not drop, so that a [tot_cells] that was at least the number of cells is
    so afterwards; and [maxdepth] does not drop and is at least the depth
    of every cell of the tree. *)
Theorem space_rebuild_recurse_tot_cells cfg cell_split fuel s c s' c' n :
  eight_progeny c = true -> octants_ok c = true ->
  space_rebuild_recurse cfg cell_split fuel s c = Ok (s', c', n) ->
  s_tot_cells s - cells_below c <= s_tot_cells s' - cells_below c' /\
  s_maxdepth s <= s_maxdepth s' /\ deepest c' <= s_maxdepth s'.
Proof.
  intros H1 H2 H. apply (space_rebuild_recurse_built _ _ _ _ _ _ _ _ H1 H2) in H. tauto.
Qed.

Lemma space_rebuild_recurse_tot_cells_witness :
  exists s' c' n,
    space_rebuild_recurse cfg0 cell_split_octants 3
      (set_s_tot_cells 3 (space_halves 400)) cell_400 = Ok (s', c', n) /\
    cells_below c' = 2 /\
    3 - cells_below cell_400 <= s_tot_cells s' - cells_below c' /\
    0 <= s_maxdepth s' /\ deepest c' <= s_maxdepth s'.
Proof.
  assert (exists s' c' n,
            space_rebuild_recurse cfg0 cell_split_octants 3
              (set_s_tot_cells 3 (space_halves 400)) cell_400 = Ok (s', c', n)
            /\ cells_below c' = 2) as (s' & c' & n & E & Hb)
    by (eexists; eexists; eexists; split; [vm_compute; reflexivity|reflexivity]).
  exists s', c', n. split; [exact E|]. split; [exact Hb|].
  apply (space_rebuild_recurse_tot_cells _ _ _ _ _ _ _ _
           (eq_refl : eight_progeny cell_400 = true)
           (eq_refl : octants_ok cell_400 = true) E).
Defined.

(** No particle is lost by splitting: when [space_split] or
    [space_rebuild_recurse] returns, the counts of the progeny of every
    split cell of the tree add up to the count of the cell. The split size
    is not negative, and [cell_split] stores in the progeny counts that are
    not negative and add up to the count of the cell. *)
Theorem counts_add_up_after_split_and_rebuild cfg cell_split :
  0 <= space_splitsize cfg ->
  cell_split_counts cell_split ->
  (forall fuel s c s' c',
     space_split cfg cell_split fuel s c = Ok (s', c') ->
     counts_add_up c' = true) /\
  (forall fuel s c s' c' n,
     eight_progeny c = true ->
     space_rebuild_recurse cfg cell_split fuel s c = Ok (s', c', n) ->
     counts_add_up c' = true).
Proof.
  intros Hsize Hcs. split.
  - intros fuel s c s' c' H. eapply space_split_counts; eauto.
  - intros fuel s c s' c' n Hwf H. eapply space_rebuild_recurse_counts; eauto.
Qed.

Lemma counts_add_up_after_split_and_rebuild_witness :
  (exists s' c',
     space_split cfg0 cell_split_octants 3 (space_halves 401) (cell_unit 401) = Ok (s', c') /\
     c_split (cdata c') = true /\ counts_add_up c' = true) /\
  (exists s' c' n,
     space_rebuild_recurse cfg0 cell_split_octants 3 (space_halves 400) cell_400
       = Ok (s', c', n) /\
     c_split (cdata c') = true /\ counts_add_up c' = true).
Proof.
  pose proof (counts_add_up_after_split_and_rebuild cfg0 cell_split_octants
                ltac:(simpl; lia) cell_split_octants_counts) as [Hs Hr].
  split.
  - assert (exists s' c',
              space_split cfg0 cell_split_octants 3 (space_halves 401) (cell_unit 401)
                = Ok (s', c') /\ c_split (cdata c') = true) as (s' & c' & E & Hsplit)
      by (eexists; eexists; split; [vm_compute; reflexivity|reflexivity]).
    exists s', c'. split; [exact E|]. split; [exact Hsplit|].
    exact (Hs _ _ _ _ _ E).
  - assert (exists s' c' n,
              space_rebuild_recurse cfg0 cell_split_octants 3 (space_halves 400) cell_400
                = Ok (s', c', n) /\ c_split (cdata c') = true) as (s' & c' & n & E & Hsplit)
      by (eexists; eexists; eexists; split; [vm_compute; reflexivity|reflexivity]).
    exists s', c', n. split; [exact E|]. split; [exact Hsplit|].
    apply (Hr _ _ _ _ _ _ (eq_refl : eight_progeny cell_400 = true) E).
Defined.

(** * What [space_maketasks] leaves alone *)

Lemma the_frame_on_tasks f s : the_frame (on_tasks f s) = the_frame s.
Proof. reflexivity. Qed.
Lemma the_frame_set_s_tasks v s : the_frame (set_s_tasks v s) = the_frame s.
Proof. reflexivity. Qed.
Lemma the_frame_set_s_tasks_size v s : the_frame (set_s_tasks_size v s) = the_frame s.
Proof. reflexivity. Qed.
Lemma the_frame_set_s_tasks_ind v s : the_frame (set_s_tasks_ind v s) = the_frame s.
Proof. reflexivity. Qed.

Lemma map_alter_same {A B : Type} (g : A -> B) (h : A -> A) (k : nat) (l : list A) :
  (forall x, g (h x) = g x) -> map g (alter h k l) = map g l.
Proof.
  intros H. revert k. induction l as [|x l IH]; intros [|k]; try reflexivity.
  - change (alter h 0%nat (x :: l)) with (h x :: l). simpl. now rewrite H.
  - change (alter h (S k) (x :: l)) with (x :: alter h k l). simpl. now rewrite IH.
Qed.

Lemma task_free_alter_descend f :
  (forall d, task_free_data (f d) = task_free_data d) ->
  forall p c, task_free (alter_descend f p c) = task_free c.
Proof.
  intros Hf. induction p as [|k p IH]; intros [d pr]; simpl.
  - now rewrite Hf.
  - f_equal. apply map_alter_same. intros [ck|]; simpl; [|reflexivity]. now rewrite IH.
Qed.

Lemma the_frame_on_cell f p s :
  (forall d, task_free_data (f d) = task_free_data d) ->
  the_frame (on_cell f p s) = the_frame s.
Proof.
  intros Hf.
  assert (map task_free (the_cells (on_cell f p s)) = map task_free (the_cells s)) as H.
  { unfold on_cell, the_cells. simpl.
    destruct (s_cells s) as [cells|]; simpl; [|reflexivity].
    destruct p as [|i p]; simpl; [reflexivity|].
    apply map_alter_same, task_free_alter_descend, Hf. }
  unfold the_frame. rewrite H. reflexivity.
Qed.

Lemma the_frame_add_nr_pairs n p s : the_frame (add_nr_pairs n p s) = the_frame s.
Proof. apply the_frame_on_cell. intros []. reflexivity. Qed.

(** The cells of the space are replaced by cells with the same fields
    but those of the tasks. *)
Lemma the_frame_set_cells cells s :
  map task_free cells = map task_free (the_cells s) ->
  the_frame (set_s_cells (Some cells) s) = the_frame s.
Proof. intros H. unfold the_frame, the_cells in *. simpl. now rewrite H. Qed.

Lemma the_frame_set_cells_if cells s :
  map task_free cells = map task_free (the_cells s) ->
  the_frame (set_s_cells ((fun _ => cells) <$> s_cells s) s) = the_frame s.
Proof.
  intros H. unfold the_frame, the_cells in *. simpl.
  destruct (s_cells s); simpl in *; [now rewrite H|reflexivity].
Qed.

Create Rewrite HintDb frame.
#[local] Hint Rewrite the_frame_on_tasks the_frame_set_s_tasks the_frame_set_s_tasks_size
  the_frame_set_s_tasks_ind the_frame_add_nr_pairs : frame.
#[local] Hint Rewrite the_frame_on_cell using (intros []; reflexivity) : frame.

Lemma for_each_frame {A : Type} (body : space -> A -> outcome space) (l : list A) s s' :
  (forall x st st', body st x = Ok st' -> the_frame st' = the_frame st) ->
  for_each l body s = Ok s' -> the_frame s' = the_frame s.
Proof.
  intros Hbody H.
  apply (for_each_inv (fun st => the_frame st = the_frame s)) in H; [exact H| |reflexivity].
  intros x st st' _ Hst Hb. rewrite <- Hst. eapply Hbody, Hb.
Qed.

Lemma for_each_frame_fst {A X : Type} (body : space * X -> A -> outcome (space * X))
  (l : list A) st0 st1 :
  (forall x st st', body st x = Ok st' -> the_frame st'.1 = the_frame st.1) ->
  for_each l body st0 = Ok st1 -> the_frame st1.1 = the_frame st0.1.
Proof.
  intros Hbody H.
  apply (for_each_inv (fun st => the_frame st.1 = the_frame st0.1)) in H;
    [exact H| |reflexivity].
  intros x st st' _ Hst Hb. rewrite <- Hst. eapply Hbody, Hb.
Qed.

Lemma space_addtask_frame s ty st fl w ci cj ut uc r :
  space_addtask s ty st fl w ci cj ut uc = Ok r -> the_frame r.1 = the_frame s.
Proof.
  unfold space_addtask. destruct (s_tasks_size s); [|discriminate].
  destruct (_ <? _); [|discriminate]. intros H. inversion H. reflexivity.
Qed.

Ltac frame_step :=
  match goal with
  | H : mbind _ _ = Ok _ |- _ =>
      let a := fresh "a" in let E := fresh "E" in
      apply bind_Ok in H; destruct H as (a & E & H)
  | H : (let '(_, _) := ?p in _) = Ok _ |- _ => destruct p
  | H : (let '(_, _) := ?p in _) _ = Ok _ |- _ => destruct p
  | H : Ok _ = Ok _ |- _ => inversion H; subst; clear H
  | H : Fault = Ok _ |- _ => discriminate H
  | H : Timeout = Ok _ |- _ => discriminate H
  | H : Abort _ = Ok _ |- _ => discriminate H
  | H : deref _ = Ok _ |- _ => clear H
  | H : sorts_at _ _ = Ok _ |- _ => clear H
  | H : sorts_pts _ _ _ = Ok _ |- _ => clear H
  | H : the_cell _ _ = Ok _ |- _ => clear H
  | H : top_cell _ = Ok _ |- _ => clear H
  | H : super_ghost _ _ = Ok _ |- _ => clear H
  | H : ghost_of _ _ = Ok _ |- _ => clear H
  | H : first_progeny _ _ _ = Ok _ |- _ => clear H
  | H : space_addtask _ _ _ _ _ _ _ _ _ = Ok _ |- _ =>
      apply space_addtask_frame in H; cbn [fst snd] in H
  | H : (if ?b then _ else _) = Ok _ |- _ => destruct b
  | H : match ?x with _ => _ end = Ok _ |- _ => destruct x
  end.

Ltac frame_done :=
  cbn [fst snd] in *; autorewrite with frame in *; congruence.

Ltac frame_with known :=
  repeat first
    [ frame_step
    | match goal with H : _ = Ok _ |- _ => known H; cbn [fst snd] in H end
    | match goal with
      | H : for_each _ _ _ = Ok _ |- _ =>
          first [ apply for_each_frame in H;
                  [|let Hb := fresh "Hb" in clear; intros ? ? ? Hb; frame_with known]
                | apply for_each_frame_fst in H;
                  [|let Hb := fresh "Hb" in clear; intros ? [? ?] [? ?] Hb;
                    frame_with known] ]
      end ];
  frame_done.

Lemma link_sorts_frame d dk s s' : link_sorts d dk s = Ok s' -> the_frame s' = the_frame s.
Proof. unfold link_sorts. intros H. frame_with known0. Qed.

Lemma unlock_by_all_sorts_frame d t s s' :
  unlock_by_all_sorts d t s = Ok s' -> the_frame s' = the_frame s.
Proof. unfold unlock_by_all_sorts. intros H. frame_with known0. Qed.

Lemma count_task_frame p s s' : count_task p s = Ok s' -> the_frame s' = the_frame s.
Proof. unfold count_task, modify_cell. intros H. frame_with known0. Qed.

Lemma store_density_frame t p s s' :
  store_density t p s = Ok s' -> the_frame s' = the_frame s.
Proof. unfold store_density, modify_cell. intros H. frame_with known0. Qed.

Lemma self_to_sub_frame tid ci s s' :
  self_to_sub tid ci s = Ok s' -> the_frame s' = the_frame s.
Proof. unfold self_to_sub. intros H. frame_with known0. Qed.

Lemma self_explicit_frame tid pi ci s s' :
  self_explicit tid pi ci s = Ok s' -> the_frame s' = the_frame s.
Proof. unfold self_explicit. intros H. frame_with known0. Qed.

Ltac fknown1 H :=
  match type of H with
  | link_sorts _ _ _ = Ok _ => apply link_sorts_frame in H
  | unlock_by_all_sorts _ _ _ = Ok _ => apply unlock_by_all_sorts_frame in H
  | count_task _ _ = Ok _ => apply count_task_frame in H
  | store_density _ _ _ = Ok _ => apply store_density_frame in H
  | self_to_sub _ _ _ = Ok _ => apply self_to_sub_frame in H
  | self_explicit _ _ _ _ = Ok _ => apply self_explicit_frame in H
  end.

Lemma pair_to_sub_frame tid sid ci cj s s' :
  pair_to_sub tid sid ci cj s = Ok s' -> the_frame s' = the_frame s.
Proof. unfold pair_to_sub. intros H. frame_with fknown1. Qed.

Lemma the_frame_foldl {A : Type} (g : space -> A -> space) (l : list A) s :
  (forall s a, the_frame (g s a) = the_frame s) ->
  the_frame (foldl g s l) = the_frame s.
Proof.
  intros Hg. revert s. induction l as [|a l IH]; intros s; simpl; [reflexivity|].
  rewrite IH. apply Hg.
Qed.

Lemma pair_explicit_frame tid sid pi pj ci cj s s' :
  pair_explicit tid sid pi pj ci cj s = Ok s' -> the_frame s' = the_frame s.
Proof.
  unfold pair_explicit. intros H.
  destruct (sid <? 0); [discriminate|].
  do 2 (apply bind_Ok in H; destruct H as (? & _ & H)).
  destruct (split_cases sid) as [[[[pairs las] lbs] n]|]; [|frame_with fknown1].
  apply bind_Ok in H. destruct H as (t0 & _ & H).
  apply bind_Ok in H. destruct H as ([s1 b1] & E & H).
  inversion H; subst; clear H.
  rewrite !the_frame_foldl by (intros; apply the_frame_add_nr_pairs).
  frame_with fknown1.
Qed.

Lemma splittasks_step_frame cfg tid s r :
  splittasks_step cfg tid s = Ok r -> the_frame r.1 = the_frame s.
Proof.
  unfold splittasks_step. intros H.
  apply bind_Ok in H. destruct H as (t & _ & H).
  destruct (t_type t); try (inversion H; reflexivity).
  - apply bind_Ok in H. destruct H as (ci & _ & H).
    destruct (negb _); [inversion H; reflexivity|].
    destruct (_ <? _); frame_with fknown1.
  - apply bind_Ok in H. destruct H as (pj & _ & H).
    apply bind_Ok in H. destruct H as (ci & _ & H).
    apply bind_Ok in H. destruct H as (cj & _ & H).
    destruct (_ && _ && _ && _); [|inversion H; reflexivity].
    destruct (pair_sid s (cdata ci) (cdata cj) <? 13);
      (destruct (_ && _ && _ && _ && _ && _);
       [ apply bind_Ok in H; destruct H as (s1 & E & H);
         apply pair_to_sub_frame in E
       | apply bind_Ok in H; destruct H as (s1 & E & H);
         apply pair_explicit_frame in E ];
       inversion H; subst; clear H; frame_done).
Qed.

Lemma space_splittasks_frame cfg fuel : forall tid s s',
  space_splittasks cfg fuel tid s = Ok s' -> the_frame s' = the_frame s.
Proof.
  induction fuel as [|fuel IH]; intros tid s s' H; simpl in H.
  - destruct (negb _); [inversion H; reflexivity|discriminate].
  - destruct (negb _); [inversion H; reflexivity|].
    apply bind_Ok in H. destruct H as ([s1 tid1] & E & H).
    apply splittasks_step_frame in E. apply IH in H. frame_done.
Qed.

Lemma add_top_pair_frame cid i j k ii jj kk s s' :
  add_top_pair cid i j k ii jj kk s = Ok s' -> the_frame s' = the_frame s.
Proof. unfold add_top_pair. intros H. frame_with fknown1. Qed.

Ltac fknown2 H :=
  match type of H with
  | add_top_pair _ _ _ _ _ _ _ _ = Ok _ => apply add_top_pair_frame in H
  | _ => fknown1 H
  end.

Lemma add_top_tasks_frame i j k s s' :
  add_top_tasks i j k s = Ok s' -> the_frame s' = the_frame s.
Proof. unfold add_top_tasks. intros H. frame_with fknown2. Qed.

Ltac fknown3 H :=
  match type of H with
  | add_top_tasks _ _ _ _ = Ok _ => apply add_top_tasks_frame in H
  | _ => fknown2 H
  end.

Lemma add_all_top_tasks_frame s s' :
  add_all_top_tasks s = Ok s' -> the_frame s' = the_frame s.
Proof.
  unfold add_all_top_tasks. generalize (s_cdim s). intros cdim H. frame_with fknown3.
Qed.

Lemma drop_idle_sort_frame k s s' :
  drop_idle_sort k s = Ok s' -> the_frame s' = the_frame s.
Proof. unfold drop_idle_sort. intros H. frame_with fknown1. Qed.

Lemma count_tasks_of_frame k s s' :
  count_tasks_of k s = Ok s' -> the_frame s' = the_frame s.
Proof. unfold count_tasks_of. intros H. frame_with fknown1. Qed.

Lemma make_force_frame k s s' : make_force k s = Ok s' -> the_frame s' = the_frame s.
Proof. unfold make_force. intros H. frame_with fknown1. Qed.

Lemma make_forces_frame fuel : forall k s s',
  make_forces fuel k s = Ok s' -> the_frame s' = the_frame s.
Proof.
  induction fuel as [|fuel IH]; intros k s s' H; simpl in H.
  - destruct (negb _); [inversion H; reflexivity|discriminate].
  - destruct (negb _); [inversion H; reflexivity|].
    apply bind_Ok in H. destruct H as (s1 & E & H).
    apply make_force_frame in E. apply IH in H. frame_done.
Qed.

(** The loops over the cell tree. *)
Lemma for_progeny_frame (body : nat -> cell -> space -> outcome (cell * space)) pr :
  Forall (fun o => match o with
                   | Some ck =>
                       forall k s r, body k ck s = Ok r ->
                         the_frame r.2 = the_frame s /\ task_free r.1 = task_free ck
                   | None => True
                   end) pr ->
  forall k s r, for_progeny body k pr s = Ok r ->
    the_frame r.2 = the_frame s /\
    map (fun o => match o with Some ck => Some (task_free ck) | None => None end) r.1
    = map (fun o => match o with Some ck => Some (task_free ck) | None => None end) pr.
Proof.
  induction 1 as [|o pr Ho _ IH]; intros k s r H; simpl in H.
  - inversion H. auto.
  - destruct o as [ck|].
    + apply bind_Ok in H. destruct H as ([ck1 s1] & E & H).
      apply bind_Ok in H. destruct H as ([pr1 s2] & E2 & H).
      apply Ho in E. apply IH in E2. inversion H; subst. cbn [fst snd] in *.
      destruct E as [E Ec], E2 as [E2 Ep]. split; [congruence|].
      simpl. now rewrite Ec, Ep.
    + apply bind_Ok in H. destruct H as ([pr1 s2] & E2 & H).
      apply IH in E2. inversion H; subst. cbn [fst snd] in *.
      destruct E2 as [E2 Ep]. split; [exact E2|]. simpl. now rewrite Ep.
Qed.

Lemma rec_map_frame full (fn : cell_fun) :
  (forall anc p d s r, fn anc p d s = Ok r ->
     the_frame r.2 = the_frame s /\ task_free_data r.1 = task_free_data d) ->
  forall c anc p s r, rec_map full fn anc p c s = Ok r ->
    the_frame r.2 = the_frame s /\ task_free r.1 = task_free c.
Proof.
  intros Hfn. induction c as [d pr IH] using cell_tree_ind.
  intros anc p s r H. simpl in H.
  apply bind_Ok in H. destruct H as ([d1 s1] & E & H).
  assert (the_frame s1 = the_frame s /\ task_free_data d1 = task_free_data d) as [E1 Ed].
  { destruct (full || negb (c_split d)); [apply Hfn in E; exact E|].
    inversion E; auto. }
  destruct (c_split d1).
  2:{ inversion H; subst. cbn [fst snd]. split; [exact E1|]. simpl. now rewrite Ed. }
  apply bind_Ok in H. destruct H as ([pr1 s2] & E2 & H).
  apply for_progeny_frame in E2.
  - inversion H; subst. cbn [fst snd] in *. destruct E2 as [E2 Ep].
    split; [congruence|]. simpl. now rewrite Ed, Ep.
  - eapply Forall_impl; [exact IH|]. intros [ck|] Hck; [|exact I].
    intros k s3 r3. apply Hck.
Qed.

Lemma space_map_cells_frame s full (fn : cell_fun) s' :
  (forall anc p d s r, fn anc p d s = Ok r ->
     the_frame r.2 = the_frame s /\ task_free_data r.1 = task_free_data d) ->
  space_map_cells s full fn = Ok s' -> the_frame s' = the_frame s.
Proof.
  intros Hfn. unfold space_map_cells. intros H.
  apply bind_Ok in H. destruct H as ([cells s1] & E & H). inversion H; subst; clear H.
  assert (forall cells0 i s0 r, map_cells_from full fn i cells0 s0 = Ok r ->
            the_frame r.2 = the_frame s0 /\ map task_free r.1 = map task_free cells0)
    as Hmap.
  { induction cells0 as [|c cells0 IH]; intros i s0 r H; simpl in H.
    - inversion H. auto.
    - apply bind_Ok in H. destruct H as ([c1 s2] & E1 & H).
      apply bind_Ok in H. destruct H as ([cells1 s3] & E2 & H).
      apply (rec_map_frame _ _ Hfn) in E1. apply IH in E2.
      inversion H; subst. cbn [fst snd] in *.
      destruct E1 as [E1 Ec], E2 as [E2 Ep]. split; [congruence|].
      simpl. now rewrite Ec, Ep. }
  apply Hmap in E. cbn [fst snd] in E. destruct E as [E Ec].
  rewrite the_frame_set_cells; [exact E|].
  rewrite Ec. unfold the_frame in E. congruence.
Qed.

Lemma space_map_clearnrtasks_frame anc p d s r :
  space_map_clearnrtasks anc p d s = Ok r ->
  the_frame r.2 = the_frame s /\ task_free_data r.1 = task_free_data d.
Proof.
  unfold space_map_clearnrtasks. intros H. inversion H; subst.
  split; [reflexivity|]. destruct d; reflexivity.
Qed.

Lemma space_map_mkghosts_frame anc p d s r :
  space_map_mkghosts anc p d s = Ok r ->
  the_frame r.2 = the_frame s /\ task_free_data r.1 = task_free_data d.
Proof.
  unfold space_map_mkghosts. intros H.
  apply bind_Ok in H. destruct H as ([d1 s1] & E & H).
  assert (the_frame s1 = the_frame s /\ task_free_data d1 = task_free_data d) as [E1 Ed].
  { destruct (_ || _).
    - apply bind_Ok in E. destruct E as ([s2 t] & Ea & E).
      apply space_addtask_frame in Ea. inversion E; subst.
      split; [exact Ea|]. destruct d; reflexivity.
    - inversion E; subst. split; [reflexivity|]. destruct d; reflexivity. }
  destruct (bool_decide _).
  - apply bind_Ok in H. destruct H as (parent & _ & H). inversion H; subst.
    cbn [fst snd]. autorewrite with frame. auto.
  - inversion H; subst. auto.
Qed.

Lemma make_sorts_frame do_sort p d s r :
  make_sorts do_sort p d s = Ok r ->
  the_frame r.2 = the_frame s /\ task_free_data r.1 = task_free_data d.
Proof.
  unfold make_sorts. intros H.
  destruct (0 <? c_count d); [|inversion H; auto].
  destruct do_sort; [|inversion H; auto].
  destruct (c_count d <? 1000).
  { apply bind_Ok in H. destruct H as ([s1 t] & Ea & H).
    apply space_addtask_frame in Ea. inversion H; subst.
    split; [exact Ea|]. destruct d; reflexivity. }
  destruct (c_count d <? 5000).
  { apply bind_Ok in H. destruct H as ([s1 t] & Ea & H).
    apply bind_Ok in H. destruct H as ([s2 t2] & Eb & H).
    apply space_addtask_frame in Ea. apply space_addtask_frame in Eb.
    inversion H; subst. cbn [fst snd] in *.
    split; [congruence|]. destruct d; reflexivity. }
  apply bind_Ok in H. destruct H as ([s1 d1] & E & H). inversion H; subst; clear H.
  apply (for_each_inv (fun st : space * cell_data =>
                         the_frame st.1 = the_frame s /\
                         task_free_data st.2 = task_free_data d)) in E.
  - cbn [fst snd] in *. exact E.
  - intros [k flags] [sa da] st' _ [Ha Hd] Hb. cbn [fst snd] in *.
    apply bind_Ok in Hb. destruct Hb as ([sb t] & Ea & Hb).
    apply space_addtask_frame in Ea. inversion Hb; subst. cbn [fst snd] in *.
    split; [congruence|]. rewrite <- Hd. destruct da; reflexivity.
  - auto.
Qed.

Lemma maketasks_sort_rec_frame do_sort :
  forall c p s r, maketasks_sort_rec do_sort p c s = Ok r ->
    the_frame r.2 = the_frame s /\ task_free r.1 = task_free c.
Proof.
  induction c as [d pr IH] using cell_tree_ind.
  intros p s r H. simpl in H.
  apply bind_Ok in H. destruct H as ([d1 s1] & E & H).
  apply make_sorts_frame in E. cbn [fst snd] in E. destruct E as [E1 Ed].
  assert (task_free_data d1 = task_free_data d) as Ed'
    by (rewrite Ed; destruct d; reflexivity).
  destruct (c_split d1).
  2:{ inversion H; subst. cbn [fst snd]. split; [exact E1|]. simpl. now rewrite Ed'. }
  apply bind_Ok in H. destruct H as ([pr1 s2] & E2 & H).
  apply for_progeny_frame in E2.
  - inversion H; subst. cbn [fst snd] in *. destruct E2 as [E2 Ep].
    split; [congruence|]. simpl. now rewrite Ed', Ep.
  - eapply Forall_impl; [exact IH|]. intros [ck|] Hck; [|exact I].
    intros k s3 r3 Hb.
    apply bind_Ok in Hb. destruct Hb as ([ck1 s4] & E3 & Hb).
    apply bind_Ok in Hb. destruct Hb as (s5 & E4 & Hb).
    apply Hck in E3. apply link_sorts_frame in E4. inversion Hb; subst.
    cbn [fst snd] in *. destruct E3 as [E3 Ec]. split; [congruence|exact Ec].
Qed.

Lemma sort_cells_from_frame do_sort cells :
  forall i s r, sort_cells_from do_sort i cells s = Ok r ->
    the_frame r.2 = the_frame s /\ map task_free r.1 = map task_free cells.
Proof.
  induction cells as [|c cells IH]; intros i s r H; simpl in H.
  - inversion H. auto.
  - apply bind_Ok in H. destruct H as ([c1 s2] & E1 & H).
    apply bind_Ok in H. destruct H as ([cells1 s3] & E2 & H).
    apply maketasks_sort_rec_frame in E1. apply IH in E2.
    inversion H; subst. cbn [fst snd] in *.
    destruct E1 as [E1 Ec], E2 as [E2 Ep]. split; [congruence|].
    simpl. now rewrite Ec, Ep.
Qed.

(** [space_maketasks] writes the task arena and the task fields of the
    cells, and nothing else. *)
Lemma space_maketasks_keeps_frame cfg fuel s do_sort s' :
  space_maketasks cfg fuel s do_sort = Ok s' -> the_frame s' = the_frame s.
Proof.
  unfold space_maketasks. intros H.
  apply bind_Ok in H. destruct H as ([cells s1] & E1 & H).
  apply sort_cells_from_frame in E1. cbn [fst snd] in E1. destruct E1 as [E1 Ec].
  apply bind_Ok in H. destruct H as (s2 & E2 & H). apply add_all_top_tasks_frame in E2.
  apply bind_Ok in H. destruct H as (s3 & E3 & H). apply space_splittasks_frame in E3.
  apply bind_Ok in H. destruct H as (s4 & E4 & H).
  apply for_each_frame in E4; [|intros ? ? ?; apply drop_idle_sort_frame].
  apply bind_Ok in H. destruct H as (s5 & E5 & H).
  apply space_map_cells_frame in E5; [|apply space_map_clearnrtasks_frame].
  apply bind_Ok in H. destruct H as (s6 & E6 & H).
  apply for_each_frame in E6; [|intros ? ? ?; apply count_tasks_of_frame].
  apply bind_Ok in H. destruct H as (s7 & E7 & H).
  apply space_map_cells_frame in E7; [|apply space_map_mkghosts_frame].
  apply bind_Ok in H. destruct H as (s8 & E8 & H). apply make_forces_frame in E8.
  inversion H; subst; clear H. autorewrite with frame.
  rewrite E8, E7, E6, E5, E4, E3, E2.
  rewrite the_frame_set_cells_if.
  - rewrite E1. autorewrite with frame.
    destruct (match s_tasks_size s with Some size => size <? s_tot_cells s * 43 | None => true end);
      autorewrite with frame; reflexivity.
  - rewrite Ec. unfold the_frame in E1.
    assert (map task_free (the_cells s1)
            = map task_free (the_cells (set_s_tasks []
                (if match s_tasks_size s with
                    | Some size => size <? s_tot_cells s * 43
                    | None => true
                    end
                 then set_s_tasks_size (Some (s_tot_cells s * 43)) s else s)))) as Hs
      by congruence.
    rewrite Hs. destruct (match s_tasks_size s with _ => _ end); reflexivity.
Qed.

(** * The rebuild of the space *)

(** ** The extremes of [h] *)

Lemma Qltb_ge x y : Qltb x y = false <-> (y <= x)%Q.
Proof.
  unfold Qltb. rewrite Qle_alt. destruct (y ?= x)%Q eqn:E.
  - apply Qeq_alt in E. rewrite (proj1 (Qeq_alt x y)) by (symmetry; exact E).
    split; [intros _ H; discriminate|reflexivity].
  - apply Qlt_alt in E. rewrite (proj1 (Qgt_alt x y)) by exact E.
    split; [intros _ H; discriminate|reflexivity].
  - apply Qgt_alt in E. rewrite (proj1 (Qlt_alt x y)) by exact E.
    split; [discriminate|intros H; exfalso; apply H; reflexivity].
Qed.

(** The loop of [space_rebuild] over the particles: the result bounds the
    [h] of the first [nr_parts] particles from above and from below, and
    both bounds are the [h] of a particle. *)
Lemma scan_h_spec s h_max h_min :
  scan_h s = Ok (h_max, h_min) ->
  (forall (k : nat) p, Z.of_nat k < s_nr_parts s -> s_parts s !! k = Some p ->
     (h_min <= p_h p <= h_max)%Q) /\
  (exists (k : nat) p, (k = 0%nat \/ Z.of_nat k < s_nr_parts s) /\
     s_parts s !! k = Some p /\ p_h p = h_max) /\
  (exists (k : nat) p, (k = 0%nat \/ Z.of_nat k < s_nr_parts s) /\
     s_parts s !! k = Some p /\ p_h p = h_min).
Proof.
  unfold scan_h. intros H.
  apply bind_Ok in H. destruct H as (p0 & E0 & H). apply deref_Ok in E0.
  apply (for_each_seq_inv
           (fun m (st : Q * Q) =>
              (st.2 <= st.1)%Q /\
              (forall (k : nat) p, (k < m)%nat -> s_parts s !! k = Some p ->
                 (st.2 <= p_h p <= st.1)%Q) /\
              (exists (k : nat) p, (k = 0%nat \/ (k < m)%nat) /\
                 s_parts s !! k = Some p /\ p_h p = st.1) /\
              (exists (k : nat) p, (k = 0%nat \/ (k < m)%nat) /\
                 s_parts s !! k = Some p /\ p_h p = st.2))) in H.
  - cbn [fst snd] in H. destruct H as (_ & Hall & (k1 & p1 & Hk1 & Hp1) & (k2 & p2 & Hk2 & Hp2)).
    split; [|split].
    + intros k p Hk. apply Hall. lia.
    + exists k1, p1. split; [destruct Hk1; [left|right]; lia|exact Hp1].
    + exists k2, p2. split; [destruct Hk2; [left|right]; lia|exact Hp2].
  - intros k [hM hm] st' Hk (Hle & Hall & HM & Hm) Hb. cbn [fst snd] in *.
    apply bind_Ok in Hb. destruct Hb as (p & Ep & Hb). apply deref_Ok in Ep.
    assert (forall (k0 : nat) q (a b : Q), (a <= hm)%Q -> (hM <= b)%Q ->
              (k0 < k)%nat -> s_parts s !! k0 = Some q -> (a <= p_h q <= b)%Q) as Hold.
    { intros k0 q a b Ha Hb0 Hk0 Hq. destruct (Hall k0 q Hk0 Hq) as [H1 H2].
      split; eapply Qle_trans; eauto. }
    destruct HM as (k1 & p1 & Hk1 & Hp1), Hm as (k2 & p2 & Hk2 & Hp2).
    destruct (Qltb hM (p_h p)) eqn:E1.
    + apply Qltb_lt in E1. inversion Hb; subst st'; clear Hb. cbn [fst snd].
      split; [eapply Qle_trans; [exact Hle|apply Qlt_le_weak, E1]|]. split; [|split].
      * intros k0 q Hk0 Hq. destruct (decide (k0 = k)) as [->|Hne].
        -- rewrite Ep in Hq. injection Hq as <-.
           split; [eapply Qle_trans; [exact Hle|apply Qlt_le_weak, E1]|apply Qle_refl].
        -- apply (Hold k0 q); [apply Qle_refl|apply Qlt_le_weak, E1|lia|exact Hq].
      * exists k, p. split; [right; lia|auto].
      * exists k2, p2. split; [destruct Hk2; [left|right]; lia|exact Hp2].
    + apply Qltb_ge in E1. destruct (Qltb (p_h p) hm) eqn:E2.
      * apply Qltb_lt in E2. inversion Hb; subst st'; clear Hb. cbn [fst snd].
        split; [exact E1|]. split; [|split].
        -- intros k0 q Hk0 Hq. destruct (decide (k0 = k)) as [->|Hne].
           ++ rewrite Ep in Hq. injection Hq as <-. split; [apply Qle_refl|exact E1].
           ++ apply (Hold k0 q); [apply Qlt_le_weak, E2|apply Qle_refl|lia|exact Hq].
        -- exists k1, p1. split; [destruct Hk1; [left|right]; lia|exact Hp1].
        -- exists k, p. split; [right; lia|auto].
      * apply Qltb_ge in E2. inversion Hb; subst st'; clear Hb. cbn [fst snd].
        split; [exact Hle|]. split; [|split].
        -- intros k0 q Hk0 Hq. destruct (decide (k0 = k)) as [->|Hne].
           ++ rewrite Ep in Hq. injection Hq as <-. split; assumption.
           ++ apply (Hold k0 q); [apply Qle_refl|apply Qle_refl|lia|exact Hq].
        -- exists k1, p1. split; [destruct Hk1; [left|right]; lia|exact Hp1].
        -- exists k2, p2. split; [destruct Hk2; [left|right]; lia|exact Hp2].
  - cbn [fst snd]. split; [apply Qle_refl|]. split; [intros k p Hk; lia|].
    split; exists 0%nat, p0; auto.
Qed.


(** ** The grid *)

(** What [space_split] and [space_rebuild_recurse] leave alone: whatever
    does not depend on the counters of the cells, on [maxdepth] and on the
    particle arrays. *)
Section Untouched.

Context {X : Type} (prj : space -> X).
Hypothesis Htot_cells : forall v s, prj (set_s_tot_cells v s) = prj s.
Hypothesis Hcells_new : forall v s, prj (set_s_cells_new v s) = prj s.
Hypothesis Hmaxdepth : forall v s, prj (set_s_maxdepth v s) = prj s.
Hypothesis Hparts : forall v s, prj (set_s_parts v s) = prj s.
Hypothesis Hcparts : forall v s, prj (set_s_cparts v s) = prj s.

Lemma check_depth_keeps s d : prj (check_depth s d) = prj s.
Proof. unfold check_depth. destruct (_ <? _); [apply Hmaxdepth|reflexivity]. Qed.

Lemma space_getcell_keeps cfg s r : space_getcell cfg s = Ok r -> prj r.1 = prj s.
Proof.
  unfold space_getcell. intros H. apply bind_Ok in H. destruct H as (n & _ & H).
  inversion H; subst. cbn [fst]. rewrite Htot_cells. apply Hcells_new.
Qed.

Lemma call_cell_split_keeps cell_split s c r :
  call_cell_split cell_split s c = Ok r -> prj r.1 = prj s.
Proof.
  destruct r as [s' c']. intros H. apply call_cell_split_space in H.
  destruct H as (parts & cparts & ->). cbn [fst]. rewrite Hcparts. apply Hparts.
Qed.

Lemma space_rebuild_recycle_keeps c s : prj (space_rebuild_recycle s c).1 = prj s.
Proof.
  destruct (space_rebuild_recycle_moves c s) as (n & E & _). rewrite E.
  rewrite Htot_cells. apply Hcells_new.
Qed.

Lemma space_split_keeps cfg cell_split fuel :
  forall s c s' c',
    space_split cfg cell_split fuel s c = Ok (s', c') -> prj s' = prj s.
Proof.
  induction fuel as [|fuel IH]; intros s c s' c' H; cbn [space_split] in H; [discriminate|].
  apply bind_Ok in H. destruct H as ([count h_max] & _ & H).
  destruct (_ && _); [|inversion H; subst; apply check_depth_keeps].
  apply bind_Ok in H. destruct H as ([s1 pr1] & E1 & H).
  apply (for_each_inv (fun st : space * list (option cell) => prj st.1 = prj s))
    in E1; [| |apply check_depth_keeps].
  2:{ intros k [sa pra] st' _ Ha Hb. cbn [fst] in *.
      apply bind_Ok in Hb. destruct Hb as ([sb temp] & Eg & Hb).
      apply space_getcell_keeps in Eg. inversion Hb; subst. cbn [fst] in *. congruence. }
  apply bind_Ok in H. destruct H as ([s2 c2] & E2 & H). apply call_cell_split_keeps in E2.
  apply bind_Ok in H. destruct H as ([s3 pr3] & E3 & H).
  apply (for_each_inv (fun st : space * list (option cell) => prj st.1 = prj s))
    in E3; [| |cbn [fst] in *; congruence].
  2:{ intros k [sa pra] st' _ Ha Hb. cbn [fst] in *.
      apply bind_Ok in Hb. destruct Hb as (ck & _ & Hb).
      apply bind_Ok in Hb. destruct Hb as ([sb ckb] & Eb & Hb).
      apply IH in Eb. inversion Hb; subst. cbn [fst]. congruence. }
  apply bind_Ok in H. destruct H as ([s4 pr4] & E4 & H).
  apply (for_each_inv (fun st : space * list (option cell) => prj st.1 = prj s))
    in E4; [| |exact E3].
  2:{ intros k [sa pra] st' _ Ha Hb. cbn [fst] in *.
      apply bind_Ok in Hb. destruct Hb as (ck & _ & Hb).
      destruct (_ =? _); inversion Hb; subst; [|exact Ha].
      cbn [fst]. unfold space_recycle. rewrite Htot_cells, Hcells_new. exact Ha. }
  inversion H; subst. exact E4.
Qed.

Lemma space_rebuild_recurse_keeps cfg cell_split fuel :
  forall s c s' c' n,
    space_rebuild_recurse cfg cell_split fuel s c = Ok (s', c', n) ->
    prj s' = prj s.
Proof.
  induction fuel as [|fuel IH]; intros s c s' c' n H;
    cbn [space_rebuild_recurse] in H; [discriminate|].
  destruct (c_split (cdata c)).
  2:{ apply bind_Ok in H. destruct H as ([s1 c1] & E & H).
      inversion H; subst. eapply space_split_keeps, E. }
  apply bind_Ok in H. destruct H as ([count h_max] & _ & H).
  destruct (_ || _).
  { pose proof (space_rebuild_recycle_keeps (Cell (set_c_h_max h_max (cdata c)) (progeny c))
                  (check_depth s (cdata c))) as Hr.
    destruct (space_rebuild_recycle _ _) as [s1 c1].
    inversion H; subst. cbn [fst] in Hr. rewrite Hr. apply check_depth_keeps. }
  apply bind_Ok in H. destruct H as ([[s1 pr1] w1] & E1 & H).
  apply (for_each_inv (fun st : space * list (option cell) * list bool =>
                         prj st.1.1 = prj s))
    in E1; [| |apply check_depth_keeps].
  2:{ intros k [[sa pra] wa] st' _ Ha Hb. cbn [fst] in *.
      destruct (mjoin (pra !! k)); [inversion Hb; subst; exact Ha|].
      apply bind_Ok in Hb. destruct Hb as ([sb temp] & Eg & Hb).
      apply space_getcell_keeps in Eg. inversion Hb; subst. cbn [fst] in *. congruence. }
  apply bind_Ok in H. destruct H as ([s2 c2] & E2 & H). apply call_cell_split_keeps in E2.
  apply bind_Ok in H. destruct H as ([[s3 pr3] z3] & E3 & H).
  apply (for_each_inv (fun st : space * list (option cell) * Z =>
                         prj st.1.1 = prj s))
    in E3; [| |cbn [fst] in *; congruence].
  2:{ intros k [[sa pra] za] st' _ Ha Hb. cbn [fst] in *.
      apply bind_Ok in Hb. destruct Hb as (ck & _ & Hb).
      destruct (_ =? _); inversion Hb; subst; [|exact Ha].
      cbn [fst]. unfold space_recycle. rewrite Htot_cells, Hcells_new. exact Ha. }
  apply bind_Ok in H. destruct H as ([[s4 pr4] z4] & E4 & H).
  apply (for_each_inv (fun st : space * list (option cell) * Z =>
                         prj st.1.1 = prj s))
    in E4; [| |exact E3].
  2:{ intros k [[sa pra] za] st' _ Ha Hb. cbn [fst] in *.
      destruct (mjoin (pra !! k)); [|inversion Hb; subst; exact Ha].
      apply bind_Ok in Hb. destruct Hb as ([[sb ckb] nb] & Eb & Hb).
      apply IH in Eb. inversion Hb; subst. cbn [fst]. congruence. }
  inversion H; subst. exact E4.
Qed.

Lemma rebuild_cells_keeps cfg cell_split fuel cells :
  forall s cells' s' n,
    rebuild_cells cfg cell_split fuel cells s = Ok (cells', s', n) ->
    prj s' = prj s /\ length cells' = length cells.
Proof.
  induction cells as [|c cells IH]; intros s cells' s' n H; simpl in H.
  - inversion H; subst. auto.
  - apply bind_Ok in H. destruct H as ([[s1 c1] n1] & E1 & H).
    apply bind_Ok in H. destruct H as ([[cells2 s2] n2] & E2 & H).
    inversion H; subst. apply space_rebuild_recurse_keeps in E1.
    apply IH in E2. destruct E2 as [E2 El]. split; [congruence|simpl; congruence].
Qed.

End Untouched.

Lemma the_grid_check_depth s d : the_grid (check_depth s d) = the_grid s.
Proof. now apply check_depth_keeps. Qed.

Lemma space_rebuild_recycle_grid c s : the_grid (space_rebuild_recycle s c).1 = the_grid s.
Proof. now apply space_rebuild_recycle_keeps. Qed.

Lemma rebuild_cells_grid cfg cell_split fuel cells s cells' s' n :
  rebuild_cells cfg cell_split fuel cells s = Ok (cells', s', n) ->
  the_grid s' = the_grid s /\ length cells' = length cells.
Proof. now apply rebuild_cells_keeps. Qed.

Lemma rebuild_cells_s_cells cfg cell_split fuel cells s cells' s' n :
  rebuild_cells cfg cell_split fuel cells s = Ok (cells', s', n) ->
  s_cells s' = s_cells s.
Proof. intros H. now apply (rebuild_cells_keeps s_cells) in H. Qed.

Lemma the_grid_of_frame s s' : the_frame s' = the_frame s -> the_grid s' = the_grid s.
Proof.
  unfold the_frame, the_grid, the_parts. intros H. inversion H. congruence.
Qed.

Lemma bin_parts_grid s r :
  bin_parts s = Ok r -> the_grid r.1 = the_grid s /\ length (the_cells r.1) = length (the_cells s).
Proof.
  unfold bin_parts. intros H.
  apply (for_each_inv (fun st : space * list Z =>
                         the_grid st.1 = the_grid s /\
                         length (the_cells st.1) = length (the_cells s))) in H.
  - exact H.
  - clear. intros k [sa ia] st' _ [Ha Hl] Hb. cbn [fst] in *.
    apply bind_Ok in Hb. destruct Hb as (p & _ & Hb).
    apply bind_Ok in Hb. destruct Hb as (pc & Epc & Hb).
    apply bind_Ok in Hb. destruct Hb as (sb & Em & Hb).
    inversion Hb; subst. cbn [fst].
    unfold modify_cell in Em. apply bind_Ok in Em. destruct Em as (c & _ & Em).
    inversion Em; subst. split; [exact Ha|]. rewrite <- Hl.
    unfold on_cell, the_cells. simpl. destruct (s_cells sa) as [cells|]; simpl; [|reflexivity].
    unfold top_cell in Epc. destruct (_ <? 0); [discriminate|]. inversion Epc; subst.
    simpl. apply length_alter.
  - cbn [fst]. split; [reflexivity|].
    unfold the_cells. simpl. destruct (s_cells s); simpl; [apply length_map|reflexivity].
Qed.

Lemma hook_cells_grid s :
  the_grid (hook_cells s) = the_grid s /\
  length (the_cells (hook_cells s)) = length (the_cells s).
Proof.
  unfold hook_cells.
  assert (forall cells acc finger,
            length (foldl (fun '(finger, cells) c =>
                             ((finger + Z.to_nat (c_count (cdata c)))%nat,
                              cells ++ [Cell (set_c_parts finger (cdata c)) (progeny c)]))
                          (finger, acc) cells).2 = (length acc + length cells)%nat) as Hlen.
  { induction cells as [|c cells IH]; intros acc finger; simpl; [lia|].
    rewrite IH, length_app. simpl. lia. }
  specialize (Hlen (the_cells s) [] 0%nat).
  destruct (foldl _ _ _) as [f cells]. cbn [snd] in Hlen.
  split; [reflexivity|]. unfold the_cells in *. simpl.
  destruct (s_cells s); simpl in *; [exact Hlen|reflexivity].
Qed.


(** ** The top-level cells *)

Lemma the_grid_foldl {A : Type} (g : space -> A -> space) (l : list A) s :
  (forall s a, the_grid (g s a) = the_grid s) -> the_grid (foldl g s l) = the_grid s.
Proof.
  intros Hg. revert s. induction l as [|a l IH]; intros s; simpl; [reflexivity|].
  rewrite IH. apply Hg.
Qed.

Lemma fresh_top_alter (f : cell_data -> cell_data) c :
  (forall d, c_split (f d) = c_split d /\ (c_depth d = 0 -> c_depth (f d) = 0) /\
             (0 <= c_count d -> 0 <= c_count (f d))) ->
  fresh_top c -> fresh_top (alter_descend f [] c).
Proof.
  intros Hf (H1 & H2 & H3 & H4). destruct (Hf (cdata c)) as (F1 & F2 & F3).
  unfold fresh_top. simpl. repeat split; auto; congruence.
Qed.

Lemma top_cell_Ok id p : top_cell id = Ok p -> 0 <= id /\ p = [Z.to_nat id].
Proof.
  unfold top_cell. destruct (id <? 0) eqn:E; [discriminate|].
  apply Z.ltb_ge in E. intros H. inversion H. auto.
Qed.

(** The grid that [space_rebuild] sets up when it re-builds the upper-level
    cells. *)
Lemma new_top_cells_spec s cdim s' :
  new_top_cells s cdim = Ok s' ->
  let n := vget cdim 0 * vget cdim 1 * vget cdim 2 in
  let h := (vget (s_dim s) 0 / inject_Z (vget cdim 0),
            vget (s_dim s) 1 / inject_Z (vget cdim 1),
            vget (s_dim s) 2 / inject_Z (vget cdim 2))%Q in
  0 <= n /\
  the_grid s'
  = (s_dim s, s_periodic s, cdim, h, (1 / vget h 0, 1 / vget h 1, 1 / vget h 2)%Q,
     s_h_min s, s_h_max s, s_nr_parts s) /\
  s_tot_cells s' = n /\
  (exists cells, s_cells s' = Some cells /\ length cells = Z.to_nat n /\
                 Forall fresh_top cells).
Proof.
  unfold new_top_cells. intros H. cbv zeta.
  set (n := vget cdim 0 * vget cdim 1 * vget cdim 2) in *.
  destruct (n <? 0) eqn:En; [discriminate|]. apply Z.ltb_ge in En.
  apply bind_Ok in H. destruct H as (cells & E & H). inversion H; subst s'; clear H.
  split; [exact En|].
  set (s0 := match s_cells s with
             | Some cells0 =>
                 set_s_maxdepth 0 (foldl (fun s c => (space_rebuild_recycle s c).1) s cells0)
             | None => s
             end) in *.
  assert (the_grid s0 = the_grid s) as Hg.
  { subst s0. destruct (s_cells s) as [cells0|]; [|reflexivity].
    change (the_grid (set_s_maxdepth 0 ?x)) with (the_grid x).
    apply the_grid_foldl. intros s1 c. apply space_rebuild_recycle_grid. }
  unfold the_grid in Hg. injection Hg as G1 G2 G3 G4 G5 G6 G7 G8.
  split.
  { unfold the_grid.
    cbn [s_dim s_periodic s_cdim s_h s_ih s_h_min s_h_max s_nr_parts set_s_cells
         set_s_tot_cells set_s_ih set_s_h set_s_cdim].
    rewrite G1, G2, G6, G7, G8. reflexivity. }
  split; [reflexivity|].
  exists cells. split; [reflexivity|].
  pose (P := fun cs : list cell => length cs = Z.to_nat n /\ Forall fresh_top cs).
  assert (P cells) as HP; [|exact HP].
  apply (for_each_inv P) in E; [exact E| |].
  - intros i cs1 cs1' _ HP1 Hb1.
    apply (for_each_inv P) in Hb1; [exact Hb1| |exact HP1].
    intros j cs2 cs2' _ HP2 Hb2.
    apply (for_each_inv P) in Hb2; [exact Hb2| |exact HP2].
    intros k cs3 cs3' _ [Hl3 Hf3] Hb3.
    apply bind_Ok in Hb3. destruct Hb3 as (p & Ep & Hb3).
    apply bind_Ok in Hb3. destruct Hb3 as (c & _ & Hb3).
    inversion Hb3; subst cs3'; clear Hb3.
    apply top_cell_Ok in Ep. destruct Ep as [_ ->]. cbn [alter_cell].
    split; [rewrite length_alter; exact Hl3|].
    apply Forall_alter; [exact Hf3|].
    intros c0 _ Hc0. apply fresh_top_alter; [|exact Hc0].
    intros d. destruct d; simpl; auto.
  - split; [apply length_replicate|].
    apply Forall_replicate. unfold fresh_top. simpl. repeat split; auto; lia.
Qed.


Lemma count_sum_alter (g : cell -> cell) (i : nat) cells c :
  cells !! i = Some c ->
  (count_sum (alter g i cells) + Z.to_nat (c_count (cdata c)))%nat
  = (count_sum cells + Z.to_nat (c_count (cdata (g c))))%nat.
Proof.
  revert i. induction cells as [|x cells IH]; intros [|i] H; try discriminate.
  - injection H as ->. change (alter g 0%nat (c :: cells)) with (g c :: cells).
    simpl. lia.
  - change (alter g (S i) (x :: cells)) with (x :: alter g i cells).
    simpl in *. specialize (IH i H). lia.
Qed.

Lemma the_cells_on_cell_top f (i : nat) s :
  the_cells (on_cell f [i] s) = alter (alter_descend f []) i (the_cells s).
Proof.
  unfold on_cell, the_cells. simpl. destruct (s_cells s); reflexivity.
Qed.

(** The counts of the top-level cells after the particles are binned. *)
Lemma bin_parts_spec s s1 ind :
  bin_parts s = Ok (s1, ind) ->
  the_grid s1 = the_grid s /\ the_parts s1 = the_parts s /\
  s_tot_cells s1 = s_tot_cells s /\ s_maxdepth s1 = s_maxdepth s /\
  length (the_cells s1) = length (the_cells s) /\
  count_sum (the_cells s1) = Z.to_nat (s_nr_parts s) /\
  length ind = Z.to_nat (s_nr_parts s) /\
  Forall (fun id => 0 <= id < nr_cells s) ind /\
  (Forall (fun c => progeny c = replicate 8 None /\ c_split (cdata c) = false /\
                    c_depth (cdata c) = 0) (the_cells s) ->
   Forall fresh_top (the_cells s1)).
Proof.
  unfold bin_parts. intros H.
  set (s0 := set_s_cells _ s) in H.
  assert (the_cells s0 = map (fun c => Cell (set_c_count 0 (cdata c)) (progeny c)) (the_cells s))
    as Hc0 by (subst s0; unfold the_cells; simpl; destruct (s_cells s); reflexivity).
  apply (for_each_seq_inv
           (fun m (st : space * list Z) =>
              the_grid st.1 = the_grid s /\ the_parts st.1 = the_parts s /\
              s_tot_cells st.1 = s_tot_cells s /\ s_maxdepth st.1 = s_maxdepth s /\
              length (the_cells st.1) = length (the_cells s) /\
              count_sum (the_cells st.1) = m /\ length st.2 = m /\
              Forall (fun id => 0 <= id < nr_cells s) st.2 /\
              Forall (fun c => 0 <= c_count (cdata c)) (the_cells st.1) /\
              Forall2 (fun c c1 => progeny c1 = progeny c /\
                                   c_split (cdata c1) = c_split (cdata c) /\
                                   c_depth (cdata c1) = c_depth (cdata c))
                      (the_cells s) (the_cells st.1))) in H.
  - cbn [fst snd] in H.
    destruct H as (H1 & H2 & H3 & H4 & H5 & H6 & H7 & H8 & H9 & H10).
    repeat (split; [assumption|]).
    intros Hf. clear -Hf H9 H10.
    induction H10 as [|c c1 l l1 (A1 & A2 & A3) _ IH]; [constructor|].
    inversion Hf as [|? ? (B1 & B2 & B3) Hf']; subst.
    inversion H9 as [|? ? C1 H9']; subst.
    constructor; [|apply IH; assumption].
    unfold fresh_top. repeat split; congruence.
  - intros k [sa ia] st' Hk (H1 & H2 & H3 & H4 & H5 & H6 & H7 & H8 & H9 & H10) Hb.
    cbn [fst snd] in *.
    apply bind_Ok in Hb. destruct Hb as (p & _ & Hb).
    apply bind_Ok in Hb. destruct Hb as (pc & Epc & Hb).
    apply top_cell_Ok in Epc. destruct Epc as [Hid ->].
    apply bind_Ok in Hb. destruct Hb as (sb & Em & Hb).
    inversion Hb; subst st'; clear Hb. cbn [fst snd].
    unfold modify_cell in Em. apply bind_Ok in Em. destruct Em as (c & Ec & Em).
    inversion Em; subst sb; clear Em.
    unfold the_cell in Ec. apply deref_Ok in Ec. simpl in Ec.
    destruct (the_cells sa !! Z.to_nat _) as [c0|] eqn:Ei; [|discriminate].
    simpl in Ec. injection Ec as ->.
    rewrite the_cells_on_cell_top.
    split; [exact H1|]. split; [exact H2|]. split; [exact H3|]. split; [exact H4|].
    split; [rewrite length_alter; exact H5|]. split.
    { pose proof (count_sum_alter
                    (alter_descend (fun d => set_c_count (c_count d + 1) d) [])
                    _ _ _ Ei) as Hs.
      assert (0 <= c_count (cdata c)) as Hc.
      { rewrite Forall_forall in H9. apply H9.
        eapply list_elem_of_lookup_2, Ei. }
      replace (c_count (cdata (alter_descend (fun d => set_c_count (c_count d + 1) d) [] c)))
        with (c_count (cdata c) + 1) in Hs by (destruct c as [[] ?]; reflexivity).
      lia. }
    split; [rewrite length_app; simpl; lia|]. split.
    { apply Forall_app. split; [exact H8|]. constructor; [|constructor].
      split; [exact Hid|]. apply lookup_lt_Some in Ei. unfold nr_cells. lia. }
    split.
    { apply Forall_alter; [exact H9|]. intros c1 _ Hc1.
      destruct c1 as [[] ?]; simpl in *. lia. }
    apply Forall2_alter_r; [exact H10|].
    intros x y _ _ Hxy. destruct y as [[] ?]; exact Hxy.
  - cbn [fst snd]. rewrite Hc0.
    split; [reflexivity|]. split; [reflexivity|]. split; [reflexivity|].
    split; [reflexivity|]. split; [apply length_map|]. split.
    { clear. induction (the_cells s) as [|c l IH]; [reflexivity|].
      destruct c as [[] ?]. simpl in *. exact IH. }
    split; [reflexivity|]. split; [constructor|]. split.
    { apply Forall_forall. intros c Hc. apply list_elem_of_In, in_map_iff in Hc.
      destruct Hc as (c' & <- & _). simpl. destruct (cdata c'); simpl. lia. }
    clear. induction (the_cells s) as [|c l IH]; [constructor|].
    change (map ?g (c :: l)) with (g c :: map g l).
    constructor; [|exact IH].
    destruct c as [[] ?]; simpl; auto.
Qed.


Lemma hook_cells_fold (cells : list cell) : forall finger acc,
  foldl (fun '(finger, cells) c =>
           ((finger + Z.to_nat (c_count (cdata c)))%nat,
            cells ++ [Cell (set_c_parts finger (cdata c)) (progeny c)]))
        (finger, acc) cells
  = ((finger + count_sum cells)%nat, acc ++ hooked finger cells).
Proof.
  induction cells as [|c cells IH]; intros finger acc; simpl.
  - rewrite app_nil_r. f_equal. lia.
  - rewrite IH. rewrite <- app_assoc. simpl. f_equal. unfold count_sum. simpl. lia.
Qed.

Lemma hook_cells_spec s :
  the_cells (hook_cells s) = hooked 0 (the_cells s) /\
  s_tot_cells (hook_cells s) = s_tot_cells s /\
  s_maxdepth (hook_cells s) = s_maxdepth s.
Proof.
  unfold hook_cells. rewrite hook_cells_fold. simpl.
  unfold the_cells. destruct (s_cells s); simpl; auto.
Qed.

Lemma tiled_hooked cells : forall finger,
  tiled finger (hooked finger cells) = Some (finger + count_sum cells)%nat.
Proof.
  induction cells as [|c cells IH]; intros finger; simpl.
  - f_equal. unfold count_sum. simpl. lia.
  - destruct c as [[] ?]. simpl. rewrite Nat.eqb_refl.
    rewrite IH. f_equal. unfold count_sum. simpl. lia.
Qed.

Lemma hooked_fresh cells : forall finger,
  Forall fresh_top cells -> Forall fresh_top (hooked finger cells).
Proof.
  induction cells as [|c cells IH]; intros finger H; simpl; [constructor|].
  inversion H as [|? ? Hc H']; subst. constructor; [|apply IH; exact H'].
  destruct c as [[] ?]. exact Hc.
Qed.

Lemma hooked_length cells : forall finger, length (hooked finger cells) = length cells.
Proof. induction cells as [|c cells IH]; intros finger; simpl; [|rewrite IH]; reflexivity. Qed.

Lemma update_cparts_frame s s' :
  update_cparts s = Ok s' -> exists cparts, s' = set_s_cparts cparts s.
Proof.
  unfold update_cparts. intros H.
  apply (for_each_inv (fun st => exists cparts, st = set_s_cparts cparts s)) in H;
    [exact H| |].
  - intros k st st1 _ (cp & ->) Hb.
    apply bind_Ok in Hb. destruct Hb as (p & _ & Hb).
    apply bind_Ok in Hb. destruct Hb as (cp' & _ & Hb).
    inversion Hb; subst. exists cp'. reflexivity.
  - exists (s_cparts s). destruct s; reflexivity.
Qed.


Lemma rebuild_recurse_fresh cfg cell_split fuel s c s' c' n :
  fresh_top c ->
  space_rebuild_recurse cfg cell_split fuel s c = Ok (s', c', n) ->
  same_place c c' /\
  s_tot_cells s' = s_tot_cells s + cells_below c' /\
  s_maxdepth s <= s_maxdepth s' /\
  built_ok (s_maxdepth s') c' /\ 0 <= n.
Proof.
  intros (_ & Hsplit & _ & _) H.
  destruct fuel as [|fuel]; cbn [space_rebuild_recurse] in H; [discriminate|].
  rewrite Hsplit in H.
  apply bind_Ok in H. destruct H as ([s1 c1] & E & H). inversion H; subst; clear H.
  apply space_split_built in E. destruct E as (Hcd & Htot & Hmax & Hb).
  split; [exact Hcd|]. split; [exact Htot|]. split; [exact Hmax|].
  split; [exact Hb|]. destruct (c_split (cdata c')); simpl; lia.
Qed.

Lemma rebuild_cells_fresh cfg cell_split fuel cells :
  forall s cells' s' n,
    Forall fresh_top cells ->
    rebuild_cells cfg cell_split fuel cells s = Ok (cells', s', n) ->
    Forall2 same_place cells cells' /\
    s_tot_cells s' = s_tot_cells s + foldr (fun c n => cells_below c + n) 0 cells' /\
    s_maxdepth s <= s_maxdepth s' /\
    Forall (built_ok (s_maxdepth s')) cells' /\ 0 <= n.
Proof.
  induction cells as [|c cells IH]; intros s cells' s' n Hf H; simpl in H.
  - inversion H; subst. simpl.
    split; [constructor|]. split; [lia|]. split; [lia|]. split; [constructor|lia].
  - inversion Hf as [|? ? Hc Hf']; subst.
    apply bind_Ok in H. destruct H as ([[s1 c1] n1] & E1 & H).
    apply bind_Ok in H. destruct H as ([[cells2 s2] n2] & E2 & H).
    inversion H; subst; clear H.
    apply rebuild_recurse_fresh in E1; [|exact Hc].
    destruct E1 as (A1 & A2 & A3 & A4 & A5).
    apply IH in E2; [|exact Hf'].
    destruct E2 as (B1 & B2 & B3 & B4 & B5).
    split; [constructor; assumption|]. split; [simpl; lia|]. split; [lia|].
    split; [|lia]. constructor; [|exact B4].
    eapply built_ok_mono; [|exact A4]. exact B3.
Qed.

Lemma tiled_same_place cells cells' :
  Forall2 same_place cells cells' ->
  forall finger, tiled finger cells' = tiled finger cells.
Proof.
  induction 1 as [|c c' l l' (b & q & Hcd) _ IH]; intros finger; [reflexivity|].
  simpl. rewrite Hcd. destruct (cdata c); simpl. rewrite IH. reflexivity.
Qed.

Lemma fresh_same_place_depth cells cells' :
  Forall fresh_top cells -> Forall2 same_place cells cells' ->
  Forall (fun c => c_depth (cdata c) = 0) cells'.
Proof.
  intros Hf H. induction H as [|c c' l l' (b & q & Hcd) _ IH]; [constructor|].
  inversion Hf as [|? ? (_ & _ & Hd & _) Hf']; subst.
  constructor; [|apply IH; exact Hf'].
  rewrite Hcd. destruct (cdata c); exact Hd.
Qed.

Lemma cells_total_foldr s :
  cells_total s
  = Z.of_nat (length (the_cells s)) + foldr (fun c n => cells_below c + n) 0 (the_cells s).
Proof.
  unfold cells_total. induction (the_cells s) as [|c l IH]; [reflexivity|].
  simpl foldr. rewrite IH. simpl length. lia.
Qed.

(** ** The task fields do not matter to the tree *)

(** ** The task fields do not matter to the tree *)

Lemma sum_progeny_map f (g : cell -> cell) pr :
  Forall (fun o => match o with Some c => f (g c) = f c | None => True end) pr ->
  sum_progeny f (map (option_map g) pr) = sum_progeny f pr.
Proof.
  induction 1 as [|[c|] pr Hc _ IH]; simpl; [reflexivity| |exact IH].
  rewrite Hc, IH. reflexivity.
Qed.

Lemma max_progeny_map f (g : cell -> cell) m pr :
  Forall (fun o => match o with Some c => f (g c) = f c | None => True end) pr ->
  max_progeny f m (map (option_map g) pr) = max_progeny f m pr.
Proof.
  induction 1 as [|[c|] pr Hc _ IH]; simpl; [reflexivity| |exact IH].
  rewrite Hc, IH. reflexivity.
Qed.

Lemma all_progeny_map (P P' : nat -> cell -> bool) (g : cell -> cell) pr :
  Forall (fun o => match o with
                   | Some c => forall k, P' k (g c) = P k c
                   | None => True
                   end) pr ->
  forall k0, all_progeny P' k0 (map (option_map g) pr) = all_progeny P k0 pr.
Proof.
  induction 1 as [|[c|] pr Hc _ IH]; intros k0; simpl; [reflexivity| |apply IH].
  rewrite Hc, IH. reflexivity.
Qed.

Lemma forallb_map_progeny (Q : option cell -> bool) (g : cell -> cell) pr :
  Forall (fun o => Q (option_map g o) = Q o) pr ->
  forallb Q (map (option_map g) pr) = forallb Q pr.
Proof.
  induction 1 as [|o pr Ho _ IH]; simpl; [reflexivity|]. rewrite Ho, IH. reflexivity.
Qed.

Lemma existsb_map_progeny (Q : option cell -> bool) (g : cell -> cell) pr :
  Forall (fun o => Q (option_map g o) = Q o) pr ->
  existsb Q (map (option_map g) pr) = existsb Q pr.
Proof.
  induction 1 as [|o pr Ho _ IH]; simpl; [reflexivity|]. rewrite Ho, IH. reflexivity.
Qed.

Lemma task_free_unfold d pr :
  task_free (Cell d pr) = Cell (task_free_data d) (map (option_map task_free) pr).
Proof. reflexivity. Qed.

Lemma task_free_cdata c : cdata (task_free c) = task_free_data (cdata c).
Proof. destruct c; reflexivity. Qed.

Lemma task_free_data_place d :
  place (task_free_data d) = place d /\
  c_count (task_free_data d) = c_count d /\
  c_parts (task_free_data d) = c_parts d /\
  c_split (task_free_data d) = c_split d.
Proof. destruct d; auto. Qed.

Lemma task_free_cells_below c : cells_below (task_free c) = cells_below c.
Proof.
  induction c as [d pr IH] using cell_tree_ind. rewrite task_free_unfold.
  cbn [cells_below]. apply sum_progeny_map.
  eapply Forall_impl; [exact IH|]. intros [ck|] H; [|exact I]. simpl in H. lia.
Qed.

Lemma task_free_deepest c : deepest (task_free c) = deepest c.
Proof.
  induction c as [d pr IH] using cell_tree_ind. rewrite task_free_unfold.
  cbn [deepest]. replace (c_depth (task_free_data d)) with (c_depth d) by (destruct d; reflexivity).
  apply max_progeny_map.
  eapply Forall_impl; [exact IH|]. intros [ck|] H; [exact H|exact I].
Qed.

Lemma task_free_eight_progeny c : eight_progeny (task_free c) = eight_progeny c.
Proof.
  induction c as [d pr IH] using cell_tree_ind. rewrite task_free_unfold.
  cbn [eight_progeny]. rewrite length_map. f_equal.
  apply (forallb_map_progeny
           (fun o => match o with Some ck => eight_progeny ck | None => true end)).
  eapply Forall_impl; [exact IH|]. intros [ck|] H; [exact H|reflexivity].
Qed.

Lemma is_null_map_progeny (g : cell -> cell) pr :
  forallb is_null (map (option_map g) pr) = forallb is_null pr.
Proof.
  apply forallb_map_progeny. apply Forall_forall. intros [ck|] _; reflexivity.
Qed.

Lemma task_free_leaves_bare c : leaves_bare (task_free c) = leaves_bare c.
Proof.
  induction c as [d pr IH] using cell_tree_ind. rewrite task_free_unfold.
  cbn [leaves_bare]. rewrite is_null_map_progeny.
  replace (c_split (task_free_data d)) with (c_split d) by (destruct d; reflexivity).
  f_equal. apply all_progeny_map.
  eapply Forall_impl; [exact IH|]. intros [ck|] H; [intros _; exact H|exact I].
Qed.

Lemma task_free_octants_ok c : octants_ok (task_free c) = octants_ok c.
Proof.
  induction c as [d pr IH] using cell_tree_ind. rewrite task_free_unfold.
  cbn [octants_ok]. apply all_progeny_map.
  eapply Forall_impl; [exact IH|]. intros [ck|] H; [|exact I].
  intros k. rewrite H. f_equal. rewrite task_free_cdata.
  apply in_octant_place; apply task_free_data_place.
Qed.

Lemma task_free_counts_add_up c : counts_add_up (task_free c) = counts_add_up c.
Proof.
  induction c as [d pr IH] using cell_tree_ind. rewrite task_free_unfold.
  cbn [counts_add_up].
  replace (c_split (task_free_data d)) with (c_split d) by (destruct d; reflexivity).
  replace (c_count (task_free_data d)) with (c_count d) by (destruct d; reflexivity).
  f_equal.
  - f_equal. f_equal. apply sum_progeny_map. apply Forall_forall.
    intros [ck|] _; [|exact I]. rewrite task_free_cdata. apply task_free_data_place.
  - apply all_progeny_map.
    eapply Forall_impl; [exact IH|]. intros [ck|] H; [intros _; exact H|exact I].
Qed.

Lemma task_free_tree_shape_ok c : tree_shape_ok (task_free c) = tree_shape_ok c.
Proof.
  induction c as [d pr IH] using cell_tree_ind. rewrite task_free_unfold.
  cbn [tree_shape_ok].
  replace (c_split (task_free_data d)) with (c_split d) by (destruct d; reflexivity).
  f_equal.
  - destruct (c_split d); [|apply is_null_map_progeny].
    apply (existsb_map_progeny (fun o => negb (is_null o))).
    apply Forall_forall. intros [ck|] _; reflexivity.
  - apply (forallb_map_progeny
             (fun o => match o with
                       | Some ck => (0 <? c_count (cdata ck)) && tree_shape_ok ck
                       | None => true
                       end)).
    eapply Forall_impl; [exact IH|]. intros [ck|] H; [|reflexivity].
    cbn [option_map]. rewrite H, task_free_cdata.
    replace (c_count (task_free_data (cdata ck))) with (c_count (cdata ck))
      by (destruct (cdata ck); reflexivity).
    reflexivity.
Qed.

Lemma task_free_built_ok M c : built_ok M (task_free c) <-> built_ok M c.
Proof.
  unfold built_ok.
  rewrite task_free_eight_progeny, task_free_octants_ok, task_free_leaves_bare,
    task_free_deepest, task_free_cells_below, task_free_cdata.
  replace (c_count (task_free_data (cdata c))) with (c_count (cdata c))
    by (destruct (cdata c); reflexivity).
  reflexivity.
Qed.

(** A property of cells that the task fields do not matter to holds of
    all the cells of one list when it holds of all the cells of another
    that has the same cells but for these fields. *)
Lemma Forall_task_free (P : cell -> Prop) (l l' : list cell) :
  (forall c, P (task_free c) <-> P c) ->
  map task_free l' = map task_free l -> Forall P l -> Forall P l'.
Proof.
  intros HP. revert l'. induction l as [|c l IH]; intros [|c' l'] E H;
    try discriminate; [constructor|].
  simpl in E. injection E as Ec El. inversion H as [|? ? Hc H']; subst.
  constructor; [|apply IH; assumption].
  apply HP. rewrite Ec. apply HP. exact Hc.
Qed.

Lemma tiled_task_free cells : forall finger,
  tiled finger (map task_free cells) = tiled finger cells.
Proof.
  induction cells as [|c cells IH]; intros finger; [reflexivity|].
  simpl. rewrite task_free_cdata.
  replace (c_parts (task_free_data (cdata c))) with (c_parts (cdata c))
    by (destruct (cdata c); reflexivity).
  replace (c_count (task_free_data (cdata c))) with (c_count (cdata c))
    by (destruct (cdata c); reflexivity).
  rewrite IH. reflexivity.
Qed.

Lemma cells_below_sum_task_free cells :
  foldr (fun c n => cells_below c + n) 0 (map task_free cells)
  = foldr (fun c n => cells_below c + n) 0 cells.
Proof.
  induction cells as [|c cells IH]; [reflexivity|].
  simpl. rewrite task_free_cells_below, IH. reflexivity.
Qed.


(** ** The phases of [space_rebuild] *)

Lemma space_rebuild_phases cfg cell_split fuel s force cell_max s' n :
  space_rebuild cfg cell_split fuel s force cell_max = Ok (s', n) ->
  exists h_max h_min s1 ch s2 ind parts s4 cells s6 m,
    scan_h s = Ok (h_max, h_min) /\
    (let s0 := set_s_h_max h_max (set_s_h_min h_min s) in
     let width := Qmax (h_max * space_stretch cfg) cell_max in
     let cdim := (Qfloor (vget (s_dim s0) 0 / width), Qfloor (vget (s_dim s0) 1 / width),
                  Qfloor (vget (s_dim s0) 2 / width)) in
     (if force || (vget cdim 0 <? vget (s_cdim s0) 0) || (vget cdim 1 <? vget (s_cdim s0) 1)
         || (vget cdim 2 <? vget (s_cdim s0) 2)
      then new_top_cells s0 cdim = Ok s1 /\ ch = 1
      else s1 = s0 /\ ch = 0)) /\
    bin_parts s1 = Ok (s2, ind) /\
    (exists ind', parts_sort fuel 0 (s_nr_parts s2) 0 (nr_cells s2) (s_parts s2) ind
                  = Ok (parts, ind')) /\
    update_cparts (set_s_parts parts s2) = Ok s4 /\
    rebuild_cells cfg cell_split fuel (the_cells (hook_cells s4)) (hook_cells s4)
    = Ok (cells, s6, m) /\
    n = ch + m /\
    (let s7 := set_s_cells ((fun _ => cells) <$> s_cells s6) s6 in
     if negb (n =? 0) then space_maketasks cfg fuel s7 true = Ok s' else s' = s7).
Proof.
  unfold space_rebuild. intros H.
  apply bind_Ok in H. destruct H as ([h_max h_min] & E0 & H).
  apply bind_Ok in H. destruct H as ([s1 ch] & E1 & H).
  apply bind_Ok in H. destruct H as ([s2 ind] & E2 & H).
  apply bind_Ok in H. destruct H as ([parts ind'] & E3 & H).
  apply bind_Ok in H. destruct H as (s4 & E4 & H).
  apply bind_Ok in H. destruct H as ([[cells s6] m] & E5 & H).
  apply bind_Ok in H. destruct H as (s8 & E6 & H).
  inversion H; subst s8 n; clear H.
  exists h_max, h_min, s1, ch, s2, ind, parts, s4, cells, s6, m.
  split; [exact E0|]. split.
  { cbv zeta. destruct (_ || _ || _ || _).
    - apply bind_Ok in E1. destruct E1 as (s0 & E & E1). inversion E1; subst. auto.
    - inversion E1; subst. auto. }
  split; [exact E2|]. split; [eauto|]. split; [exact E4|]. split; [exact E5|].
  split; [reflexivity|]. cbv zeta.
  destruct (negb (ch + m =? 0)); [exact E6|]. inversion E6; reflexivity.
Qed.

Lemma the_cells_set_all cells s :
  length cells = length (the_cells s) ->
  the_cells (set_s_cells ((fun _ => cells) <$> s_cells s) s) = cells.
Proof.
  unfold the_cells. simpl. destruct (s_cells s); simpl; [reflexivity|].
  destruct cells; [reflexivity|discriminate].
Qed.

Lemma the_frame_cells s s' :
  the_frame s' = the_frame s ->
  s_tot_cells s' = s_tot_cells s /\ s_maxdepth s' = s_maxdepth s /\
  map task_free (the_cells s') = map task_free (the_cells s).
Proof. unfold the_frame. intros H. inversion H. auto. Qed.

Lemma rebuild_cells_Forall cfg cell_split (P : cell -> Prop) fuel cells :
  (forall s c s' c' n,
     fresh_top c -> space_rebuild_recurse cfg cell_split fuel s c = Ok (s', c', n) -> P c') ->
  forall s cells' s' n,
    Forall fresh_top cells ->
    rebuild_cells cfg cell_split fuel cells s = Ok (cells', s', n) ->
    Forall P cells'.
Proof.
  intros HP. induction cells as [|c cells IH]; intros s cells' s' n Hf H; simpl in H.
  - inversion H; subst. constructor.
  - inversion Hf as [|? ? Hc Hf']; subst.
    apply bind_Ok in H. destruct H as ([[s1 c1] n1] & E1 & H).
    apply bind_Ok in H. destruct H as ([[cells2 s2] n2] & E2 & H).
    inversion H; subst; clear H.
    constructor; [eapply HP; eassumption|eapply IH; eassumption].
Qed.

(** What a forced [space_rebuild] leaves. *)
Lemma space_rebuild_forced cfg cell_split fuel s cell_max s' n :
  space_rebuild cfg cell_split fuel s true cell_max = Ok (s', n) ->
  exists h_max h_min,
    scan_h s = Ok (h_max, h_min) /\
    let width := Qmax (h_max * space_stretch cfg) cell_max in
    let cdim := (Qfloor (vget (s_dim s) 0 / width), Qfloor (vget (s_dim s) 1 / width),
                 Qfloor (vget (s_dim s) 2 / width)) in
    let h := (vget (s_dim s) 0 / inject_Z (vget cdim 0),
              vget (s_dim s) 1 / inject_Z (vget cdim 1),
              vget (s_dim s) 2 / inject_Z (vget cdim 2))%Q in
    let nn := vget cdim 0 * vget cdim 1 * vget cdim 2 in
    the_grid s'
    = (s_dim s, s_periodic s, cdim, h, (1 / vget h 0, 1 / vget h 1, 1 / vget h 2)%Q,
       h_min, h_max, s_nr_parts s) /\
    0 <= nn /\
    length (the_cells s') = Z.to_nat nn /\
    tiled 0 (the_cells s') = Some (Z.to_nat (s_nr_parts s)) /\
    s_tot_cells s' = cells_total s' /\
    Forall (fun c => c_depth (cdata c) = 0 /\ built_ok (s_maxdepth s') c) (the_cells s') /\
    1 <= n /\
    (forall P : cell -> Prop,
       (forall c, P (task_free c) <-> P c) ->
       (forall s c s' c' n,
          fresh_top c -> space_rebuild_recurse cfg cell_split fuel s c = Ok (s', c', n) ->
          P c') ->
       Forall P (the_cells s')).
Proof.
  intros H. apply space_rebuild_phases in H.
  destruct H as (h_max & h_min & s1 & ch & s2 & ind & parts & s4 & cells & s6 & m
                 & E0 & E1 & E2 & _ & E4 & E5 & -> & E6).
  exists h_max, h_min. split; [exact E0|].
  cbv zeta in E1. cbn [orb] in E1. destruct E1 as [E1 ->].
  apply new_top_cells_spec in E1. cbv zeta in E1.
  destruct E1 as (Hnn & G1 & T1 & cells1 & C1 & L1 & F1).
  cbv zeta.
  set (width := Qmax (h_max * space_stretch cfg) cell_max) in *.
  change (s_dim (set_s_h_max h_max (set_s_h_min h_min s))) with (s_dim s) in *.
  change (s_periodic (set_s_h_max h_max (set_s_h_min h_min s))) with (s_periodic s) in *.
  change (s_nr_parts (set_s_h_max h_max (set_s_h_min h_min s))) with (s_nr_parts s) in *.
  change (s_h_min (set_s_h_max h_max (set_s_h_min h_min s))) with h_min in *.
  change (s_h_max (set_s_h_max h_max (set_s_h_min h_min s))) with h_max in *.
  set (cdim := (Qfloor (vget (s_dim s) 0 / width), Qfloor (vget (s_dim s) 1 / width),
                Qfloor (vget (s_dim s) 2 / width))) in *.
  set (nn := vget cdim 0 * vget cdim 1 * vget cdim 2) in *.
  assert (the_cells s1 = cells1) as C1' by (unfold the_cells; rewrite C1; reflexivity).
  assert (s_nr_parts s1 = s_nr_parts s) as N1
      by (unfold the_grid in G1; injection G1; auto).
  (* The particles are binned. *)
  apply bin_parts_spec in E2.
  destruct E2 as (G2 & _ & T2 & M2 & L2 & S2 & _ & _ & F2).
  assert (Forall fresh_top (the_cells s2)) as F2'.
  { apply F2. rewrite C1'. eapply Forall_impl; [exact F1|].
    intros c (A1 & A2 & A3 & _). auto. }
  clear F2.
  (* The particle arrays are sorted and condensed. *)
  apply update_cparts_frame in E4. destruct E4 as (cp & ->).
  set (s3 := set_s_cparts cp (set_s_parts parts s2)) in *.
  assert (the_cells s3 = the_cells s2) as C3 by reflexivity.
  (* The cells are hooked up. *)
  destruct (hook_cells_spec s3) as (C5 & T5 & M5).
  destruct (hook_cells_grid s3) as (G5 & L5).
  set (s5 := hook_cells s3) in *.
  (* The trees are built. *)
  pose proof (rebuild_cells_grid _ _ _ _ _ _ _ _ E5) as (G6 & L6).
  pose proof (rebuild_cells_s_cells _ _ _ _ _ _ _ _ E5) as C6.
  assert (Forall fresh_top (the_cells s5)) as F5
      by (rewrite C5, C3; apply hooked_fresh; exact F2').
  assert (forall P : cell -> Prop,
            (forall s c s' c' n,
               fresh_top c -> space_rebuild_recurse cfg cell_split fuel s c = Ok (s', c', n) ->
               P c') -> Forall P cells) as HP
      by (intros P HP; eapply rebuild_cells_Forall; eassumption).
  apply rebuild_cells_fresh in E5;
    [|rewrite C5, C3; apply hooked_fresh; exact F2'].
  destruct E5 as (P6 & T6 & M6 & B6 & Hm).
  set (s7 := set_s_cells ((fun _ => cells) <$> s_cells s6) s6) in *.
  assert (the_cells s7 = cells) as C7.
  { apply the_cells_set_all. rewrite L6. unfold the_cells. rewrite C6. reflexivity. }
  (* The tasks are made. *)
  replace (negb (1 + m =? 0)) with true in E6
    by (symmetry; apply negb_true_iff, Z.eqb_neq; lia).
  apply space_maketasks_keeps_frame in E6.
  pose proof (the_grid_of_frame _ _ E6) as G8.
  apply the_frame_cells in E6. destruct E6 as (T8 & M8 & C8).
  rewrite C7 in C8.
  assert (length (the_cells s') = length cells) as L8.
  { rewrite <- (length_map task_free (the_cells s')), C8. apply length_map. }
  assert (length cells = Z.to_nat nn) as Lc.
  { rewrite L6, L5, C3, L2, C1'. exact L1. }
  split.
  { rewrite G8. change (the_grid s7) with (the_grid s6).
    rewrite G6, G5. change (the_grid s3) with (the_grid s2). rewrite G2. exact G1. }
  split; [exact Hnn|]. split; [congruence|]. split.
  { rewrite <- tiled_task_free, C8, tiled_task_free.
    rewrite (tiled_same_place _ _ P6), C5, tiled_hooked, C3, S2, N1. reflexivity. }
  split.
  { rewrite cells_total_foldr, L8, Lc, <- cells_below_sum_task_free, C8,
      cells_below_sum_task_free.
    rewrite T8. change (s_tot_cells s7) with (s_tot_cells s6).
    rewrite T6, T5. change (s_tot_cells s3) with (s_tot_cells s2).
    rewrite T2, T1. lia. }
  split; [|split; [lia|]].
  2:{ intros P HP1 HP2. apply (Forall_task_free _ cells); [exact HP1|exact C8|].
      apply HP. exact HP2. }
  apply (Forall_task_free _ cells); [| exact C8 |].
  - intros c. rewrite task_free_built_ok, task_free_cdata.
    replace (c_depth (task_free_data (cdata c))) with (c_depth (cdata c))
      by (destruct (cdata c); reflexivity).
    reflexivity.
  - rewrite M8. change (s_maxdepth s7) with (s_maxdepth s6).
    apply Forall_and. split; [|exact B6].
    eapply fresh_same_place_depth; [|exact P6].
    rewrite C5, C3. apply hooked_fresh. exact F2'.
Qed.


Lemma space_rebuild_h cfg cell_split fuel s force cell_max s' n :
  space_rebuild cfg cell_split fuel s force cell_max = Ok (s', n) ->
  exists h_max h_min,
    scan_h s = Ok (h_max, h_min) /\ s_h_max s' = h_max /\ s_h_min s' = h_min /\
    s_dim s' = s_dim s /\ s_periodic s' = s_periodic s /\ s_nr_parts s' = s_nr_parts s.
Proof.
  intros H. apply space_rebuild_phases in H.
  destruct H as (h_max & h_min & s1 & ch & s2 & ind & parts & s4 & cells & s6 & m
                 & E0 & E1 & E2 & _ & E4 & E5 & -> & E6).
  exists h_max, h_min. split; [exact E0|].
  cbv zeta in E1, E6.
  assert (s_h_max s1 = h_max /\ s_h_min s1 = h_min /\ s_dim s1 = s_dim s /\
          s_periodic s1 = s_periodic s /\ s_nr_parts s1 = s_nr_parts s) as G1.
  { destruct (_ || _ || _ || _).
    - destruct E1 as [E1 _]. apply new_top_cells_spec in E1. cbv zeta in E1.
      destruct E1 as (_ & G & _). unfold the_grid in G. injection G. auto.
    - destruct E1 as [-> _]. auto. }
  apply bin_parts_grid in E2. destruct E2 as [G2 _]. cbn [fst] in G2.
  apply update_cparts_frame in E4. destruct E4 as (cp & ->).
  apply rebuild_cells_grid in E5. destruct E5 as [G6 _].
  rewrite (proj1 (hook_cells_grid _)) in G6.
  change (the_grid (set_s_cparts cp (set_s_parts parts s2))) with (the_grid s2) in G6.
  assert (the_grid s' = the_grid s1) as G.
  { rewrite <- G2, <- G6. destruct (negb _).
    - apply space_maketasks_keeps_frame, the_grid_of_frame in E6. exact E6.
    - subst s'. reflexivity. }
  unfold the_grid in G. injection G as G1' G2' G3' G4' G5' G6' G7' G8'.
  destruct G1 as (A1 & A2 & A3 & A4 & A5). repeat split; congruence.
Qed.

(** ** What [space_maketasks] and [space_rebuild] leave *)

(** [space_maketasks] writes the tasks and the task fields of the cells
    only: the box, the grid, the extremes of [h], [maxdepth], the particle
    arrays, the counters of the cells, and the cells but for their task
    fields are as before. *)
Theorem space_maketasks_only_tasks cfg fuel s do_sort s' :
  space_maketasks cfg fuel s do_sort = Ok s' -> the_frame s' = the_frame s.
Proof. apply space_maketasks_keeps_frame. Qed.

Lemma space_maketasks_only_tasks_witness :
  exists s',
    space_maketasks cfg0 20 space_two_cells true = Ok s' /\
    length (s_tasks s') = 10%nat /\ the_frame s' = the_frame space_two_cells.
Proof.
  assert (exists s', space_maketasks cfg0 20 space_two_cells true = Ok s' /\
                     length (s_tasks s') = 10%nat) as (s' & E & Hl)
    by (eexists; split; [vm_compute; reflexivity|reflexivity]).
  exists s'. split; [exact E|]. split; [exact Hl|].
  apply (space_maketasks_only_tasks _ _ _ _ _ E).
Defined.

(** When [space_rebuild] returns, [h_min] and [h_max] bound the [h] of
    every particle of the array that it was given, and each of them is the
    [h] of one of these particles. *)
Theorem space_rebuild_h_extremes cfg cell_split fuel s force cell_max s' n :
  space_rebuild cfg cell_split fuel s force cell_max = Ok (s', n) ->
  (forall (k : nat) p, Z.of_nat k < s_nr_parts s -> s_parts s !! k = Some p ->
     (s_h_min s' <= p_h p <= s_h_max s')%Q) /\
  (exists (k : nat) p, s_parts s !! k = Some p /\ p_h p = s_h_max s') /\
  (exists (k : nat) p, s_parts s !! k = Some p /\ p_h p = s_h_min s').
Proof.
  intros H. apply space_rebuild_h in H.
  destruct H as (h_max & h_min & E0 & -> & -> & _).
  apply scan_h_spec in E0. destruct E0 as (Hb & (k1 & p1 & _ & H1) & (k2 & p2 & _ & H2)).
  split; [exact Hb|]. split; [exists k1, p1; exact H1|exists k2, p2; exact H2].
Qed.

Lemma space_rebuild_h_extremes_witness :
  exists s' n,
    space_rebuild cfg0 cell_split_octants 20 space_corners true (1 # 2) = Ok (s', n) /\
    s_h_min s' = (1 # 10)%Q /\
    (forall (k : nat) p, Z.of_nat k < 4 -> parts_corners !! k = Some p ->
       (s_h_min s' <= p_h p <= s_h_max s')%Q).
Proof.
  assert (exists s' n,
            space_rebuild cfg0 cell_split_octants 20 space_corners true (1 # 2) = Ok (s', n) /\
            s_h_min s' = (1 # 10)%Q) as (s' & n & E & Hh)
    by (eexists; eexists; split; [vm_compute; reflexivity|reflexivity]).
  exists s', n. split; [exact E|]. split; [exact Hh|].
  apply (space_rebuild_h_extremes _ _ _ _ _ _ _ _ E).
Defined.

(** After a forced [space_rebuild], the top-level cells tile the particle
    array: the range [parts .. parts + count) of the first one starts at
    the first particle, the range of each of the others starts where the
    range of the one before ends, and the last one ends at [nr_parts]. *)
Theorem space_rebuild_forced_tiles cfg cell_split fuel s cell_max s' n :
  space_rebuild cfg cell_split fuel s true cell_max = Ok (s', n) ->
  tiled 0 (the_cells s') = Some (Z.to_nat (s_nr_parts s')).
Proof.
  intros H. pose proof (space_rebuild_h _ _ _ _ _ _ _ _ H) as (_ & _ & _ & _ & _ & _ & _ & ->).
  apply space_rebuild_forced in H. destruct H as (h_max & h_min & _ & H).
  cbv zeta in H. tauto.
Qed.

Lemma space_rebuild_forced_tiles_witness :
  exists s' n,
    space_rebuild cfg0 cell_split_octants 20 space_corners true (1 # 2) = Ok (s', n) /\
    map (fun c => (c_parts (cdata c), c_count (cdata c))) (the_cells s')
    = [(0%nat, 2); (2%nat, 0); (2%nat, 0); (2%nat, 0); (2%nat, 0); (2%nat, 0);
       (2%nat, 0); (2%nat, 2)] /\
    tiled 0 (the_cells s') = Some 4%nat.
Proof.
  assert (exists s' n,
            space_rebuild cfg0 cell_split_octants 20 space_corners true (1 # 2) = Ok (s', n) /\
            map (fun c => (c_parts (cdata c), c_count (cdata c))) (the_cells s')
            = [(0%nat, 2); (2%nat, 0); (2%nat, 0); (2%nat, 0); (2%nat, 0); (2%nat, 0);
               (2%nat, 0); (2%nat, 2)] /\
            s_nr_parts s' = 4) as (s' & n & E & Hc & Hn)
    by (eexists; eexists; split; [vm_compute; reflexivity|split; reflexivity]).
  exists s', n. split; [exact E|]. split; [exact Hc|].
  rewrite (space_rebuild_forced_tiles _ _ _ _ _ _ _ E), Hn. reflexivity.
Defined.

(** After a forced [space_rebuild], [tot_cells] is the number of cells
    that the space holds: the top-level cells and all the cells below
    them. *)
Theorem space_rebuild_forced_tot_cells cfg cell_split fuel s cell_max s' n :
  space_rebuild cfg cell_split fuel s true cell_max = Ok (s', n) ->
  s_tot_cells s' = cells_total s'.
Proof.
  intros H. apply space_rebuild_forced in H. destruct H as (h_max & h_min & _ & H).
  cbv zeta in H. tauto.
Qed.

Lemma space_rebuild_forced_tot_cells_witness :
  exists s' n,
    space_rebuild cfg0 cell_split_octants 20 (set_s_dim (1, 1, 1)%Q (space_halves 401)) true 1
    = Ok (s', n) /\
    cells_total s' = 3 /\ s_tot_cells s' = 3.
Proof.
  assert (exists s' n,
            space_rebuild cfg0 cell_split_octants 20
              (set_s_dim (1, 1, 1)%Q (space_halves 401)) true 1 = Ok (s', n) /\
            cells_total s' = 3) as (s' & n & E & Hc)
    by (eexists; eexists; split; [vm_compute; reflexivity|reflexivity]).
  exists s', n. split; [exact E|]. split; [exact Hc|].
  rewrite (space_rebuild_forced_tot_cells _ _ _ _ _ _ _ E). exact Hc.
Defined.



(** After a forced [space_rebuild] with a [cell_split] whose counts are
    not negative and add up, and a [space_splitsize] of one at least: in
    the tree of every top-level cell a cell that is not split has no
    progeny, a split cell has one at least, every progeny holds particles,
    and the counts of the progeny of a split cell add up to its count. *)
Theorem space_rebuild_forced_counts cfg cell_split fuel s cell_max s' n :
  1 <= space_splitsize cfg ->
  cell_split_counts cell_split ->
  space_rebuild cfg cell_split fuel s true cell_max = Ok (s', n) ->
  Forall (fun c => tree_shape_ok c = true /\ counts_add_up c = true) (the_cells s').
Proof.
  intros Hsize Hcs H. apply space_rebuild_forced in H.
  destruct H as (h_max & h_min & _ & H).
  cbv zeta in H. destruct H as (_ & _ & _ & _ & _ & _ & _ & H).
  apply H.
  - intros c. rewrite task_free_tree_shape_ok, task_free_counts_add_up. reflexivity.
  - intros s0 c s1 c1 n1 (_ & Hsplit & _) E.
    destruct fuel as [|fuel']; cbn [space_rebuild_recurse] in E; [discriminate|].
    rewrite Hsplit in E.
    apply bind_Ok in E. destruct E as ([s2 c2] & E & E'). inversion E'; subst; clear E'.
    split.
    + eapply (space_split_shape cfg cell_split Hsize Hcs), E.
    + eapply (space_split_counts cfg cell_split), E; [lia|exact Hcs].
Qed.

Lemma space_rebuild_forced_counts_witness :
  exists s' n,
    space_rebuild cfg0 cell_split_octants 20 (set_s_dim (1, 1, 1)%Q (space_halves 401)) true 1
    = Ok (s', n) /\
    map (fun c => (c_split (cdata c), c_count (cdata c))) (the_cells s') = [(true, 401)] /\
    Forall (fun c => tree_shape_ok c = true /\ counts_add_up c = true) (the_cells s').
Proof.
  assert (exists s' n,
            space_rebuild cfg0 cell_split_octants 20
              (set_s_dim (1, 1, 1)%Q (space_halves 401)) true 1 = Ok (s', n) /\
            map (fun c => (c_split (cdata c), c_count (cdata c))) (the_cells s')
            = [(true, 401)]) as (s' & n & E & Hl)
    by (eexists; eexists; split; [vm_compute; reflexivity|reflexivity]).
  exists s', n. split; [exact E|]. split; [exact Hl|].
  apply (space_rebuild_forced_counts cfg0 cell_split_octants 20
           (set_s_dim (1, 1, 1)%Q (space_halves 401)) 1 s' n);
    [vm_compute; discriminate|exact cell_split_octants_counts|exact E].
Defined.

(** A forced [space_rebuild] returns one at least: the tasks are made anew. *)
Theorem space_rebuild_forced_changes cfg cell_split fuel s cell_max s' n :
  space_rebuild cfg cell_split fuel s true cell_max = Ok (s', n) -> 1 <= n.
Proof.
  intros H. apply space_rebuild_forced in H. destruct H as (h_max & h_min & _ & H).
  cbv zeta in H. tauto.
Qed.

Lemma space_rebuild_forced_changes_witness :
  exists s' n,
    space_rebuild cfg0 cell_split_octants 20 space_corners true (1 # 2) = Ok (s', n) /\
    n = 1 /\ 1 <= n.
Proof.
  assert (exists s' n,
            space_rebuild cfg0 cell_split_octants 20 space_corners true (1 # 2) = Ok (s', n) /\
            n = 1) as (s' & n & E & Hn)
    by (eexists; eexists; split; [vm_compute; reflexivity|reflexivity]).
  exists s', n. split; [exact E|]. split; [exact Hn|].
  apply (space_rebuild_forced_changes _ _ _ _ _ _ _ E).
Defined.

(** * Sorting the particles *)

Lemma rd_spec {A : Type} (a : list A) base k x :
  rd a base k = Ok x -> 0 <= k /\ a !! (base + Z.to_nat k)%nat = Some x.
Proof.
  unfold rd. destruct (k <? 0) eqn:E; [discriminate|]. apply Z.ltb_ge in E.
  intros H. apply deref_Ok in H. auto.
Qed.

Lemma wr_spec {A : Type} (a : list A) base k v a' :
  wr a base k v = Ok a' ->
  0 <= k /\ (base + Z.to_nat k < length a)%nat /\ a' = <[(base + Z.to_nat k)%nat := v]> a.
Proof.
  unfold wr. destruct (k <? 0) eqn:E; [discriminate|]. apply Z.ltb_ge in E.
  destruct (_ <=? _) eqn:E'; [discriminate|]. apply Z.leb_gt in E'.
  simpl. intros H. inversion H. repeat split; [exact E|lia].
Qed.

Lemma rd_Ok {A : Type} (a : list A) base (k : nat) x :
  a !! (base + k)%nat = Some x -> rd a base (Z.of_nat k) = Ok x.
Proof.
  intros H. unfold rd. replace (Z.of_nat k <? 0) with false by (symmetry; apply Z.ltb_ge; lia).
  rewrite Nat2Z.id, H. reflexivity.
Qed.

Lemma rd_Ok_Z {A : Type} (a : list A) base k x :
  0 <= k -> a !! (base + Z.to_nat k)%nat = Some x -> rd a base k = Ok x.
Proof.
  intros Hk H. unfold rd.
  replace (k <? 0) with false by (symmetry; apply Z.ltb_ge; lia).
  rewrite H. reflexivity.
Qed.

Lemma wr_Ok {A : Type} (a : list A) base (k : nat) v :
  (base + k < length a)%nat -> wr a base (Z.of_nat k) v = Ok (<[(base + k)%nat := v]> a).
Proof.
  intros H. unfold wr.
  replace (Z.of_nat k <? 0) with false by (symmetry; apply Z.ltb_ge; lia).
  replace (Z.of_nat (length a) <=? Z.of_nat base + Z.of_nat k) with false
    by (symmetry; apply Z.leb_gt; lia).
  rewrite Nat2Z.id. reflexivity.
Qed.

(** ** The range that [parts_sort] writes *)

Lemma kept_outside_refl {A : Type} lo hi (a : list A) : kept_outside lo hi a a.
Proof. split; auto. Qed.

Lemma kept_outside_trans {A : Type} lo hi (a b c : list A) :
  kept_outside lo hi a b -> kept_outside lo hi b c -> kept_outside lo hi a c.
Proof.
  intros [L1 H1] [L2 H2]. split; [congruence|]. intros i Hi. rewrite H2, H1; auto.
Qed.

Lemma kept_outside_mono {A : Type} lo hi lo' hi' (a b : list A) :
  (lo' <= lo)%nat -> (hi <= hi')%nat -> kept_outside lo hi a b -> kept_outside lo' hi' a b.
Proof.
  intros Hlo Hhi [L H]. split; [exact L|]. intros i Hi. apply H. lia.
Qed.

Lemma wr_kept {A : Type} lo hi (a : list A) base k v a' :
  wr a base k v = Ok a' -> (lo <= base + Z.to_nat k < hi)%nat -> kept_outside lo hi a a'.
Proof.
  intros H Hk. apply wr_spec in H. destruct H as (_ & _ & ->).
  split; [apply length_insert|]. intros i Hi. apply list_lookup_insert_ne. lia.
Qed.

Lemma insert_shift_kept base temp_i : forall j parts ind parts' ind' j',
  insert_shift base temp_i j parts ind = Ok (parts', ind', j') ->
  0 <= j' <= Z.of_nat j /\
  kept_outside base (base + j + 1) parts parts' /\
  kept_outside base (base + j + 1) ind ind'.
Proof.
  induction j as [|j IH]; intros parts ind parts' ind' j' H; simpl in H.
  - inversion H; subst. split; [lia|]. split; apply kept_outside_refl.
  - apply bind_Ok in H. destruct H as (x & _ & H).
    destruct (temp_i <? x).
    + apply bind_Ok in H. destruct H as (ind1 & E1 & H).
      apply bind_Ok in H. destruct H as (p & _ & H).
      apply bind_Ok in H. destruct H as (parts1 & E2 & H).
      apply IH in H. destruct H as (Hj & Kp & Ki).
      apply (wr_kept base (base + S j + 1)) in E1; [|rewrite Nat2Z.id; lia].
      apply (wr_kept base (base + S j + 1)) in E2; [|rewrite Nat2Z.id; lia].
      split; [lia|].
      split; (eapply kept_outside_trans; [eassumption|]);
        (eapply kept_outside_mono; [| |eassumption]); lia.
    + inversion H; subst. split; [lia|]. split; apply kept_outside_refl.
Qed.

Lemma insert_sort_kept base N parts ind parts' ind' :
  insert_sort base N parts ind = Ok (parts', ind') ->
  kept_outside base (base + Z.to_nat N) parts parts' /\
  kept_outside base (base + Z.to_nat N) ind ind'.
Proof.
  unfold insert_sort. intros H.
  apply bind_Ok in H. destruct H as ([[parts1 ind1] j1] & E & H).
  inversion H; subst parts1 ind1; clear H.
  apply (for_each_inv
           (fun st : list part * list Z * Z =>
              kept_outside base (base + Z.to_nat N) parts st.1.1 /\
              kept_outside base (base + Z.to_nat N) ind st.1.2)) in E;
    [exact E| |split; apply kept_outside_refl].
  intros i [[pa ia] ja] st' Hi [Kp Ki] Hb. cbn [fst snd] in *.
  apply in_seq in Hi.
  apply bind_Ok in Hb. destruct Hb as (x & _ & Hb).
  apply bind_Ok in Hb. destruct Hb as (y & _ & Hb).
  destruct (x <? y); [|inversion Hb; subst; auto].
  apply bind_Ok in Hb. destruct Hb as (temp_p & _ & Hb).
  apply bind_Ok in Hb. destruct Hb as ([[pb ib] jb] & Es & Hb).
  apply bind_Ok in Hb. destruct Hb as (ic & E1 & Hb).
  apply bind_Ok in Hb. destruct Hb as (pc & E2 & Hb).
  inversion Hb; subst st'; clear Hb. cbn [fst snd].
  apply insert_shift_kept in Es. destruct Es as (Hj & Kp' & Ki').
  apply (wr_kept base (base + Z.to_nat N)) in E1; [|lia].
  apply (wr_kept base (base + Z.to_nat N)) in E2; [|lia].
  split.
  - eapply kept_outside_trans; [exact Kp|]. eapply kept_outside_trans; [|exact E2].
    eapply kept_outside_mono; [| |exact Kp']; lia.
  - eapply kept_outside_trans; [exact Ki|]. eapply kept_outside_trans; [|exact E1].
    eapply kept_outside_mono; [| |exact Ki']; lia.
Qed.

Lemma scan_up_ge ind base pivot : forall rest i i',
  scan_up ind base pivot rest i = Ok i' -> i <= i'.
Proof.
  induction rest as [|rest IH]; intros i i' H; simpl in H.
  - inversion H; lia.
  - apply bind_Ok in H. destruct H as (x & _ & H).
    destruct (x <=? pivot); [apply IH in H; lia|inversion H; lia].
Qed.

Lemma scan_down_le ind base pivot : forall rest j j',
  scan_down ind base pivot rest j = Ok j' -> j' <= j.
Proof.
  induction rest as [|rest IH]; intros j j' H; simpl in H.
  - inversion H; lia.
  - apply bind_Ok in H. destruct H as (x & _ & H).
    destruct (pivot <? x); [apply IH in H; lia|inversion H; lia].
Qed.

Lemma partition_pass_kept base N pivot : forall fuel i j parts ind parts' ind' i' j',
  partition_pass fuel base N pivot i j parts ind = Ok (parts', ind', i', j') ->
  0 <= i -> j < N ->
  0 <= i' /\ j' < N /\
  kept_outside base (base + Z.to_nat N) parts parts' /\
  kept_outside base (base + Z.to_nat N) ind ind'.
Proof.
  induction fuel as [|fuel IH]; intros i j parts ind parts' ind' i' j' H Hi Hj;
    simpl in H.
  - destruct (negb (i <? j)); [|discriminate]. inversion H; subst.
    split; [lia|]. split; [lia|]. split; apply kept_outside_refl.
  - destruct (negb (i <? j)).
    { inversion H; subst. split; [lia|]. split; [lia|]. split; apply kept_outside_refl. }
    apply bind_Ok in H. destruct H as (i1 & Ei & H). apply scan_up_ge in Ei.
    apply bind_Ok in H. destruct H as (j1 & Ej & H). apply scan_down_le in Ej.
    destruct (i1 <? j1) eqn:Elt; [|apply IH in H; [exact H|lia|lia]].
    apply Z.ltb_lt in Elt.
    apply bind_Ok in H. destruct H as (xi & _ & H).
    apply bind_Ok in H. destruct H as (xj & _ & H).
    apply bind_Ok in H. destruct H as (ind1 & E1 & H).
    apply bind_Ok in H. destruct H as (ind2 & E2 & H).
    apply bind_Ok in H. destruct H as (pi & _ & H).
    apply bind_Ok in H. destruct H as (pj & _ & H).
    apply bind_Ok in H. destruct H as (parts1 & E3 & H).
    apply bind_Ok in H. destruct H as (parts2 & E4 & H).
    apply IH in H; [|lia|lia]. destruct H as (Hi' & Hj' & Kp & Ki).
    apply (wr_kept base (base + Z.to_nat N)) in E1; [|lia].
    apply (wr_kept base (base + Z.to_nat N)) in E2; [|lia].
    apply (wr_kept base (base + Z.to_nat N)) in E3; [|lia].
    apply (wr_kept base (base + Z.to_nat N)) in E4; [|lia].
    split; [exact Hi'|]. split; [exact Hj'|].
    split; (eapply kept_outside_trans; [eassumption|]);
      (eapply kept_outside_trans; [eassumption|]); assumption.
Qed.

Lemma parts_sort_kept : forall fuel base N min max parts ind parts' ind',
  parts_sort fuel base N min max parts ind = Ok (parts', ind') ->
  kept_outside base (base + Z.to_nat N) parts parts' /\
  kept_outside base (base + Z.to_nat N) ind ind'.
Proof.
  induction fuel as [|fuel IH]; intros base N min max parts ind parts' ind' H;
    cbn [parts_sort] in H; [discriminate|].
  cbv zeta in H. destruct (N <? 16) eqn:EN; [apply insert_sort_kept, H|].
  apply Z.ltb_ge in EN.
  apply bind_Ok in H. destruct H as ([[[parts1 ind1] i] j] & Ep & H).
  apply partition_pass_kept in Ep; [|lia|lia]. destruct Ep as (Hi & Hj & Kp1 & Ki1).
  apply bind_Ok in H. destruct H as (u & _ & H).
  apply bind_Ok in H. destruct H as ([parts2 ind2] & El & H).
  assert (kept_outside base (base + Z.to_nat N) parts1 parts2 /\
          kept_outside base (base + Z.to_nat N) ind1 ind2) as [Kp2 Ki2].
  { destruct (_ && _) eqn:Ec.
    - apply IH in El. destruct El as [Kp Ki].
      split; (eapply kept_outside_mono; [| |eassumption]); lia.
    - inversion El; subst. split; apply kept_outside_refl. }
  assert (kept_outside base (base + Z.to_nat N) parts2 parts' /\
          kept_outside base (base + Z.to_nat N) ind2 ind') as [Kp3 Ki3].
  { clear El. destruct (_ && _) eqn:Ec.
    - apply andb_true_iff in Ec. destruct Ec as [Ec _]. apply Z.ltb_lt in Ec.
      apply IH in H. destruct H as [Kp Ki].
      split; (eapply kept_outside_mono; [| |eassumption]); lia.
    - inversion H; subst. split; apply kept_outside_refl. }
  split; (eapply kept_outside_trans; [eassumption|]);
    (eapply kept_outside_trans; [eassumption|]); assumption.
Qed.


(** ** The keys after the insertion sort *)

Lemma sorted_keys_cons x l :
  sorted_keys (x :: l) = true <-> Forall (Z.le x) l /\ sorted_keys l = true.
Proof.
  revert x. induction l as [|y l IH]; intros x.
  - simpl. split; [intros _; split; [constructor|reflexivity]|reflexivity].
  - change (sorted_keys (x :: y :: l)) with ((x <=? y) && sorted_keys (y :: l)).
    rewrite andb_true_iff, Z.leb_le. split.
    + intros [Hxy Hs]. split; [|exact Hs]. constructor; [exact Hxy|].
      apply IH in Hs. destruct Hs as [Hy _].
      eapply Forall_impl; [exact Hy|]. intros z Hz. simpl in Hz. lia.
    + intros [Hf Hs]. inversion Hf; subst. auto.
Qed.

Lemma sorted_keys_app l1 l2 :
  sorted_keys (l1 ++ l2) = true <->
  sorted_keys l1 = true /\ sorted_keys l2 = true /\
  Forall (fun x => Forall (Z.le x) l2) l1.
Proof.
  induction l1 as [|x l1 IH].
  - simpl. split; [intros H; repeat split; [exact H|constructor]|tauto].
  - change ((x :: l1) ++ l2) with (x :: (l1 ++ l2)).
    rewrite !sorted_keys_cons, IH, Forall_app, Forall_cons. tauto.
Qed.

Lemma sorted_keys_adjacent l (i : nat) x y :
  sorted_keys l = true -> l !! i = Some x -> l !! S i = Some y -> x <= y.
Proof.
  revert i. induction l as [|a l IH]; intros i Hs Hx Hy; [discriminate|].
  apply sorted_keys_cons in Hs. destruct Hs as [Hf Hs].
  destruct i as [|i].
  - simpl in Hx. injection Hx as ->. simpl in Hy.
    rewrite Forall_forall in Hf. apply Hf. eapply list_elem_of_lookup_2, Hy.
  - eapply IH; eauto.
Qed.

Lemma length_S_snoc {A : Type} (l : list A) n :
  length l = S n -> exists l0 x, l = l0 ++ [x] /\ length l0 = n.
Proof.
  intros H. destruct l as [|a l] using rev_ind; [discriminate|].
  exists l, a. split; [reflexivity|]. rewrite length_app in H. simpl in H. lia.
Qed.

Lemma lookup_window {A : Type} (pre w : list A) y rest :
  (pre ++ w ++ y :: rest) !! (length pre + length w)%nat = Some y.
Proof.
  rewrite app_assoc. replace (length pre + length w)%nat with (length (pre ++ w))
    by apply length_app.
  apply list_lookup_middle. reflexivity.
Qed.

Lemma insert_window {A : Type} (pre w : list A) y u rest :
  <[(length pre + length w)%nat := u]> (pre ++ w ++ y :: rest) = pre ++ w ++ u :: rest.
Proof.
  rewrite !app_assoc. replace (length pre + length w)%nat with (length (pre ++ w))
    by apply length_app.
  rewrite insert_app_r_alt by lia. rewrite Nat.sub_diag. reflexivity.
Qed.

Lemma lookup_window_at {A : Type} (pre w : list A) y rest (b j : nat) :
  length pre = b -> length w = j -> (pre ++ w ++ y :: rest) !! (b + j)%nat = Some y.
Proof. intros <- <-. apply lookup_window. Qed.

(** A loop over a range of which every round returns, returns. *)
Lemma for_each_seq_total {St : Type} (I : nat -> St -> Prop) (body : St -> nat -> outcome St) :
  forall (n a : nat) (st : St),
    (forall k st, (a <= k < a + n)%nat -> I k st ->
       exists st', body st k = Ok st' /\ I (S k) st') ->
    I a st -> exists st', for_each (seq a n) body st = Ok st' /\ I (a + n)%nat st'.
Proof.
  induction n as [|n IH]; simpl; intros a st Hbody HI.
  - exists st. now rewrite Nat.add_0_r.
  - destruct (Hbody a st) as (st1 & E1 & HI1); [lia|exact HI|].
    rewrite E1. simpl.
    replace (a + S n)%nat with (S a + n)%nat by lia.
    apply IH; [|exact HI1]. intros k s1 Hk. apply Hbody. lia.
Qed.

(** The inner loop of the insertion sort on keys in order: it returns,
    and leaves the place [jn] of the key [temp_i]. *)
Lemma insert_shift_total base temp_i : forall j parts pre w z rest,
  length pre = base -> length w = j -> (base + j < length parts)%nat ->
  sorted_keys w = true ->
  exists parts' v' (jn : nat),
    insert_shift base temp_i j parts (pre ++ w ++ z :: rest) = Ok (parts', v', Z.of_nat jn) /\
    (jn <= j)%nat /\ length parts' = length parts /\
    length v' = length (pre ++ w ++ z :: rest) /\
    (forall u, <[(base + jn)%nat := u]> v' = pre ++ (take jn w ++ u :: drop jn w) ++ rest) /\
    Forall (fun x => temp_i < x) (drop jn w) /\
    Forall (fun x => x <= temp_i) (take jn w).
Proof.
  induction j as [|j IH]; intros parts pre w z rest Hpre Hw Hparts Hs.
  - destruct w; [|discriminate]. exists parts, (pre ++ [] ++ z :: rest), 0%nat.
    simpl. split; [reflexivity|]. split; [lia|]. split; [reflexivity|].
    split; [reflexivity|]. split; [|split; constructor].
    intros u. rewrite insert_app_r_alt by lia.
    replace (base + 0 - length pre)%nat with 0%nat by lia. reflexivity.
  - destruct (length_S_snoc w j Hw) as (w0 & x & -> & Hw0).
    cbn [insert_shift].
    assert ((pre ++ (w0 ++ [x]) ++ z :: rest) !! (base + j)%nat = Some x) as Hx.
    { rewrite <- (app_assoc w0). simpl. rewrite <- Hpre, <- Hw0. apply lookup_window. }
    rewrite (rd_Ok _ _ _ _ Hx). simpl.
    apply sorted_keys_app in Hs. destruct Hs as (Hs0 & _ & Hcross).
    destruct (temp_i <? x) eqn:Elt.
    + apply Z.ltb_lt in Elt.
      rewrite wr_Ok by (rewrite !length_app in *; simpl; lia). simpl.
      assert (exists p, parts !! (base + j)%nat = Some p) as (p & Hp)
          by (apply lookup_lt_is_Some_2; lia).
      rewrite (rd_Ok _ _ _ _ Hp). simpl.
      rewrite wr_Ok by lia. simpl.
      assert (<[(base + S j)%nat := x]> (pre ++ (w0 ++ [x]) ++ z :: rest)
              = pre ++ w0 ++ x :: x :: rest) as ->.
      { rewrite <- (app_assoc w0). simpl.
        replace (pre ++ w0 ++ x :: z :: rest) with (pre ++ (w0 ++ [x]) ++ z :: rest)
          by (rewrite <- (app_assoc w0); reflexivity).
        replace (base + S j)%nat with (length pre + length (w0 ++ [x]))%nat
          by (rewrite length_app; simpl; lia).
        rewrite insert_window. rewrite <- (app_assoc w0). reflexivity. }
      destruct (IH (<[(base + S j)%nat := p]> parts) pre w0 x (x :: rest))
        as (parts' & v' & jn & E & Hjn & Lp & Lv & Hins & Hgt & Hle);
        [exact Hpre|exact Hw0|rewrite length_insert; lia|exact Hs0|].
      exists parts', v', jn. split; [exact E|]. split; [lia|].
      split; [rewrite Lp; apply length_insert|].
      split; [rewrite Lv; repeat (rewrite length_app; simpl); lia|].
      split; [|split].
      * intros u. rewrite Hins.
        rewrite take_app_le, drop_app_le by lia.
        rewrite <- !app_assoc. simpl. rewrite <- !app_assoc. reflexivity.
      * rewrite drop_app_le by lia. apply Forall_app. split; [exact Hgt|].
        constructor; [exact Elt|constructor].
      * rewrite take_app_le by lia. exact Hle.
    + apply Z.ltb_ge in Elt.
      exists parts, (pre ++ (w0 ++ [x]) ++ z :: rest), (S j).
      split; [reflexivity|]. split; [lia|]. split; [reflexivity|]. split; [reflexivity|].
      assert (length (w0 ++ [x]) = S j) as Hl by (rewrite length_app; simpl; lia).
      split; [|split].
      * intros u. rewrite firstn_all2, drop_ge by lia.
        replace (base + S j)%nat with (length pre + length (w0 ++ [x]))%nat by lia.
        rewrite insert_window. rewrite <- !app_assoc. reflexivity.
      * rewrite drop_ge by lia. constructor.
      * rewrite firstn_all2 by lia. apply Forall_app. split.
        -- eapply Forall_impl; [exact Hcross|]. intros a Ha.
           inversion Ha; subst. simpl. lia.
        -- constructor; [exact Elt|constructor].
Qed.


Lemma sorted_keys_insert_mid w (jn : nat) t :
  sorted_keys w = true ->
  Forall (fun x => x <= t) (take jn w) -> Forall (fun x => t < x) (drop jn w) ->
  sorted_keys (take jn w ++ t :: drop jn w) = true.
Proof.
  intros Hs Hle Hgt. rewrite <- (take_drop jn w) in Hs.
  apply sorted_keys_app in Hs. destruct Hs as (H1 & H2 & H3).
  apply sorted_keys_app. split; [exact H1|]. split.
  - apply sorted_keys_cons. split; [|exact H2].
    eapply Forall_impl; [exact Hgt|]. intros a Ha. simpl in Ha. lia.
  - rewrite Forall_forall in *. intros a Ha. constructor; [apply Hle, Ha|apply H3, Ha].
Qed.

Lemma sorted_keys_snoc w0 y t :
  sorted_keys (w0 ++ [y]) = true -> y <= t -> sorted_keys ((w0 ++ [y]) ++ [t]) = true.
Proof.
  intros Hs Hy. apply sorted_keys_app. split; [exact Hs|]. split; [reflexivity|].
  apply sorted_keys_app in Hs. destruct Hs as (_ & _ & Hc).
  apply Forall_app. split.
  - eapply Forall_impl; [exact Hc|]. intros a Ha. inversion Ha; subst.
    constructor; [lia|constructor].
  - constructor; [|constructor]. constructor; [exact Hy|constructor].
Qed.

(** The insertion sort of [parts_sort] on arrays that hold the range:
    it returns, and leaves the keys of the range in order. *)
Lemma insert_sort_total base N parts ind :
  (base + Z.to_nat N <= length parts)%nat ->
  (base + Z.to_nat N <= length ind)%nat ->
  exists parts' w,
    insert_sort base N parts ind
    = Ok (parts', take base ind ++ w ++ drop (base + Z.to_nat N) ind) /\
    length parts' = length parts /\
    sorted_keys w = true /\ w ≡ₚ take (Z.to_nat N) (drop base ind).
Proof.
  intros Hparts Hind. unfold insert_sort. cbv zeta.
  destruct (Z.to_nat N) as [|m] eqn:En.
  { exists parts, []. simpl. rewrite Nat.add_0_r, take_drop.
    split; [reflexivity|]. split; [reflexivity|]. split; [reflexivity|]. rewrite take_0. reflexivity. }
  replace (S m - 1)%nat with m by lia.
  assert (length (take base ind) = base) as Hpre by (rewrite length_take; lia).
  destruct (for_each_seq_total
              (fun k (st : list part * list Z * Z) =>
                 length st.1.1 = length parts /\ 0 <= st.2 < N /\
                 exists w, length w = k /\
                           st.1.2 = take base ind ++ w ++ drop (base + k) ind /\
                           sorted_keys w = true /\ w ≡ₚ take k (drop base ind))
              (fun '(parts, ind, j) i =>
                 x ← rd ind base (Z.of_nat i);
                 y ← rd ind base (Z.of_nat i - 1);
                 if x <? y then
                   temp_p ← rd parts base j;
                   '(parts, ind, j) ← insert_shift base x i parts ind;
                   ind ← wr ind base j x;
                   parts ← wr parts base j temp_p;
                   Ok (parts, ind, j)
                 else Ok (parts, ind, j))
              m 1%nat (parts, ind, N - 1))
    as ([[parts' ind'] j'] & E & HI).
  - intros k [[pa ia] ja] Hk (Lp & Hj & w & Lw & Ei & Hs & Hperm).
    cbn [fst snd] in *. subst ia.
    assert (exists t, ind !! (base + k)%nat = Some t) as (t & Ht)
        by (apply lookup_lt_is_Some_2; lia).
    rewrite (drop_S _ _ _ Ht) in *.
    destruct k as [|k0]; [lia|].
    destruct (length_S_snoc w k0 Lw) as (w0 & y & -> & Lw0).
    assert ((take base ind ++ (w0 ++ [y]) ++ t :: drop (S (base + S k0)) ind)
              !! (base + S k0)%nat = Some t) as Hx.
    { apply lookup_window_at; assumption. }
    rewrite (rd_Ok _ _ _ _ Hx). cbn [mbind outcome_bind].
    replace (Z.of_nat (S k0) - 1) with (Z.of_nat k0) by lia.
    assert ((take base ind ++ (w0 ++ [y]) ++ t :: drop (S (base + S k0)) ind)
              !! (base + k0)%nat = Some y) as Hy.
    { rewrite <- (app_assoc w0). simpl. apply lookup_window_at; assumption. }
    rewrite (rd_Ok _ _ _ _ Hy). cbn [mbind outcome_bind].
    assert (take (S (S k0)) (drop base ind) = take (S k0) (drop base ind) ++ [t]) as Htake
        by (apply take_S_r; rewrite lookup_drop; exact Ht).
    destruct (t <? y) eqn:Elt.
    + assert (exists p, pa !! (base + Z.to_nat ja)%nat = Some p) as (p & Hp)
          by (apply lookup_lt_is_Some_2; lia).
      rewrite (rd_Ok_Z _ _ _ _ (proj1 Hj) Hp). cbn [mbind outcome_bind].
      destruct (insert_shift_total base t (S k0) pa (take base ind) (w0 ++ [y]) t
                  (drop (S (base + S k0)) ind) Hpre Lw ltac:(lia) Hs)
        as (pb & v' & jn & Es & Hjn & Lpb & Lv & Hins & Hgt & Hle).
      rewrite Es. cbn [mbind outcome_bind].
      assert (length (take base ind ++ (w0 ++ [y]) ++ t :: drop (S (base + S k0)) ind)
              = length ind) as Lall.
      { repeat (rewrite length_app; simpl). rewrite Hpre, Lw0, length_drop. lia. }
      rewrite wr_Ok by lia. cbn [mbind outcome_bind]. rewrite wr_Ok by lia.
      cbn [mbind outcome_bind].
      eexists. split; [reflexivity|]. cbn [fst snd].
      split; [rewrite length_insert; lia|]. split; [lia|].
      exists (take jn (w0 ++ [y]) ++ t :: drop jn (w0 ++ [y])).
      split; [rewrite length_app; simpl; rewrite length_take, length_drop; lia|].
      split; [rewrite Hins; replace (base + S (S k0))%nat with (S (base + S k0)) by lia;
              reflexivity|].
      split; [apply sorted_keys_insert_mid; assumption|].
      rewrite Htake, <- Hperm, <- Permutation_middle, take_drop.
      apply Permutation_cons_append.
    + apply Z.ltb_ge in Elt. eexists. split; [reflexivity|]. cbn [fst snd].
      split; [exact Lp|]. split; [exact Hj|].
      exists ((w0 ++ [y]) ++ [t]).
      split; [rewrite length_app; simpl; lia|].
      split; [rewrite <- !app_assoc; simpl;
              replace (base + S (S k0))%nat with (S (base + S k0)) by lia; reflexivity|].
      split; [apply sorted_keys_snoc; assumption|].
      rewrite Htake, Hperm. reflexivity.
  - cbn [fst snd]. split; [reflexivity|]. split; [lia|].
    exists (take 1 (drop base ind)).
    split; [rewrite length_take, length_drop; lia|].
    split; [|split; [|reflexivity]].
    + replace (base + 1)%nat with (base + 1)%nat by reflexivity.
      rewrite <- (drop_drop ind 1 base). rewrite take_drop, take_drop. reflexivity.
    + destruct (drop base ind) as [|a [|b l]]; reflexivity.
  - rewrite E. simpl. cbn [fst snd] in HI.
    destruct HI as (Lp & _ & w & Lw & -> & Hs & Hperm).
    exists parts', w. auto.
Qed.

(** The insertion sort of [parts_sort] on keys that are in order changes
    nothing. *)
Lemma insert_sort_sorted base N parts ind :
  (base + Z.to_nat N <= length ind)%nat ->
  sorted_keys (take (Z.to_nat N) (drop base ind)) = true ->
  insert_sort base N parts ind = Ok (parts, ind).
Proof.
  intros Hind Hs. unfold insert_sort. cbv zeta.
  destruct (for_each_seq_total
              (fun (k : nat) (st : list part * list Z * Z) => st = (parts, ind, N - 1))
              (fun '(parts, ind, j) i =>
                 x ← rd ind base (Z.of_nat i);
                 y ← rd ind base (Z.of_nat i - 1);
                 if x <? y then
                   temp_p ← rd parts base j;
                   '(parts, ind, j) ← insert_shift base x i parts ind;
                   ind ← wr ind base j x;
                   parts ← wr parts base j temp_p;
                   Ok (parts, ind, j)
                 else Ok (parts, ind, j))
              (Z.to_nat N - 1)%nat 1%nat (parts, ind, N - 1))
    as (st' & E & ->); [|reflexivity|rewrite E; reflexivity].
  intros k st Hk ->.
  assert (exists x, ind !! (base + k)%nat = Some x) as (x & Hx)
      by (apply lookup_lt_is_Some_2; lia).
  assert (exists y, ind !! (base + (k - 1))%nat = Some y) as (y & Hy)
      by (apply lookup_lt_is_Some_2; lia).
  rewrite (rd_Ok _ _ _ _ Hx). simpl.
  replace (Z.of_nat k - 1) with (Z.of_nat (k - 1)) by lia.
  rewrite (rd_Ok _ _ _ _ Hy). simpl.
  assert (y <= x) as Hxy.
  { apply (sorted_keys_adjacent _ (k - 1) _ _ Hs).
    - rewrite lookup_take. destruct (decide (k - 1 < Z.to_nat N)%nat); [|lia].
      rewrite lookup_drop. exact Hy.
    - rewrite lookup_take. destruct (decide (S (k - 1) < Z.to_nat N)%nat); [|lia].
      rewrite lookup_drop. replace (base + S (k - 1))%nat with (base + k)%nat by lia.
      exact Hx. }
  replace (x <? y) with false by (symmetry; apply Z.ltb_ge; lia).
  eexists. split; reflexivity.
Qed.


(** On fewer than 16 keys and arrays that hold the range, [parts_sort]
    returns, and it sorts the keys: the keys of the range are in order
    and are the keys that were there, and the keys outside the range are
    as before. The array of the particles keeps its length and its
    entries outside the range. *)
Theorem parts_sort_small_sorts_keys fuel base N min max parts ind :
  N < 16 ->
  (base + Z.to_nat N <= length parts)%nat ->
  (base + Z.to_nat N <= length ind)%nat ->
  exists parts' w,
    parts_sort (S fuel) base N min max parts ind
    = Ok (parts', take base ind ++ w ++ drop (base + Z.to_nat N) ind) /\
    sorted_keys w = true /\ w ≡ₚ take (Z.to_nat N) (drop base ind) /\
    length parts' = length parts /\
    forall i : nat, (i < base \/ base + Z.to_nat N <= i)%nat -> parts' !! i = parts !! i.
Proof.
  intros HN Hparts Hind. cbn [parts_sort]. cbv zeta.
  replace (N <? 16) with true by (symmetry; apply Z.ltb_lt; exact HN).
  destruct (insert_sort_total base N parts ind Hparts Hind) as (parts' & w & E & Lp & Hs & Hp).
  exists parts', w. split; [exact E|]. split; [exact Hs|]. split; [exact Hp|].
  apply insert_sort_kept in E. destruct E as [[_ Hk] _]. split; [exact Lp|exact Hk].
Qed.

Lemma parts_sort_small_sorts_keys_witness :
  exists parts' keys,
    parts_sort 1 0 4 0 4 parts_corners [3; 1; 0; 2] = Ok (parts', keys) /\
    keys = [0; 1; 2; 3] /\ length parts' = 4%nat.
Proof.
  destruct (parts_sort_small_sorts_keys 0 0 4 0 4 parts_corners [3; 1; 0; 2])
    as (parts' & w & E & _ & _ & Lp & _); [lia|simpl; lia|simpl; lia|].
  exists parts', (take 0 [3; 1; 0; 2] ++ w ++ drop (0 + Z.to_nat 4) [3; 1; 0; 2]).
  split; [exact E|]. split; [|exact Lp].
  vm_compute in E. injection E as _ E. exact (eq_sym E).
Defined.

(** On fewer than 16 keys that are in order already, [parts_sort] returns
    both arrays as they are. *)
Theorem parts_sort_small_keeps_sorted fuel base N min max parts ind :
  N < 16 ->
  (base + Z.to_nat N <= length ind)%nat ->
  sorted_keys (take (Z.to_nat N) (drop base ind)) = true ->
  parts_sort (S fuel) base N min max parts ind = Ok (parts, ind).
Proof.
  intros HN Hind Hs. cbn [parts_sort]. cbv zeta.
  replace (N <? 16) with true by (symmetry; apply Z.ltb_lt; exact HN).
  apply insert_sort_sorted; assumption.
Qed.

Lemma parts_sort_small_keeps_sorted_witness :
  parts_sort 1 0 4 0 4 parts_corners [0; 0; 2; 3] = Ok (parts_corners, [0; 0; 2; 3]).
Proof.
  apply (parts_sort_small_keeps_sorted 0 0 4 0 4 parts_corners [0; 0; 2; 3]);
    [lia|simpl; lia|reflexivity].
Defined.


(** ** The keys after the quicksort *)

Lemma scan_up_spec ind base pivot : forall rest i i',
  scan_up ind base pivot rest i = Ok i' ->
  i <= i' <= i + Z.of_nat rest /\
  (forall k, i <= k < i' ->
     0 <= k /\ exists x, ind !! (base + Z.to_nat k)%nat = Some x /\ x <= pivot) /\
  (i' < i + Z.of_nat rest ->
     0 <= i' /\ exists x, ind !! (base + Z.to_nat i')%nat = Some x /\ pivot < x).
Proof.
  induction rest as [|rest IH]; intros i i' H; simpl in H.
  - inversion H; subst. split; [lia|]. split; intros; lia.
  - apply bind_Ok in H. destruct H as (x & Ex & H). apply rd_spec in Ex.
    destruct Ex as [Hi Ex]. destruct (x <=? pivot) eqn:Ele.
    + apply Z.leb_le in Ele. apply IH in H. destruct H as (Hb & Hall & Hstop).
      split; [lia|]. split.
      * intros k Hk. destruct (Z.eq_dec k i) as [->|Hne]; [eauto|apply Hall; lia].
      * intros Hlt. apply Hstop. lia.
    + apply Z.leb_gt in Ele. inversion H; subst i'. split; [lia|]. split; [intros; lia|].
      intros _. eauto.
Qed.

Lemma scan_down_spec ind base pivot : forall rest j j',
  scan_down ind base pivot rest j = Ok j' ->
  j - Z.of_nat rest <= j' <= j /\
  (forall k, j' < k <= j ->
     0 <= k /\ exists x, ind !! (base + Z.to_nat k)%nat = Some x /\ pivot < x) /\
  (j - Z.of_nat rest < j' ->
     0 <= j' /\ exists y, ind !! (base + Z.to_nat j')%nat = Some y /\ y <= pivot).
Proof.
  induction rest as [|rest IH]; intros j j' H; simpl in H.
  - inversion H; subst. split; [lia|]. split; intros; lia.
  - apply bind_Ok in H. destruct H as (x & Ex & H). apply rd_spec in Ex.
    destruct Ex as [Hj Ex]. destruct (pivot <? x) eqn:Elt.
    + apply Z.ltb_lt in Elt. apply IH in H. destruct H as (Hb & Hall & Hstop).
      split; [lia|]. split.
      * intros k Hk. destruct (Z.eq_dec k j) as [->|Hne]; [eauto|apply Hall; lia].
      * intros Hlt. apply Hstop. lia.
    + apply Z.ltb_ge in Elt. inversion H; subst j'. split; [lia|]. split; [intros; lia|].
      intros _. eauto.
Qed.

(** Two entries of a list exchanged. *)
Lemma insert_swap_perm {A : Type} (l : list A) (i j : nat) x y :
  l !! i = Some x -> l !! j = Some y -> <[j := x]> (<[i := y]> l) ≡ₚ l.
Proof.
  intros Hx Hy. apply Permutation_inj. split; [rewrite !length_insert; reflexivity|].
  exists (fun k => if decide (k = i) then j else if decide (k = j) then i else k).
  split.
  - intros a b. repeat destruct (decide _); intros; subst; congruence.
  - intros k. pose proof (lookup_lt_Some _ _ _ Hx). pose proof (lookup_lt_Some _ _ _ Hy).
    destruct (decide (k = j)) as [->|Hkj].
    + rewrite list_lookup_insert_eq by (rewrite length_insert; lia).
      destruct (decide (j = i)) as [->|]; [congruence|]. rewrite Hx. reflexivity.
    + rewrite list_lookup_insert_ne by congruence.
      destruct (decide (k = i)) as [->|Hki].
      * rewrite list_lookup_insert_eq by lia. rewrite Hy. reflexivity.
      * rewrite list_lookup_insert_ne by congruence. reflexivity.
Qed.

Lemma window_insert {A : Type} (l : list A) (base n i : nat) v :
  (i < n)%nat ->
  take n (drop base (<[(base + i)%nat := v]> l)) = <[i := v]> (take n (drop base l)).
Proof.
  intros Hi. rewrite drop_insert_ge by lia. rewrite take_insert_lt by lia.
  replace (base + i - base)%nat with i by lia. reflexivity.
Qed.

Lemma window_lookup {A : Type} (l : list A) (base n i : nat) :
  (i < n)%nat -> take n (drop base l) !! i = l !! (base + i)%nat.
Proof.
  intros Hi. rewrite lookup_take. destruct (decide (i < n)%nat); [|lia]. apply lookup_drop.
Qed.

Lemma partition_pass_done fuel base N pivot i j parts ind :
  ~ i < j -> partition_pass fuel base N pivot i j parts ind = Ok (parts, ind, i, j).
Proof.
  intros H. assert (negb (i <? j) = true) as E by (apply negb_true_iff, Z.ltb_ge; lia).
  destruct fuel; simpl; rewrite E; reflexivity.
Qed.

(** One pass of the quicksort: when it returns, the keys of the range
    before [i] do not exceed the pivot, the keys after [j] exceed it, [i]
    is [j + 1], and the keys of the range are the keys that were there. *)
Lemma partition_pass_spec base N pivot : forall fuel i j parts ind parts' ind' i' j',
  partition_pass fuel base N pivot i j parts ind = Ok (parts', ind', i', j') ->
  0 <= i <= N -> -1 <= j < N ->
  (forall k x, 0 <= k < i -> ind !! (base + Z.to_nat k)%nat = Some x -> x <= pivot) ->
  (forall k x, j < k < N -> 0 <= k -> ind !! (base + Z.to_nat k)%nat = Some x -> pivot < x) ->
  0 <= i' <= N /\ -1 <= j' < N /\
  (forall k x, 0 <= k < i' -> ind' !! (base + Z.to_nat k)%nat = Some x -> x <= pivot) /\
  (forall k x, j' < k < N -> 0 <= k -> ind' !! (base + Z.to_nat k)%nat = Some x ->
     pivot < x) /\
  take (Z.to_nat N) (drop base ind') ≡ₚ take (Z.to_nat N) (drop base ind) /\
  (i < j -> i' = j' + 1).
Proof.
  induction fuel as [|fuel IH]; intros i j parts ind parts' ind' i' j' H Hi Hj Hlo Hhi;
    simpl in H.
  - destruct (negb (i <? j)) eqn:E; [|discriminate]. inversion H; subst.
    apply negb_true_iff, Z.ltb_ge in E.
    split; [lia|]. split; [lia|]. split; [exact Hlo|]. split; [exact Hhi|].
    split; [reflexivity|lia].
  - destruct (negb (i <? j)) eqn:E.
    { inversion H; subst. apply negb_true_iff, Z.ltb_ge in E.
      split; [lia|]. split; [lia|]. split; [exact Hlo|]. split; [exact Hhi|].
      split; [reflexivity|lia]. }
    apply negb_false_iff, Z.ltb_lt in E.
    apply bind_Ok in H. destruct H as (i1 & Ei & H). apply scan_up_spec in Ei.
    destruct Ei as (Bi & Ai & Si). rewrite Z2Nat.id in Bi, Si by lia.
    apply bind_Ok in H. destruct H as (j1 & Ej & H). apply scan_down_spec in Ej.
    destruct Ej as (Bj & Aj & Sj). rewrite Z2Nat.id in Bj, Sj by lia.
    assert (forall k x, 0 <= k < i1 -> ind !! (base + Z.to_nat k)%nat = Some x -> x <= pivot)
      as Hlo1.
    { intros k x Hk Hx. destruct (Z_lt_ge_dec k i) as [Hlt|Hge]; [eapply Hlo; eauto; lia|].
      destruct (Ai k) as (_ & x' & Hx' & Hle); [lia|]. congruence. }
    assert (forall k x, j1 < k < N -> 0 <= k -> ind !! (base + Z.to_nat k)%nat = Some x ->
                        pivot < x) as Hhi1.
    { intros k x Hk Hk0 Hx. destruct (Z_lt_ge_dec j k) as [Hlt|Hge]; [eapply Hhi; eauto; lia|].
      destruct (Aj k) as (_ & x' & Hx' & Hle); [lia|]. congruence. }
    destruct (i1 <? j1) eqn:Elt.
    + apply Z.ltb_lt in Elt.
      destruct Si as (Hi1 & xi & Hxi & Hgt); [lia|].
      destruct Sj as (Hj1 & xj & Hxj & Hle); [lia|].
      apply bind_Ok in H. destruct H as (xi' & E1 & H). apply rd_spec in E1.
      destruct E1 as [_ E1]. rewrite Hxi in E1. injection E1 as <-.
      apply bind_Ok in H. destruct H as (xj' & E2 & H). apply rd_spec in E2.
      destruct E2 as [_ E2]. rewrite Hxj in E2. injection E2 as <-.
      apply bind_Ok in H. destruct H as (ind1 & E3 & H). apply wr_spec in E3.
      destruct E3 as (_ & L3 & ->).
      apply bind_Ok in H. destruct H as (ind2 & E4 & H). apply wr_spec in E4.
      destruct E4 as (_ & L4 & ->).
      apply bind_Ok in H. destruct H as (pi & _ & H).
      apply bind_Ok in H. destruct H as (pj & _ & H).
      apply bind_Ok in H. destruct H as (parts1 & _ & H).
      apply bind_Ok in H. destruct H as (parts2 & _ & H).
      apply IH in H; [|lia|lia| |].
      * destruct H as (Hi' & Hj' & Hlo' & Hhi' & Hperm & Hij).
        split; [exact Hi'|]. split; [exact Hj'|]. split; [exact Hlo'|].
        split; [exact Hhi'|]. split; [|intros _; apply Hij; exact Elt].
        rewrite Hperm.
        rewrite !window_insert by lia.
        apply insert_swap_perm; rewrite window_lookup by lia; assumption.
      * intros k x Hk Hx.
        rewrite !list_lookup_insert_ne in Hx by lia. eapply Hlo1; eauto.
      * intros k x Hk Hk0 Hx.
        rewrite !list_lookup_insert_ne in Hx by lia. eapply Hhi1; eauto.
    + apply Z.ltb_ge in Elt.
      rewrite partition_pass_done in H by lia. inversion H; subst; clear H.
      split; [lia|]. split; [lia|]. split; [exact Hlo1|]. split; [exact Hhi1|].
      split; [reflexivity|]. intros _.
      (* [i'] and [j'] cannot meet, and no key lies between them. *)
      destruct (Z.eq_dec i' (j' + 1)) as [|Hne]; [assumption|exfalso].
      destruct (Z.eq_dec i' j') as [Heq|Hne'].
      * subst j'. destruct Si as (_ & x & Hx & Hgt); [lia|].
        destruct Sj as (_ & y & Hy & Hle); [lia|]. rewrite Hx in Hy. injection Hy as <-. lia.
      * assert (exists x, ind' !! (base + Z.to_nat (j' + 1))%nat = Some x) as (x & Hx).
        { destruct (Z_lt_ge_dec (j' + 1) i) as [Hlt|Hge].
          - destruct (Z_lt_ge_dec j (j' + 1)) as [Hlt'|Hge']; [lia|].
            destruct (Aj (j' + 1)) as (_ & x & Hx & _); [lia|]. eauto.
          - destruct (Ai (j' + 1)) as (_ & x & Hx & _); [lia|]. eauto. }
        pose proof (Hlo1 (j' + 1) x ltac:(lia) Hx).
        pose proof (Hhi1 (j' + 1) x ltac:(lia) ltac:(lia) Hx). lia.
Qed.


Lemma window_split {A : Type} (l : list A) (base m n : nat) :
  (m <= n)%nat ->
  take n (drop base l) = take m (drop base l) ++ take (n - m) (drop (base + m) l).
Proof.
  intros H. rewrite <- drop_drop, take_take_drop. f_equal. lia.
Qed.

Lemma window_kept {A : Type} (lo hi b n : nat) (a a' : list A) :
  kept_outside lo hi a a' -> (b + n <= lo \/ hi <= b)%nat ->
  take n (drop b a') = take n (drop b a).
Proof.
  intros [_ H] Hb. apply list_eq. intros i. rewrite !lookup_take.
  destruct (decide (i < n)%nat); [|reflexivity]. rewrite !lookup_drop. apply H. lia.
Qed.

Lemma window_length {A : Type} (l : list A) (base n : nat) :
  (base + n <= length l)%nat -> length (take n (drop base l)) = n.
Proof. intros H. rewrite length_take, length_drop. lia. Qed.

Lemma window_Forall {A : Type} (P : A -> Prop) (l : list A) (base n : nat) :
  (forall (k : nat) x, (k < n)%nat -> l !! (base + k)%nat = Some x -> P x) ->
  Forall P (take n (drop base l)).
Proof.
  intros H. apply Forall_lookup. intros i x Hx.
  assert (i < n)%nat as Hi.
  { apply lookup_lt_Some in Hx. rewrite length_take in Hx. lia. }
  rewrite window_lookup in Hx by exact Hi. eapply H; eauto.
Qed.

Lemma window_of_app {A : Type} (pre w post : list A) (b n : nat) :
  length pre = b -> length w = n -> take n (drop b (pre ++ w ++ post)) = w.
Proof. intros <- <-. rewrite drop_app_length, take_app_length. reflexivity. Qed.

Lemma sorted_keys_short l : (length l <= 1)%nat -> sorted_keys l = true.
Proof. destruct l as [|a [|b l]]; simpl; [reflexivity|reflexivity|lia]. Qed.

Lemma sorted_keys_const l a b :
  Forall (fun x => a <= x <= b) l -> b <= a -> sorted_keys l = true.
Proof.
  intros H Hab. induction H as [|x l Hx H IH]; [reflexivity|].
  apply sorted_keys_cons. split; [|exact IH].
  eapply Forall_impl; [exact H|]. intros y Hy. simpl in Hy. lia.
Qed.

(** When [parts_sort] returns, on arrays that hold the range and keys
    from [min] to [max], the keys of the range are in order and are the
    keys that were there. *)
Lemma parts_sort_sorts : forall fuel base N min max parts ind parts' ind',
  parts_sort fuel base N min max parts ind = Ok (parts', ind') ->
  (base + Z.to_nat N <= length parts)%nat ->
  (base + Z.to_nat N <= length ind)%nat ->
  Forall (fun x => min <= x <= max) (take (Z.to_nat N) (drop base ind)) ->
  sorted_keys (take (Z.to_nat N) (drop base ind')) = true /\
  take (Z.to_nat N) (drop base ind') ≡ₚ take (Z.to_nat N) (drop base ind).
Proof.
  induction fuel as [|fuel IH]; intros base N min max parts ind parts' ind' H Lp Li Hb;
    cbn [parts_sort] in H; [discriminate|].
  cbv zeta in H. destruct (N <? 16) eqn:EN.
  { destruct (insert_sort_total base N parts ind Lp Li) as (p' & w & E & _ & Hs & Hperm).
    rewrite E in H. inversion H; subst; clear H.
    assert (length w = Z.to_nat N) as Lw
        by (rewrite (Permutation_length Hperm); apply window_length; exact Li).
    assert (length (take base ind) = base) as Lpre by (rewrite length_take; lia).
    rewrite (window_of_app _ _ _ _ _ Lpre Lw). auto. }
  apply Z.ltb_ge in EN. set (pivot := (min + max) ÷ 2) in *.
  apply bind_Ok in H. destruct H as ([[[parts1 ind1] i] j] & Ep & H).
  pose proof (partition_pass_kept _ _ _ _ _ _ _ _ _ _ _ _ Ep ltac:(lia) ltac:(lia))
    as (_ & _ & [Lp1 _] & Ki1).
  apply partition_pass_spec in Ep; [|lia|lia|intros; lia|intros; lia].
  destruct Ep as (Hi & Hj & Hlo & Hhi & Hperm1 & Hij).
  specialize (Hij ltac:(lia)).
  apply bind_Ok in H. destruct H as (u & _ & H).
  apply bind_Ok in H. destruct H as ([parts2 ind2] & El & H).
  set (n := Z.to_nat N) in *. set (m := Z.to_nat i).
  assert (m <= n)%nat as Hmn by (subst m n; lia).
  assert (Z.to_nat (j + 1) = m) as Hjm by (subst m; f_equal; lia).
  assert (length ind1 = length ind) as Li1 by apply Ki1.
  (* The two parts of the range after the pass. *)
  assert (Forall (fun x => min <= x <= max) (take n (drop base ind1))) as Hb1
      by (rewrite Hperm1; exact Hb).
  rewrite (window_split ind1 base m n Hmn) in Hb1, Hperm1.
  apply Forall_app in Hb1. destruct Hb1 as [HbL HbR].
  assert (Forall (fun x => x <= pivot) (take m (drop base ind1))) as HloL.
  { apply window_Forall. intros k x Hk Hx. apply (Hlo (Z.of_nat k)); [lia|].
    rewrite Nat2Z.id. exact Hx. }
  assert (Forall (fun x => pivot < x) (take (n - m) (drop (base + m) ind1))) as HhiR.
  { apply window_Forall. intros k x Hk Hx. apply (Hhi (Z.of_nat (m + k))); [lia|lia|].
    rewrite Nat2Z.id. rewrite Nat.add_assoc. exact Hx. }
  (* The left part. *)
  assert (sorted_keys (take m (drop base ind2)) = true /\
          take m (drop base ind2) ≡ₚ take m (drop base ind1) /\
          take (n - m) (drop (base + m) ind2) = take (n - m) (drop (base + m) ind1) /\
          length parts2 = length parts1 /\ length ind2 = length ind1)
    as (HsL & HpL & HeR & Lp2 & Li2).
  { destruct ((0 <? j) && (min <? pivot)) eqn:Ec.
    - pose proof (parts_sort_kept _ _ _ _ _ _ _ _ _ El) as ([Lp2 _] & Ki2).
      rewrite Hjm in Ki2.
      apply IH in El; [| rewrite Hjm; lia | rewrite Hjm; lia |].
      + rewrite Hjm in El. destruct El as [HsL HpL].
        split; [exact HsL|]. split; [exact HpL|].
        split; [apply (window_kept _ _ _ _ _ _ Ki2); lia|].
        split; [exact Lp2|apply Ki2].
      + rewrite Hjm. rewrite Forall_forall in *. intros x Hx.
        specialize (HbL x Hx). specialize (HloL x Hx). simpl in *. lia.
    - inversion El; subst parts2 ind2. split; [|auto].
      apply andb_false_iff in Ec. destruct Ec as [Ec|Ec].
      + apply Z.ltb_ge in Ec. apply sorted_keys_short. rewrite length_take. lia.
      + apply Z.ltb_ge in Ec. apply (sorted_keys_const _ min pivot); [|exact Ec].
        rewrite Forall_forall in *. intros x Hx.
        specialize (HbL x Hx). specialize (HloL x Hx). simpl in *. lia. }
  clear El.
  (* The right part. *)
  assert (sorted_keys (take (n - m) (drop (base + m) ind')) = true /\
          take (n - m) (drop (base + m) ind') ≡ₚ take (n - m) (drop (base + m) ind2) /\
          take m (drop base ind') = take m (drop base ind2))
    as (HsR & HpR & HeL).
  { destruct ((i <? N) && (pivot + 1 <? max)) eqn:Ec.
    - pose proof (parts_sort_kept _ _ _ _ _ _ _ _ _ H) as (_ & Ki3).
      assert (Z.to_nat (N - i) = (n - m)%nat) as Hnm by (subst n m; lia).
      fold m in H, Ki3. rewrite Hnm in Ki3.
      apply IH in H; fold m; [| rewrite Hnm; lia | rewrite Hnm; lia |].
      + rewrite Hnm in H. destruct H as [HsR HpR].
        split; [exact HsR|]. split; [exact HpR|].
        apply (window_kept _ _ _ _ _ _ Ki3). lia.
      + rewrite Hnm, HeR. rewrite Forall_forall in *. intros x Hx.
        specialize (HbR x Hx). specialize (HhiR x Hx). simpl in *. lia.
    - inversion H; subst parts' ind'. split; [|auto].
      rewrite HeR.
      apply andb_false_iff in Ec. destruct Ec as [Ec|Ec].
      + apply Z.ltb_ge in Ec. apply sorted_keys_short. rewrite length_take. lia.
      + apply Z.ltb_ge in Ec. apply (sorted_keys_const _ (pivot + 1) max); [|lia].
        rewrite Forall_forall in *. intros x Hx.
        specialize (HbR x Hx). specialize (HhiR x Hx). simpl in *. lia. }
  rewrite (window_split ind' base m n Hmn), HeL. split.
  - apply sorted_keys_app. split; [exact HsL|]. split; [exact HsR|].
    assert (Forall (fun x => x <= pivot) (take m (drop base ind2))) as HL
        by (rewrite HpL; exact HloL).
    assert (Forall (fun x => pivot < x) (take (n - m) (drop (base + m) ind'))) as HR
        by (rewrite HpR, HeR; exact HhiR).
    rewrite Forall_forall in HL, HR.
    apply Forall_forall. intros x Hx. apply Forall_forall. intros y Hy.
    specialize (HL x Hx). specialize (HR y Hy). simpl in *. lia.
  - rewrite HpL, HpR, HeR. exact Hperm1.
Qed.


(** When [parts_sort] returns, on arrays that hold the range and keys
    from [min] to [max], it has sorted the keys: the keys of the range
    are in order, and they are the keys that were there. *)
Theorem parts_sort_sorts_keys fuel base N min max parts ind parts' ind' :
  parts_sort fuel base N min max parts ind = Ok (parts', ind') ->
  (base + Z.to_nat N <= length parts)%nat ->
  (base + Z.to_nat N <= length ind)%nat ->
  Forall (fun x => min <= x <= max) (take (Z.to_nat N) (drop base ind)) ->
  sorted_keys (take (Z.to_nat N) (drop base ind')) = true /\
  take (Z.to_nat N) (drop base ind') ≡ₚ take (Z.to_nat N) (drop base ind).
Proof. apply parts_sort_sorts. Qed.

Lemma parts_sort_sorts_keys_witness :
  exists parts' ind',
    parts_sort 5 0 20 0 9 (replicate 20 (mk_part (0, 0, 0)%Q 1 0 0))
      [9; 3; 7; 1; 8; 2; 6; 0; 5; 4; 4; 5; 0; 6; 2; 8; 1; 7; 3; 9] = Ok (parts', ind') /\
    ind' = [0; 0; 1; 1; 2; 2; 3; 3; 4; 4; 5; 5; 6; 6; 7; 7; 8; 8; 9; 9] /\
    sorted_keys (take 20 (drop 0 ind')) = true.
Proof.
  assert (exists parts' ind',
            parts_sort 5 0 20 0 9 (replicate 20 (mk_part (0, 0, 0)%Q 1 0 0))
              [9; 3; 7; 1; 8; 2; 6; 0; 5; 4; 4; 5; 0; 6; 2; 8; 1; 7; 3; 9]
            = Ok (parts', ind') /\
            ind' = [0; 0; 1; 1; 2; 2; 3; 3; 4; 4; 5; 5; 6; 6; 7; 7; 8; 8; 9; 9])
    as (parts' & ind' & E & Hi)
    by (eexists; eexists; split; [vm_compute; reflexivity|reflexivity]).
  exists parts', ind'. split; [exact E|]. split; [exact Hi|].
  apply (parts_sort_sorts_keys _ _ _ _ _ _ _ _ _ E); [simpl; lia|simpl; lia|].
  simpl. repeat (apply List.Forall_cons; [lia|]). apply List.Forall_nil.
Defined.

(** When [parts_sort] returns, both arrays have their lengths and their
    entries outside the range [base .. base + N) that it was given. On 16
    keys or more, the pass of the quicksort ends with [i = j + 1], the
    first recursive call keeps all that lies outside
    [base .. base + j + 1) and the second all that lies outside
    [base + i .. base + N): the two calls, which may run in parallel,
    write ranges that do not overlap, and neither writes outside its
    own. *)
Theorem parts_sort_keeps_outside fuel base N min max parts ind parts' ind' :
  parts_sort fuel base N min max parts ind = Ok (parts', ind') ->
  kept_outside base (base + Z.to_nat N) parts parts' /\
  kept_outside base (base + Z.to_nat N) ind ind' /\
  (16 <= N ->
   exists fuel' parts1 ind1 i j parts2 ind2,
     fuel = S fuel' /\
     partition_pass (S (Z.to_nat N)) base N ((min + max) ÷ 2) 0 (N - 1) parts ind
     = Ok (parts1, ind1, i, j) /\
     i = j + 1 /\ 0 <= i <= N /\
     (if (0 <? j) && (min <? (min + max) ÷ 2)
      then parts_sort fuel' base (j + 1) min ((min + max) ÷ 2) parts1 ind1
      else Ok (parts1, ind1)) = Ok (parts2, ind2) /\
     kept_outside base (base + Z.to_nat (j + 1)) parts1 parts2 /\
     kept_outside base (base + Z.to_nat (j + 1)) ind1 ind2 /\
     (if (i <? N) && ((min + max) ÷ 2 + 1 <? max)
      then parts_sort fuel' (base + Z.to_nat i) (N - i) ((min + max) ÷ 2 + 1) max
             parts2 ind2
      else Ok (parts2, ind2)) = Ok (parts', ind') /\
     kept_outside (base + Z.to_nat i) (base + Z.to_nat N) parts2 parts' /\
     kept_outside (base + Z.to_nat i) (base + Z.to_nat N) ind2 ind').
Proof.
  intros H. pose proof (parts_sort_kept _ _ _ _ _ _ _ _ _ H) as [Kp Ki].
  split; [exact Kp|]. split; [exact Ki|]. intros HN.
  destruct fuel as [|fuel']; [discriminate|]. cbn [parts_sort] in H. cbv zeta in H.
  replace (N <? 16) with false in H by (symmetry; apply Z.ltb_ge; lia).
  apply bind_Ok in H. destruct H as ([[[parts1 ind1] i] j] & Ep & H).
  apply bind_Ok in H. destruct H as (u & _ & H).
  apply bind_Ok in H. destruct H as ([parts2 ind2] & El & H).
  exists fuel', parts1, ind1, i, j, parts2, ind2.
  split; [reflexivity|]. split; [exact Ep|].
  apply partition_pass_spec in Ep; [|lia|lia|intros; lia|intros; lia].
  destruct Ep as (Hi & Hj & _ & _ & _ & Hij).
  split; [apply Hij; lia|]. split; [exact Hi|]. split; [exact El|].
  assert (kept_outside base (base + Z.to_nat (j + 1)) parts1 parts2 /\
          kept_outside base (base + Z.to_nat (j + 1)) ind1 ind2) as [K1 K2].
  { destruct (_ && _).
    - apply parts_sort_kept in El. exact El.
    - inversion El; subst. split; apply kept_outside_refl. }
  split; [exact K1|]. split; [exact K2|]. split; [exact H|].
  clear El. destruct (_ && _).
  - apply parts_sort_kept in H. replace (base + Z.to_nat N)%nat
      with (base + Z.to_nat i + Z.to_nat (N - i))%nat by lia. exact H.
  - inversion H; subst. split; apply kept_outside_refl.
Qed.

Lemma parts_sort_keeps_outside_witness :
  exists parts' ind' i j,
    parts_sort 5 2 20 0 9 (replicate 24 (mk_part (0, 0, 0)%Q 1 0 0))
      [7; 7; 9; 3; 7; 1; 8; 2; 6; 0; 5; 4; 4; 5; 0; 6; 2; 8; 1; 7; 3; 9; 1; 1]
    = Ok (parts', ind') /\
    ind' = [7; 7; 0; 0; 1; 1; 2; 2; 3; 3; 4; 4; 5; 5; 6; 6; 7; 7; 8; 8; 9; 9; 1; 1] /\
    i = 10 /\ j = 9 /\
    exists parts1 ind1 parts2 ind2,
      partition_pass 21 2 20 4 0 19 (replicate 24 (mk_part (0, 0, 0)%Q 1 0 0))
        [7; 7; 9; 3; 7; 1; 8; 2; 6; 0; 5; 4; 4; 5; 0; 6; 2; 8; 1; 7; 3; 9; 1; 1]
      = Ok (parts1, ind1, i, j) /\
      parts_sort 4 2 10 0 4 parts1 ind1 = Ok (parts2, ind2) /\
      kept_outside 2 12 ind1 ind2 /\
      parts_sort 4 12 10 5 9 parts2 ind2 = Ok (parts', ind') /\
      kept_outside 12 22 ind2 ind'.
Proof.
  assert (exists parts' ind',
            parts_sort 5 2 20 0 9 (replicate 24 (mk_part (0, 0, 0)%Q 1 0 0))
              [7; 7; 9; 3; 7; 1; 8; 2; 6; 0; 5; 4; 4; 5; 0; 6; 2; 8; 1; 7; 3; 9; 1; 1]
            = Ok (parts', ind') /\
            ind' = [7; 7; 0; 0; 1; 1; 2; 2; 3; 3; 4; 4; 5; 5; 6; 6; 7; 7; 8; 8; 9; 9; 1; 1])
    as (parts' & ind' & E & Hi)
    by (eexists; eexists; split; [vm_compute; reflexivity|reflexivity]).
  destruct (parts_sort_keeps_outside _ _ _ _ _ _ _ _ _ E) as (_ & _ & Hpass).
  destruct (Hpass ltac:(lia))
    as (fuel' & parts1 & ind1 & i & j & parts2 & ind2 & Ef & Ep & Hij & _ & El & _ & K2
        & Er & _ & K4).
  injection Ef as <-.
  assert (i = 10 /\ j = 9) as [-> ->].
  { pose proof Ep as Ep'. vm_compute in Ep'. injection Ep' as _ _ Ei Ej. split; congruence. }
  exists parts', ind', 10, 9. split; [exact E|]. split; [exact Hi|].
  split; [reflexivity|]. split; [reflexivity|].
  exists parts1, ind1, parts2, ind2.
  split; [exact Ep|]. split; [exact El|]. split; [exact K2|]. split; [exact Er|exact K4].
Defined.


(** ** The particles that [space_rebuild] reads *)




(** ** Cells from and to the buffer *)

(** A cell that [space_recycle] has put into the buffer is the cell that
    the next [space_getcell] takes: no cells are allocated, the cell comes
    back cleared, and the space is as it was before the cell was
    recycled. *)
Theorem space_getcell_after_recycle cfg s c :
  space_getcell cfg (space_recycle s c) = Ok (s, cell_zero).
Proof.
  assert (forall n, n - 1 + 1 = n) as Hn by (intros; lia).
  unfold space_getcell, space_recycle. simpl. destruct s.
  unfold set_s_tot_cells, set_s_cells_new. simpl. rewrite Hn. reflexivity.
Qed.


(** ** Clearing the numbers of tasks *)

Lemma for_progeny_clearnrtasks (P : list (cptr * cell_data) * cptr * cell_data -> Prop)
    (A : list (cptr * cell_data)) (p : cptr) pr :
  Forall (fun o => match o with
                   | Some ck =>
                       forall anc q s, exists c',
                         rec_map true space_map_clearnrtasks anc q ck s = Ok (c', s) /\
                         forall anc' q', Forall P (visits anc' q' c')
                   | None => True
                   end) pr ->
  forall k s, exists pr',
    for_progeny (fun k ck s => rec_map true space_map_clearnrtasks A (p ++ [k]) ck s) k pr s
    = Ok (pr', s) /\
    forall anc' q' k',
      Forall P (flat_progeny (fun k ck => visits anc' (q' ++ [k]) ck) k' pr').
Proof.
  induction 1 as [|o pr Ho _ IH]; intros k s; simpl.
  - exists []. split; [reflexivity|]. intros. constructor.
  - destruct (IH (S k) s) as (pr' & E & HP). destruct o as [ck|].
    + destruct (Ho A (p ++ [k]) s) as (c' & Ec & Hc). rewrite Ec. simpl. rewrite E. simpl.
      exists (Some c' :: pr'). split; [reflexivity|]. intros anc' q' k'. simpl.
      apply Forall_app. split; [apply Hc|apply HP].
    + rewrite E. simpl. exists (None :: pr'). split; [reflexivity|].
      intros anc' q' k'. simpl. apply HP.
Qed.

Lemma rec_map_clearnrtasks c :
  forall anc q s, exists c',
    rec_map true space_map_clearnrtasks anc q c s = Ok (c', s) /\
    forall anc' q',
      Forall (fun v => c_nr_tasks v.2 = 0 /\ c_density v.2 = []) (visits anc' q' c').
Proof.
  induction c as [d pr IH] using cell_tree_ind. intros anc q s.
  cbn [rec_map orb].
  change (space_map_clearnrtasks anc q d s)
    with (@Ok (cell_data * space) (set_c_density [] (set_c_nr_tasks 0 d), s)).
  cbn [mbind outcome_bind].
  set (d1 := set_c_density [] (set_c_nr_tasks 0 d)).
  assert (c_nr_tasks d1 = 0 /\ c_density d1 = [] /\ c_split d1 = c_split d) as (H1 & H2 & H3)
      by (subst d1; destruct d; auto).
  rewrite H3. destruct (c_split d) eqn:Es.
  - destruct (for_progeny_clearnrtasks
                (fun v => c_nr_tasks v.2 = 0 /\ c_density v.2 = [])
                ((q, d1) :: anc) q pr IH 0%nat s) as (pr' & E & HP).
    rewrite E. simpl. exists (Cell d1 pr'). split; [reflexivity|].
    intros anc' q'. cbn [visits]. rewrite H3. constructor; [auto|apply HP].
  - exists (Cell d1 pr). split; [reflexivity|].
    intros anc' q'. cbn [visits]. rewrite H3. constructor; [auto|constructor].
Qed.

(** [space_map_cells( s , 1 , space_map_clearnrtasks , NULL )] returns, and
    every cell that it visits, i.e. every top-level cell and every cell
    reached through split cells, is left with no task and no density
    task; the space is as before but for the task fields of the cells. *)
Theorem space_map_clearnrtasks_clears s :
  exists s',
    space_map_cells s true space_map_clearnrtasks = Ok s' /\
    Forall (fun v => c_nr_tasks v.2 = 0 /\ c_density v.2 = [])
           (visits_from 0 (the_cells s')) /\
    the_frame s' = the_frame s.
Proof.
  assert (forall cells i s0, exists cells',
            map_cells_from true space_map_clearnrtasks i cells s0 = Ok (cells', s0) /\
            forall i', Forall (fun v => c_nr_tasks v.2 = 0 /\ c_density v.2 = [])
                              (visits_from i' cells')) as Hmap.
  { induction cells as [|c cells IH]; intros i s0; simpl.
    - exists []. split; [reflexivity|]. intros. constructor.
    - destruct (rec_map_clearnrtasks c [] [i] s0) as (c' & Ec & Hc). rewrite Ec. simpl.
      destruct (IH (S i) s0) as (cells' & E & HP). rewrite E. simpl.
      exists (c' :: cells'). split; [reflexivity|]. intros i'. simpl.
      apply Forall_app. split; [apply Hc|apply HP]. }
  destruct (Hmap (the_cells s) 0%nat s) as (cells' & E & HP).
  assert (space_map_cells s true space_map_clearnrtasks = Ok (set_s_cells (Some cells') s))
    as Es by (unfold space_map_cells; rewrite E; reflexivity).
  exists (set_s_cells (Some cells') s). split; [exact Es|]. split; [apply HP|].
  eapply space_map_cells_frame; [|exact Es]. apply space_map_clearnrtasks_frame.
Qed.



(** ** A rebuild that is not forced *)





(** ** Only large cells are split *)

Lemma all_cells_lookup P d pr :
  all_cells P (Cell d pr) = true <->
  P d = true /\ forall (k : nat) ck, pr !! k = Some (Some ck) -> all_cells P ck = true.
Proof. simpl. rewrite andb_true_iff, all_progeny_lookup. reflexivity. Qed.

Lemma task_free_all_cells P c :
  (forall d, P (task_free_data d) = P d) ->
  all_cells P (task_free c) = all_cells P c.
Proof.
  intros HP. induction c as [d pr IH] using cell_tree_ind. rewrite task_free_unfold.
  cbn [all_cells]. rewrite HP. f_equal. apply all_progeny_map.
  eapply Forall_impl; [exact IH|]. intros [ck|] H; [intros _; exact H|exact I].
Qed.

(** [space_split] splits a cell only if it holds more than
    [space_splitsize] particles, throughout the tree that it builds. *)
Lemma space_split_above cfg cell_split fuel :
  forall s c s' c',
    space_split cfg cell_split fuel s c = Ok (s', c') ->
    all_cells (split_above (space_splitsize cfg)) c' = true.
Proof.
  induction fuel as [|fuel IH]; intros s c s' c' H; cbn [space_split] in H; [discriminate|].
  apply bind_Ok in H. destruct H as ([count h_max] & _ & H).
  set (d1 := set_c_h_max h_max (cdata c)) in *.
  destruct (_ && _) eqn:Ecrit.
  2:{ inversion H; subst. apply all_cells_lookup. split.
      - unfold split_above. destruct d1; reflexivity.
      - intros k ck Hk. do 8 (destruct k as [|k]; [discriminate|]). discriminate. }
  apply andb_true_iff in Ecrit. destruct Ecrit as [_ Ecrit].
  set (d2 := set_c_split true d1) in *.
  apply bind_Ok in H. destruct H as ([s1 pr1] & _ & H).
  apply bind_Ok in H. destruct H as ([s2 c2] & E2 & H).
  apply call_cell_split_Ok in E2. cbv zeta in E2. destruct E2 as (Hd2 & Hlen2 & Hpr2).
  cbn [cdata progeny] in Hd2, Hpr2.
  (* Recurse? *)
  apply bind_Ok in H. destruct H as ([s3 pr3] & E3 & H).
  apply (for_each_pointwise snd
           (fun k o => exists ck, o = Some ck)
           (fun k o => exists ck, o = Some ck /\
                                  all_cells (split_above (space_splitsize cfg)) ck = true))
    in E3.
  2:{ intros k [sa pra] st2 Hk Hkl Hb (ck & Hck). simpl in *.
      rewrite Hck in Hb. simpl in Hb. ok_inv Hb. simpl.
      apply IH in E. rewrite length_insert. split; [reflexivity|]. split.
      - rewrite list_lookup_insert_eq by lia. simpl. eauto.
      - intros j Hj. apply list_lookup_insert_ne. congruence. }
  2:{ simpl. lia. }
  2:{ intros k Hk. simpl. destruct (Hpr2 k Hk) as (ck & _ & Hk'). rewrite Hk'. simpl. eauto. }
  simpl in E3. destruct E3 as (Hlen3 & Hl3 & _).
  (* Remove any progeny with zero parts. *)
  apply bind_Ok in H. destruct H as ([s4 pr4] & E4 & H).
  apply (for_each_pointwise snd
           (fun k o => exists ck, o = Some ck /\
                                  all_cells (split_above (space_splitsize cfg)) ck = true)
           (fun k o => match o with
                       | Some ck => all_cells (split_above (space_splitsize cfg)) ck = true
                       | None => True
                       end)) in E4.
  2:{ intros k [sa pra] st2 Hk Hkl Hb (ck & Hck & Hall). simpl in *.
      rewrite Hck in Hb. simpl in Hb.
      destruct (c_count (cdata ck) =? 0) eqn:E0; inversion Hb; subst; clear Hb; simpl.
      - rewrite length_insert. split; [reflexivity|]. split.
        + rewrite list_lookup_insert_eq by lia. simpl. exact I.
        + intros j Hj. apply list_lookup_insert_ne. congruence.
      - split; [reflexivity|]. split; [|reflexivity]. rewrite Hck. exact Hall. }
  2:{ simpl. lia. }
  2:{ exact Hl3. }
  simpl in E4. destruct E4 as (Hlen4 & Hl4 & _).
  inversion H; subst s' c'; clear H.
  apply all_cells_lookup. split.
  - rewrite Hd2. unfold split_above. subst d2 d1.
    replace (c_count (set_c_split true (set_c_h_max h_max (cdata c))))
      with (c_count (set_c_h_max h_max (cdata c))) by (destruct (cdata c); reflexivity).
    rewrite Ecrit. apply orb_true_r.
  - intros k ck Hk.
    assert (k < 8)%nat as Hk8 by (apply lookup_lt_Some in Hk; lia).
    specialize (Hl4 k Hk8). rewrite Hk in Hl4. exact Hl4.
Qed.

(** After a forced [space_rebuild], every split cell of every tree holds
    more than [space_splitsize] particles. *)
Theorem space_rebuild_forced_split_above cfg cell_split fuel s cell_max s' n :
  space_rebuild cfg cell_split fuel s true cell_max = Ok (s', n) ->
  Forall (fun c => all_cells (split_above (space_splitsize cfg)) c = true) (the_cells s').
Proof.
  intros H. apply space_rebuild_forced in H. destruct H as (h_max & h_min & _ & H).
  cbv zeta in H. destruct H as (_ & _ & _ & _ & _ & _ & _ & H).
  apply H.
  - intros c. rewrite task_free_all_cells; [reflexivity|]. intros d. destruct d; reflexivity.
  - intros s0 c s1 c1 n1 (_ & Hsplit & _) E.
    destruct fuel as [|fuel']; cbn [space_rebuild_recurse] in E; [discriminate|].
    rewrite Hsplit in E.
    apply bind_Ok in E. destruct E as ([s2 c2] & E & E'). inversion E'; subst; clear E'.
    eapply space_split_above, E.
Qed.

Lemma space_rebuild_forced_split_above_witness :
  exists s' n,
    space_rebuild cfg0 cell_split_octants 20 (set_s_dim (1, 1, 1)%Q (space_halves 401)) true 1
    = Ok (s', n) /\
    map (fun c => (c_split (cdata c), c_count (cdata c))) (the_cells s') = [(true, 401)] /\
    Forall (fun c => all_cells (split_above 400) c = true) (the_cells s').
Proof.
  assert (exists s' n,
            space_rebuild cfg0 cell_split_octants 20
              (set_s_dim (1, 1, 1)%Q (space_halves 401)) true 1 = Ok (s', n) /\
            map (fun c => (c_split (cdata c), c_count (cdata c))) (the_cells s')
            = [(true, 401)]) as (s' & n & E & Hl)
    by (eexists; eexists; split; [vm_compute; reflexivity|reflexivity]).
  exists s', n. split; [exact E|]. split; [exact Hl|].
  apply (space_rebuild_forced_split_above _ _ _ _ _ _ _ E).
Defined.
